(* ===== verification/_CoqProject ===== *)
-Q . S2P
Prelude.v
GoInt.v
GoStrings.v
GoPath.v
Base64.v
Pagination.v
StorageFee.v
Merkle.v
Events.v
World.v
StorageManager.v
Providers.v
ChainClient.v
Cache.v
PinHandlers.v
Offsets.v
WorkerPool.v
RepoLocks.v
CacheManager.v
SweepRace.v
BatchTx.v
BatchLoop.v
Hooks.v
Auth.v
Lfs.v
GitHttp.v
Server.v
Challenge.v
Release.v
Merge.v
MergeRaces.v
RepoHandlers.v
PullHandlers.v
Attachments.v
UploadRaces.v
WebServer.v
EndToEnd.v
Startup.v
Commands.v
