(* ===== verification/Prelude.v ===== *)
(** * Verification of gitopia-storage

    gitopia-storage is the storage provider of the Gitopia chain: it serves git
    repositories over HTTP, keeps them as packfiles on IPFS, and follows the events of the
    chain. This library models its Go code (paths are below src/) and proves what makes
    it correct.

    ** How the program is modelled

    - Pure functions return an [outcome] (this file): [Val] is a normal return, [Fail] a
      returned error, [Panic] a run-time panic. 64-bit integers are [Z] with their
      wrap-around ([u64], [i64] of GoInt.v).
    - Functions with effects are programs of the state monad [GoM Trace] (World.v): every
      effect - a query to the chain, a message in the queue, a file operation, a
      subprocess, a header of a response, a lock of utils/cache.go - is a constructor of
      [Call], answered by an environment [Env] that may look at the whole trace so far.
      Theorems quantify over the environment, so that they hold for whatever the chain,
      the disk, git and IPFS answer. [deferring] is defer, [attempt] and [on_error] look
      at an error, [x ⟵ m ifErr bad ; k] is an early return.
    - Code that runs concurrently is a step relation whose steps are single accesses to
      shared memory, or critical sections: RepoLocks, WorkerPool, BatchTx and BatchLoop,
      MergeRaces, SweepRace, UploadRaces; or, in Startup, the ends of the goroutines of the
      process.
    - Go-merkletree, the SDK's decimals, the offchain transactions, JSON parsers and
      go-git are not part of the repository: they are classes with laws ([MerkleTree],
      [SdkMath], [Offchain], [Json]) or calls, and each class has an instance that a
      witness uses.
    - A loop that the code bounds by time or by data of the chain takes [fuel]; running
      out of it is a panic of the model, and a theorem shows how much is enough
      (PollForUpdate_ends, DownloadRepositoryPackfile_terminates).

    ** Parts

    - Prelude, GoInt, GoStrings, GoPath: the monads and their logic (weakest
      preconditions [wp], invariants [preserves], results [ends], absence of panics
      [safe]), integers, package strings and strconv, package path.
    - Pagination (utils/content.go, diff.go, pagination.go): the paginated listings;
      walking a listing by its keys shows every entry once. Also the data of a commit
      (utils/commits.go).
    - StorageFee (utils/storage_fee.go): what added storage costs.
    - Merkle (pkg/merkleproof): chunks, roots and proofs; generated proofs verify.
    - Events (handler/*.go, the Unmarshal functions): decoding the columns of an event.
    - World: the data of the chain, the calls, traces and their invariants ([Guarded],
      [guards], [balanced] locks, [present] files, [only] some calls).
    - StorageManager, Providers (handler/storage, handler/pinata.go): the manager, over
      providers that are calls for the event handlers and over Pinata and Filebase with
      their requests.
    - ChainClient (app/gitopia.go): queries, messages and the polling for a proposal.
    - Cache (utils/cache.go, internal/app/common.go): packfiles, refs, release assets and
      LFS objects are fetched once and kept.
    - PinHandlers (handler/packfileUpdated.go and the other storage events): pin what is
      new, unpin only what nobody refers to any more.
    - Offsets (app/consumer/persistence.go): the offset file of a consumer of events.
    - WorkerPool: the concurrent Handle functions, with events that may never be done.
    - RepoLocks (utils/cache.go): the reference-counted locks.
    - CacheManager (utils/cache_manager.go, config/cache.go): eviction, the routine that
      runs it, and its settings. SweepRace: an eviction beside the requests that lock.
    - BatchTx (app/batch_tx_manager.go): the queue of messages. BatchLoop: the goroutines
      that fill, empty and stop it, and the abstract queue that they refine.
    - Hooks (hooks/): the pre-receive and post-receive hooks.
    - Auth (utils/auth.go, internal/app/auth.go): who may push.
    - Lfs (lfs/, route/lfs/): the LFS store and its HTTP handlers.
    - GitHttp (internal/app/git_http.go, objects.go): the smart HTTP services, and what
      follows a push.
    - Server (internal/app/server.go, utils/server.go): routing and the gate of
      authentication; it composes Auth, Lfs and GitHttp.
    - Challenge, Release, Merge, MergeRaces (handler/challenge.go, release.go,
      mergePullRequest.go, utils/pull.go): the remaining event handlers.
    - Base64: the encoding of encoding/base64 and its round trip.
    - RepoHandlers, PullHandlers (internal/app/handler/*.go, pr/, utils/commits.go, git.go):
      the handlers that show a repository or a pull request; walking a history by its keys
      shows every commit once.
    - Attachments (internal/app/handler/attachment.go): uploads and downloads of the
      attachments of releases, and the map of pending uploads. UploadRaces: uploads that are
      handled at the same time.
    - WebServer (cmd/gitopia-storaged/start.go): the multiplexer that composes the server
      and the request handlers, the subscriptions with their event handlers, and the
      balance that starting asks for.
    - EndToEnd: the handlers that send messages together with the batch manager they share:
      what the chain hears has a reason.
    - Startup (cmd/gitopia-storaged/start.go, debug.go, prod.go; New and Shutdown of
      internal/app/server.go): what the goroutines of the process do, and the process from
      its start to the error that ends it.
    - Commands (cmd/gitopia-storaged/main.go, get_ipfs_cluster_peer_addresses.go): the
      configuration and the command that lists the peers.

    The files that use another part require it: Server calls GitHttp and Lfs, these call
    Auth, Cache and ChainClient, the event handlers call Cache and ChainClient, the
    request handlers call Cache and list with Pagination, those of pull requests share the
    temporary repositories of Merge, and all of them run in the environment of World.
    WebServer is where the requests of all parts come together: its theorem that a request
    releases its locks, and the one that it publishes for accounts that may push only, are
    proved from a lemma per handler. Startup composes the web server, the event clients and
    the managers of the storage providers and of the batches.

    ** What the theorems show

    The properties are the theorems whose comment starts with a claim number C<n>:
    safety of what is written, unpinned and proposed (who pushes, which object, which
    proof), from the handlers to what the chain accepts; all-or-nothing behaviour of pushes
    and uploads, round trips of decoders and proofs, functional specifications of charges,
    permissions, listings, decoded rows and the requests that providers are sent,
    refinements of a ledger by release updates and of an abstract queue by the batch
    manager, exclusion and progress of locks and workers, termination of the loops, and how
    the process and the batch manager end. Defects that modelling showed are stated as
    theorems too (for example query_bypasses_auth, cleanup_breaks_exclusion,
    idle_check_is_not_enough, merge_lock_order, list_commits_answers_twice,
    ipfs_failure_panics, sweep_removes_locked, cleanup_removes_new_file,
    stop_does_not_wait, added_after_end_is_lost).

    ** What is left out

    Logging; closing files, bodies and pipes; the constructors of handlers, which fill in
    structs; the tables of cobra commands and flags, and the commands of the chain's client
    library; what happens inside an event stream (a stream is a call that ends);
    QueryService, whose methods pass a request on; the generated mocks; what the Go runtime
    does to a map that is written to at the same time.
*)

From Stdlib Require Export ZArith Lia Ascii String.
From stdpp Require Export base tactics list gmap fin_maps strings numbers.

#[global] Open Scope Z_scope.

#[global] Arguments String.append !_ _ : simpl nomatch.

(** * Go errors

    An [error] value keeps the chain of messages that [errors.Wrap],
    [errors.WithMessage] and [fmt.Errorf] with the [%w] verb build; [ErrNum] is
    the [*strconv.NumError] of the parsing functions. *)
Inductive error :=
| ErrNew (msg : string)
| ErrNum (fn input : string) (range : bool)
| ErrWrap (msg : string) (e : error).

#[export] Instance error_eq_dec : EqDecision error.
Proof. solve_decision. Defined.

Definition dquote : string := String (Ascii.ascii_of_nat 34) EmptyString.

(** [err.Error()]. *)
Fixpoint Error (e : error) : string :=
  match e with
  | ErrNew msg => msg
  | ErrNum fn input range =>
      "strconv." +:+ fn +:+ ": parsing " +:+ dquote +:+ input +:+ dquote +:+ ": "
        +:+ (if range then "value out of range" else "invalid syntax")
  | ErrWrap msg e => msg +:+ ": " +:+ Error e
  end.

(** The innermost error of a chain, what [errors.Is] compares a sentinel with. *)
Fixpoint Cause (e : error) : error :=
  match e with
  | ErrWrap _ e => Cause e
  | _ => e
  end.

Definition errors_Is (e target : error) : bool := bool_decide (Cause e = target).

(** A Go pair [(A, error)] of which exactly one side is meaningful. *)
Inductive res (A : Type) :=
| Ok (a : A)
| Er (e : error).
Arguments Ok {A} a.
Arguments Er {A} e.

#[export] Instance res_eq_dec {A} `{EqDecision A} : EqDecision (res A).
Proof. solve_decision. Defined.

Definition is_ok {A} (r : res A) : bool := match r with Ok _ => true | Er _ => false end.

(** * The error monad of pure Go functions

    [Val] is a normal return, [Fail] a return with a non-nil error and [Panic] a
    run-time panic (index out of range, slice bounds, nil dereference). *)
Inductive outcome (A : Type) :=
| Val (a : A)
| Fail (e : error)
| Panic (why : string).
Arguments Val {A} a.
Arguments Fail {A} e.
Arguments Panic {A} why.

#[export] Instance outcome_eq_dec {A} `{EqDecision A} : EqDecision (outcome A).
Proof. solve_decision. Defined.

Definition panics {A} (o : outcome A) : bool :=
  match o with Panic _ => true | _ => false end.

#[export] Instance outcome_ret : MRet outcome := @Val.
#[export] Instance outcome_bind : MBind outcome := fun A B f m =>
  match m with
  | Val a => f a
  | Fail e => Fail e
  | Panic s => Panic s
  end.

Definition of_res {A} (r : res A) : outcome A :=
  match r with Ok a => Val a | Er e => Fail e end.

(** [if err != nil { return errors.Wrap(err, msg) }]. *)
Definition wrap {A} (msg : string) (o : outcome A) : outcome A :=
  match o with Fail e => Fail (ErrWrap msg e) | _ => o end.

(** [xs\[i\]] with Go's bounds check. *)
Definition index {A} (xs : list A) (i : nat) : outcome A :=
  match xs !! i with
  | Some x => Val x
  | None => Panic "index out of range"
  end.

(** The Go loop [for _, x := range xs { acc = append(acc, f x) }] with an early
    return on the first error. *)
Fixpoint omap_list {A B} (f : A -> outcome B) (xs : list A) : outcome (list B) :=
  match xs with
  | [] => Val []
  | x :: xs => y ← f x; ys ← omap_list f xs; Val (y :: ys)
  end.

(** * The state monad of effectful Go functions *)
Definition GoM (S A : Type) : Type := S -> outcome A * S.

#[export] Instance GoM_ret S : MRet (GoM S) := fun A a s => (Val a, s).
#[export] Instance GoM_bind S : MBind (GoM S) := fun A B f m s =>
  match m s with
  | (Val a, s') => f a s'
  | (Fail e, s') => (Fail e, s')
  | (Panic p, s') => (Panic p, s')
  end.

Section GoM.
Context {S : Type}.
Implicit Types A B : Type.

Definition fail {A} (e : error) : GoM S A := fun s => (Fail e, s).
Definition gopanic {A} (p : string) : GoM S A := fun s => (Panic p, s).
Definition lift {A} (o : outcome A) : GoM S A := fun s => (o, s).
Definition get : GoM S S := fun s => (Val s, s).
Definition put (s : S) : GoM S unit := fun _ => (Val tt, s).
Definition modify (f : S -> S) : GoM S unit := fun s => (Val tt, f s).

(** Call a function and look at its error instead of returning it. *)
Definition attempt {A} (m : GoM S A) : GoM S (res A) := fun s =>
  match m s with
  | (Val a, s') => (Val (Ok a), s')
  | (Fail e, s') => (Val (Er e), s')
  | (Panic p, s') => (Panic p, s')
  end.

(** Call a function and go on with [bad] if it fails, with [k] if it returns. *)
Definition on_error {A B} (m : GoM S A) (bad : error -> GoM S B) (k : A -> GoM S B) : GoM S B := fun s =>
  match m s with
  | (Val a, s') => k a s'
  | (Fail e, s') => bad e s'
  | (Panic p, s') => (Panic p, s')
  end.

(** [if err != nil { return errors.Wrap(err, msg) }]. *)
Definition wrapM {A} (msg : string) (m : GoM S A) : GoM S A := fun s =>
  match m s with
  | (Fail e, s') => (Fail (ErrWrap msg e), s')
  | os => os
  end.

(** [defer d()]: [d] runs on a return, on an error and on a panic. *)
Definition deferring {A} (d : GoM S unit) (m : GoM S A) : GoM S A := fun s =>
  let '(o, s') := m s in
  let '(_, s'') := d s' in (o, s'').

Definition when (b : bool) (m : GoM S unit) : GoM S unit :=
  if b then m else mret tt.

(** [for _, x := range xs { body }]; an error of the body is an early return. *)
Fixpoint forM_ {A} (xs : list A) (body : A -> GoM S unit) : GoM S unit :=
  match xs with
  | [] => mret tt
  | x :: xs => _ ← body x; forM_ xs body
  end.

(** The same loop with a local variable updated by each iteration. *)
Fixpoint foldM {A B} (body : B -> A -> GoM S B) (xs : list A) (acc : B) : GoM S B :=
  match xs with
  | [] => mret acc
  | x :: xs => acc' ← body acc x; foldM body xs acc'
  end.

(** ** Running a computation *)
Lemma run_bind {A B} (m : GoM S A) (f : A -> GoM S B) s :
  (m ≫= f) s =
    match m s with
    | (Val a, s') => f a s'
    | (Fail e, s') => (Fail e, s')
    | (Panic p, s') => (Panic p, s')
    end.
Proof. done. Qed.

Lemma run_bind_val {A B} (m : GoM S A) (f : A -> GoM S B) s a s' :
  m s = (Val a, s') -> (m ≫= f) s = f a s'.
Proof. intros H. by rewrite run_bind, H. Qed.

Lemma run_lift_bind {A B} (a : A) (f : A -> GoM S B) s : (lift (Val a) ≫= f) s = f a s.
Proof. done. Qed.

(** ** Weakest preconditions *)
Definition wp {A} (m : GoM S A) (Q : outcome A -> S -> Prop) (s : S) : Prop :=
  let '(o, s') := m s in Q o s'.

Lemma wp_ret {A} (a : A) Q s : Q (Val a) s -> wp (mret a) Q s.
Proof. done. Qed.

Lemma wp_fail {A} e (Q : outcome A -> S -> Prop) s : Q (Fail e) s -> wp (fail e) Q s.
Proof. done. Qed.

Lemma wp_lift {A} (o : outcome A) Q s : Q o s -> wp (lift o) Q s.
Proof. done. Qed.

Lemma wp_get Q s : Q (Val s) s -> wp get Q s.
Proof. done. Qed.

Lemma wp_modify f Q s : Q (Val tt) (f s) -> wp (modify f) Q s.
Proof. done. Qed.

Lemma wp_mono {A} (m : GoM S A) (Q Q' : outcome A -> S -> Prop) s :
  wp m Q s -> (forall o s', Q o s' -> Q' o s') -> wp m Q' s.
Proof. unfold wp. destruct (m s). auto. Qed.

(** The outcome a continuation is skipped on. *)
Definition skip_to {A B} (o : outcome A) : option (outcome B) :=
  match o with
  | Val _ => None
  | Fail e => Some (Fail e)
  | Panic p => Some (Panic p)
  end.

Lemma wp_bind {A B} (m : GoM S A) (f : A -> GoM S B) Q s :
  wp m (fun o s' =>
          match o with
          | Val a => wp (f a) Q s'
          | Fail e => Q (Fail e) s'
          | Panic p => Q (Panic p) s'
          end) s ->
  wp (mbind f m) Q s.
Proof.
  unfold wp, mbind, GoM_bind. destruct (m s) as [[a|e|p] s']; auto.
Qed.

Lemma wp_attempt {A} (m : GoM S A) Q s :
  wp m (fun o s' =>
          match o with
          | Val a => Q (Val (Ok a)) s'
          | Fail e => Q (Val (Er e)) s'
          | Panic p => Q (Panic p) s'
          end) s ->
  wp (attempt m) Q s.
Proof. unfold wp, attempt. destruct (m s) as [[a|e|p] s']; auto. Qed.

Lemma wp_on_error {A B} (m : GoM S A) bad (k : A -> GoM S B) Q s :
  wp m (fun o s' =>
          match o with
          | Val a => wp (k a) Q s'
          | Fail e => wp (bad e) Q s'
          | Panic p => Q (Panic p) s'
          end) s ->
  wp (on_error m bad k) Q s.
Proof. unfold wp, on_error. destruct (m s) as [[a|e|p] s']; auto. Qed.

Lemma wp_wrapM {A} msg (m : GoM S A) Q s :
  wp m (fun o s' =>
          match o with
          | Fail e => Q (Fail (ErrWrap msg e)) s'
          | o => Q o s'
          end) s ->
  wp (wrapM msg m) Q s.
Proof. unfold wp, wrapM. destruct (m s) as [[a|e|p] s']; auto. Qed.

Lemma wp_deferring {A} d (m : GoM S A) Q s :
  wp m (fun o s' => wp d (fun _ s'' => Q o s'') s') s ->
  wp (deferring d m) Q s.
Proof. unfold wp, deferring. destruct (m s) as [o s']. by destruct (d s'). Qed.

Lemma wp_when (b : bool) m Q s :
  (b = true -> wp m Q s) -> (b = false -> Q (Val tt) s) -> wp (when b m) Q s.
Proof. intros Ht Hf. destruct b; [by apply Ht|]. by apply wp_ret, Hf. Qed.

(** A loop keeps an invariant that every iteration keeps. *)
Lemma wp_forM {A} (xs : list A) body (I : S -> Prop) Q s :
  I s ->
  (forall x s', x ∈ xs -> I s' ->
     wp (body x) (fun o s'' => match o with Val _ => I s'' | _ => Q (match o with Fail e => Fail e | Panic p => Panic p | Val u => Val u end) s'' end) s') ->
  (forall s', I s' -> Q (Val tt) s') ->
  wp (forM_ xs body) Q s.
Proof.
  revert s. induction xs as [|x xs IH]; intros s HI Hbody Hend; simpl.
  { by apply wp_ret, Hend. }
  apply wp_bind. eapply wp_mono; [apply Hbody; [set_solver|done]|].
  intros [u|e|p] s' HQ; simpl in HQ; auto.
  apply IH; auto. intros y s'' Hy. apply Hbody. set_solver.
Qed.

(** ** Invariants of an effectful computation *)
Definition preserves {A} (I : S -> Prop) (m : GoM S A) : Prop :=
  forall s, I s -> I (m s).2.

Lemma preserves_wp {A} I (m : GoM S A) :
  (forall s, I s -> wp m (fun _ s' => I s') s) -> preserves I m.
Proof. intros H s HI. specialize (H s HI). unfold wp in H. by destruct (m s). Qed.

Lemma wp_preserves {A} I (m : GoM S A) s :
  preserves I m -> I s -> wp m (fun _ s' => I s') s.
Proof. intros H HI. specialize (H s HI). unfold wp. by destruct (m s). Qed.

Lemma preserves_ret {A} I (a : A) : preserves I (mret a).
Proof. by intros s HI. Qed.

Lemma preserves_fail {A} I e : preserves I (@fail A e).
Proof. by intros s HI. Qed.

Lemma preserves_lift {A} I (o : outcome A) : preserves I (lift o).
Proof. by intros s HI. Qed.

Lemma preserves_get I : preserves I get.
Proof. by intros s HI. Qed.

Lemma preserves_bind {A B} I (m : GoM S A) (f : A -> GoM S B) :
  preserves I m -> (forall a, preserves I (f a)) -> preserves I (mbind f m).
Proof.
  intros Hm Hf s HI. unfold mbind, GoM_bind. specialize (Hm s HI).
  destruct (m s) as [[a|e|p] s']; simpl in *; auto. by apply Hf.
Qed.

Lemma preserves_attempt {A} I (m : GoM S A) :
  preserves I m -> preserves I (attempt m).
Proof.
  intros Hm s HI. specialize (Hm s HI). unfold attempt.
  by destruct (m s) as [[a|e|p] s'].
Qed.

Lemma preserves_on_error {A B} I (m : GoM S A) bad (k : A -> GoM S B) :
  preserves I m -> (forall e, preserves I (bad e)) -> (forall a, preserves I (k a)) ->
  preserves I (on_error m bad k).
Proof.
  intros Hm Hb Hk s HI. specialize (Hm s HI). unfold on_error.
  destruct (m s) as [[a|e|p] s']; simpl in *; auto; by apply Hb || by apply Hk.
Qed.

Lemma preserves_wrapM {A} I msg (m : GoM S A) :
  preserves I m -> preserves I (wrapM msg m).
Proof.
  intros Hm s HI. specialize (Hm s HI). unfold wrapM.
  by destruct (m s) as [[a|e|p] s'].
Qed.

Lemma preserves_deferring {A} I d (m : GoM S A) :
  preserves I d -> preserves I m -> preserves I (deferring d m).
Proof.
  intros Hd Hm s HI. specialize (Hm s HI). unfold deferring.
  destruct (m s) as [o s']; simpl in *. specialize (Hd s' Hm).
  by destruct (d s').
Qed.

Lemma preserves_when I b m : preserves I m -> preserves I (when b m).
Proof. intros Hm. destruct b; [done|]. apply preserves_ret. Qed.

Lemma preserves_forM {A} I (xs : list A) body :
  (forall x, x ∈ xs -> preserves I (body x)) -> preserves I (forM_ xs body).
Proof.
  induction xs as [|x xs IH]; intros Hb; simpl; [apply preserves_ret|].
  apply preserves_bind; [apply Hb; set_solver|].
  intros _. apply IH. intros y Hy. apply Hb. set_solver.
Qed.

Lemma preserves_foldM {A B} I (body : B -> A -> GoM S B) xs acc :
  (forall b x, x ∈ xs -> preserves I (body b x)) -> preserves I (foldM body xs acc).
Proof.
  revert acc. induction xs as [|x xs IH]; intros acc Hb; simpl; [apply preserves_ret|].
  apply preserves_bind; [apply Hb; set_solver|].
  intros acc'. apply IH. intros b y Hy. apply Hb. set_solver.
Qed.
End GoM.

Notation "x ⟵ m 'ifErr' bad ; k" := (on_error m (fun _ => bad) (fun x => k))
  (at level 20, m at level 100, bad at level 100, k at level 200, right associativity).

Create HintDb go discriminated.
#[export] Hint Resolve preserves_ret preserves_fail preserves_lift preserves_get
  preserves_attempt preserves_wrapM preserves_deferring preserves_when : go.

(** Walk through an effectful function, one rule per construct. *)
Ltac preserve :=
  repeat first
    [ progress intros
    | apply preserves_ret | apply preserves_fail | apply preserves_lift
    | apply preserves_get
    | apply preserves_attempt | apply preserves_wrapM | apply preserves_when
    | apply preserves_deferring | apply preserves_on_error
    | apply preserves_bind
    | apply preserves_forM
    | apply preserves_foldM
    | match goal with
      | |- preserves _ (match ?x with _ => _ end) => destruct x
      | |- preserves _ (if ?x then _ else _) => destruct x
      end
    | solve [auto with go] ].

Ltac wp_step :=
  first
    [ apply wp_bind | apply wp_ret | apply wp_fail | apply wp_lift | apply wp_get
    | apply wp_attempt | apply wp_wrapM | apply wp_deferring | apply wp_modify | apply wp_on_error ].

(** ** Absence of panics of an effectful computation *)
Section Safe.
Context {S : Type}.
Implicit Types A B : Type.

Definition safe {A} (m : GoM S A) : Prop := forall s, panics (fst (m s)) = false.

Lemma safe_ret {A} (a : A) : safe (mret a).
Proof. done. Qed.

Lemma safe_fail {A} e : safe (@fail S A e).
Proof. done. Qed.

Lemma safe_lift {A} (o : outcome A) : panics o = false -> safe (lift o).
Proof. by intros H s. Qed.

(** The continuation may use that its argument was returned. *)
Lemma safe_bind_val {A B} (m : GoM S A) (f : A -> GoM S B) :
  safe m -> (forall s a s', m s = (Val a, s') -> safe (f a)) -> safe (mbind f m).
Proof.
  intros Hm Hf s. rewrite run_bind. specialize (Hm s).
  destruct (m s) as [[a|e|p] s'] eqn:E; [|done|done]. by apply (Hf _ _ _ E).
Qed.

Lemma safe_bind {A B} (m : GoM S A) (f : A -> GoM S B) :
  safe m -> (forall a, safe (f a)) -> safe (mbind f m).
Proof. intros Hm Hf. apply safe_bind_val; auto. Qed.

Lemma safe_attempt {A} (m : GoM S A) : safe m -> safe (attempt m).
Proof. intros H s. specialize (H s). unfold attempt. by destruct (m s) as [[a|e|p] s']. Qed.

Lemma safe_on_error {A B} (m : GoM S A) bad (k : A -> GoM S B) :
  safe m -> (forall e, safe (bad e)) -> (forall a, safe (k a)) -> safe (on_error m bad k).
Proof.
  intros Hm Hb Hk s. specialize (Hm s). unfold on_error.
  destruct (m s) as [[a|e|p] s']; [apply Hk|apply Hb|done].
Qed.

Lemma safe_wrapM {A} msg (m : GoM S A) : safe m -> safe (wrapM msg m).
Proof. intros H s. specialize (H s). unfold wrapM. by destruct (m s) as [[a|e|p] s']. Qed.

Lemma safe_deferring {A} d (m : GoM S A) : safe m -> safe (deferring d m).
Proof.
  intros H s. specialize (H s). unfold deferring. destruct (m s) as [o s'].
  by destruct (d s').
Qed.

Lemma safe_when b (m : GoM S unit) : safe m -> safe (when b m).
Proof. by destruct b. Qed.

Lemma safe_forM {A} (xs : list A) (body : A -> GoM S unit) :
  (forall x, x ∈ xs -> safe (body x)) -> safe (forM_ xs body).
Proof.
  induction xs as [|x xs IH]; intros H; [done|]. simpl.
  apply safe_bind; [apply H; set_solver|]. intros _. apply IH. intros y Hy. apply H. set_solver.
Qed.

Lemma safe_foldM {A B} (body : B -> A -> GoM S B) xs acc :
  (forall b x, x ∈ xs -> safe (body b x)) -> safe (foldM body xs acc).
Proof.
  revert acc. induction xs as [|x xs IH]; intros acc H; [done|]. simpl.
  apply safe_bind; [apply H; set_solver|]. intros b. apply IH. intros c y Hy. apply H. set_solver.
Qed.
End Safe.

(** Walk through an effectful function; hypotheses and the database [go] settle the
    calls. *)
Ltac safe_step :=
  repeat first
    [ progress intros
    | solve [auto with go]
    | apply safe_ret | apply safe_fail | apply safe_attempt | apply safe_wrapM | apply safe_when
    | apply safe_deferring | apply safe_bind | apply safe_on_error | apply safe_forM | apply safe_foldM
    | match goal with
      | |- safe (match ?x with _ => _ end) => destruct x
      | |- safe (if ?x then _ else _) => destruct x
      end ].

(** ** What holds when a computation returns normally *)
Section Ends.
Context {S : Type}.
Implicit Types A B : Type.

Definition ends {A} (m : GoM S A) (s : S) (Q : A -> S -> Prop) : Prop :=
  forall a s', m s = (Val a, s') -> Q a s'.

Lemma ends_mono {A} (m : GoM S A) s (Q Q' : A -> S -> Prop) :
  ends m s Q -> (forall a s', Q a s' -> Q' a s') -> ends m s Q'.
Proof. intros H HQ a s' E. by apply HQ, H. Qed.

Lemma ends_any {A} (m : GoM S A) s : ends m s (fun _ _ => True).
Proof. done. Qed.

Lemma ends_ret {A} (a : A) s (Q : A -> S -> Prop) : Q a s -> ends (mret a) s Q.
Proof. by intros H ? ? [= <- <-]. Qed.

Lemma ends_fail {A} e s (Q : A -> S -> Prop) : ends (fail e) s Q.
Proof. done. Qed.

Lemma ends_on_error {A B} (m : GoM S A) bad (k : A -> GoM S B) s Q :
  ends m s (fun a s' => ends (k a) s' Q) -> (forall e s', m s = (Fail e, s') -> ends (bad e) s' Q) ->
  ends (on_error m bad k) s Q.
Proof.
  intros Hk Hb b s'. unfold on_error. destruct (m s) as [[a|e|p] s1] eqn:E; [|by apply Hb|done].
  by apply Hk.
Qed.

Lemma ends_lift {A} (o : outcome A) s (Q : A -> S -> Prop) :
  (forall a, o = Val a -> Q a s) -> ends (lift o) s Q.
Proof. intros H a s' [= -> <-]. by apply H. Qed.

Lemma ends_bind {A B} (m : GoM S A) (f : A -> GoM S B) s Q :
  ends m s (fun a s' => ends (f a) s' Q) -> ends (mbind f m) s Q.
Proof.
  intros H b s'. rewrite run_bind. destruct (m s) as [[a|e|p] s1] eqn:E; [|done|done].
  apply (H a s1 E).
Qed.

(** The first computation does not matter. *)
Lemma ends_skip {A B} (m : GoM S A) (f : A -> GoM S B) s Q :
  (forall a s', ends (f a) s' Q) -> ends (mbind f m) s Q.
Proof. intros H. apply ends_bind. intros a s' _. apply H. Qed.

(** The first computation keeps what holds. *)
Lemma ends_keep {A B} (m : GoM S A) (f : A -> GoM S B) (I : S -> Prop) s Q :
  preserves I m -> I s -> (forall a s', I s' -> ends (f a) s' Q) -> ends (mbind f m) s Q.
Proof.
  intros Hm Hs H. apply ends_bind. intros a s' E. apply H. specialize (Hm s Hs). by rewrite E in Hm.
Qed.

Lemma ends_preserves {A} (m : GoM S A) I s : preserves I m -> I s -> ends m s (fun _ s' => I s').
Proof. intros Hm Hs a s' E. specialize (Hm s Hs). by rewrite E in Hm. Qed.

Lemma ends_wrapM {A} msg (m : GoM S A) s Q : ends m s Q -> ends (wrapM msg m) s Q.
Proof. intros H a s'. unfold wrapM. destruct (m s) as [[b|e|p] s1] eqn:E; [|done|done]. intros [= <- <-]. by apply H. Qed.

Lemma ends_deferring {A} d (m : GoM S A) I s :
  preserves I d -> ends m s (fun _ s' => I s') -> ends (deferring d m) s (fun _ s' => I s').
Proof.
  intros Hd H a s'. unfold deferring. destruct (m s) as [o s1] eqn:E.
  destruct (d s1) as [o2 s2] eqn:Ed. intros [= -> ->]. specialize (H a s1 E).
  specialize (Hd s1 H). by rewrite Ed in Hd.
Qed.

Lemma ends_when b (m : GoM S unit) s (Q : unit -> S -> Prop) :
  (b = true -> ends m s Q) -> (b = false -> Q tt s) -> ends (when b m) s Q.
Proof. intros Ht Hf. destruct b; [by apply Ht|]. by apply ends_ret, Hf. Qed.
End Ends.

(** The continuation starts where the first computation returned. *)
Lemma preserves_on_error_ends {S A B} (I : S -> Prop) (m : GoM S A) bad (k : A -> GoM S B)
    (Q : A -> S -> Prop) :
  preserves I m -> (forall s, I s -> ends m s Q) -> (forall e, preserves I (bad e)) ->
  (forall a s, I s -> Q a s -> I (k a s).2) -> preserves I (on_error m bad k).
Proof.
  intros Hm He Hb Hk s HI. pose proof (Hm s HI) as Hm'. specialize (He s HI). unfold on_error.
  destruct (m s) as [[a|e|p] s'] eqn:E; simpl in *; [|by apply Hb|done]. by apply Hk, He.
Qed.

Lemma preserves_on_error_lift {S A B} (I : S -> Prop) (o : outcome A) bad (k : A -> GoM S B) :
  (forall e, preserves I (bad e)) -> (forall a, o = Val a -> preserves I (k a)) ->
  preserves I (on_error (lift o) bad k).
Proof. intros Hb Hk s HI. unfold on_error, lift. destruct o as [a|e|p]; [by apply Hk|by apply Hb|done]. Qed.

(** Evaluate the [bool_decide] of linear arithmetic that the context settles. *)
Ltac eval_bool_decide :=
  repeat match goal with
  | |- context[bool_decide ?P] =>
      first [rewrite (bool_decide_eq_true_2 P) by lia
            |rewrite (bool_decide_eq_false_2 P) by lia]
  end.

(** * Absence of panics in the pure monad *)
Lemma panics_bind {A B} (m : outcome A) (f : A -> outcome B) :
  panics m = false -> (forall a, m = Val a -> panics (f a) = false) -> panics (m ≫= f) = false.
Proof. destruct m; simpl; auto. Qed.

Lemma panics_wrap {A} msg (o : outcome A) : panics (wrap msg o) = panics o.
Proof. by destruct o. Qed.

Lemma panics_of_res {A} (r : res A) : panics (of_res r) = false.
Proof. by destruct r. Qed.

Lemma panics_index {A} (xs : list A) i : (i < length xs)%nat -> panics (index xs i) = false.
Proof. intros H. unfold index. destruct (lookup_lt_is_Some_2 xs i H) as (x & ->). done. Qed.

Lemma panics_omap_list {A B} (f : A -> outcome B) xs :
  (forall x, x ∈ xs -> panics (f x) = false) -> panics (omap_list f xs) = false.
Proof.
  induction xs as [|x xs IH]; intros H; simpl; [done|].
  apply panics_bind; [apply H; set_solver|]. intros y _.
  apply panics_bind; [apply IH; set_solver|]. done.
Qed.

Lemma omap_list_map {A B} (f : A -> outcome B) (g : A -> B) xs :
  (forall x, x ∈ xs -> f x = Val (g x)) -> omap_list f xs = Val (map g xs).
Proof.
  induction xs as [|x xs IH]; intros H; simpl; [done|].
  rewrite H by set_solver. simpl. by rewrite IH by set_solver.
Qed.

Lemma omap_list_length {A B} (f : A -> outcome B) xs ys :
  omap_list f xs = Val ys -> length ys = length xs.
Proof.
  revert ys. induction xs as [|x xs IH]; intros ys; simpl; [by intros [= <-]|].
  destruct (f x); simpl; [|done|done].
  destruct (omap_list f xs); simpl; [|done|done].
  intros [= <-]. simpl. by rewrite (IH a0).
Qed.

Create HintDb nopanic discriminated.
#[export] Hint Resolve panics_of_res : nopanic.

(** Reduce the absence of panics to that of the parts. *)
Ltac no_panic :=
  repeat first
    [ progress intros
    | apply panics_bind
    | rewrite panics_wrap
    | apply panics_of_res
    | solve [auto with nopanic]
    | match goal with
      | |- panics (match ?x with _ => _ end) = false => destruct x eqn:?
      | |- panics (Val _) = false => reflexivity
      | |- panics (Fail _) = false => reflexivity
      end ].
