(* ===== verification/GoInt.v ===== *)
(** Machine integers, bytes and the [float64] conversions the program performs.

    A [uint64] or an [int64] is a [Z] in its range; the operations that can leave
    the range are followed by the explicit wrap-around [u64] or [i64].  A byte is a
    [Z] in [0, 256). *)

From S2P Require Import Prelude.

Definition MaxUint64 : Z := 2 ^ 64 - 1.

Definition is_u64 (x : Z) : Prop := 0 <= x < 2 ^ 64.
Definition is_i64 (x : Z) : Prop := - 2 ^ 63 <= x < 2 ^ 63.
Definition is_byte (x : Z) : Prop := 0 <= x < 256.

#[export] Instance is_u64_dec x : Decision (is_u64 x).
Proof. unfold is_u64. apply _. Defined.
#[export] Instance is_i64_dec x : Decision (is_i64 x).
Proof. unfold is_i64. apply _. Defined.

(** The conversions [uint64(x)] and [int64(x)]. *)
Definition u64 (x : Z) : Z := x mod 2 ^ 64.
Definition i64 (x : Z) : Z := (x + 2 ^ 63) mod 2 ^ 64 - 2 ^ 63.

Lemma u64_range x : is_u64 (u64 x).
Proof. unfold u64, is_u64. apply Z.mod_pos_bound. lia. Qed.

Lemma i64_range x : is_i64 (i64 x).
Proof.
  unfold i64, is_i64. pose proof (Z.mod_pos_bound (x + 2 ^ 63) (2 ^ 64)). lia.
Qed.

Lemma u64_id x : is_u64 x -> u64 x = x.
Proof. unfold u64, is_u64. intros. by apply Z.mod_small. Qed.

Lemma i64_id x : is_i64 x -> i64 x = x.
Proof. unfold i64, is_i64. intros. rewrite Z.mod_small; lia. Qed.

Lemma u64_u64_add x y : u64 (x + u64 y) = u64 (x + y).
Proof. unfold u64. by rewrite Zplus_mod_idemp_r. Qed.

(** Adding a negative delta that was converted with [uint64] subtracts. *)
Lemma u64_add_neg x d : is_u64 (x + d) -> u64 (x + u64 d) = x + d.
Proof. intros. rewrite u64_u64_add. by apply u64_id. Qed.

#[export] Hint Resolve u64_range i64_range : go.

(** [float64(x)] of an unsigned 64-bit [x]: the nearest integer with a 53-bit
    significand, ties to even.  Every such value is an integer. *)
Definition float64 (x : Z) : Z :=
  if decide (x < 2 ^ 53) then x
  else
    let e := Z.log2 x - 52 in
    let q := x / 2 ^ e in
    let r := x mod 2 ^ e in
    let half := 2 ^ (e - 1) in
    let q' := if decide (half < r) then q + 1
              else if decide (r = half) then (if Z.even q then q else q + 1)
              else q in
    q' * 2 ^ e.

Lemma float64_exact x : 0 <= x < 2 ^ 53 -> float64 x = x.
Proof. intros. unfold float64. rewrite decide_True; [done|lia]. Qed.

(** [int64(float64(x) / 2^k)]: dividing a float by a power of two is exact, and the
    conversion truncates. *)
Definition float64_shift (x k : Z) : Z := float64 x / 2 ^ k.

(** * Big-endian encoding (encoding/binary) *)
Definition byte (x : Z) : Z := x mod 256.

Lemma byte_range x : is_byte (byte x).
Proof. unfold byte, is_byte. apply Z.mod_pos_bound. lia. Qed.

Lemma byte_testbit x m :
  Z.testbit (byte x) m = (bool_decide (0 <= m < 8) && Z.testbit x m)%bool.
Proof.
  unfold byte. change 256 with (2 ^ 8).
  case_bool_decide as H; simpl.
  - apply Z.mod_pow2_bits_low. lia.
  - destruct (decide (m < 0)); [by apply Z.testbit_neg_r|].
    apply Z.mod_pow2_bits_high. lia.
Qed.

Lemma u64_testbit x m :
  is_u64 x -> Z.testbit x m = (bool_decide (0 <= m < 64) && Z.testbit x m)%bool.
Proof.
  intros Hx. case_bool_decide as H; simpl; [done|].
  destruct (decide (m < 0)); [by apply Z.testbit_neg_r|].
  rewrite <- (u64_id x Hx). unfold u64. apply Z.mod_pow2_bits_high. lia.
Qed.

Definition PutUint64 (v : Z) : list Z :=
  [byte (Z.shiftr v 56); byte (Z.shiftr v 48); byte (Z.shiftr v 40);
   byte (Z.shiftr v 32); byte (Z.shiftr v 24); byte (Z.shiftr v 16);
   byte (Z.shiftr v 8); byte v].

(** [binary.BigEndian.Uint64] panics on a slice shorter than 8 and ignores what
    follows the first 8 bytes. *)
Definition Uint64 (b : list Z) : outcome Z :=
  match b with
  | b0 :: b1 :: b2 :: b3 :: b4 :: b5 :: b6 :: b7 :: _ =>
      Val (Z.lor b7 (Z.lor (Z.shiftl b6 8) (Z.lor (Z.shiftl b5 16)
        (Z.lor (Z.shiftl b4 24) (Z.lor (Z.shiftl b3 32) (Z.lor (Z.shiftl b2 40)
        (Z.lor (Z.shiftl b1 48) (Z.shiftl b0 56))))))))
  | _ => Panic "index out of range"
  end.

Lemma Uint64_PutUint64 v rest : is_u64 v -> Uint64 (PutUint64 v ++ rest) = Val v.
Proof.
  intros Hv. unfold PutUint64, Uint64. simpl. f_equal. apply Z.bits_inj'. intros n Hn.
  rewrite !Z.lor_spec, !Z.shiftl_spec, !byte_testbit by lia.
  rewrite (u64_testbit v n Hv).
  assert (n < 8 \/ 8 <= n < 16 \/ 16 <= n < 24 \/ 24 <= n < 32 \/ 32 <= n < 40
          \/ 40 <= n < 48 \/ 48 <= n < 56 \/ 56 <= n < 64 \/ 64 <= n) as Hc by lia.
  repeat (destruct Hc as [Hc|Hc]); eval_bool_decide;
    simpl; rewrite ?orb_false_r; rewrite ?Z.shiftr_spec by lia; f_equal; lia.
Qed.

Lemma PutUint64_length v : length (PutUint64 v) = 8%nat.
Proof. done. Qed.
