(* ===== verification/GoStrings.v ===== *)
(** The functions of Go's [strings], [strconv], [path] and [filepath] packages the
    program calls.  A Go string is a byte sequence, which is what [string] is. *)

From S2P Require Import Prelude GoInt.

#[local] Open Scope string_scope.

Abbreviation slen := String.length.

(** * Slices of strings *)
Fixpoint sdrop (n : nat) (s : string) : string :=
  match n, s with
  | O, _ => s
  | S n, String _ s => sdrop n s
  | S _, EmptyString => EmptyString
  end.

Fixpoint stake (n : nat) (s : string) : string :=
  match n, s with
  | S n, String c s => String c (stake n s)
  | _, _ => EmptyString
  end.

Fixpoint has_char (c : ascii) (s : string) : bool :=
  match s with
  | EmptyString => false
  | String d s => Ascii.eqb c d || has_char c s
  end.

(** * Package strings *)
Definition HasPrefix (s p : string) : bool := String.prefix p s.

Definition HasSuffix (s suf : string) : bool :=
  Nat.leb (slen suf) (slen s) && String.eqb (sdrop (slen s - slen suf) s) suf.

Definition TrimPrefix (s p : string) : string :=
  if HasPrefix s p then sdrop (slen p) s else s.

Definition TrimSuffix (s suf : string) : string :=
  if HasSuffix s suf then stake (slen s - slen suf) s else s.

(** [strings.Index]: the first position of [sub] in [s]. *)
Fixpoint Index (s sub : string) : option nat :=
  if String.prefix sub s then Some O
  else match s with
       | EmptyString => None
       | String _ s => option_map S (Index s sub)
       end.

Definition Contains (s sub : string) : bool := bool_decide (is_Some (Index s sub)).

(** [strings.LastIndex] for a one-byte separator. *)
Fixpoint LastIndexByte (s : string) (c : ascii) : option nat :=
  match s with
  | EmptyString => None
  | String d s =>
      match LastIndexByte s c with
      | Some i => Some (S i)
      | None => if Ascii.eqb c d then Some O else None
      end
  end.

(** [strings.Replace(s, old, new, 1)]. *)
Definition ReplaceOnce (s old new : string) : string :=
  match Index s old with
  | Some i => stake i s +:+ new +:+ sdrop (i + slen old) s
  | None => s
  end.

(** [strings.Cut(s, sep)]; the result's second component is the part after [sep]. *)
Definition Cut (s sep : string) : string * string * bool :=
  match Index s sep with
  | Some i => (stake i s, sdrop (i + slen sep) s, true)
  | None => (s, EmptyString, false)
  end.

(** [strings.Split(s, sep)] for a non-empty [sep]; [skip] counts the bytes of a
    separator still to be consumed. *)
Fixpoint split_go (sep s : string) (skip : nat) : list string :=
  match s with
  | EmptyString => [EmptyString]
  | String c s' =>
      match skip with
      | S k => split_go sep s' k
      | O =>
          if String.prefix sep s then EmptyString :: split_go sep s' (slen sep - 1)
          else match split_go sep s' O with
               | h :: t => String c h :: t
               | [] => []
               end
      end
  end.
Definition Split (s sep : string) : list string := split_go sep s O.

(** [strings.SplitN(s, sep, n)] for [n > 0]: at most [n] parts. *)
Fixpoint SplitN (s sep : string) (n : nat) : list string :=
  match n with
  | O | S O => [s]
  | S n =>
      match Index s sep with
      | Some i => stake i s :: SplitN (sdrop (i + slen sep) s) sep n
      | None => [s]
      end
  end.

Fixpoint Join (xs : list string) (sep : string) : string :=
  match xs with
  | [] => EmptyString
  | [x] => x
  | x :: xs => x +:+ sep +:+ Join xs sep
  end.

Definition is_space (c : ascii) : bool :=
  let n := Ascii.nat_of_ascii c in
  Nat.eqb n 32 || (Nat.leb 9 n && Nat.leb n 13).

Fixpoint trim_left (p : ascii -> bool) (s : string) : string :=
  match s with
  | String c s' => if p c then trim_left p s' else s
  | EmptyString => EmptyString
  end.

Fixpoint trim_right (p : ascii -> bool) (s : string) : string :=
  match s with
  | EmptyString => EmptyString
  | String c s' =>
      match trim_right p s' with
      | EmptyString => if p c then EmptyString else String c EmptyString
      | t => String c t
      end
  end.

(** [strings.TrimSpace] (on ASCII white space) and [strings.Trim]. *)
Definition TrimSpace (s : string) : string := trim_right is_space (trim_left is_space s).
Definition Trim (s : string) (c : ascii) : string :=
  trim_right (Ascii.eqb c) (trim_left (Ascii.eqb c) s).

(** [strings.Fields]. *)
Fixpoint fields_go (s cur : string) : list string :=
  match s with
  | EmptyString => if String.eqb cur EmptyString then [] else [cur]
  | String c s' =>
      if is_space c
      then (if String.eqb cur EmptyString then [] else [cur]) ++ fields_go s' EmptyString
      else fields_go s' (cur +:+ String c EmptyString)
  end%list.
Definition Fields (s : string) : list string := fields_go s EmptyString.

Definition lower_ascii (c : ascii) : ascii :=
  let n := Ascii.nat_of_ascii c in
  if Nat.leb 65 n && Nat.leb n 90 then Ascii.ascii_of_nat (n + 32) else c.
Fixpoint ToLower (s : string) : string :=
  match s with
  | EmptyString => EmptyString
  | String c s => String (lower_ascii c) (ToLower s)
  end.

(** * Package strconv *)
Definition digit_val (c : ascii) : option Z :=
  let n := Z.of_nat (Ascii.nat_of_ascii c) in
  if bool_decide (48 <= n <= 57) then Some (n - 48) else None.

Definition cutoff : Z := MaxUint64 / 10 + 1.

(** The digit loop of [strconv.ParseUint(s, 10, 64)]. *)
Fixpoint parse_go (n : Z) (s : string) (s0 : string) : res Z :=
  match s with
  | EmptyString => Ok n
  | String c s =>
      match digit_val c with
      | None => Er (ErrNum "ParseUint" s0 false)
      | Some d =>
          if decide (cutoff <= n) then Er (ErrNum "ParseUint" s0 true)
          else if decide (MaxUint64 < n * 10 + d) then Er (ErrNum "ParseUint" s0 true)
          else parse_go (n * 10 + d) s s0
      end
  end.
Definition ParseUint (s : string) : res Z :=
  if String.eqb s EmptyString then Er (ErrNum "ParseUint" s false) else parse_go 0 s s.

Definition ParseBool (s : string) : res bool :=
  if bool_decide (s ∈ ["1"; "t"; "T"; "true"; "TRUE"; "True"]) then Ok true
  else if bool_decide (s ∈ ["0"; "f"; "F"; "false"; "FALSE"; "False"]) then Ok false
  else Er (ErrNum "ParseBool" s false).

Definition digit_char (base d : Z) : ascii :=
  Ascii.ascii_of_nat (Z.to_nat (if decide (d < 10) then 48 + d else 87 + d)).

(** Digits of [n], at most [fuel] of them, in front of [acc]. *)
Fixpoint digits_go (base : Z) (fuel : nat) (n : Z) (acc : string) : string :=
  match fuel with
  | O => acc
  | S fuel =>
      let acc := String (digit_char base (n mod base)) acc in
      if decide (n / base = 0) then acc else digits_go base fuel (n / base) acc
  end.

(** The verb [%d] on a [uint64]: 20 digits are enough for 2^64 - 1. *)
Definition FormatUint (n : Z) : string := digits_go 10 20 n EmptyString.
Definition FormatInt (n : Z) : string :=
  if decide (n < 0) then String "-" (FormatUint (- n)) else FormatUint n.

(** * Packages path and filepath (Unix) *)
Fixpoint clean_go (rooted : bool) (elems : list string) (stack : list string) : list string :=
  match elems with
  | [] => rev stack
  | e :: elems =>
      if String.eqb e EmptyString || String.eqb e "." then clean_go rooted elems stack
      else if String.eqb e ".." then
        match stack with
        | top :: stack' =>
            if String.eqb top ".." then clean_go rooted elems (".." :: stack)
            else clean_go rooted elems stack'
        | [] => clean_go rooted elems (if rooted then [] else [".."])
        end
      else clean_go rooted elems (e :: stack)
  end.
Definition Clean (p : string) : string :=
  let rooted := HasPrefix p "/" in
  let body := Join (clean_go rooted (Split p "/") []) "/" in
  if rooted then "/" +:+ body
  else if String.eqb body EmptyString then "." else body.

(** [filepath.Join]: the empty elements are ignored. *)
Definition PathJoin (elems : list string) : string :=
  match filter (fun e => e <> EmptyString) elems with
  | [] => EmptyString
  | es => Clean (Join es "/")
  end.

Definition Base (p : string) : string :=
  if String.eqb p EmptyString then "."
  else
    let p := trim_right (Ascii.eqb "/") p in
    if String.eqb p EmptyString then "/"
    else match LastIndexByte p "/" with
         | Some i => sdrop (S i) p
         | None => p
         end.

Definition Dir (p : string) : string :=
  match LastIndexByte p "/" with
  | Some i => Clean (stake (S i) p)
  | None => "."
  end.

(** * Lemmas on slices, prefixes and suffixes *)
Lemma sapp_nil_r s : s +:+ EmptyString = s.
Proof. induction s; simpl; congruence. Qed.

Lemma sapp_assoc a b c : (a +:+ b) +:+ c = a +:+ b +:+ c.
Proof. induction a; simpl; congruence. Qed.

Lemma sapp_inj_l a b c : a +:+ b = a +:+ c -> b = c.
Proof. induction a; simpl; [done|]. intros [= H]. auto. Qed.

Lemma slen_app a b : slen (a +:+ b) = (slen a + slen b)%nat.
Proof. induction a; simpl; congruence. Qed.

Lemma sdrop_app a b : sdrop (slen a) (a +:+ b) = b.
Proof. induction a; simpl; auto. Qed.

Lemma stake_app a b : stake (slen a) (a +:+ b) = a.
Proof. induction a; simpl; [by destruct b|congruence]. Qed.

Lemma stake_sdrop n s : stake n s +:+ sdrop n s = s.
Proof. revert s. induction n; destruct s; simpl; congruence. Qed.

Lemma prefix_app p s : String.prefix p (p +:+ s) = true.
Proof.
  induction p as [|c p IH]; simpl; [by destruct s|].
  destruct (ascii_dec c c); congruence.
Qed.

Lemma HasSuffix_app s suf : HasSuffix (s +:+ suf) suf = true.
Proof.
  unfold HasSuffix. rewrite slen_app.
  replace (slen s + slen suf - slen suf)%nat with (slen s) by lia.
  rewrite sdrop_app, String.eqb_refl. apply andb_true_iff. split; [|done].
  apply Nat.leb_le. lia.
Qed.

Lemma HasSuffix_inv s suf : HasSuffix s suf = true -> exists p, s = p +:+ suf.
Proof.
  unfold HasSuffix. intros [_ H%String.eqb_eq]%andb_true_iff.
  exists (stake (slen s - slen suf) s). rewrite <- H at 2. by rewrite stake_sdrop.
Qed.

Lemma TrimSuffix_app s suf : TrimSuffix (s +:+ suf) suf = s.
Proof.
  unfold TrimSuffix. rewrite HasSuffix_app, slen_app.
  replace (slen s + slen suf - slen suf)%nat with (slen s) by lia. apply stake_app.
Qed.

Lemma has_char_app c a b : has_char c (a +:+ b) = has_char c a || has_char c b.
Proof. induction a as [|d a IH]; [done|]. simpl. by rewrite IH, orb_assoc. Qed.

Lemma sdrop_app_add p k s : sdrop (slen p + k) (p +:+ s) = sdrop k s.
Proof. induction p as [|c p IH]; [done|]. simpl. apply IH. Qed.

(** A suffix no longer than the end of a string is a suffix of that end. *)
Lemma HasSuffix_app_le p s suf : (slen suf <= slen s)%nat -> HasSuffix (p +:+ s) suf = HasSuffix s suf.
Proof.
  intros Hl. unfold HasSuffix. rewrite slen_app.
  replace (slen p + slen s - slen suf)%nat with (slen p + (slen s - slen suf))%nat by lia.
  rewrite sdrop_app_add. f_equal. destruct (Nat.leb_spec (slen suf) (slen s)); [|lia].
  apply Nat.leb_le. lia.
Qed.

Lemma TrimSuffix_none s suf : HasSuffix s suf = false -> TrimSuffix s suf = s.
Proof. unfold TrimSuffix. by intros ->. Qed.

Lemma HasPrefix_app p s : HasPrefix (p +:+ s) p = true.
Proof. apply prefix_app. Qed.

Lemma TrimPrefix_app p s : TrimPrefix (p +:+ s) p = s.
Proof. unfold TrimPrefix. rewrite HasPrefix_app. apply sdrop_app. Qed.

Lemma Index_app_first p s : Index (p +:+ s) p = Some 0%nat.
Proof.
  pose proof (prefix_app p s) as Hp. destruct (p +:+ s) eqn:E; simpl in *; by rewrite Hp.
Qed.

(** The longest-match position moves past bytes before it. *)
Lemma Contains_app a p s : Contains (a +:+ p +:+ s) p = true.
Proof.
  unfold Contains. apply bool_decide_eq_true. induction a as [|c a IH].
  - change (EmptyString +:+ p +:+ s) with (p +:+ s). rewrite Index_app_first. by eexists.
  - change (String c a +:+ p +:+ s) with (String c (a +:+ p +:+ s)).
    cbn [Index]. destruct (String.prefix p (String c (a +:+ p +:+ s))); [by eexists|].
    destruct IH as [i Hi]. rewrite Hi. by eexists.
Qed.

(** * Splitting on a one-byte separator *)
Lemma split_go_ne sep s k : split_go sep s k <> [].
Proof.
  revert k. induction s as [|c s IH]; intros k; simpl; [done|].
  destruct k as [|k]; [|apply IH].
  destruct (match sep with EmptyString => true | String _ _ => _ end); [done|].
  specialize (IH O). destruct (split_go sep s 0); done.
Qed.

Lemma prefix_one (c d : ascii) s :
  String.prefix (String c EmptyString) (String d s) = Ascii.eqb c d.
Proof.
  unfold String.prefix. destruct (ascii_dec c d) as [->|Hne].
  - rewrite Ascii.eqb_refl. by destruct s.
  - symmetry. by apply Ascii.eqb_neq.
Qed.

Lemma Split_cons_sep c s :
  Split (String c s) (String c EmptyString) = EmptyString :: Split s (String c EmptyString).
Proof. unfold Split. cbn [split_go]. rewrite prefix_one, Ascii.eqb_refl. done. Qed.

Lemma Split_cons_other c d s :
  c <> d ->
  Split (String d s) (String c EmptyString) =
    match Split s (String c EmptyString) with h :: t => String d h :: t | [] => [] end.
Proof.
  intros Hne. unfold Split. cbn [split_go].
  by rewrite prefix_one, (proj2 (Ascii.eqb_neq c d) Hne).
Qed.

Lemma Split_app c a s :
  has_char c a = false ->
  Split (a +:+ String c s) (String c EmptyString) = a :: Split s (String c EmptyString).
Proof.
  induction a as [|d a IH]; simpl; intros H.
  { apply Split_cons_sep. }
  apply orb_false_iff in H as [Hd Ha]. apply Ascii.eqb_neq in Hd.
  rewrite Split_cons_other by done. by rewrite (IH Ha).
Qed.

Lemma Split_none c s : has_char c s = false -> Split s (String c EmptyString) = [s].
Proof.
  induction s as [|d s IH]; simpl; intros H; [done|].
  apply orb_false_iff in H as [Hd Hs]. apply Ascii.eqb_neq in Hd.
  rewrite Split_cons_other by done. by rewrite (IH Hs).
Qed.

(** Joining the parts of a split gives the string back. *)
Lemma Join_cons x y ys sep : Join (x :: y :: ys) sep = x +:+ sep +:+ Join (y :: ys) sep.
Proof. done. Qed.

Lemma Join_Split c s : Join (Split s (String c EmptyString)) (String c EmptyString) = s.
Proof.
  induction s as [|d s IH]; [done|].
  destruct (decide (c = d)) as [->|Hne].
  - rewrite Split_cons_sep.
    pose proof (split_go_ne (String d EmptyString) s 0) as Hn. fold (Split s (String d EmptyString)) in Hn.
    destruct (Split s (String d EmptyString)) as [|h t]; [done|].
    rewrite Join_cons, IH. done.
  - rewrite Split_cons_other by done.
    destruct (Split s (String c EmptyString)) as [|h t] eqn:E.
    { by apply split_go_ne in E. }
    destruct t as [|h' t]; [by simpl in *; subst|].
    rewrite Join_cons in IH |- *. by rewrite <- IH.
Qed.

Lemma Split_Join c xs :
  xs <> [] -> Forall (fun x => has_char c x = false) xs ->
  Split (Join xs (String c EmptyString)) (String c EmptyString) = xs.
Proof.
  intros Hne Hall. induction Hall as [|x xs Hx Hxs IH]; [done|].
  destruct xs as [|y ys]; [by apply Split_none|].
  rewrite Join_cons.
  change (String c EmptyString +:+ Join (y :: ys) (String c EmptyString))
    with (String c (Join (y :: ys) (String c EmptyString))).
  rewrite Split_app by done. by rewrite IH.
Qed.

(** * Printing and parsing decimal numbers *)
Lemma digit_val_char d : 0 <= d < 10 -> digit_val (digit_char 10 d) = Some d.
Proof.
  intros Hd. unfold digit_char. rewrite decide_True by lia. unfold digit_val.
  rewrite Ascii.nat_ascii_embedding by lia.
  rewrite bool_decide_eq_true_2 by lia. f_equal. lia.
Qed.

Lemma parse_go_digit n d s s0 :
  0 <= n -> 0 <= d < 10 -> n * 10 + d <= MaxUint64 ->
  parse_go n (String (digit_char 10 d) s) s0 = parse_go (n * 10 + d) s s0.
Proof.
  intros Hn Hd Hle. cbn [parse_go]. rewrite digit_val_char by done.
  rewrite decide_False; [rewrite decide_False; [done|lia]|].
  unfold cutoff. pose proof (Z.div_le_lower_bound MaxUint64 10 n). lia.
Qed.

(** The printer produces the digits the parser consumes. *)
Lemma parse_go_digits fuel n acc s0 :
  0 <= n < 10 ^ Z.of_nat fuel -> (0 < fuel)%nat -> n <= MaxUint64 ->
  parse_go 0 (digits_go 10 fuel n acc) s0 = parse_go n acc s0.
Proof.
  revert n acc. induction fuel as [|fuel IH]; intros n acc Hn Hf Hmax; [lia|].
  cbn [digits_go]. pose proof (Z.mod_pos_bound n 10). pose proof (Z.div_mod n 10).
  case_decide as Hz.
  - rewrite parse_go_digit by lia. f_equal. lia.
  - assert (0 <= n / 10) by (apply Z.div_pos; lia).
    assert (n / 10 < 10 ^ Z.of_nat fuel).
    { apply Z.div_lt_upper_bound; [lia|]. rewrite Nat2Z.inj_succ, Z.pow_succ_r in Hn; lia. }
    assert (0 < fuel)%nat by (destruct fuel; [simpl in *; lia|lia]).
    rewrite IH by lia. rewrite parse_go_digit by lia. f_equal. lia.
Qed.

Lemma digits_go_not_empty base fuel n acc : (0 < fuel)%nat -> digits_go base fuel n acc <> EmptyString.
Proof.
  intros Hf. destruct fuel as [|fuel]; [lia|]. clear Hf. revert n acc.
  induction fuel as [|fuel IH]; intros n acc; cbn [digits_go]; case_decide; try done.
  apply (IH (n / base) (String (digit_char base (n mod base)) acc)).
Qed.

(** [ParseUint] reads back what [%d] printed. *)
Lemma ParseUint_FormatUint n : is_u64 n -> ParseUint (FormatUint n) = Ok n.
Proof.
  unfold is_u64, ParseUint, FormatUint. intros Hn.
  rewrite (proj2 (String.eqb_neq _ _)) by (apply digits_go_not_empty; lia).
  rewrite parse_go_digits; [done|lia|lia|unfold MaxUint64; lia].
Qed.

Lemma FormatUint_inj n m : is_u64 n -> is_u64 m -> FormatUint n = FormatUint m -> n = m.
Proof.
  intros Hn Hm H. apply (f_equal ParseUint) in H.
  rewrite !ParseUint_FormatUint in H by done. congruence.
Qed.

(** A successful parse is in range. *)
Lemma parse_go_range n s s0 v : is_u64 n -> parse_go n s s0 = Ok v -> is_u64 v.
Proof.
  revert n. induction s as [|c s IH]; intros n Hn; simpl.
  { by intros [= <-]. }
  unfold digit_val. case_bool_decide as Hd; [|done].
  case_decide as Hc; [done|]. case_decide as Hm; [done|].
  apply IH. unfold is_u64, MaxUint64 in *. lia.
Qed.

Lemma ParseUint_range s v : ParseUint s = Ok v -> is_u64 v.
Proof.
  unfold ParseUint. destruct (String.eqb s EmptyString); [done|].
  apply parse_go_range. unfold is_u64. lia.
Qed.

#[export] Hint Resolve ParseUint_range : go.
Create Rewrite HintDb go_str.
#[export] Hint Rewrite sapp_nil_r TrimSuffix_app TrimPrefix_app HasSuffix_app HasPrefix_app : go_str.

(** * Lines and white space *)
Definition nl : ascii := "010".

(** [bufio.Scanner] with [ScanLines]: a trailing empty part is not a line. *)
Definition ScanLines (s : string) : list string :=
  let parts := Split s (String nl EmptyString) in
  if String.eqb (List.last parts "-") EmptyString then removelast parts else parts.

Fixpoint no_space (s : string) : bool :=
  match s with
  | EmptyString => true
  | String c s => negb (is_space c) && no_space s
  end.

Lemma trim_right_no_space s t :
  no_space s = true -> trim_right is_space t = EmptyString ->
  trim_right is_space (s +:+ t) = s.
Proof.
  intros Hs Ht. induction s as [|c s IH]; [done|].
  simpl in *. apply andb_true_iff in Hs as [Hc%negb_true_iff Hs].
  rewrite (IH Hs). destruct s; [by rewrite Hc|done].
Qed.

Lemma TrimSpace_line s : no_space s = true -> TrimSpace (s +:+ String nl EmptyString) = s.
Proof.
  intros Hs. unfold TrimSpace. destruct s as [|c s]; [done|].
  change (String c s +:+ String nl EmptyString) with (String c (s +:+ String nl EmptyString)).
  cbn [trim_left]. pose proof Hs as Hs'. simpl in Hs'.
  apply andb_true_iff in Hs' as [Hc%negb_true_iff _]. rewrite Hc.
  by apply (trim_right_no_space (String c s)).
Qed.

Lemma TrimSpace_id s : no_space s = true -> TrimSpace s = s.
Proof.
  intros Hs. unfold TrimSpace. destruct s as [|c s]; [done|].
  cbn [trim_left]. pose proof Hs as Hs'. simpl in Hs'.
  apply andb_true_iff in Hs' as [Hc%negb_true_iff _]. rewrite Hc.
  rewrite <- (sapp_nil_r (String c s)) at 1. by apply trim_right_no_space.
Qed.

Lemma no_space_no_nl s : no_space s = true -> has_char nl s = false.
Proof.
  induction s as [|c s IH]; cbn [no_space has_char]; [done|].
  intros [Hc%negb_true_iff Hs]%andb_true_iff. rewrite (IH Hs), orb_false_r.
  apply Ascii.eqb_neq. by intros <-.
Qed.

Lemma digit_char_no_space base d : 0 <= d < 36 -> is_space (digit_char base d) = false.
Proof.
  intros Hd. unfold digit_char, is_space.
  set (n := Z.to_nat (if decide (d < 10) then 48 + d else 87 + d)).
  assert (48 <= n <= 122)%nat by (subst n; case_decide; lia).
  rewrite Ascii.nat_ascii_embedding by lia.
  apply orb_false_iff. split; [apply Nat.eqb_neq; lia|].
  apply andb_false_iff. right. apply Nat.leb_gt. lia.
Qed.

Lemma digits_go_no_space base fuel n acc :
  0 < base <= 36 -> no_space acc = true -> no_space (digits_go base fuel n acc) = true.
Proof.
  intros Hb. revert n acc. induction fuel as [|fuel IH]; intros n acc Hacc; [done|].
  cbn [digits_go]. pose proof (Z.mod_pos_bound n base).
  assert (no_space (String (digit_char base (n mod base)) acc) = true).
  { cbn [no_space]. rewrite digit_char_no_space by lia. done. }
  case_decide; [done|]. by apply IH.
Qed.

Lemma FormatUint_no_space n : no_space (FormatUint n) = true.
Proof. apply digits_go_no_space; [lia|done]. Qed.

(** The output of a command that prints one item per line. *)
Fixpoint unlines (xs : list string) : string :=
  match xs with
  | [] => EmptyString
  | x :: xs => x +:+ String nl (unlines xs)
  end.

Lemma Split_unlines xs :
  Forall (fun x => no_space x = true) xs ->
  Split (unlines xs) (String nl EmptyString) = (xs ++ [EmptyString])%list.
Proof.
  induction 1 as [|x xs Hx Hxs IH]; [done|].
  simpl unlines. rewrite Split_app by (by apply no_space_no_nl). by rewrite IH.
Qed.

Lemma ScanLines_unlines xs :
  Forall (fun x => no_space x = true) xs -> ScanLines (unlines xs) = xs.
Proof.
  intros H. unfold ScanLines. rewrite Split_unlines by done.
  rewrite last_last, removelast_last. done.
Qed.

#[export] Hint Resolve FormatUint_no_space : go.
