(* ===== verification/GoPath.v ===== *)
(** Laws of the Unix path functions of GoStrings.v: joining onto a joined path is
    joining all the elements at once. *)

From S2P Require Import Prelude GoInt GoStrings.

Definition slash : string := "/".
Implicit Types p q a b d e : string.

Definition clean_step (rooted : bool) (st : list string) (e : string) : list string :=
  if String.eqb e EmptyString || String.eqb e "." then st
  else if String.eqb e ".." then
    match st with
    | top :: st' => if String.eqb top ".." then ".."%string :: st else st'
    | [] => if rooted then [] else [".."%string]
    end
  else e :: st.

Lemma clean_go_fold rooted es st :
  clean_go rooted es st = rev (fold_left (clean_step rooted) es st).
Proof.
  revert st. induction es as [|e es IH]; intros st; [done|]. simpl. unfold clean_step at 2.
  destruct (String.eqb e EmptyString || String.eqb e "."); [apply IH|].
  destruct (String.eqb e ".."); [|apply IH].
  destruct st as [|top st]; [by destruct rooted; apply IH|].
  destruct (String.eqb top ".."); apply IH.
Qed.

(** A stack of cleaned elements: each is a proper name or a [..], and a [..] only has
    [..] under it, and only in a relative path. *)
Definition proper (e : string) : Prop :=
  e <> EmptyString /\ e <> "."%string /\ has_char "/" e = false.
Fixpoint clean_stack (rooted : bool) (st : list string) : Prop :=
  match st with
  | [] => True
  | e :: st =>
      proper e /\ clean_stack rooted st /\
      (e = ".."%string -> rooted = false /\ Forall (fun x => x = ".."%string) st)
  end.

Lemma clean_step_stack rooted st e :
  has_char "/" e = false -> clean_stack rooted st -> clean_stack rooted (clean_step rooted st e).
Proof.
  intros He Hst. unfold clean_step.
  destruct (String.eqb_spec e EmptyString) as [|H1]; [done|].
  destruct (String.eqb_spec e ".") as [|H2]; [done|]. cbn [orb].
  destruct (String.eqb_spec e "..") as [->|H3]; [|done].
  destruct st as [|top st]; [by destruct rooted|].
  destruct (String.eqb_spec top "..") as [->|H4]; [|by apply Hst].
  destruct Hst as (Hp & Hst & Hd). destruct (Hd eq_refl) as [-> Hall].
  repeat split; try done. by constructor.
Qed.

Lemma clean_fold_stack rooted es st :
  Forall (fun e => has_char "/" e = false) es -> clean_stack rooted st ->
  clean_stack rooted (fold_left (clean_step rooted) es st).
Proof.
  intros Hes. revert st. induction Hes as [|e es He Hes IH]; intros st Hst; [done|].
  simpl. apply IH. by apply clean_step_stack.
Qed.

(** Cleaning the elements of a clean stack gives the stack back. *)
Lemma clean_fold_id rooted st :
  clean_stack rooted st -> fold_left (clean_step rooted) (rev st) [] = st.
Proof.
  induction st as [|e st IH]; intros Hst; [done|].
  destruct Hst as ((H1 & H2 & H3) & Hst & Hd). simpl. rewrite fold_left_app, (IH Hst). simpl.
  unfold clean_step.
  rewrite (proj2 (String.eqb_neq e _) H1), (proj2 (String.eqb_neq e _) H2). cbn [orb].
  destruct (String.eqb_spec e "..") as [->|]; [|done].
  destruct (Hd eq_refl) as [-> Hall].
  destruct st as [|top st]; [done|]. inversion Hall; by subst.
Qed.

Lemma Split_no_slash s : Forall (fun e => has_char "/" e = false) (Split s "/").
Proof.
  induction s as [|c s IH]; [by repeat constructor|].
  destruct (Ascii.eqb_spec "/" c) as [<-|Hc].
  - rewrite (Split_cons_sep "/" s). by constructor.
  - rewrite (Split_cons_other "/" c s) by congruence.
    destruct (Split s "/") as [|h t]; [done|]. inversion IH; subst.
    constructor; [|done]. cbn [has_char]. by rewrite (proj2 (Ascii.eqb_neq _ _) Hc).
Qed.

(** Joining two paths under one separator is splitting both. *)
Lemma Split_two a b : Split (a +:+ String "/" b) "/" = Split a "/" ++ Split b "/".
Proof.
  induction a as [|c a IH]; [apply (Split_cons_sep "/")|].
  change (String c a +:+ String "/" b) with (String c (a +:+ String "/" b)).
  destruct (Ascii.eqb_spec "/" c) as [<-|Hc].
  - by rewrite !(Split_cons_sep "/"), IH.
  - rewrite !(Split_cons_other "/" c) by congruence. rewrite IH.
    pose proof (split_go_ne "/" a 0) as Hn. fold (Split a "/") in Hn.
    by destruct (Split a "/").
Qed.

Lemma HasPrefix_slash_app a b : a <> EmptyString -> HasPrefix (a +:+ b) "/" = HasPrefix a "/".
Proof.
  destruct a as [|c a]; [done|]. intros _. unfold HasPrefix.
  change (String c a +:+ b) with (String c (a +:+ b)). by rewrite !(prefix_one "/" c).
Qed.

(** The stack of a cleaned path, and the path rendered from it. *)
Definition path_stack (p : string) : list string :=
  fold_left (clean_step (HasPrefix p "/")) (Split p "/") [].
Definition render (rooted : bool) (st : list string) : string :=
  let body := Join (rev st) "/" in
  if rooted then String "/" body
  else if String.eqb body EmptyString then "."%string else body.

Lemma Clean_render p : Clean p = render (HasPrefix p "/") (path_stack p).
Proof. unfold Clean, render, path_stack. by rewrite clean_go_fold. Qed.

Lemma path_stack_clean p : clean_stack (HasPrefix p "/") (path_stack p).
Proof. apply clean_fold_stack; [apply Split_no_slash|done]. Qed.

Lemma clean_stack_elems rooted st : clean_stack rooted st -> Forall proper st.
Proof. induction st as [|e st IH]; intros H; constructor; [apply H|apply IH, H]. Qed.

(** Splitting a rendered stack and cleaning again gives the stack. *)
Lemma render_stack rooted st :
  clean_stack rooted st ->
  HasPrefix (render rooted st) "/" = rooted /\ render rooted st <> EmptyString /\
  fold_left (clean_step rooted) (Split (render rooted st) "/") [] = st.
Proof.
  intros Hst. pose proof (clean_stack_elems _ _ Hst) as Hel.
  assert (Hbody : st <> [] -> Split (Join (rev st) "/") "/" = rev st).
  { intros Hne. apply (Split_Join "/").
    - intros H. apply Hne. by rewrite <- (rev_involutive st), H.
    - apply Forall_rev. eapply Forall_impl; [|exact Hel]. by intros e (_ & _ & ?). }
  assert (Hempty : Join (rev st) "/" = EmptyString -> st = []).
  { intros H. destruct st as [|e st]; [done|]. exfalso.
    rewrite H in Hbody. specialize (Hbody ltac:(done)).
    assert (Hin : In EmptyString (e :: st)) by (apply in_rev; rewrite <- Hbody; by left).
    rewrite Forall_forall in Hel. by destruct (Hel _ Hin) as [? _]. }
  assert (Hid := clean_fold_id rooted st Hst).
  unfold render. destruct rooted.
  - split; [apply (HasPrefix_app slash)|]. split; [done|].
    rewrite (Split_cons_sep "/"). simpl.
    destruct (decide (st = [])) as [->|Hne]; [done|]. by rewrite Hbody.
  - destruct (String.eqb_spec (Join (rev st) "/") EmptyString) as [He|He].
    { by rewrite (Hempty He). }
    assert (Hne : st <> []) by (intros ->; by apply He).
    split; [|split; [done|by rewrite Hbody]].
    destruct (HasPrefix _ _) eqn:Hp; [|done]. exfalso.
    destruct (Join (rev st) "/") as [|c s] eqn:EJ; [done|].
    unfold HasPrefix in Hp. rewrite (prefix_one "/" c) in Hp. apply Ascii.eqb_eq in Hp as <-.
    specialize (Hbody Hne). rewrite (Split_cons_sep "/") in Hbody.
    assert (Hin : In EmptyString st)
      by (apply in_rev; rewrite <- Hbody; by left).
    rewrite Forall_forall in Hel. by destruct (Hel _ Hin) as [? _].
Qed.

(** Cleaning in two steps is cleaning once. *)
Lemma Clean_app p q :
  p <> EmptyString -> Clean (Clean p +:+ String "/" q) = Clean (p +:+ String "/" q).
Proof.
  intros Hp. destruct (render_stack _ _ (path_stack_clean p)) as (H1 & H2 & H3).
  rewrite !(Clean_render (_ +:+ _)). unfold path_stack at 1 2.
  rewrite (Clean_render p), !HasPrefix_slash_app by done. rewrite H1.
  by rewrite !Split_two, !fold_left_app, H3.
Qed.

(** A slash at the end does not count. *)
Lemma Clean_slash p : p <> EmptyString -> Clean (p +:+ slash) = Clean p.
Proof.
  intros Hp. rewrite !Clean_render. unfold path_stack, slash.
  rewrite HasPrefix_slash_app, Split_two, fold_left_app by done. done.
Qed.

Lemma Clean_not_empty p : Clean p <> EmptyString.
Proof. rewrite Clean_render. apply (render_stack _ _ (path_stack_clean p)). Qed.

Lemma Clean_idem p : p <> EmptyString -> Clean (Clean p) = Clean p.
Proof.
  intros Hp. rewrite <- (Clean_slash (Clean p)) by apply Clean_not_empty.
  unfold slash. by rewrite Clean_app, Clean_slash.
Qed.

(** Only the root ends in a slash. *)
Lemma Clean_rooted p :
  HasPrefix p slash = true ->
  HasPrefix (Clean p) slash = true /\ (HasSuffix (Clean p) slash = true -> Clean p = slash).
Proof.
  intros Hp. pose proof (path_stack_clean p) as Hst. rewrite Clean_render. unfold slash in *. rewrite Hp in *.
  destruct (render_stack _ _ Hst) as (H1 & _ & _). split; [done|]. unfold render.
  destruct (decide (path_stack p = [])) as [->|Hne]; [done|].
  pose proof (clean_stack_elems _ _ Hst) as Hel. intros [q Hq]%HasSuffix_inv. exfalso.
  assert (HS : Split (String "/" (Join (rev (path_stack p)) "/")) "/" = EmptyString :: rev (path_stack p)).
  { rewrite (Split_cons_sep "/"). f_equal. apply (Split_Join "/").
    - intros H. apply Hne. by rewrite <- (rev_involutive (path_stack p)), H.
    - apply Forall_rev. eapply Forall_impl; [|exact Hel]. by intros e (_ & _ & ?). }
  rewrite Hq, (Split_two q EmptyString) in HS. change (Split EmptyString "/") with [EmptyString] in HS.
  destruct (path_stack p) as [|e st]; [done|]. simpl in HS.
  change (EmptyString :: rev st ++ [e]) with ((EmptyString :: rev st) ++ [e]) in HS.
  apply app_inj_tail in HS as [_ <-]. by apply Forall_inv in Hel as [? _].
Qed.

Lemma Join_snoc xs d : xs <> [] -> Join (xs ++ [d]) "/" = Join xs "/" +:+ String "/" d.
Proof.
  induction xs as [|x xs IH]; intros H; [done|]. destruct xs as [|y xs]; [done|].
  change ((x :: y :: xs) ++ [d]) with (x :: (y :: xs) ++ [d]).
  destruct ((y :: xs) ++ [d]) as [|z zs] eqn:E; [done|].
  rewrite !Join_cons, IH by done. by rewrite !sapp_assoc.
Qed.

Lemma Join_not_empty xs : Forall (fun x => x <> EmptyString) xs -> xs <> [] -> Join xs "/" <> EmptyString.
Proof.
  intros Hx Hn. destruct xs as [|x xs]; [done|]. inversion Hx; subst.
  destruct xs; [done|]. rewrite Join_cons. by destruct x.
Qed.

(** [filepath.Join(filepath.Join(xs...), d) = filepath.Join(xs..., d)]. *)
Lemma PathJoin_snoc xs d :
  xs <> [] -> Forall (fun x => x <> EmptyString) xs -> d <> EmptyString ->
  PathJoin [PathJoin xs; d] = PathJoin (xs ++ [d]).
Proof.
  intros Hne Hxs Hd. unfold PathJoin.
  assert (Hf : forall ys, Forall (fun x => x <> EmptyString) ys -> filter (fun e => e <> EmptyString) ys = ys).
  { induction 1 as [|y ys Hy _ IH]; [done|]. rewrite filter_cons_True by done. by rewrite IH. }
  rewrite (Hf xs) by done. destruct xs as [|x xs]; [done|].
  rewrite !Hf.
  - change (Join [Clean (Join (x :: xs) "/"); d] "/") with (Clean (Join (x :: xs) "/") +:+ String "/" d).
    rewrite Clean_app by by apply Join_not_empty.
    rewrite <- Join_snoc by done. done.
  - apply Forall_app. by split; [|constructor].
  - constructor; [apply Clean_not_empty|by constructor].
Qed.
