(* ===== verification/Base64.v ===== *)
(** encoding/base64, the standard encoding: encoding, decoding, and their round trip. *)

From S2P Require Import Prelude GoInt GoStrings.

#[local] Open Scope string_scope.

(** [base64.StdEncoding.DecodeString] (Standard Library): line breaks are skipped, the
    last group of four is padded, and the unused bits of the last digit are ignored. *)
Definition base64_digit (c : ascii) : option nat :=
  Index "ABCDEFGHIJKLMNOPQRSTUVWXYZabcdefghijklmnopqrstuvwxyz0123456789+/" (String c "").
Definition base64_group (ds : list nat) (n : nat) : string :=
  let x := fold_left (fun x d => x * 64 + Z.of_nat d)%Z ds 0%Z in
  let byte i := Ascii.ascii_of_nat (Z.to_nat (Z.land (Z.shiftr x (8 * i)) 255)) in
  stake n (String (byte 2%Z) (String (byte 1%Z) (String (byte 0%Z) ""))).
Fixpoint base64_go (cs : list ascii) : option string :=
  match cs with
  | [] => Some ""
  | [a; b; "="; "="]%char =>
      a ← base64_digit a; b ← base64_digit b; Some (base64_group [a; b; 0; 0]%nat 1)
  | [a; b; c; "="]%char =>
      a ← base64_digit a; b ← base64_digit b; c ← base64_digit c;
      Some (base64_group [a; b; c; 0]%nat 2)
  | a :: b :: c :: d :: cs =>
      a ← base64_digit a; b ← base64_digit b; c ← base64_digit c; d ← base64_digit d;
      rest ← base64_go cs; Some (base64_group [a; b; c; d] 3 +:+ rest)
  | _ => None
  end.
Definition base64_decode (s : string) : option string :=
  base64_go (filter (fun c => c <> "010"%char /\ c <> "013"%char) (String.list_ascii_of_string s)).

(** [base64.StdEncoding.EncodeToString]: a digit for every six bits, the last group padded. *)
Definition base64_alphabet : list ascii :=
  String.list_ascii_of_string "ABCDEFGHIJKLMNOPQRSTUVWXYZabcdefghijklmnopqrstuvwxyz0123456789+/".
Definition base64_char (d : nat) : ascii := nth d base64_alphabet "A"%char.
Fixpoint base64_chars (s : list ascii) : list ascii :=
  let n := Ascii.nat_of_ascii in
  match s with
  | [] => []
  | [a] => [base64_char (n a / 4); base64_char ((n a mod 4) * 16); "="; "="]%char
  | [a; b] => [base64_char (n a / 4); base64_char ((n a mod 4) * 16 + n b / 16);
               base64_char ((n b mod 16) * 4); "="%char]
  | a :: b :: c :: s =>
      base64_char (n a / 4) :: base64_char ((n a mod 4) * 16 + n b / 16) ::
      base64_char ((n b mod 16) * 4 + n c / 64) :: base64_char (n c mod 64) :: base64_chars s
  end%nat.
Definition base64_encode (s : string) : string :=
  String.string_of_list_ascii (base64_chars (String.list_ascii_of_string s)).

#[local] Close Scope string_scope.

(** * Decoding what was encoded *)
Lemma base64_digits_char :
  forallb (fun d => bool_decide (base64_digit (base64_char d) = Some d /\ base64_char d <> "="%char /\
                      base64_char d <> "010"%char /\ base64_char d <> "013"%char)) (seq 0 64) = true.
Proof. vm_compute. reflexivity. Qed.

Lemma base64_char_spec d :
  (d < 64)%nat -> base64_digit (base64_char d) = Some d /\ base64_char d <> "="%char /\
                  base64_char d <> "010"%char /\ base64_char d <> "013"%char.
Proof.
  intros Hd. pose proof base64_digits_char as H. rewrite forallb_forall in H.
  specialize (H d). rewrite bool_decide_eq_true in H. apply H. apply in_seq. lia.
Qed.

(** A group whose third digit is not padding. *)
Lemma base64_go_group (a b c d : ascii) cs :
  c <> "="%char -> d <> "="%char ->
  base64_go (a :: b :: c :: d :: cs) =
    (a ← base64_digit a; b ← base64_digit b; c ← base64_digit c; d ← base64_digit d;
     rest ← base64_go cs; Some (base64_group [a; b; c; d] 3 +:+ rest)).
Proof.
  intros Hc Hd.
  destruct cs as [|x cs], c as [c0 c1 c2 c3 c4 c5 c6 c7], d as [d0 d1 d2 d3 d4 d5 d6 d7];
    repeat first
      [ reflexivity | contradiction | progress cbn [base64_go]
      | match goal with |- context[match ?x with true => _ | false => _ end] => is_var x; destruct x end ].
Qed.

(** The three bytes of the group of four digits. *)
Lemma base64_group_bytes a b c d x y z n :
  (a < 64)%nat -> (b < 64)%nat -> (c < 64)%nat -> (d < 64)%nat ->
  (((Z.of_nat a * 64 + Z.of_nat b) * 64 + Z.of_nat c) * 64 + Z.of_nat d =
     (Z.of_nat (Ascii.nat_of_ascii x) * 256 + Z.of_nat (Ascii.nat_of_ascii y)) * 256 +
     Z.of_nat (Ascii.nat_of_ascii z))%Z ->
  base64_group [a; b; c; d] n = stake n (String x (String y (String z EmptyString))).
Proof.
  intros Ha Hb Hc Hd Heq. unfold base64_group.
  change (fold_left _ [a; b; c; d] 0%Z) with
    ((((0 * 64 + Z.of_nat a) * 64 + Z.of_nat b) * 64 + Z.of_nat c) * 64 + Z.of_nat d)%Z.
  rewrite Z.mul_0_l, Z.add_0_l, Heq.
  assert (byte : forall w u i v, (0 <= w < 256 -> 0 <= v < 2 ^ (8 * i) -> 0 <= i -> 0 <= u ->
            Z.land (Z.shiftr ((u * 256 + w) * 2 ^ (8 * i) + v) (8 * i)) 255 = w)%Z).
  { intros w u i v Hw Hv Hi Hu. rewrite Z.shiftr_div_pow2, Z.div_add_l, Z.div_small by lia.
    change 255%Z with (Z.ones 8). rewrite Z.land_ones by lia. rewrite Z.add_0_r, Z.add_comm.
    change 256%Z with (2 ^ 8)%Z. rewrite Z.mod_add, Z.mod_small by lia. done. }
  pose proof (Ascii.nat_ascii_bounded x). pose proof (Ascii.nat_ascii_bounded y).
  pose proof (Ascii.nat_ascii_bounded z).
  set (X := Z.of_nat (Ascii.nat_of_ascii x)) in *. set (Y := Z.of_nat (Ascii.nat_of_ascii y)) in *.
  set (W := Z.of_nat (Ascii.nat_of_ascii z)) in *.
  assert (ch : forall v (k : ascii), v = Z.of_nat (Ascii.nat_of_ascii k) -> Ascii.ascii_of_nat (Z.to_nat v) = k).
  { intros v k ->. rewrite Nat2Z.id. apply Ascii.ascii_nat_embedding. }
  do 2 f_equal; [|f_equal; [|f_equal]]; apply ch.
  - replace ((X * 256 + Y) * 256 + W)%Z with ((0 * 256 + X) * 2 ^ (8 * 2) + (Y * 256 + W))%Z by lia.
    apply byte; lia.
  - replace ((X * 256 + Y) * 256 + W)%Z with ((X * 256 + Y) * 2 ^ (8 * 1) + W)%Z by lia. apply byte; lia.
  - replace ((X * 256 + Y) * 256 + W)%Z with (((X * 256 + Y) * 256 + W) * 2 ^ (8 * 0) + 0)%Z by lia.
    apply byte; lia.
Qed.

(** A list is taken three elements at a time. *)
Lemma list_ind3 {A} (P : list A -> Prop) :
  P [] -> (forall a, P [a]) -> (forall a b, P [a; b]) ->
  (forall a b c l, P l -> P (a :: b :: c :: l)) -> forall l, P l.
Proof.
  intros H0 H1 H2 H3. refine (fix go l := match l with
    | [] => H0 | [a] => H1 a | [a; b] => H2 a b | a :: b :: c :: l => H3 a b c l (go l) end).
Qed.

(** The bits of the digits of a group. *)
Ltac digit_bounds :=
  repeat match goal with
  | |- context[Ascii.nat_of_ascii ?a] =>
      lazymatch goal with
      | _ : (Ascii.nat_of_ascii a < 256)%nat |- _ => fail
      | _ => pose proof (Ascii.nat_ascii_bounded a)
      end
  end.

Lemma base64_go_chars s : base64_go (base64_chars s) = Some (String.string_of_list_ascii s).
Proof.
  induction s as [|a|a b|a b c s IH] using list_ind3; [done|..];
    cbn [base64_chars]; set (na := Ascii.nat_of_ascii a);
    pose proof (Ascii.nat_ascii_bounded a) as Ha; fold na in Ha;
    pose proof (Nat.div_mod_eq na 4); pose proof (Nat.mod_upper_bound na 4 ltac:(lia));
    assert (na / 4 < 64)%nat by (apply Nat.Div0.div_lt_upper_bound; lia).
  - destruct (base64_char_spec (na / 4)) as [E1 _]; [lia|].
    destruct (base64_char_spec (na mod 4 * 16)) as [E2 _]; [lia|].
    cbn [base64_go]. rewrite E1, E2. cbn [mbind option_bind]. f_equal.
    rewrite (base64_group_bytes _ _ _ _ a "000"%char "000"%char); [done|lia..|].
    change (Z.of_nat (Ascii.nat_of_ascii "000")) with 0. fold na. lia.
  - set (nb := Ascii.nat_of_ascii b). pose proof (Ascii.nat_ascii_bounded b) as Hb. fold nb in Hb.
    pose proof (Nat.div_mod_eq nb 16). pose proof (Nat.mod_upper_bound nb 16 ltac:(lia)).
    assert (nb / 16 < 16)%nat by (apply Nat.Div0.div_lt_upper_bound; lia).
    destruct (base64_char_spec (na / 4)) as [E1 _]; [lia|].
    destruct (base64_char_spec (na mod 4 * 16 + nb / 16)) as [E2 _]; [lia|].
    destruct (base64_char_spec (nb mod 16 * 4)) as (E3 & N3 & _); [lia|].
    assert (G : forall a b c : ascii, c <> "="%char -> base64_go [a; b; c; "="%char] =
              (a ← base64_digit a; b ← base64_digit b; c ← base64_digit c;
               Some (base64_group [a; b; c; 0%nat] 2))).
    { clear. intros a b [c0 c1 c2 c3 c4 c5 c6 c7] Hc.
      repeat first
        [ reflexivity | contradiction | progress cbn [base64_go]
        | match goal with |- context[match ?x with true => _ | false => _ end] => is_var x; destruct x end ]. }
    rewrite G by done. rewrite E1, E2, E3. cbn [mbind option_bind]. f_equal.
    rewrite (base64_group_bytes _ _ _ _ a b "000"%char); [done|lia..|].
    change (Z.of_nat (Ascii.nat_of_ascii "000")) with 0. fold na nb. lia.
  - set (nb := Ascii.nat_of_ascii b). pose proof (Ascii.nat_ascii_bounded b) as Hb. fold nb in Hb.
    set (nc := Ascii.nat_of_ascii c). pose proof (Ascii.nat_ascii_bounded c) as Hc. fold nc in Hc.
    pose proof (Nat.div_mod_eq nb 16). pose proof (Nat.mod_upper_bound nb 16 ltac:(lia)).
    assert (nb / 16 < 16)%nat by (apply Nat.Div0.div_lt_upper_bound; lia).
    pose proof (Nat.div_mod_eq nc 64). pose proof (Nat.mod_upper_bound nc 64 ltac:(lia)).
    assert (nc / 64 < 4)%nat by (apply Nat.Div0.div_lt_upper_bound; lia).
    destruct (base64_char_spec (na / 4)) as [E1 _]; [lia|].
    destruct (base64_char_spec (na mod 4 * 16 + nb / 16)) as [E2 _]; [lia|].
    destruct (base64_char_spec (nb mod 16 * 4 + nc / 64)) as (E3 & N3 & _); [lia|].
    destruct (base64_char_spec (nc mod 64)) as (E4 & N4 & _); [lia|].
    rewrite base64_go_group by done. rewrite E1, E2, E3, E4, IH. cbn [mbind option_bind]. f_equal.
    rewrite (base64_group_bytes _ _ _ _ a b c); [done|lia..|fold na nb nc; lia].
Qed.

Lemma base64_chars_plain s :
  Forall (fun c => c <> "010"%char /\ c <> "013"%char) (base64_chars s).
Proof.
  assert (plain : forall d, (d < 64)%nat -> base64_char d <> "010"%char /\ base64_char d <> "013"%char).
  { intros d Hd. by destruct (base64_char_spec d Hd) as (_ & _ & ?). }
  assert (dm : forall x k m, (x < k * m)%nat -> (0 < k)%nat -> (x / k < m)%nat).
  { intros. by apply Nat.Div0.div_lt_upper_bound. }
  induction s as [|a|a b|a b c s IH] using list_ind3; [constructor|..];
    cbn [base64_chars]; digit_bounds;
    repeat match goal with
    | |- context[(?x mod ?k)%nat] =>
        lazymatch goal with
        | _ : (x mod k < k)%nat |- _ => fail
        | _ => pose proof (Nat.mod_upper_bound x k ltac:(lia))
        end
    end;
    repeat (apply list.Forall_cons; split); try done; try (apply plain).
  all: repeat match goal with
    | |- context[(?x / ?k)%nat] =>
        lazymatch goal with
        | _ : (x / k < _)%nat |- _ => fail
        | _ => pose proof (dm x k (256 / k)%nat ltac:(simpl; lia) ltac:(lia))
        end
    end; simpl in *; lia.
Qed.

(** Encoding loses nothing. *)
Lemma base64_decode_encode s : base64_decode (base64_encode s) = Some s.
Proof.
  unfold base64_decode, base64_encode. rewrite String.list_ascii_of_string_of_list_ascii.
  assert (forall cs, Forall (fun c => c <> "010"%char /\ c <> "013"%char) cs ->
            filter (fun c => c <> "010"%char /\ c <> "013"%char) cs = cs) as ->.
  { induction 1; [done|]. by rewrite filter_cons_True, IHForall. }
  2: apply base64_chars_plain.
  rewrite base64_go_chars. by rewrite String.string_of_list_ascii_of_string.
Qed.

Example base64_hello : base64_encode "hello" = "aGVsbG8="%string.
Proof. reflexivity. Qed.
