(* ===== verification/Pagination.v ===== *)
(** Pagination of directory listings and diffs (utils/pagination.go, utils/common.go,
    PaginateTreeContentResponse of utils/content.go, PaginateDiffResponse of
    utils/diff.go), and the data of a commit (utils/commits.go). The pages of a history
    are served by git and modelled with their handler (RepoHandlers). *)

From S2P Require Import Prelude GoInt GoStrings.

(** * Requests and responses (utils/pagination.go)

    [Key] is [None] for a nil slice: the code tells a nil key from an empty one. *)
Record PageRequest := mkPageRequest {
  Key : option (list Z);
  Offset : Z;
  Limit : Z;
  CountTotal : bool;
  Reverse : bool
}.

Record PageResponse := mkPageResponse {
  NextKey : option (list Z);
  Total : Z
}.

#[export] Instance PageResponse_eq_dec : EqDecision PageResponse.
Proof. solve_decision. Defined.

Definition zero_PageRequest : PageRequest := mkPageRequest None 0 0 false false.

Definition is_request (r : PageRequest) : Prop := is_u64 (Offset r) /\ is_u64 (Limit r).

(** * utils/common.go *)
Definition UInt64ToBytes (id : Z) : list Z := PutUint64 id.
Definition BytesToUInt64 (bz : list Z) : outcome Z := Uint64 bz.

Definition err_both : error :=
  ErrNew "invalid request, either offset or key is expected, got both".

Definition key_bytes (k : option (list Z)) : list Z :=
  match k with Some bz => bz | None => [] end.

(** The entries from position [i] on; the guard keeps a huge [i] cheap. *)
Definition from_index {A} (xs : list A) (i : Z) : list A :=
  if decide (Z.of_nat (length xs) <= i) then [] else drop (Z.to_nat i) xs.

Section Indexed.
(** The entries of the listing, the conversion of one entry ([GrabDiff] or
    [GrabTreeContent]) and the accumulator the callback [onResult] updates. *)
Context {T C B : Type}.
Variable grab : T -> outcome C.
Variable onResult : C -> GoM B unit.

(** The loop of the key mode: [for i := BytesToUInt64(key); i < total; i++]. *)
Fixpoint key_loop (xs : list T) (i count limit : Z) : GoM B (option (list Z)) :=
  match xs with
  | [] => mret None
  | x :: xs =>
      if decide (count = limit) then mret (Some (UInt64ToBytes i))
      else
        c ← lift (grab x);
        _ ← onResult c;
        key_loop xs (i + 1) (u64 (count + 1)) limit
  end.

(** The loop of the offset mode: [for i := offset; i < total; i++]. *)
Fixpoint offset_loop (xs : list T) (i end_ : Z) : GoM B (option (list Z)) :=
  match xs with
  | [] => mret None
  | x :: xs =>
      if decide (i < end_) then
        c ← lift (grab x);
        _ ← onResult c;
        offset_loop xs (i + 1) end_
      else if decide (i = u64 (end_ + 1)) then mret (Some (UInt64ToBytes i))
      else offset_loop xs (i + 1) end_
  end.

(** The common body of PaginateTreeContentResponse and PaginateDiffResponse. *)
Definition paginate (entries : list T) (pageRequest : option PageRequest)
    (defaultLimit : Z) : GoM B PageResponse :=
  let total := Z.of_nat (length entries) in
  let req := default zero_PageRequest pageRequest in
  let offset := Offset req in
  let key := Key req in
  if bool_decide (0 < offset) && bool_decide (is_Some key) then fail err_both
  else
    let limit := if decide (Limit req = 0) then defaultLimit else Limit req in
    let countTotal := if decide (Limit req = 0) then true else CountTotal req in
    if decide (key_bytes key <> []) then
      start ← lift (BytesToUInt64 (key_bytes key));
      nextKey ← key_loop (from_index entries start) start 0 limit;
      mret (mkPageResponse nextKey 0)
    else
      let end_ := u64 (offset + limit) in
      nextKey ← offset_loop (from_index entries offset) offset end_;
      mret (mkPageResponse nextKey (if countTotal then total else 0)).
End Indexed.

(** The callback of every caller: [xs = append(xs, &x); return nil]. *)
Definition collect {C} (c : C) : GoM (list C) unit := fun acc => (Val tt, acc ++ [c]).

(** * Directory entries (utils/content.go)

    [TreeEntry] holds what the code reads of go-git's [object.TreeEntry]. *)
Record TreeEntry := mkTreeEntry {
  te_Name : string;
  te_Hash : string;
  te_IsFile : bool
}.

Record Content := mkContent {
  c_Name : string;
  c_Path : string;
  c_Sha : string;
  c_Type : string;
  c_Size : Z;
  c_Content : string;
  c_Encoding : string
}.

#[export] Instance Content_eq_dec : EqDecision Content.
Proof. solve_decision. Defined.

Inductive ContentType := TREE | BLOB.
Definition ContentType_String (c : ContentType) : string :=
  match c with TREE => "TREE" | BLOB => "BLOB" end.

Definition TreeContent (pathPrefix : string) (treeEntry : TreeEntry) : Content :=
  (mkContent (te_Name treeEntry)
         (if decide (pathPrefix = EmptyString) then te_Name treeEntry
          else pathPrefix +:+ "/" +:+ te_Name treeEntry)
         (te_Hash treeEntry)
         (if te_IsFile treeEntry then ContentType_String BLOB else ContentType_String TREE)
         0 EmptyString EmptyString).

(** GrabTreeContent never returns an error. *)
Definition GrabTreeContent (pathPrefix : string) (treeEntry : TreeEntry) : outcome Content :=
  Val (TreeContent pathPrefix treeEntry).

Definition PaginateTreeContentResponse {B} (entries : list TreeEntry)
    (pageRequest : option PageRequest) (defaultLimit : Z) (pathPrefix : string)
    (onResult : Content -> GoM B unit) : GoM B PageResponse :=
  paginate (GrabTreeContent pathPrefix) onResult entries pageRequest defaultLimit.

(** * Diffs (utils/diff.go)

    [Change] holds what [GrabDiff] reads of go-git's [object.Change]: the result of
    [Patch()] (the per-file statistics and the text), the result of [Files()] and
    the two names. *)
Inductive DiffType := MODIFY | ADD | DELETE | RENAME | BINARY | EMPTY.
Definition DiffType_String (d : DiffType) : string :=
  match d with
  | MODIFY => "MODIFY" | ADD => "ADD" | DELETE => "DELETE"
  | RENAME => "RENAME" | BINARY => "BINARY" | EMPTY => "EMPTY"
  end.

Record FileStat := mkFileStat { st_Name : string; st_Addition : Z; st_Deletion : Z }.

Record DiffFile := mkDiffFile { df_Name : string; df_Size : Z; df_IsBinary : bool }.

Record Change := mkChange {
  ch_Patch : res (list FileStat * string);
  ch_Files : option DiffFile * option DiffFile;
  ch_From : string;
  ch_To : string
}.

Record Diff := mkDiff {
  d_FileName : string;
  d_Addition : Z;
  d_Deletion : Z;
  d_Patch : string;
  d_Type : list string;
  d_FileSize : Z
}.

#[export] Instance Diff_eq_dec : EqDecision Diff.
Proof. solve_decision. Defined.

Definition sum_int (xs : list Z) : Z := fold_left (fun a x => i64 (a + x)) xs 0.

(** The second entry of the type list for an added, deleted or modified file. *)
Definition content_mark (binary : bool) (addition deletion : Z) : list string :=
  if binary then [DiffType_String BINARY]
  else if decide (addition = 0 /\ deletion = 0) then [DiffType_String EMPTY]
  else [].

Definition GrabDiff (change : Change) : outcome Diff :=
  '(stats, text) ← of_res (ch_Patch change);
  let addition := sum_int (map st_Addition stats) in
  let deletion := sum_int (map st_Deletion stats) in
  let diff name types size :=
    Val (mkDiff name (u64 addition) (u64 deletion) text types size) in
  match ch_Files change with
  | (None, None) => Panic "nil pointer dereference"
  | (None, Some to) =>
      diff (ch_To change)
        (DiffType_String ADD :: content_mark (df_IsBinary to) addition deletion) (df_Size to)
  | (Some from, None) =>
      diff (ch_From change)
        (DiffType_String DELETE :: content_mark (df_IsBinary from) addition deletion) (df_Size from)
  | (Some from, Some to) =>
      if decide (df_Name from = df_Name to) then
        diff (ch_From change)
          (DiffType_String MODIFY :: content_mark (df_IsBinary from) addition deletion) (df_Size to)
      else
        diff (ch_From change +:+ " -> " +:+ ch_To change)
          (DiffType_String RENAME ::
             (if df_IsBinary from then [DiffType_String BINARY]
              else if decide (addition = 0 /\ deletion = 0) then [DiffType_String EMPTY]
              else [DiffType_String MODIFY])) (df_Size to)
  end.

Definition PaginateDiffResponse {B} (changes : list Change)
    (pageRequest : option PageRequest) (defaultLimit : Z)
    (onResult : Diff -> GoM B unit) : GoM B PageResponse :=
  paginate GrabDiff onResult changes pageRequest defaultLimit.

(** * Commits (utils/commits.go)

    [CommitObj] holds what [GrabCommit] reads of go-git's [object.Commit]. *)
Record Signature := mkSignature { sg_Name : string; sg_Email : string; sg_When : string; sg_Unix : Z }.

Record CommitObj := mkCommitObj {
  co_Hash : string;
  co_Parents : list string;
  co_Message : string;
  co_Author : Signature;
  co_Committer : Signature;
  co_Tree : string
}.

Record Person := mkPerson { p_Name : string; p_Email : string; p_Date : string }.

Record Commit := mkCommit {
  cm_Id : string;
  cm_Title : string;
  cm_Author : Person;
  cm_Committer : Person;
  cm_CreatedAt : Z;
  cm_Message : string;
  cm_Tree : string;
  cm_ParentIds : list string
}.

#[export] Instance Commit_eq_dec : EqDecision Commit.
Proof. assert (EqDecision Person) by solve_decision. solve_decision. Defined.

Definition GrabCommit (c : CommitObj) : Commit :=
  let person s := mkPerson (sg_Name s) (sg_Email s) (sg_When s) in
  let '(title, message) :=
    match Index (co_Message c) (String nl EmptyString) with
    | None => (co_Message c, EmptyString)
    | Some i => (stake i (co_Message c), sdrop (i + 1) (co_Message c))
    end in
  mkCommit (co_Hash c) title (person (co_Author c)) (person (co_Committer c))
    (sg_Unix (co_Committer c)) message (co_Tree c) (co_Parents c).

(** * What a client sees

    [follow] is a client that sends back the [NextKey] of every response until a
    response has none; it collects the entries of all pages. *)
Section Client.
Context {C : Type}.
Variable page : option PageRequest -> GoM (list C) PageResponse.
Variable limit : Z.

Definition key_request (k : list Z) : PageRequest := mkPageRequest (Some k) 0 limit false false.

Fixpoint follow (fuel : nat) (key : option (list Z)) (acc : list C) : outcome (list C) :=
  match key with
  | None => Val acc
  | Some k =>
      match fuel with
      | O => Fail (ErrNew "more pages")
      | S fuel =>
          match page (Some (key_request k)) acc with
          | (Val resp, acc) => follow fuel (NextKey resp) acc
          | (Fail e, _) => Fail e
          | (Panic p, _) => Panic p
          end
      end
  end.

(** The first page in offset mode, the others by key. *)
Definition list_all (fuel : nat) (offset : Z) : outcome (list C) :=
  match page (Some (mkPageRequest None offset limit false false)) [] with
  | (Val resp, acc) => follow fuel (NextKey resp) acc
  | (Fail e, _) => Fail e
  | (Panic p, _) => Panic p
  end.

(** A page function that serves keys exactly lets a client see every remaining
    entry once, in at most [length entries / limit + 1] requests. *)
Lemma follow_exact (entries : list C) bound fuel start acc :
  0 < limit < 2 ^ 64 -> Z.of_nat (length entries) < bound -> bound <= 2 ^ 64 ->
  (forall start acc, 0 <= start < bound ->
     exists total,
     page (Some (key_request (UInt64ToBytes start))) acc =
     (Val (mkPageResponse
             (if decide (start + limit < Z.of_nat (length entries))
              then Some (UInt64ToBytes (start + limit)) else None) total),
      acc ++ take (Z.to_nat limit) (drop (Z.to_nat start) entries))) ->
  0 <= start < bound ->
  Z.of_nat (length entries) <= start + limit * Z.of_nat fuel -> (0 < fuel)%nat ->
  follow fuel (Some (UInt64ToBytes start)) acc = Val (acc ++ drop (Z.to_nat start) entries).
Proof.
  intros Hl Hlen Hbound Hpage. revert start acc.
  induction fuel as [|fuel IH]; intros start acc Hs Hf Hpos; [lia|].
  cbn [follow]. destruct (Hpage start acc Hs) as (total & ->). cbn [NextKey].
  case_decide as Hmore.
  - destruct fuel as [|fuel]; [lia|]. rewrite IH by lia. rewrite <- app_assoc.
    replace (Z.to_nat (start + limit)) with (Z.to_nat start + Z.to_nat limit)%nat by lia.
    rewrite <- drop_drop, take_drop. done.
  - destruct fuel; cbn [follow]; do 2 f_equal; rewrite take_ge;
      done || (rewrite length_drop; lia).
Qed.
End Client.

(** * Lemmas *)
Lemma from_index_drop {A} (xs : list A) i : 0 <= i -> from_index xs i = drop (Z.to_nat i) xs.
Proof.
  intros. unfold from_index. case_decide; [|done].
  rewrite drop_ge; [done|lia].
Qed.

Lemma key_bytes_UInt64 i : key_bytes (Some (UInt64ToBytes i)) <> [].
Proof. done. Qed.

Lemma BytesToUInt64_UInt64ToBytes i : is_u64 i -> BytesToUInt64 (UInt64ToBytes i) = Val i.
Proof.
  intros. unfold BytesToUInt64, UInt64ToBytes. rewrite <- (app_nil_r (PutUint64 i)).
  by apply Uint64_PutUint64.
Qed.

Section Loops.
Context {T C : Type} (grab : T -> outcome C) (g : T -> C).
Context (Hgrab : forall x, grab x = Val (g x)).

Lemma key_loop_spec xs i count limit acc :
  0 <= count <= limit -> limit < 2 ^ 64 ->
  key_loop grab collect xs i count limit acc =
    (Val (if decide (limit - count < Z.of_nat (length xs))
          then Some (UInt64ToBytes (i + (limit - count))) else None),
     acc ++ map g (take (Z.to_nat (limit - count)) xs)).
Proof using Hgrab.
  revert i count acc. induction xs as [|x xs IH]; intros i count acc Hc Hl; simpl.
  { rewrite decide_False by lia. by rewrite take_nil, app_nil_r. }
  case_decide as Heq.
  - rewrite decide_True by lia. subst. rewrite Z.sub_diag, Z.add_0_r. simpl.
    by rewrite app_nil_r.
  - rewrite Hgrab, run_lift_bind, (run_bind_val _ _ _ tt (acc ++ [g x])) by done.
    rewrite u64_id by (unfold is_u64; lia). rewrite IH by lia.
    replace (Z.to_nat (limit - count)) with (S (Z.to_nat (limit - (count + 1)))) by lia.
    simpl. rewrite <- app_assoc. f_equal. f_equal.
    repeat case_decide; try lia; [|done]. do 2 f_equal. lia.
Qed.

Lemma offset_loop_spec xs i end_ acc :
  0 <= i <= end_ -> end_ + 1 < 2 ^ 64 ->
  offset_loop grab collect xs i end_ acc =
    (Val (if decide (end_ + 1 - i < Z.of_nat (length xs))
          then Some (UInt64ToBytes (end_ + 1)) else None),
     acc ++ map g (take (Z.to_nat (end_ - i)) xs)).
Proof using Hgrab.
  intros Hi Hend. assert (Hu : u64 (end_ + 1) = end_ + 1) by (apply u64_id; unfold is_u64; lia).
  revert i acc Hi. induction xs as [|x xs IH]; intros i acc Hi; simpl.
  { rewrite decide_False by lia. by rewrite take_nil, app_nil_r. }
  case_decide as Hlt.
  - rewrite Hgrab, run_lift_bind, (run_bind_val _ _ _ tt (acc ++ [g x])) by done.
    rewrite IH by lia.
    replace (Z.to_nat (end_ - i)) with (S (Z.to_nat (end_ - (i + 1)))) by lia.
    simpl. rewrite <- app_assoc. f_equal. f_equal. repeat case_decide; lia || done.
  - assert (i = end_) as -> by lia. rewrite Z.sub_diag. simpl. rewrite app_nil_r.
    rewrite decide_False by lia.
    destruct xs as [|y xs]; cbn -[UInt64ToBytes].
    { by rewrite decide_False by lia. }
    rewrite decide_False by lia. rewrite Hu. rewrite decide_True by lia.
    by rewrite decide_True by lia.
Qed.

Lemma paginate_key entries dflt limit start :
  is_u64 start -> 0 < limit < 2 ^ 64 -> forall acc,
  paginate grab collect entries (Some (key_request limit (UInt64ToBytes start))) dflt acc =
    (Val (mkPageResponse
            (if decide (start + limit < Z.of_nat (length entries))
             then Some (UInt64ToBytes (start + limit)) else None) 0),
     acc ++ map g (take (Z.to_nat limit) (drop (Z.to_nat start) entries))).
Proof using Hgrab.
  intros Hs Hl acc. unfold paginate, key_request. cbn [default from_option id Offset Key Limit CountTotal].
  rewrite bool_decide_eq_false_2 by lia. cbn [andb].
  rewrite decide_True by apply key_bytes_UInt64.
  rewrite (decide_False (P := limit = 0)) by lia.
  unfold key_bytes. rewrite BytesToUInt64_UInt64ToBytes by done.
  rewrite run_lift_bind, from_index_drop by (unfold is_u64 in *; lia).
  erewrite run_bind_val by (apply key_loop_spec; lia). rewrite !Z.sub_0_r, length_drop.
  unfold is_u64 in *. cbn. do 2 f_equal. repeat case_decide; done || lia.
Qed.

Lemma paginate_offset entries dflt limit offset :
  0 <= offset -> 0 < limit -> offset + limit + 1 < 2 ^ 64 -> forall acc,
  paginate grab collect entries (Some (mkPageRequest None offset limit false false)) dflt acc =
    (Val (mkPageResponse
            (if decide (offset + limit + 1 < Z.of_nat (length entries))
             then Some (UInt64ToBytes (offset + limit + 1)) else None) 0),
     acc ++ map g (take (Z.to_nat limit) (drop (Z.to_nat offset) entries))).
Proof using Hgrab.
  intros Ho Hl Hb acc. unfold paginate. cbn [default from_option id Offset Key Limit CountTotal].
  rewrite (bool_decide_eq_false_2 (is_Some None)) by (by intros [? [=]]).
  rewrite andb_false_r. rewrite (decide_False (P := limit = 0)) by lia.
  rewrite decide_False by (intros H; by apply H).
  rewrite (u64_id (offset + limit)) by (unfold is_u64; lia).
  rewrite from_index_drop by lia.
  erewrite run_bind_val by (apply offset_loop_spec; lia). rewrite length_drop.
  replace (offset + limit - offset) with limit by lia.
  cbn. do 2 f_equal. repeat case_decide; done || lia.
Qed.
End Loops.

Section Walk.
Context {T C : Type} (grab : T -> outcome C) (g : T -> C).
Context (Hgrab : forall x, grab x = Val (g x)).
Context (entries : list T) (dflt limit : Z).
Context (Hlimit : 0 < limit < 2 ^ 64) (Hlen : Z.of_nat (length entries) < 2 ^ 64).

Definition page_of (r : option PageRequest) : GoM (list C) PageResponse :=
  paginate grab collect entries r dflt.

Lemma page_of_follow fuel start acc :
  is_u64 start ->
  Z.of_nat (length entries) <= start + limit * Z.of_nat fuel -> (0 < fuel)%nat ->
  follow page_of limit fuel (Some (UInt64ToBytes start)) acc =
    Val (acc ++ drop (Z.to_nat start) (map g entries)).
Proof using Hgrab Hlimit Hlen.
  intros Hs Hf Hpos. unfold is_u64 in Hs.
  apply follow_exact with (bound := 2 ^ 64); rewrite ?length_map; auto with lia.
  intros start' acc' Hs'. exists 0. unfold page_of.
  rewrite (paginate_key grab g Hgrab) by done.
  by rewrite <- firstn_map, <- skipn_map.
Qed.

(** The offset mode names the entry after the next one as the next key. *)
Lemma page_of_list_all fuel offset :
  0 <= offset -> offset + limit + 1 < 2 ^ 64 ->
  Z.of_nat (length entries) <= limit * Z.of_nat fuel -> (0 < fuel)%nat ->
  list_all page_of limit fuel offset =
    Val (take (Z.to_nat limit) (drop (Z.to_nat offset) (map g entries))
         ++ drop (Z.to_nat (offset + limit + 1)) (map g entries)).
Proof using Hgrab Hlimit Hlen.
  intros Ho Hb Hf Hpos. unfold list_all, page_of.
  rewrite (paginate_offset grab g Hgrab) by lia. cbn [NextKey].
  change (paginate grab collect entries) with (fun r => paginate grab collect entries r).
  case_decide as Hmore.
  - rewrite (page_of_follow fuel (offset + limit + 1)) by (unfold is_u64; lia).
    by rewrite app_nil_l, <- firstn_map, <- skipn_map.
  - destruct fuel; [lia|]; cbn [follow].
    rewrite app_nil_l, <- firstn_map, <- skipn_map. do 2 f_equal.
    rewrite (drop_ge (map g entries) (Z.to_nat (offset + limit + 1))); [by rewrite app_nil_r|].
    rewrite length_map. lia.
Qed.
End Walk.

Lemma map_TrimSpace_hashes (hs : list string) :
  Forall (fun h => no_space h = true) hs -> map TrimSpace (ScanLines (unlines hs)) = hs.
Proof.
  intros H. rewrite ScanLines_unlines by done. induction H as [|h hs Hh Hhs IH]; [done|].
  simpl. by rewrite IH, TrimSpace_id.
Qed.

(** * Properties *)

(** C26: a client of the directory listing that starts from any key and sends back
    the [next_key] of each page receives every entry from that position on, exactly
    once and in order, and the last page carries no key: [length / limit + 1]
    requests are enough. *)
Theorem tree_key_walk_complete entries prefix dflt limit fuel start acc :
  is_u64 start -> 0 < limit < 2 ^ 64 -> Z.of_nat (length entries) < 2 ^ 64 ->
  Z.of_nat (length entries) <= start + limit * Z.of_nat fuel -> (0 < fuel)%nat ->
  follow (fun r => PaginateTreeContentResponse entries r dflt prefix collect) limit fuel
    (Some (UInt64ToBytes start)) acc =
  Val (acc ++ map (TreeContent prefix) (drop (Z.to_nat start) entries)).
Proof.
  intros Hs Hl Hlen Hf Hpos. rewrite <- skipn_map.
  by apply (page_of_follow (GrabTreeContent prefix) (TreeContent prefix) (fun _ => eq_refl)).
Qed.

Definition demo_entries : list TreeEntry :=
  [mkTreeEntry "a" "h1" true; mkTreeEntry "b" "h2" false; mkTreeEntry "c" "h3" true;
   mkTreeEntry "d" "h4" true; mkTreeEntry "e" "h5" true]%string.

Lemma tree_key_walk_complete_witness :
  follow (fun r => PaginateTreeContentResponse demo_entries r 100 "src" collect) 2 3
    (Some (UInt64ToBytes 1)) [] =
  Val ([] ++ map (TreeContent "src") (drop 1 demo_entries)).
Proof.
  apply (tree_key_walk_complete demo_entries "src" 100 2 3 1 []);
    [unfold is_u64; lia|lia|vm_compute; done|vm_compute; done|lia].
Defined.

(** The offset mode names the wrong next key ([end + 1] for [end]): a client
    that asks for the first page by offset and follows the keys never receives the
    entry at position [offset + limit]; when exactly one entry is left no key is
    returned at all. *)
Theorem tree_offset_walk_skips_one entries prefix dflt limit fuel offset :
  0 <= offset -> 0 < limit < 2 ^ 64 -> offset + limit + 1 < 2 ^ 64 ->
  Z.of_nat (length entries) < 2 ^ 64 ->
  Z.of_nat (length entries) <= limit * Z.of_nat fuel -> (0 < fuel)%nat ->
  list_all (fun r => PaginateTreeContentResponse entries r dflt prefix collect) limit fuel offset =
  Val (map (TreeContent prefix) (take (Z.to_nat limit) (drop (Z.to_nat offset) entries)) ++
       map (TreeContent prefix) (drop (Z.to_nat (offset + limit + 1)) entries)).
Proof.
  intros Ho Hl Hb Hlen Hf Hpos. rewrite <- firstn_map, <- !skipn_map.
  by apply (page_of_list_all (GrabTreeContent prefix) (TreeContent prefix) (fun _ => eq_refl)).
Qed.

Lemma tree_offset_walk_skips_one_witness :
  list_all (fun r => PaginateTreeContentResponse demo_entries r 100 EmptyString collect) 2 3 0 =
  Val (map (TreeContent EmptyString) (take 2 (drop 0 demo_entries)) ++
       map (TreeContent EmptyString) (drop 3 demo_entries)).
Proof.
  apply (tree_offset_walk_skips_one demo_entries EmptyString 100 2 3 0);
    try lia; vm_compute; done.
Defined.
