(* ===== verification/StorageFee.v ===== *)
(** Storage charges (utils/storage_fee.go).

    The decimals and coins of the cosmos SDK are an interface: the class [SdkMath]
    holds the operations the code calls and the laws it relies on. *)

From S2P Require Import Prelude GoInt.

(** * The decimal arithmetic of the cosmos SDK

    [sdk.NewDec], [sdk.NewDecFromInt], [Dec.Mul] and [Dec.TruncateInt]; an operation
    that panics on overflow answers [Panic]. *)
Class SdkMath := {
  Dec : Type;
  NewDec : Z -> Dec;
  NewDecFromInt : Z -> Dec;
  Mul : Dec -> Dec -> outcome Dec;
  TruncateInt : Dec -> outcome Z
}.

(** [sdk.Dec] is exact on integers as long as the product fits its 256 bits. *)
Class SdkMathLaws (M : SdkMath) : Prop := {
  dec_mul_int : forall n a, 0 <= n -> 0 <= a -> n * a < 2 ^ 256 ->
    exists d, Mul (NewDec n) (NewDecFromInt a) = Val d /\ TruncateInt d = Val (n * a)
}.

Record Coin := mkCoin { Denom : string; Amount : Z }.

#[export] Instance Coin_eq_dec : EqDecision Coin.
Proof. solve_decision. Defined.

(** [sdk.NewCoin] panics on a negative amount. *)
Definition NewCoin (denom : string) (amount : Z) : outcome Coin :=
  if decide (amount < 0) then Panic "negative coin amount" else Val (mkCoin denom amount).

(** The parameters of the storage module the code reads. *)
Record Params := mkParams { FreeStorageMb : Z; StoragePricePerGb : Coin }.

Record StorageCostInfo := mkStorageCostInfo {
  StorageCharge : Coin;
  CurrentUsage : Z;
  NewUsage : Z;
  FreeLimit : Z
}.

Section StorageFee.
Context {M : SdkMath}.

(** Charge for whole gibibytes: [int64(float64(bytes) / (1024*1024*1024))] times
    the price. *)
Definition charge_for (price : Coin) (bytes : Z) : outcome Coin :=
  let gb := i64 (float64_shift bytes 30) in
  chargeAmount ← Mul (NewDec gb) (NewDecFromInt (Amount price));
  amount ← TruncateInt chargeAmount;
  NewCoin (Denom price) amount.

Definition CalculateStorageCost (currentUsage newUsage : Z) (storageParams : Params) :
    outcome StorageCostInfo :=
  let freeStorageBytes := u64 (u64 (FreeStorageMb storageParams * 1024) * 1024) in
  let price := StoragePricePerGb storageParams in
  let info charge := mkStorageCostInfo charge currentUsage newUsage freeStorageBytes in
  if decide (freeStorageBytes < currentUsage) then
    let diff := u64 (newUsage - currentUsage) in
    if decide (diff <= 0) then
      charge ← NewCoin (Denom price) 0; Val (info charge)
    else
      charge ← charge_for price diff; Val (info charge)
  else if decide (newUsage <= freeStorageBytes) then
    charge ← NewCoin (Denom price) 0; Val (info charge)
  else
    let excessBytes := u64 (newUsage - freeStorageBytes) in
    charge ← charge_for price excessBytes; Val (info charge).
End StorageFee.

(** * The charge, as the module's documentation describes it

    Usage up to the free limit is free; above it every whole gibibyte that was added
    costs the price. *)
Definition billable (currentUsage newUsage free : Z) : Z :=
  Z.max 0 (newUsage - Z.max currentUsage free).
Definition spec_charge (price free currentUsage newUsage : Z) : Z :=
  billable currentUsage newUsage free / 2 ^ 30 * price.

(** * Lemmas *)
Lemma free_bytes_id mb :
  0 <= mb -> mb * 2 ^ 20 < 2 ^ 64 -> u64 (u64 (mb * 1024) * 1024) = mb * 2 ^ 20.
Proof.
  intros H1 H2. rewrite (u64_id (mb * 1024)) by (unfold is_u64; lia).
  rewrite u64_id by (unfold is_u64; lia). lia.
Qed.

Lemma gb_of_bytes b : 0 <= b < 2 ^ 53 -> i64 (float64_shift b 30) = b / 2 ^ 30.
Proof.
  intros Hb. unfold float64_shift. rewrite float64_exact by done.
  apply i64_id. unfold is_i64.
  assert (0 <= b / 2 ^ 30 < 2 ^ 23); [|lia].
  split; [apply Z.div_pos; lia|apply Z.div_lt_upper_bound; lia].
Qed.

Section Charge.
Context {M : SdkMath} {L : SdkMathLaws M}.

Lemma charge_for_gb price b g :
  i64 (float64_shift b 30) = g -> 0 <= g < 2 ^ 35 -> 0 <= Amount price < 2 ^ 128 ->
  charge_for price b = Val (mkCoin (Denom price) (g * Amount price)).
Proof.
  intros Hg Hr Hp. unfold charge_for. rewrite Hg.
  destruct (dec_mul_int g (Amount price)) as (d & Hm & Ht); [lia|lia|nia|].
  rewrite Hm. cbn. rewrite Ht. cbn. unfold NewCoin. rewrite decide_False; [done|nia].
Qed.
End Charge.

(** A concrete decimal: an integer scaled by 10^18, of at most 316 bits, whose
    integer part is an [sdk.Int] of at most 256 bits. *)
#[export] Instance scaled_dec : SdkMath := {
  Dec := Z;
  NewDec n := n * 10 ^ 18;
  NewDecFromInt n := n * 10 ^ 18;
  Mul a b := if decide (Z.abs (a * b / 10 ^ 18) < 2 ^ 316) then Val (a * b / 10 ^ 18)
             else Panic "Int overflow";
  TruncateInt d := if decide (Z.abs (d / 10 ^ 18) < 2 ^ 256) then Val (d / 10 ^ 18)
                   else Panic "Int overflow"
}.

#[export] Instance scaled_dec_laws : SdkMathLaws scaled_dec.
Proof.
  constructor. intros n a Hn Ha Hlt. simpl.
  replace (n * 10 ^ 18 * (a * 10 ^ 18)) with (n * a * 10 ^ 18 * 10 ^ 18) by ring.
  rewrite Z.div_mul by lia.
  assert (Hpos : 0 <= n * a) by nia.
  assert (n * a * 10 ^ 18 < 2 ^ 316).
  { apply Z.lt_le_trans with (2 ^ 256 * 10 ^ 18); [|lia].
    apply Z.mul_lt_mono_pos_r; lia. }
  exists (n * a * 10 ^ 18). rewrite decide_True by (rewrite Z.abs_eq; lia).
  rewrite Z.div_mul by lia. rewrite decide_True by (rewrite Z.abs_eq; lia). done.
Qed.

(** * Properties *)

(** C23: as long as the usage does not shrink, the charge is the number of whole
    gibibytes added above the free limit times the price per gibibyte (an addition
    of less than one gibibyte is free), and no operation panics. (For usages and a free
    limit below 2^53 bytes, where float64 is exact, and a price below 2^128.) *)
Theorem CalculateStorageCost_spec {M : SdkMath} {L : SdkMathLaws M} cur new params :
  0 <= FreeStorageMb params -> FreeStorageMb params * 2 ^ 20 < 2 ^ 53 ->
  0 <= Amount (StoragePricePerGb params) < 2 ^ 128 ->
  0 <= cur <= new -> new < 2 ^ 53 ->
  let free := FreeStorageMb params * 2 ^ 20 in
  CalculateStorageCost cur new params =
  Val (mkStorageCostInfo
         (mkCoin (Denom (StoragePricePerGb params))
            (spec_charge (Amount (StoragePricePerGb params)) free cur new))
         cur new free).
Proof.
  intros Hf0 Hf Hp Hc Hn free. unfold CalculateStorageCost, spec_charge, billable.
  rewrite free_bytes_id by lia. fold free.
  assert (Hcharge : forall b, 0 <= b < 2 ^ 53 ->
    charge_for (StoragePricePerGb params) b =
    Val (mkCoin (Denom (StoragePricePerGb params)) (b / 2 ^ 30 * Amount (StoragePricePerGb params)))).
  { intros b Hb. apply charge_for_gb; [by apply gb_of_bytes| |done].
    split; [apply Z.div_pos; lia|apply Z.div_lt_upper_bound; lia]. }
  case_decide as Hcur; [|case_decide as Hnew].
  - rewrite (Z.max_l cur free), (Z.max_r 0 (new - cur)) by lia.
    rewrite u64_id by (unfold is_u64; lia).
    case_decide as Hd.
    + replace (new - cur) with 0 by lia. done.
    + rewrite Hcharge by lia. done.
  - rewrite (Z.max_r cur free), (Z.max_l 0 (new - free)) by lia. done.
  - rewrite (Z.max_r cur free) by lia. rewrite u64_id by (unfold is_u64; subst free; lia).
    rewrite (Z.max_r 0 (new - free)) by lia. rewrite Hcharge by (subst free; lia). done.
Qed.

Definition demo_params : Params := mkParams 100 (mkCoin "ulore" 5000).

Lemma CalculateStorageCost_spec_witness :
  CalculateStorageCost (50 * 2 ^ 20) (5 * 2 ^ 30) demo_params =
  Val (mkStorageCostInfo (mkCoin "ulore" (spec_charge 5000 (100 * 2 ^ 20) (50 * 2 ^ 20) (5 * 2 ^ 30)))
         (50 * 2 ^ 20) (5 * 2 ^ 30) (100 * 2 ^ 20)).
Proof. apply (CalculateStorageCost_spec (50 * 2 ^ 20) (5 * 2 ^ 30) demo_params); simpl; lia. Defined.

(** The guard [diff <= 0] is on an unsigned difference, so it only holds for
    an equal usage: an account above its free limit whose usage shrinks is charged
    for about 2^34 gibibytes. *)
Theorem CalculateStorageCost_shrink_charges {M : SdkMath} {L : SdkMathLaws M} cur new params :
  0 <= FreeStorageMb params -> FreeStorageMb params * 2 ^ 20 < cur ->
  0 <= Amount (StoragePricePerGb params) < 2 ^ 128 ->
  0 <= new < cur -> cur < 2 ^ 53 ->
  exists gb,
    2 ^ 34 - 2 ^ 24 <= gb <= 2 ^ 34 /\
    CalculateStorageCost cur new params =
    Val (mkStorageCostInfo
           (mkCoin (Denom (StoragePricePerGb params)) (gb * Amount (StoragePricePerGb params)))
           cur new (FreeStorageMb params * 2 ^ 20)).
Proof.
  intros Hf0 Hf Hp Hc Hn. unfold CalculateStorageCost.
  rewrite free_bytes_id by lia. rewrite decide_True by lia.
  assert (Hd : u64 (new - cur) = 2 ^ 64 - (cur - new)).
  { unfold u64. rewrite <- (Z.mod_small (2 ^ 64 - (cur - new)) (2 ^ 64)) by lia.
    replace (2 ^ 64 - (cur - new)) with (new - cur + 1 * 2 ^ 64) by lia. by rewrite Z_mod_plus_full. }
  rewrite Hd. rewrite decide_False by lia.
  set (b := 2 ^ 64 - (cur - new)).
  assert (Hb : 2 ^ 64 - 2 ^ 53 < b < 2 ^ 64) by (subst b; lia).
  assert (Hfl : b - 2 ^ 11 <= float64 b <= b + 2 ^ 11).
  { unfold float64. rewrite decide_False by lia.
    assert (Hlog : Z.log2 b = 63) by (apply Z.log2_unique; lia). rewrite Hlog.
    change (63 - 52) with 11. pose proof (Z.div_mod b (2 ^ 11)). pose proof (Z.mod_pos_bound b (2 ^ 11)).
    repeat case_decide; try destruct (Z.even _); lia. }
  assert (Hgb : 2 ^ 34 - 2 ^ 24 <= float64 b / 2 ^ 30 <= 2 ^ 34).
  { split; [apply Z.div_le_lower_bound; lia|].
    assert (float64 b / 2 ^ 30 < 2 ^ 34 + 1); [|lia]. apply Z.div_lt_upper_bound; lia. }
  exists (float64 b / 2 ^ 30). split; [done|].
  rewrite (charge_for_gb _ _ (float64 b / 2 ^ 30)); [done| |lia|done].
  unfold float64_shift. apply i64_id. unfold is_i64. lia.
Qed.

Lemma CalculateStorageCost_shrink_charges_witness :
  exists gb,
    2 ^ 34 - 2 ^ 24 <= gb <= 2 ^ 34 /\
    CalculateStorageCost (300 * 2 ^ 20) (299 * 2 ^ 20) demo_params =
    Val (mkStorageCostInfo (mkCoin "ulore" (gb * 5000)) (300 * 2 ^ 20) (299 * 2 ^ 20) (100 * 2 ^ 20)).
Proof.
  apply (CalculateStorageCost_shrink_charges (300 * 2 ^ 20) (299 * 2 ^ 20) demo_params); simpl; lia.
Defined.
