(* ===== verification/Merkle.v ===== *)
(** Chunk hashes, Merkle roots and proofs (pkg/merkleproof/merkleproof.go).

    go-merkletree is an interface (class [MerkleTree] with its laws); [sha256] is any
    function on byte sequences. *)

From S2P Require Import Prelude GoInt.

Definition bytes := list Z.

Definition DefaultChunkSize : Z := 256 * 1024.

(** * Files

    What [files.File] offers to the code: the size it declares, and a reader that
    delivers [f_data] and then answers [f_end] ([io.EOF] for a complete file). *)
Definition io_EOF : error := ErrNew "EOF".
Definition io_ErrUnexpectedEOF : error := ErrNew "unexpected EOF".

Record File := mkFile {
  f_Size : res Z;
  f_data : bytes;
  f_end : error
}.

Definition well_formed_file (data : bytes) : File :=
  mkFile (Ok (Z.of_nat (length data))) data io_EOF.

(** [io.ReadFull(r, buf)] with [len(buf) = n]: the bytes read, the error and the
    rest of the stream. *)
Definition ReadFull (data : bytes) (end_ : error) (n : nat) : bytes * option error * bytes :=
  let got := take n data in
  if decide (length got = n) then (got, None, drop n data)
  else
    let err := if decide (got = []) then end_
               else if decide (end_ = io_EOF) then io_ErrUnexpectedEOF else end_ in
    (got, Some err, []).

(** * Merkle trees (go-merkletree) *)
Class MerkleTree := {
  Tree : Type;
  Proof_ : Type;
  NewTree : list bytes -> res Tree;
  Root : Tree -> bytes;
  TreeGenerateProof : Tree -> bytes -> res Proof_;
  ProofHashes : Proof_ -> list bytes;
  ProofIndex : Proof_ -> Z;
  VerifyProofUsing : bytes -> Proof_ -> list bytes -> res bool
}.

(** A tree can be built from a non-empty list of data, the proof of a datum in the
    tree exists and verifies against the root. *)
Class MerkleTreeLaws (M : MerkleTree) : Prop := {
  tree_build : forall data, data <> [] -> exists t, NewTree data = Ok t;
  tree_prove : forall data t d, NewTree data = Ok t -> d ∈ data ->
    exists p, TreeGenerateProof t d = Ok p /\ VerifyProofUsing d p [Root t] = Ok true
}.

Section Merkle.
Variable sha256 : bytes -> bytes.

(** ** The loop of computeChunkHashes

    [fuel] bounds the number of iterations: each one advances the offset by at
    least one chunk or reaches the end. *)
Fixpoint chunk_loop (fuel : nat) (data : bytes) (end_ : error)
    (offset fileSize chunkSize : Z) (hashes : list bytes) : outcome (list bytes) :=
  if decide (fileSize <= offset) then Val hashes
  else
    match fuel with
    | O => Fail (ErrNew "out of fuel")
    | S fuel =>
        let currentChunkSize := Z.min chunkSize (fileSize - offset) in
        let '(chunk, err, rest) := ReadFull data end_ (Z.to_nat currentChunkSize) in
        match err with
        | Some e =>
            if decide (e <> io_EOF) then Fail (ErrWrap "failed to read chunk" e)
            else Fail (ErrNew "short read")
        | None =>
            chunk_loop fuel rest end_ (offset + currentChunkSize) fileSize chunkSize
              (hashes ++ [sha256 chunk])
        end
    end.

Definition computeChunkHashes (file : File) (chunkSize : Z) : outcome (list bytes) :=
  match f_Size file with
  | Er e => Fail (ErrWrap "failed to get file size" e)
  | Ok fileSize =>
      let numChunks := Z.quot (i64 (fileSize + chunkSize - 1)) chunkSize in
      if decide (numChunks = 0) then Fail (ErrNew "empty file")
      else if decide (numChunks < 0) then Panic "makeslice: cap out of range"
      else chunk_loop (Z.to_nat numChunks) (f_data file) (f_end file) 0 fileSize chunkSize []
  end.

Context {M : MerkleTree}.

Definition ComputeMerkleRoot (file : File) : outcome bytes :=
  chunkHashes ← wrap "failed to compute chunk hashes" (computeChunkHashes file DefaultChunkSize);
  tree ← wrap "failed to create merkle tree" (of_res (NewTree chunkHashes));
  Val (Root tree).

(** The index is a uint64; an index past the last chunk is a run-time panic. *)
Definition GenerateProof (file : File) (chunkIndex : Z) : outcome (Proof_ * bytes * bytes) :=
  chunkHashes ← wrap "failed to compute chunk hashes" (computeChunkHashes file DefaultChunkSize);
  tree ← wrap "failed to create merkle tree" (of_res (NewTree chunkHashes));
  if decide (Z.of_nat (length chunkHashes) <= chunkIndex) then Panic "index out of range"
  else
    chunk ← index chunkHashes (Z.to_nat chunkIndex);
    proof ← wrap "failed to generate proof for chunk" (of_res (TreeGenerateProof tree chunk));
    Val (proof, Root tree, chunk).

Definition VerifyProof (chunkHash : bytes) (proof : option Proof_) (root : bytes) : res bool :=
  match proof with
  | None => Er (ErrNew "nil proof")
  | Some proof =>
      match VerifyProofUsing chunkHash proof [root] with
      | Er e => Er (ErrWrap "failed to verify proof" e)
      | Ok verified => Ok verified
      end
  end.
End Merkle.

(** * Reference: a sequence cut in pieces of [c] bytes *)
Fixpoint chunks (fuel : nat) (c : nat) (data : bytes) : list bytes :=
  match fuel, data with
  | _, [] | O, _ => []
  | S fuel, _ => take c data :: chunks fuel c (drop c data)
  end.
Definition chunks_of (c : Z) (data : bytes) : list bytes :=
  chunks (length data) (Z.to_nat c) data.

Definition num_chunks (c n : Z) : Z := (n + c - 1) / c.

(** * Lemmas *)
Lemma ReadFull_enough data e n :
  (n <= length data)%nat -> ReadFull data e n = (take n data, None, drop n data).
Proof. intros H. unfold ReadFull. rewrite decide_True; [done|]. rewrite length_take. lia. Qed.

Lemma ReadFull_short data e n :
  (length data < n)%nat -> exists e', ReadFull data e n = (data, Some e', []).
Proof.
  intros H. unfold ReadFull. rewrite take_ge by lia. rewrite decide_False by lia. by eexists.
Qed.

Lemma concat_chunks fuel c data :
  (0 < c)%nat -> (length data <= fuel)%nat -> concat (chunks fuel c data) = data.
Proof.
  intros Hc. revert data. induction fuel as [|fuel IH]; intros data Hl.
  { destruct data; simpl in *; [done|lia]. }
  destruct data as [|x data]; [done|].
  cbn [chunks concat]. rewrite IH; [apply take_drop|].
  rewrite length_drop. simpl in *. lia.
Qed.

Lemma chunks_fuel fuel fuel' c data :
  (0 < c)%nat -> (length data <= fuel)%nat -> (length data <= fuel')%nat ->
  chunks fuel c data = chunks fuel' c data.
Proof.
  intros Hc. revert fuel' data. induction fuel as [|fuel IH]; intros fuel' data H1 H2.
  { destruct data; simpl in *; [by destruct fuel'|lia]. }
  destruct data as [|x data]; [by destruct fuel'|].
  destruct fuel' as [|fuel']; [simpl in *; lia|].
  cbn [chunks]. f_equal. apply IH; rewrite length_drop; simpl in *; lia.
Qed.

Lemma num_chunks_step c n : 0 < c -> c < n -> num_chunks c n = 1 + num_chunks c (n - c).
Proof.
  intros Hc Hn. unfold num_chunks.
  replace (n + c - 1) with (n - c + c - 1 + 1 * c) by lia. rewrite Z.div_add by lia. lia.
Qed.

Lemma num_chunks_last c n : 0 < n <= c -> num_chunks c n = 1.
Proof. intros H. unfold num_chunks. symmetry. apply (Z.div_unique _ _ 1 (n - 1)); lia. Qed.

Lemma num_chunks_pos c n : 0 < c -> 0 < n -> 0 < num_chunks c n.
Proof. intros. unfold num_chunks. apply Z.div_str_pos. lia. Qed.

Lemma num_chunks_le c n : 0 < c -> 0 <= n -> num_chunks c n <= n.
Proof.
  intros Hc Hn. unfold num_chunks.
  destruct (decide (n = 0)) as [->|]; [rewrite Z.div_small; lia|].
  assert ((n + c - 1) / c < n + 1); [|lia]. apply Z.div_lt_upper_bound; nia.
Qed.

Lemma length_chunks_fuel n c data :
  0 < c -> (length data <= n)%nat ->
  Z.of_nat (length (chunks n (Z.to_nat c) data)) = num_chunks c (Z.of_nat (length data)).
Proof.
  intros Hc. revert data. induction n as [|n IH]; intros data Hle.
  { destruct data; simpl in *; [|lia]. unfold num_chunks. rewrite Z.div_small; lia. }
  destruct data as [|x data].
  { cbn [chunks length]. unfold num_chunks. rewrite Z.div_small; simpl; lia. }
  cbn [chunks]. rewrite length_cons, Nat2Z.inj_succ.
  rewrite IH by (rewrite length_drop; simpl in *; lia). rewrite length_drop.
  destruct (decide (Z.of_nat (length (x :: data)) <= c)).
  - rewrite (num_chunks_last c (Z.of_nat (length (x :: data)))) by (simpl in *; lia).
    replace (length (x :: data) - Z.to_nat c)%nat with 0%nat by lia.
    unfold num_chunks. rewrite Z.div_small; simpl; lia.
  - rewrite (num_chunks_step c (Z.of_nat (length (x :: data)))) by lia.
    replace (Z.of_nat (length (x :: data) - Z.to_nat c)) with (Z.of_nat (length (x :: data)) - c) by lia.
    lia.
Qed.

Lemma length_chunks c data :
  0 < c -> Z.of_nat (length (chunks_of c data)) = num_chunks c (Z.of_nat (length data)).
Proof. intros. by apply length_chunks_fuel. Qed.

(** The number of chunks is computed without overflow for files that are a chunk smaller
    than the largest int64. *)
Lemma num_chunks_i64 c n :
  0 < c -> 0 <= n -> n + c <= 2 ^ 63 -> Z.quot (i64 (n + c - 1)) c = num_chunks c n.
Proof. intros. rewrite i64_id by (unfold is_i64; lia). apply Z.quot_div_nonneg; lia. Qed.

Section Hashes.
Variable sha256 : bytes -> bytes.

(** The loop on a stream that holds the declared bytes (and maybe more). *)
Lemma chunk_loop_spec fuel data e offset size c acc :
  0 < c -> 0 <= offset <= size -> size - offset <= Z.of_nat (length data) ->
  num_chunks c (size - offset) <= Z.of_nat fuel ->
  chunk_loop sha256 fuel data e offset size c acc =
    Val (acc ++ map sha256 (chunks_of c (take (Z.to_nat (size - offset)) data))).
Proof.
  intros Hc. revert data offset acc. induction fuel as [|fuel IH]; intros data offset acc Ho Hlen Hf.
  - destruct (decide (size <= offset)) as [Hle|Hlt].
    + cbn [chunk_loop]. rewrite decide_True by done. replace (Z.to_nat (size - offset)) with 0%nat by lia.
      simpl. by rewrite app_nil_r.
    + pose proof (num_chunks_pos c (size - offset)). lia.
  - destruct (decide (size <= offset)) as [Hle|Hlt].
    { cbn [chunk_loop]. rewrite decide_True by done. replace (Z.to_nat (size - offset)) with 0%nat by lia.
      simpl. by rewrite app_nil_r. }
    cbn [chunk_loop]. rewrite decide_False by lia.
    set (cur := Z.min c (size - offset)). rewrite ReadFull_enough by lia.
    rewrite IH; [|lia|rewrite length_drop; lia|].
    2: { destruct (decide (size - offset <= c)).
         - replace (size - (offset + cur)) with 0 by lia.
           unfold num_chunks. rewrite Z.div_small by lia. lia.
         - rewrite num_chunks_step in Hf by lia.
           replace (size - (offset + cur)) with (size - offset - c) by lia. lia. }
    rewrite <- app_assoc. do 2 f_equal.
    set (n := Z.to_nat (size - offset)). set (k := Z.to_nat (size - (offset + cur))).
    unfold chunks_of. rewrite (chunks_fuel _ (S (length (take n data))) _ (take n data)) by lia.
    destruct (take n data) as [|x l] eqn:El.
    { apply (f_equal length) in El. rewrite length_take in El. simpl in El. lia. }
    cbn [chunks map app]. rewrite <- El. f_equal.
    + f_equal. rewrite take_take. f_equal. lia.
    + f_equal. rewrite take_drop_commute.
      replace (Z.to_nat cur + k)%nat with n by lia.
      destruct (decide (size - offset <= c)).
      * rewrite !drop_ge by (rewrite length_take; lia). by destruct (length (take n data)).
      * replace (Z.to_nat cur) with (Z.to_nat c) by lia.
        apply chunks_fuel; rewrite ?length_drop; lia || (rewrite El; lia).
Qed.

Lemma computeChunkHashes_prefix data e size c :
  0 < c -> 0 < size -> size <= Z.of_nat (length data) -> size + c <= 2 ^ 63 ->
  computeChunkHashes sha256 (mkFile (Ok size) data e) c =
    Val (map sha256 (chunks_of c (take (Z.to_nat size) data))).
Proof.
  intros Hc Hs Hl Hb. unfold computeChunkHashes. cbn [f_Size f_data f_end].
  rewrite num_chunks_i64 by lia.
  pose proof (num_chunks_pos c size Hc Hs).
  rewrite decide_False by lia. rewrite decide_False by lia.
  rewrite chunk_loop_spec by (rewrite ?Z.sub_0_r; lia). by rewrite Z.sub_0_r.
Qed.

Lemma computeChunkHashes_whole data c :
  0 < c -> data <> [] -> Z.of_nat (length data) + c <= 2 ^ 63 ->
  computeChunkHashes sha256 (well_formed_file data) c = Val (map sha256 (chunks_of c data)).
Proof.
  intros Hc Hne Hb. unfold well_formed_file. rewrite computeChunkHashes_prefix by
    (done || (destruct data; [done|simpl; lia])).
  by rewrite Nat2Z.id, take_ge.
Qed.

(** A stream shorter than the declared size is an error, whatever the size. *)
Lemma chunk_loop_short fuel data e offset size c acc :
  0 < c -> 0 <= offset -> Z.of_nat (length data) < size - offset ->
  exists err, chunk_loop sha256 fuel data e offset size c acc = Fail err.
Proof.
  intros Hc. revert data offset acc. induction fuel as [|fuel IH]; intros data offset acc Ho Hlen;
    cbn [chunk_loop]; rewrite decide_False by lia; [by eexists|].
  set (cur := Z.min c (size - offset)).
  destruct (decide (Z.to_nat cur <= length data)%nat).
  - rewrite ReadFull_enough by done. apply IH; [lia|rewrite length_drop; lia].
  - destruct (ReadFull_short data e (Z.to_nat cur)) as (e' & ->); [lia|].
    case_decide; by eexists.
Qed.
End Hashes.

(** * Properties *)

(** Hashing a complete file of at least one byte succeeds (the loop ends) and
    yields the hashes of the chunks of the file: the chunks put together are the
    file and their number is the file size divided by the chunk size, rounded up. *)
Theorem computeChunkHashes_complete sha256 data c :
  0 < c -> data <> [] -> Z.of_nat (length data) + c <= 2 ^ 63 ->
  computeChunkHashes sha256 (well_formed_file data) c = Val (map sha256 (chunks_of c data)) /\
  concat (chunks_of c data) = data /\
  Z.of_nat (length (chunks_of c data)) = num_chunks c (Z.of_nat (length data)).
Proof.
  intros Hc Hne Hb. split; [|split].
  - by apply computeChunkHashes_whole.
  - apply concat_chunks; lia.
  - by apply length_chunks.
Qed.

Lemma computeChunkHashes_complete_witness :
  computeChunkHashes (fun b => b ++ b) (well_formed_file [1; 2; 3; 4; 5]) 2 =
    Val (map (fun b => b ++ b) (chunks_of 2 [1; 2; 3; 4; 5])) /\
  concat (chunks_of 2 [1; 2; 3; 4; 5]) = [1; 2; 3; 4; 5] /\
  Z.of_nat (length (chunks_of 2 [1; 2; 3; 4; 5])) = num_chunks 2 5.
Proof. apply (computeChunkHashes_complete (fun b => b ++ b) [1; 2; 3; 4; 5] 2); [lia|done|simpl; lia]. Defined.

(** No hash list is produced for an empty file or for a file that delivers
    fewer bytes than it declares, whatever the error its reader ends with. *)
Theorem computeChunkHashes_short_file sha256 data e size c :
  0 < c -> 0 <= size -> size + c <= 2 ^ 63 -> Z.of_nat (length data) < size \/ size = 0 ->
  exists err, computeChunkHashes sha256 (mkFile (Ok size) data e) c = Fail err.
Proof.
  intros Hc Hs Hb [Hshort| ->]; unfold computeChunkHashes; cbn [f_Size f_data f_end];
    rewrite num_chunks_i64 by lia.
  - pose proof (num_chunks_pos c size Hc). rewrite decide_False by lia. rewrite decide_False by lia.
    apply chunk_loop_short; lia.
  - rewrite decide_True by (apply Z.div_small; lia). by eexists.
Qed.

Lemma computeChunkHashes_short_file_witness :
  exists err, computeChunkHashes (fun b => b) (mkFile (Ok 9) [1; 2; 3] io_EOF) 2 = Fail err.
Proof. apply (computeChunkHashes_short_file (fun b => b) [1; 2; 3] io_EOF 9 2); simpl; lia. Defined.

(** A file that declares a size within a chunk of the largest int64 makes the number of
    chunks wrap around, and the code panics when it allocates the hashes. *)
Theorem computeChunkHashes_overflow sha256 data e size c :
  0 < c -> is_i64 size -> 2 ^ 63 < size + c -> 2 * c <= 2 ^ 63 ->
  computeChunkHashes sha256 (mkFile (Ok size) data e) c = Panic "makeslice: cap out of range".
Proof.
  unfold is_i64. intros Hc Hs Hb Hc2. unfold computeChunkHashes. cbn [f_Size].
  assert (Hw : i64 (size + c - 1) = - (2 ^ 64 - (size + c - 1))).
  { unfold i64. rewrite <- (Z_mod_plus_full _ (-1)), Z.mod_small by lia. lia. }
  pose proof (Z.quot_str_pos (2 ^ 64 - (size + c - 1)) c) as Hq.
  rewrite Hw, Z.quot_opp_l by lia. rewrite decide_False by lia. by rewrite decide_True by lia.
Qed.

(** A tree that is its list of data, with the datum as its own proof. *)
#[export] Instance list_tree : MerkleTree := {
  Tree := list bytes;
  Proof_ := list bytes;
  NewTree data := match data with [] => Er (ErrNew "no data") | _ => Ok data end;
  Root t := concat t;
  TreeGenerateProof t d := if decide (d ∈ t) then Ok t else Er (ErrNew "data not found");
  ProofHashes p := p;
  ProofIndex p := 0;
  VerifyProofUsing d p roots := Ok (bool_decide (d ∈ p) && bool_decide (concat p ∈ roots))
}.

#[export] Instance list_tree_laws : MerkleTreeLaws list_tree.
Proof.
  constructor.
  - intros [|d data] H; [done|]. by exists (d :: data).
  - intros data t d Ht Hd. simpl in *. assert (t = data) as -> by (destruct data; congruence).
    exists data. rewrite decide_True by done. split; [done|].
    rewrite !bool_decide_eq_true_2; [done|set_solver|done].
Qed.

(** A proof that is generated verifies, for whatever file. *)
Lemma GenerateProof_sound {M : MerkleTree} {L : MerkleTreeLaws M} sha256 file i proof root chunk :
  GenerateProof sha256 file i = Val (proof, root, chunk) -> VerifyProof chunk (Some proof) root = Ok true.
Proof.
  unfold GenerateProof, VerifyProof. destruct (computeChunkHashes _ _ _) as [hs|e|p]; [|done..].
  cbn [wrap mbind outcome_bind]. destruct (NewTree hs) as [t|e] eqn:Ht; [|done].
  cbn [of_res wrap mbind outcome_bind]. destruct (decide _); [done|]. unfold index.
  destruct (hs !! Z.to_nat i) as [c|] eqn:Hc; [|done]. cbn [mbind outcome_bind].
  destruct (tree_prove hs t c Ht (list_elem_of_lookup_2 _ _ _ Hc)) as (p & Hp & Hv). rewrite Hp.
  cbn [of_res wrap mbind outcome_bind]. intros [= <- <- <-]. by rewrite Hv.
Qed.

Lemma GenerateProof_complete {M : MerkleTree} {L : MerkleTreeLaws M} sha256 data i chunk :
  chunks_of DefaultChunkSize data !! i = Some chunk ->
  Z.of_nat (length data) + DefaultChunkSize <= 2 ^ 63 ->
  exists proof root,
    GenerateProof sha256 (well_formed_file data) (Z.of_nat i) = Val (proof, root, sha256 chunk) /\
    ComputeMerkleRoot sha256 (well_formed_file data) = Val root /\
    VerifyProof (sha256 chunk) (Some proof) root = Ok true.
Proof.
  intros Hi Hb. assert (Hne : data <> []) by (by intros ->).
  assert (Hh : map sha256 (chunks_of DefaultChunkSize data) !! i = Some (sha256 chunk))
    by (by rewrite list_lookup_fmap, Hi).
  destruct (tree_build (map sha256 (chunks_of DefaultChunkSize data))) as (t & Ht);
    [intros E; by rewrite E in Hh|].
  destruct (tree_prove _ t (sha256 chunk) Ht (list_elem_of_lookup_2 _ _ _ Hh)) as (p & Hp & Hv).
  exists p, (Root t). unfold GenerateProof, ComputeMerkleRoot, VerifyProof.
  rewrite computeChunkHashes_whole by (done || (unfold DefaultChunkSize; lia)). cbn [wrap mbind outcome_bind]. rewrite Ht. cbn [of_res wrap mbind outcome_bind].
  pose proof (lookup_lt_Some _ _ _ Hh).
  rewrite decide_False by lia. unfold index. rewrite Nat2Z.id, Hh.
  cbn [mbind outcome_bind]. rewrite Hp. cbn [of_res wrap mbind outcome_bind]. by rewrite Hv.
Qed.

(** C16: for every chunk of a complete file (of a size that leaves a chunk below the
    largest int64) [GenerateProof] answers the root that
    [ComputeMerkleRoot] computes, the hash of that chunk, and a proof that
    [VerifyProof] accepts for them. *)
Theorem GenerateProof_VerifyProof {M : MerkleTree} {L : MerkleTreeLaws M} sha256 data i chunk :
  chunks_of DefaultChunkSize data !! i = Some chunk ->
  Z.of_nat (length data) + DefaultChunkSize <= 2 ^ 63 ->
  exists proof root,
    GenerateProof sha256 (well_formed_file data) (Z.of_nat i) = Val (proof, root, sha256 chunk) /\
    ComputeMerkleRoot sha256 (well_formed_file data) = Val root /\
    VerifyProof (sha256 chunk) (Some proof) root = Ok true.
Proof. apply GenerateProof_complete. Qed.

Lemma GenerateProof_VerifyProof_witness :
  exists proof root,
    GenerateProof (fun b => b) (well_formed_file [7; 8; 9]) 0 = Val (proof, root, [7; 8; 9]) /\
    ComputeMerkleRoot (fun b => b) (well_formed_file [7; 8; 9]) = Val root /\
    VerifyProof [7; 8; 9] (Some proof) root = Ok true.
Proof. apply (GenerateProof_VerifyProof (fun b => b) [7; 8; 9] 0 [7; 8; 9]); [by vm_compute|]. unfold DefaultChunkSize. simpl. lia. Defined.
