(* ===== verification/Events.v ===== *)
(** Decoding of chain events (the Unmarshal functions of handler/*.go and
    ExtractStringArray of handler/util.go).

    The JSON libraries are an interface: [Json] holds jsonparser's [Get], [ArrayEach]
    and [ParseString], and the decoders [json.Unmarshal] runs on the nested
    arrays. *)

From S2P Require Import Prelude GoInt GoStrings.

#[local] Open Scope string_scope.

(** * Decoded payloads *)

(** The fields of gitopia's [Attachment] the code reads. *)
Record Attachment := mkAttachment { at_Name : string; at_Sha : string; at_Size : Z }.

(** handler/releaseAssetsUpdated.go *)
Record ReleaseAssetUpdate := mkReleaseAssetUpdate {
  ru_Name : string; ru_Cid : string; ru_OldCid : string;
  ru_Sha256 : string; ru_OldSha256 : string; ru_Delete : bool
}.

(** handler/repositoryDeleted.go *)
Record DeletedAsset := mkDeletedAsset { da_Name : string; da_Cid : string; da_Sha : string; da_Tag : string }.
Record LFSObject := mkLFSObject { lo_Oid : string; lo_Cid : string }.

(** * The JSON libraries *)
Inductive found := Found (value : string) | KeyPathNotFound | GetError (e : error).

Class Json := {
  Get : string -> list string -> found;
  ArrayEach : string -> list string * option error;
  ParseString : string -> res string;
  decode_attachments : string -> res (list Attachment);
  decode_asset_updates : string -> res (list ReleaseAssetUpdate);
  decode_deleted_assets : string -> res (list DeletedAsset);
  decode_lfs_objects : string -> res (list LFSObject)
}.

(** Names of event attributes that gitopia's types package declares. *)
Class GitopiaKeys := {
  EventAttributeCreatorKey : string;
  EventAttributeRepoIdKey : string;
  EventAttributeRepoOwnerIdKey : string;
  EventAttributeReleaseTagNameKey : string;
  EventAttributeReleaseAttachmentsKey : string;
  EventAttributeProviderKey : string
}.

(** * Event types *)
Record ChallengeEvent := mkChallengeEvent { ce_ChallengeId : Z; ce_Provider : string }.

Record PackfileUpdatedEvent := mkPackfileUpdatedEvent {
  pe_RepositoryId : Z; pe_NewCid : string; pe_OldCid : string;
  pe_NewName : string; pe_OldName : string; pe_Deleted : bool
}.

Record ReleaseAssetsUpdatedEvent := mkReleaseAssetsUpdatedEvent {
  ae_RepositoryId : Z; ae_Tag : string; ae_Assets : list ReleaseAssetUpdate; ae_Provider : string
}.

Record LfsObjectUpdatedEvent := mkLfsObjectUpdatedEvent {
  le_RepositoryId : Z; le_Oid : string; le_Cid : string; le_Deleted : bool
}.

Record RepositoryDeletedEvent := mkRepositoryDeletedEvent {
  re_RepositoryId : Z; re_Provider : string; re_PackfileCid : string; re_PackfileName : string;
  re_ReleaseAssets : list DeletedAsset; re_LfsObjects : list LFSObject
}.

(** handler/deleteStorageObject.go and handler/proposalTimeout.go declare the same
    two fields. *)
Record CidsEvent := mkCidsEvent { ci_Provider : string; ci_Cids : list string }.

Record DeleteRepositoryEvent := mkDeleteRepositoryEvent {
  dr_Creator : string; dr_RepositoryId : Z; dr_Provider : string
}.

Record ReleaseEvent := mkReleaseEvent {
  rl_Creator : string; rl_RepositoryId : Z; rl_RepositoryOwnerId : string; rl_Tag : string;
  rl_Attachments : list Attachment; rl_Provider : string
}.

Record InvokeMergePullRequestEvent := mkInvokeMergePullRequestEvent {
  im_Creator : string; im_RepositoryId : Z; im_PullRequestIid : Z; im_Provider : string
}.

Definition EventChallengeCreatedType := "gitopia.gitopia.storage.EventChallengeCreated".
Definition EventPackfileUpdatedType := "gitopia.gitopia.storage.EventPackfileUpdated".
Definition EventReleaseAssetsUpdatedType := "gitopia.gitopia.storage.EventReleaseAssetsUpdated".
Definition EventLFSObjectUpdatedType := "gitopia.gitopia.storage.EventLFSObjectUpdated".
Definition EventRepositoryDeletedType := "gitopia.gitopia.storage.EventRepositoryDeleted".
Definition EventDeleteStorageObjectType := "gitopia.gitopia.storage.EventDeleteStorageObject".
Definition EventProposalTimeoutType := "gitopia.gitopia.storage.EventProposalTimeout".
Definition EventCreateReleaseType := "CreateRelease".
Definition EventUpdateReleaseType := "UpdateRelease".
Definition EventDeleteReleaseType := "DeleteRelease".
Definition EventDaoCreateReleaseType := "DaoCreateRelease".
Definition EventTypeInvokeMergePullRequest := "InvokeMergePullRequest".
Definition EventTypeInvokeDaoMergePullRequest := "InvokeDaoMergePullRequest".

Section Unmarshal.
Context {J : Json} {K : GitopiaKeys}.

(** handler/util.go: an element that is not a JSON string is dropped. *)
Definition ExtractStringArray (eventBuf eventType key : string) : outcome (list string) :=
  match Get eventBuf ["events"; eventType +:+ "." +:+ key] with
  | KeyPathNotFound => Val []
  | GetError e => Fail e
  | Found value =>
      Val (omap (fun v => match ParseString v with
                          | Ok s => Some (Trim s "034")
                          | Er _ => None
                          end) (fst (ArrayEach value)))
  end.

Definition column (buf ty key msg : string) : outcome (list string) :=
  wrap msg (ExtractStringArray buf ty key).

Definition same_length (n : nat) (columns : list (list string)) : bool :=
  forallb (fun c => Nat.eqb n (length c)) columns.

Definition mismatch (name : string) : error :=
  ErrNew ("mismatched attribute array lengths for " +:+ name).

(** [for i := 0; i < n; i++ { ...; events = append(events, row i) }]. *)
Definition rows {A} (n : nat) (row : nat -> outcome A) : outcome (list A) :=
  omap_list row (seq 0 n).

Definition uint_at (msg : string) (col : list string) (i : nat) : outcome Z :=
  s ← index col i; wrap msg (of_res (ParseUint s)).
Definition bool_at (msg : string) (col : list string) (i : nat) : outcome bool :=
  s ← index col i; wrap msg (of_res (ParseBool s)).

Definition UnmarshalChallengeEvent (eventBuf : string) : outcome (list ChallengeEvent) :=
  challengeIDs ← column eventBuf EventChallengeCreatedType "challenge_id" "error parsing challenge_id";
  providers ← column eventBuf EventChallengeCreatedType "provider" "error parsing provider";
  if decide (length challengeIDs = 0)%nat then Val []
  else if negb (same_length (length challengeIDs) [providers])
  then Fail (mismatch "ChallengeEvent")
  else
    rows (length challengeIDs) (fun i =>
      challengeId ← uint_at "error parsing challenge id" challengeIDs i;
      provider ← index providers i;
      Val (mkChallengeEvent challengeId provider)).

Definition UnmarshalPackfileUpdatedEvent (eventBuf : string) : outcome (list PackfileUpdatedEvent) :=
  let ty := EventPackfileUpdatedType in
  repoIDs ← column eventBuf ty "repository_id" "error parsing repository_id";
  newCids ← column eventBuf ty "new_cid" "error parsing new_cid";
  oldCids ← column eventBuf ty "old_cid" "error parsing old_cid";
  newNames ← column eventBuf ty "new_name" "error parsing new_name";
  oldNames ← column eventBuf ty "old_name" "error parsing old_name";
  deleteds ← column eventBuf ty "deleted" "error parsing deleted";
  if decide (length repoIDs = 0)%nat then Val []
  else if negb (same_length (length repoIDs) [newCids; oldCids; newNames; oldNames; deleteds])
  then Fail (mismatch "PackfileUpdatedEvent")
  else
    rows (length repoIDs) (fun i =>
      repoId ← uint_at "error parsing repository id" repoIDs i;
      deleted ← bool_at "error parsing deleted flag" deleteds i;
      newCid ← index newCids i;
      oldCid ← index oldCids i;
      newName ← index newNames i;
      oldName ← index oldNames i;
      Val (mkPackfileUpdatedEvent repoId newCid oldCid newName oldName deleted)).

Definition UnmarshalReleaseAssetsUpdatedEvent (eventBuf : string) :
    outcome (list ReleaseAssetsUpdatedEvent) :=
  let ty := EventReleaseAssetsUpdatedType in
  repoIDs ← column eventBuf ty "repository_id" "error parsing repository_id";
  tags ← column eventBuf ty "tag" "error parsing tag";
  providers ← column eventBuf ty "provider" "error parsing provider";
  assetsArray ← column eventBuf ty "assets" "error parsing assets";
  if decide (length repoIDs = 0)%nat then Val []
  else if negb (same_length (length repoIDs) [tags; providers; assetsArray])
  then Fail (mismatch "ReleaseAssetsUpdatedEvent")
  else
    rows (length repoIDs) (fun i =>
      repoId ← uint_at "error parsing repository id" repoIDs i;
      assetsStr ← index assetsArray i;
      assets ← wrap "error parsing assets" (of_res (decode_asset_updates assetsStr));
      tag ← index tags i;
      provider ← index providers i;
      Val (mkReleaseAssetsUpdatedEvent repoId tag assets provider)).

(** [Unmarshal] of handler/lfsObjectUpdated.go. *)
Definition UnmarshalLfsObjectUpdatedEvent (eventBuf : string) : outcome (list LfsObjectUpdatedEvent) :=
  let ty := EventLFSObjectUpdatedType in
  repoIDs ← column eventBuf ty "repository_id" "error parsing repository_id";
  oids ← column eventBuf ty "oid" "error parsing oid";
  cids ← column eventBuf ty "cid" "error parsing cid";
  deleteds ← column eventBuf ty "deleted" "error parsing deleted";
  if decide (length repoIDs = 0)%nat then Val []
  else if negb (same_length (length repoIDs) [oids; cids; deleteds])
  then Fail (mismatch "LFSObjectUpdatedEvent")
  else
    rows (length repoIDs) (fun i =>
      repoId ← uint_at "error parsing repository id" repoIDs i;
      deleted ← bool_at "error parsing deleted flag" deleteds i;
      oid ← index oids i;
      cid ← index cids i;
      Val (mkLfsObjectUpdatedEvent repoId oid cid deleted)).

Definition UnmarshalRepositoryDeletedEvent (eventBuf : string) :
    outcome (list RepositoryDeletedEvent) :=
  let ty := EventRepositoryDeletedType in
  repoIDs ← column eventBuf ty "repository_id" "error parsing repository_id";
  providers ← column eventBuf ty "provider" "error parsing provider";
  packfileCids ← column eventBuf ty "packfile_cid" "error parsing packfile_cid";
  packfileNames ← column eventBuf ty "packfile_name" "error parsing packfile_name";
  releaseAssetsArray ← column eventBuf ty "release_assets" "error parsing release_assets";
  lfsObjectsArray ← column eventBuf ty "lfs_objects" "error parsing lfs_objects";
  if decide (length repoIDs = 0)%nat then Val []
  else if negb (same_length (length repoIDs)
                  [providers; packfileCids; packfileNames; releaseAssetsArray; lfsObjectsArray])
  then Fail (mismatch "RepositoryDeletedEvent")
  else
    rows (length repoIDs) (fun i =>
      repoId ← uint_at "error parsing repository id" repoIDs i;
      releaseAssetsStr ← index releaseAssetsArray i;
      releaseAssets ← wrap "error parsing release assets" (of_res (decode_deleted_assets releaseAssetsStr));
      lfsObjectsStr ← index lfsObjectsArray i;
      lfsObjects ← wrap "error parsing lfs objects" (of_res (decode_lfs_objects lfsObjectsStr));
      provider ← index providers i;
      packfileCid ← index packfileCids i;
      packfileName ← index packfileNames i;
      Val (mkRepositoryDeletedEvent repoId provider packfileCid packfileName releaseAssets lfsObjects)).

(** The common body of the two events that carry a list of CIDs. *)
Definition cids_events (eventBuf ty name : string) : outcome (list CidsEvent) :=
  providers ← column eventBuf ty "provider" "error parsing provider";
  cidsArray ← column eventBuf ty "cids" "error parsing cids";
  if decide (length providers = 0)%nat then Val []
  else if negb (same_length (length providers) [cidsArray]) then Fail (mismatch name)
  else
    rows (length providers) (fun i =>
      cidsValue ← index cidsArray i;
      match ArrayEach cidsValue with
      | (_, Some e) => Fail (ErrWrap "error parsing cids array" e)
      | (cids, None) =>
          provider ← index providers i;
          Val (mkCidsEvent provider cids)
      end).

Definition UnmarshalDeleteStorageObjectEvent (eventBuf : string) : outcome (list CidsEvent) :=
  cids_events eventBuf EventDeleteStorageObjectType "DeleteStorageObjectEvent".

Definition UnmarshalProposalTimeoutEvent (eventBuf : string) : outcome (list CidsEvent) :=
  cids_events eventBuf EventProposalTimeoutType "ProposalTimeoutEvent".

Definition UnmarshalDeleteRepositoryEvent (eventBuf : string) : outcome (list DeleteRepositoryEvent) :=
  creators ← column eventBuf "message" "Creator" "error parsing creator";
  repoIDs ← column eventBuf "message" "RepositoryId" "error parsing repository id";
  providers ← column eventBuf "message" "Provider" "error parsing provider";
  if decide (length creators = 0)%nat then Val []
  else if negb (same_length (length creators) [repoIDs; providers])
  then Fail (mismatch "DeleteRepositoryEvent")
  else
    rows (length creators) (fun i =>
      repoId ← uint_at "error parsing repository id" repoIDs i;
      creator ← index creators i;
      provider ← index providers i;
      Val (mkDeleteRepositoryEvent creator repoId provider)).

(** The lengths of [creators] and of the other columns are not compared. *)
Definition UnmarshalReleaseEvent (eventBuf eventType : string) : outcome (list ReleaseEvent) :=
  creators ← (if decide (eventType = EventDaoCreateReleaseType)
              then column eventBuf "message" "sender" "error parsing creator"
              else column eventBuf "message" EventAttributeCreatorKey "error parsing creator");
  repoIDs ← column eventBuf "message" EventAttributeRepoIdKey "error parsing repository id";
  repoOwnerIDs ← column eventBuf "message" EventAttributeRepoOwnerIdKey "error parsing repository owner id";
  tags ← column eventBuf "message" EventAttributeReleaseTagNameKey "error parsing tag";
  attachmentsArray ← column eventBuf "message" EventAttributeReleaseAttachmentsKey "error parsing attachments";
  providers ← column eventBuf "message" EventAttributeProviderKey "error parsing provider";
  if decide (length creators = 0)%nat then Val []
  else if negb (same_length (length repoIDs) [repoOwnerIDs; tags; attachmentsArray; providers])
  then Fail (mismatch "ReleaseEvent")
  else
    rows (length repoIDs) (fun i =>
      repoId ← uint_at "error parsing repository id" repoIDs i;
      attachmentsStr ← index attachmentsArray i;
      attachments ← wrap "error unmarshalling attachments" (of_res (decode_attachments attachmentsStr));
      creator ← index creators i;
      repoOwnerId ← index repoOwnerIDs i;
      tag ← index tags i;
      provider ← index providers i;
      Val (mkReleaseEvent creator repoId repoOwnerId tag attachments provider)).

Definition UnmarshalInvokeMergePullRequestEvent (eventBuf eventType : string) :
    outcome (list InvokeMergePullRequestEvent) :=
  creators ← (if decide (eventType = EventTypeInvokeDaoMergePullRequest)
              then column eventBuf "message" "sender" "error parsing creator"
              else column eventBuf "message" "Creator" "error parsing creator");
  repositoryIDs ← column eventBuf "message" "RepositoryId" "error parsing repository id";
  pullRequestIids ← column eventBuf "message" "PullRequestIid" "error parsing pull request iid";
  providers ← column eventBuf "message" EventAttributeProviderKey "error parsing provider";
  if decide (length creators = 0)%nat then Val []
  else if negb (same_length (length repositoryIDs) [pullRequestIids; providers])
  then Fail (mismatch "InvokeMergePullRequestEvent")
  else
    rows (length repositoryIDs) (fun i =>
      repositoryId ← uint_at "error parsing repository id" repositoryIDs i;
      iid ← uint_at "error parsing pull request iid" pullRequestIids i;
      creator ← index creators i;
      provider ← index providers i;
      Val (mkInvokeMergePullRequestEvent creator repositoryId iid provider)).
End Unmarshal.

(** * Lemmas *)
Section Lemmas.
Context {J : Json} {K : GitopiaKeys}.

Lemma panics_Extract buf ty key : panics (ExtractStringArray buf ty key) = false.
Proof. unfold ExtractStringArray. by destruct (Get _ _). Qed.

Lemma panics_column buf ty key msg : panics (column buf ty key msg) = false.
Proof. unfold column. rewrite panics_wrap. apply panics_Extract. Qed.

Lemma panics_rows {A} n (row : nat -> outcome A) :
  (forall i, (i < n)%nat -> panics (row i) = false) -> panics (rows n row) = false.
Proof.
  intros H. apply panics_omap_list. intros i Hi%elem_of_seq. apply H. lia.
Qed.

Lemma panics_uint_at msg col i : (i < length col)%nat -> panics (uint_at msg col i) = false.
Proof. intros. unfold uint_at. no_panic. by apply panics_index. Qed.

Lemma panics_bool_at msg col i : (i < length col)%nat -> panics (bool_at msg col i) = false.
Proof. intros. unfold bool_at. no_panic. by apply panics_index. Qed.

Lemma same_length_Forall n cols :
  same_length n cols = true <-> Forall (fun c => length c = n) cols.
Proof.
  unfold same_length. rewrite forallb_forall, List.Forall_forall.
  split; intros H c Hc; specialize (H c Hc); [by apply Nat.eqb_eq in H|by apply Nat.eqb_eq].
Qed.

(** Reading back the rows of a table from its columns. *)
Lemma rows_lookup {A} (xs : list A) (row : nat -> outcome A) :
  (forall i x, xs !! i = Some x -> row i = Val x) -> rows (length xs) row = Val xs.
Proof.
  intros H. unfold rows. revert row H.
  induction xs as [|x xs IH]; intros row H; [done|].
  cbn [length seq omap_list]. rewrite (H 0%nat x eq_refl). cbn [mbind outcome_bind].
  assert (Hs : omap_list row (seq 1 (length xs)) = omap_list (fun i => row (S i)) (seq 0 (length xs))).
  { rewrite <- seq_shift. generalize (seq 0 (length xs)). intros l. clear.
    induction l as [|i l IHl]; simpl; [done|]. by rewrite IHl. }
  rewrite Hs, IH; [done|]. intros i y Hy. by apply (H (S i)).
Qed.

(** Position [i] of a column projected from a table. *)
Lemma index_map {A B} (f : A -> B) (xs : list A) i x :
  xs !! i = Some x -> index (map f xs) i = Val (f x).
Proof. intros H. unfold index. rewrite list_lookup_fmap, H. done. Qed.

Lemma uint_at_map {A} msg (f : A -> Z) (xs : list A) i x :
  xs !! i = Some x -> is_u64 (f x) -> uint_at msg (map (fun y => FormatUint (f y)) xs) i = Val (f x).
Proof.
  intros H Hu. unfold uint_at. rewrite (index_map (fun y => FormatUint (f y)) _ _ _ H).
  cbn [mbind outcome_bind]. by rewrite ParseUint_FormatUint.
Qed.

Definition FormatBool (b : bool) : string := if b then "true" else "false".

(** The columns of a table have its length. *)
Lemma same_length_ok n cols : Forall (fun c => length c = n) cols -> same_length n cols = true.
Proof. apply same_length_Forall. Qed.

Lemma column_val buf ty key msg xs :
  ExtractStringArray buf ty key = Val xs -> column buf ty key msg = Val xs.
Proof. unfold column. by intros ->. Qed.

Lemma bool_at_map {A} msg (f : A -> bool) (xs : list A) i x :
  xs !! i = Some x -> bool_at msg (map (fun y => FormatBool (f y)) xs) i = Val (f x).
Proof.
  intros H. unfold bool_at. rewrite (index_map (fun y => FormatBool (f y)) _ _ _ H).
  cbn. by destruct (f x).
Qed.

(** A missing cell makes the loop panic when the rows before it are fine. *)
Lemma rows_panic {A} n k (row : nat -> outcome A) :
  (k < n)%nat -> (forall i, (i < k)%nat -> exists x, row i = Val x) ->
  panics (row k) = true -> panics (rows n row) = true.
Proof.
  unfold rows. intros Hk Hok Hp.
  assert (Hg : forall s m, (s <= k < s + m)%nat -> panics (omap_list row (seq s m)) = true).
  { intros s m. revert s. induction m as [|m IH]; intros s Hs; [lia|].
    cbn [seq omap_list]. destruct (decide (s = k)) as [->|].
    - by destruct (row k).
    - destruct (Hok s) as (x & ->); [lia|]. cbn [mbind outcome_bind].
      specialize (IH (S s) ltac:(lia)). by destruct (omap_list row (seq (S s) m)). }
  apply Hg. lia.
Qed.

Lemma index_panic {A} (xs : list A) i : (length xs <= i)%nat -> index xs i = Panic "index out of range".
Proof. intros H. unfold index. by rewrite lookup_ge_None_2. Qed.
End Lemmas.

#[export] Hint Resolve panics_column : nopanic.

(** ** What a decoded value satisfies *)
Definition yields {A} (P : A -> Prop) (o : outcome A) : Prop := forall a, o = Val a -> P a.

Lemma yields_bind {A B} (P : B -> Prop) (m : outcome A) (f : A -> outcome B) :
  (forall a, m = Val a -> yields P (f a)) -> yields P (m ≫= f).
Proof. intros Hf b. destruct m as [a|e|p]; [apply (Hf a eq_refl)|done..]. Qed.

Lemma yields_val {A} (P : A -> Prop) a : P a -> yields P (Val a).
Proof. by intros HP ? [= <-]. Qed.
Lemma yields_fail {A} (P : A -> Prop) e : yields P (Fail e).
Proof. by intros ?. Qed.

Lemma yields_wrap {A} (P : A -> Prop) msg (o : outcome A) : yields P o -> yields P (wrap msg o).
Proof. intros Ho a. destruct o; simpl; [apply Ho|done..]. Qed.

Lemma yields_of_res {A} (P : A -> Prop) (r : res A) : (forall a, r = Ok a -> P a) -> yields P (of_res r).
Proof. intros Hr a. destruct r; simpl; [intros [= <-]; auto|done]. Qed.

Lemma yields_index {A} (P : A -> Prop) (xs : list A) i : (forall x, xs !! i = Some x -> P x) -> yields P (index xs i).
Proof. intros Hi a. unfold index. destruct (xs !! i) eqn:E; [intros [= <-]; auto|done]. Qed.

(** The loop returns one value for each row. *)
Lemma yields_rows {A} (P : nat -> A -> Prop) n (row : nat -> outcome A) :
  (forall i, yields (P i) (row i)) ->
  yields (fun xs => length xs = n /\ forall i x, xs !! i = Some x -> P i x) (rows n row).
Proof.
  intros Hr. unfold rows. assert (Hg : forall s, yields (fun xs => length xs = n /\
    forall i x, xs !! i = Some x -> P (s + i)%nat x) (omap_list row (seq s n))); [|exact (Hg 0%nat)].
  induction n as [|n IH]; intros s; simpl; [by apply yields_val|].
  apply yields_bind. intros a Ha. apply yields_bind. intros xs Hxs. apply yields_val.
  destruct (IH (S s) xs Hxs) as [Hl Hp]. split; [simpl; lia|].
  intros [|i] x Hx; simpl in Hx; [injection Hx as <-|].
  - rewrite Nat.add_0_r. exact (Hr s a Ha).
  - rewrite Nat.add_succ_r. by apply (Hp i).
Qed.

(** ** The attributes of an event

    The chain reports events of one type as parallel arrays, one array per attribute. The
    [i]-th entry of the attribute [key] reads as [a]: *)
Definition reads {J : Json} {A} (decode : string -> res A) (buf ty key : string) (i : nat) (a : A) : Prop :=
  exists column entry, ExtractStringArray buf ty key = Val column /\ column !! i = Some entry /\ decode entry = Ok a.
Definition reads_string {J : Json} := reads Ok.
Definition reads_cids {J : Json} := reads (fun entry =>
  match ArrayEach entry with (cids, None) => Ok cids | (_, Some e) => Er e end).

(** There are [n] events according to the attribute [key]. *)
Definition counts {J : Json} (buf ty key : string) (n : nat) : Prop :=
  exists column, ExtractStringArray buf ty key = Val column /\ length column = n.

Section Reads.
Context {J : Json}.

Lemma column_inv buf ty key msg col : column buf ty key msg = Val col -> ExtractStringArray buf ty key = Val col.
Proof. unfold column. by destruct (ExtractStringArray _ _ _) as [?|?|?]; simpl; [intros [= ->]|..]. Qed.

Lemma index_inv {A} (xs : list A) i x : index xs i = Val x -> xs !! i = Some x.
Proof. unfold index. by destruct (xs !! i); [intros [= ->]|]. Qed.

Lemma wrap_res_inv {A} msg (r : res A) a : wrap msg (of_res r) = Val a -> r = Ok a.
Proof. by destruct r; simpl; [intros [= ->]|]. Qed.

Lemma reads_entry {A} (decode : string -> res A) buf ty key msg i col entry a :
  column buf ty key msg = Val col -> index col i = Val entry -> decode entry = Ok a ->
  reads decode buf ty key i a.
Proof. intros Hc%column_inv Hi%index_inv Hd. by exists col, entry. Qed.

Lemma reads_string_at buf ty key msg i col entry :
  column buf ty key msg = Val col -> index col i = Val entry -> reads_string buf ty key i entry.
Proof. intros Hc Hi. by apply (reads_entry Ok _ _ _ msg _ col entry). Qed.

Lemma reads_decoded {A} (decode : string -> res A) buf ty key msg msg' i col entry a :
  column buf ty key msg = Val col -> index col i = Val entry -> wrap msg' (of_res (decode entry)) = Val a ->
  reads decode buf ty key i a.
Proof. intros Hc Hi Hd%wrap_res_inv. by apply (reads_entry decode _ _ _ msg _ col entry). Qed.

Lemma reads_uint buf ty key msg msg' i col n :
  column buf ty key msg = Val col -> uint_at msg' col i = Val n -> reads ParseUint buf ty key i n.
Proof.
  unfold uint_at. intros Hc. destruct (index col i) as [s|e|p] eqn:Hi; [|done..]. cbn.
  intros Hp. by apply (reads_decoded ParseUint _ _ _ msg msg' _ col s).
Qed.
Lemma reads_bool buf ty key msg msg' i col b :
  column buf ty key msg = Val col -> bool_at msg' col i = Val b -> reads ParseBool buf ty key i b.
Proof.
  unfold bool_at. intros Hc. destruct (index col i) as [s|e|p] eqn:Hi; [|done..]. cbn.
  intros Hp. by apply (reads_decoded ParseBool _ _ _ msg msg' _ col s).
Qed.

Lemma counts_column buf ty key msg col : column buf ty key msg = Val col -> counts buf ty key (length col).
Proof. intros Hc%column_inv. by exists col. Qed.
End Reads.

(** One event for each entry of the attribute [key], the [i]-th as [row i] says. *)
Definition table {J : Json} {A} (buf ty key : string) (row : nat -> A -> Prop) (evs : list A) : Prop :=
  counts buf ty key (length evs) /\ forall i e, evs !! i = Some e -> row i e.
Definition one_per_entry {J : Json} {A} (buf ty key : string) (row : nat -> A -> Prop) (o : outcome (list A)) : Prop :=
  yields (table buf ty key row) o.

(** The same, unless the attribute [first] is missing or empty: then there are none. *)
Definition one_per_entry_if {J : Json} {A} (first : string) (buf ty key : string) (row : nat -> A -> Prop)
    (o : outcome (list A)) : Prop :=
  yields (fun evs => counts buf ty first 0 /\ evs = [] \/ table buf ty key row evs) o.

Lemma one_per_entry_rows {J : Json} {A} buf ty key msg col (row : nat -> A -> Prop) n body :
  column buf ty key msg = Val col -> n = length col -> (forall i, yields (row i) (body i)) ->
  one_per_entry buf ty key row (rows n body).
Proof.
  intros Hc -> Hb evs He. destruct (yields_rows row _ _ Hb evs He) as [Hl Hr]. split; [|done].
  rewrite Hl. by eapply counts_column.
Qed.

Lemma one_per_entry_none {J : Json} {A} buf ty key msg col (row : nat -> A -> Prop) :
  column buf ty key msg = Val col -> length col = 0%nat -> one_per_entry buf ty key row (Val []).
Proof.
  intros Hc Hl. apply yields_val. split; [|intros i e He; by rewrite lookup_nil in He].
  simpl. rewrite <- Hl. by eapply counts_column.
Qed.

Lemma one_per_entry_bind {J : Json} {A B} buf ty key (row : nat -> A -> Prop) (m : outcome B) f :
  (forall b, m = Val b -> one_per_entry buf ty key row (f b)) -> one_per_entry buf ty key row (m ≫= f).
Proof. apply yields_bind. Qed.
Lemma one_per_entry_fail {J : Json} {A} buf ty key (row : nat -> A -> Prop) e : one_per_entry buf ty key row (Fail e).
Proof. by intros ?. Qed.

Lemma one_per_entry_if_bind {J : Json} {A B} first buf ty key (row : nat -> A -> Prop) (m : outcome B) f :
  (forall b, m = Val b -> one_per_entry_if first buf ty key row (f b)) ->
  one_per_entry_if first buf ty key row (m ≫= f).
Proof. apply yields_bind. Qed.
Lemma one_per_entry_if_first {J : Json} {A} first buf ty key (row : nat -> A -> Prop) msg col (o : outcome (list A)) :
  column buf ty first msg = Val col -> one_per_entry buf ty key row o ->
  one_per_entry_if first buf ty key row (if decide (length col = 0)%nat then Val [] else o).
Proof.
  intros Hc Ho. case_decide as Hl; [|intros evs He; right; by apply Ho].
  apply yields_val. left. split; [|done]. rewrite <- Hl. by eapply counts_column.
Qed.

(** Follow a decoder to its rows, and a row to its fields. *)
Ltac follow_columns :=
  repeat match goal with
    | |- one_per_entry _ _ _ _ (_ ≫= _) => apply one_per_entry_bind; intros
    | |- one_per_entry _ _ _ _ (if decide ?P then Val [] else _) =>
        destruct (decide P); [eapply one_per_entry_none; eassumption|]
    | |- one_per_entry _ _ _ _ (if ?x then _ else _) => destruct x
    | |- one_per_entry _ _ _ _ (Fail _) => apply one_per_entry_fail
    | |- one_per_entry _ _ _ _ (rows _ _) => eapply one_per_entry_rows; [eassumption|done|]; intros i
    | |- one_per_entry_if _ _ _ _ _ (_ ≫= _) => apply one_per_entry_if_bind; intros
    | |- one_per_entry_if _ _ _ _ _ (if decide _ then Val [] else _) =>
        eapply one_per_entry_if_first; [eassumption|]
    | |- yields _ (_ ≫= _) => apply yields_bind; intros
    | |- yields _ (Val _) => apply yields_val; simpl
    end.
Ltac read_entries :=
  repeat apply conj;
  first [ eassumption | eapply reads_uint; eassumption | eapply reads_bool; eassumption
        | eapply reads_string_at; eassumption | eapply reads_decoded; eassumption ].

(** The columns of a checked table are long enough. *)
Ltac in_bounds :=
  match goal with
  | H : negb (same_length _ _) = false |- _ =>
      apply negb_false_iff, same_length_Forall in H; decompose_Forall
  end.
Ltac columns_fit :=
  repeat first [apply Forall_nil_2 | apply Forall_cons_2; [by rewrite ?length_map|]].
Ltac checked_rows :=
  apply panics_rows; intros; no_panic;
  first [apply panics_index; lia | apply panics_uint_at; lia | apply panics_bool_at; lia].

(** * Properties *)

(** The decoders that compare every column with the one they iterate over never
    index out of range: whatever the buffer and the JSON libraries answer, each of
    them returns a list of events or an error. *)
Theorem Unmarshal_checked_no_panic {J : Json} {K : GitopiaKeys} buf :
  panics (UnmarshalChallengeEvent buf) = false /\
  panics (UnmarshalPackfileUpdatedEvent buf) = false /\
  panics (UnmarshalReleaseAssetsUpdatedEvent buf) = false /\
  panics (UnmarshalLfsObjectUpdatedEvent buf) = false /\
  panics (UnmarshalRepositoryDeletedEvent buf) = false /\
  panics (UnmarshalDeleteStorageObjectEvent buf) = false /\
  panics (UnmarshalProposalTimeoutEvent buf) = false /\
  panics (UnmarshalDeleteRepositoryEvent buf) = false.
Proof.
  repeat split;
    unfold UnmarshalChallengeEvent, UnmarshalPackfileUpdatedEvent, UnmarshalReleaseAssetsUpdatedEvent,
      UnmarshalLfsObjectUpdatedEvent, UnmarshalRepositoryDeletedEvent, UnmarshalDeleteStorageObjectEvent,
      UnmarshalProposalTimeoutEvent, UnmarshalDeleteRepositoryEvent, cids_events;
    no_panic; in_bounds; checked_rows.
Qed.


(** C24: decoding inverts the encoding as parallel arrays: when the six arrays of the
    buffer are the columns of a list of packfile events (numbers printed in
    decimal, flags as [true] or [false]), the decoder returns that list. *)
Theorem UnmarshalPackfileUpdatedEvent_roundtrip {J : Json} {K : GitopiaKeys} buf evs :
  let col key f := ExtractStringArray buf EventPackfileUpdatedType key = Val (map f evs) in
  Forall (fun e => is_u64 (pe_RepositoryId e)) evs ->
  col "repository_id" (fun e => FormatUint (pe_RepositoryId e)) ->
  col "new_cid" pe_NewCid -> col "old_cid" pe_OldCid ->
  col "new_name" pe_NewName -> col "old_name" pe_OldName ->
  col "deleted" (fun e => FormatBool (pe_Deleted e)) ->
  UnmarshalPackfileUpdatedEvent buf = Val evs.
Proof.
  intros col Hids H1 H2 H3 H4 H5 H6. unfold col in *.
  unfold UnmarshalPackfileUpdatedEvent.
  rewrite (column_val _ _ _ _ _ H1), (column_val _ _ _ _ _ H2), (column_val _ _ _ _ _ H3),
    (column_val _ _ _ _ _ H4), (column_val _ _ _ _ _ H5), (column_val _ _ _ _ _ H6).
  cbn [mbind outcome_bind]. rewrite !length_map.
  case_decide as Hz; [by destruct evs|].
  rewrite same_length_ok by columns_fit.
  apply rows_lookup. intros i e He.
  erewrite uint_at_map; [|done|by apply (Forall_lookup_1 _ _ _ _ Hids He)]. cbn [mbind outcome_bind].
  erewrite bool_at_map by done. cbn [mbind outcome_bind].
  erewrite !index_map by done. cbn [mbind outcome_bind]. by destruct e.
Qed.

(** A JSON library that finds the arrays of a table. *)
Definition table_json (tbl : list (string * list string)) : Json := {|
  Get _ path :=
    match path with
    | [_; k] => if decide (k ∈ map fst tbl) then Found k else KeyPathNotFound
    | _ => KeyPathNotFound
    end;
  ArrayEach v := (concat (map snd (filter (fun p => fst p = v) tbl)), None);
  ParseString := Ok;
  decode_attachments _ := Ok [];
  decode_asset_updates _ := Ok [];
  decode_deleted_assets _ := Ok [];
  decode_lfs_objects _ := Ok []
|}.

Definition demo_keys : GitopiaKeys :=
  Build_GitopiaKeys "Creator" "RepositoryId" "RepositoryOwnerId" "ReleaseTagName"
    "ReleaseAttachments" "Provider".

Lemma UnmarshalPackfileUpdatedEvent_roundtrip_witness :
  let ty k := EventPackfileUpdatedType +:+ "." +:+ k in
  let J := table_json
    [(ty "repository_id", ["7"; "18446744073709551615"]); (ty "new_cid", ["c1"; "c2"]);
     (ty "old_cid", [""; "c0"]); (ty "new_name", ["n1"; "n2"]); (ty "old_name", [""; "n0"]);
     (ty "deleted", ["false"; "true"])] in
  @UnmarshalPackfileUpdatedEvent J "" =
  Val [mkPackfileUpdatedEvent 7 "c1" "" "n1" "" false;
       mkPackfileUpdatedEvent 18446744073709551615 "c2" "c0" "n2" "n0" true].
Proof.
  intros ty J.
  apply (@UnmarshalPackfileUpdatedEvent_roundtrip J demo_keys);
    [repeat apply Forall_cons_2; try apply Forall_nil_2; unfold is_u64; simpl; lia
    |vm_compute; reflexivity ..].
Defined.

(** The decoder of merge events does not compare the creators with the other
    columns: a buffer whose creator column is shorter makes it index out of range,
    and an empty creator column hides every event of the buffer. *)
Theorem UnmarshalInvokeMergePullRequestEvent_creators {J : Json} {K : GitopiaKeys} buf ty
    creators rids iids providers :
  let col := ExtractStringArray buf "message" in
  col (if decide (ty = EventTypeInvokeDaoMergePullRequest) then "sender" else "Creator")
    = Val creators ->
  col "RepositoryId" = Val (map FormatUint rids) ->
  col "PullRequestIid" = Val (map FormatUint iids) ->
  col EventAttributeProviderKey = Val providers ->
  Forall is_u64 rids -> Forall is_u64 iids ->
  length iids = length rids -> length providers = length rids ->
  (creators = [] -> UnmarshalInvokeMergePullRequestEvent buf ty = Val []) /\
  (creators <> [] -> (length creators < length rids)%nat ->
     panics (UnmarshalInvokeMergePullRequestEvent buf ty) = true).
Proof.
  intros col Hc Hr Hi Hp Hur Hui Hli Hlp. unfold col in *.
  unfold UnmarshalInvokeMergePullRequestEvent, column.
  assert (Hcol : (if decide (ty = EventTypeInvokeDaoMergePullRequest)
     then wrap "error parsing creator" (ExtractStringArray buf "message" "sender")
     else wrap "error parsing creator" (ExtractStringArray buf "message" "Creator")) = Val creators).
  { case_decide; rewrite Hc; done. }
  rewrite Hcol, Hr, Hi, Hp. cbn [wrap mbind outcome_bind]. split; [by intros ->|].
  intros Hne Hlt. rewrite decide_False by (destruct creators; done).
  rewrite length_map, same_length_ok by columns_fit. cbn [negb].
  apply (rows_panic _ (length creators)); [done| |].
  - intros i Hlti.
    destruct (lookup_lt_is_Some_2 rids i) as (r & Hr'); [lia|].
    destruct (lookup_lt_is_Some_2 iids i) as (n & Hn'); [lia|].
    destruct (lookup_lt_is_Some_2 creators i) as (c & Hc'); [lia|].
    destruct (lookup_lt_is_Some_2 providers i) as (p & Hp'); [lia|].
    rewrite (uint_at_map _ id rids i r) by (done || by apply (Forall_lookup_1 _ _ _ _ Hur Hr')).
    cbn [mbind outcome_bind].
    rewrite (uint_at_map _ id iids i n) by (done || by apply (Forall_lookup_1 _ _ _ _ Hui Hn')).
    cbn [mbind outcome_bind]. unfold index. rewrite Hc', Hp'. by eexists.
  - destruct (lookup_lt_is_Some_2 rids (length creators)) as (r & Hr'); [lia|].
    destruct (lookup_lt_is_Some_2 iids (length creators)) as (n & Hn'); [lia|].
    rewrite (uint_at_map _ id rids _ r) by (done || by apply (Forall_lookup_1 _ _ _ _ Hur Hr')).
    cbn [mbind outcome_bind].
    rewrite (uint_at_map _ id iids _ n) by (done || by apply (Forall_lookup_1 _ _ _ _ Hui Hn')).
    cbn [mbind outcome_bind]. rewrite (index_panic creators) by lia. reflexivity.
Qed.

Lemma UnmarshalInvokeMergePullRequestEvent_creators_witness :
  let J := table_json
    [("message.Creator", ["alice"]); ("message.RepositoryId", ["1"; "2"]);
     ("message.PullRequestIid", ["5"; "6"]); ("message.Provider", ["p"; "q"])] in
  panics (@UnmarshalInvokeMergePullRequestEvent J demo_keys "" EventTypeInvokeMergePullRequest) = true.
Proof.
  intros J.
  apply (@UnmarshalInvokeMergePullRequestEvent_creators J demo_keys "" EventTypeInvokeMergePullRequest
           ["alice"] [1; 2] [5; 6] ["p"; "q"]);
    [vm_compute; reflexivity|vm_compute; reflexivity|vm_compute; reflexivity|vm_compute; reflexivity
    |repeat apply Forall_cons_2; try apply Forall_nil_2; unfold is_u64; simpl; lia
    |repeat apply Forall_cons_2; try apply Forall_nil_2; unfold is_u64; simpl; lia
    |reflexivity|reflexivity|discriminate|simpl; lia].
Defined.
