(* ===== verification/World.v ===== *)
(** The outside world of the storage server: the calls its Go code makes to the
    operating system, to git, to the chain, to IPFS and to the external storage
    providers, as one typed signature, and the programs that make them.

    An environment answers each call after looking at everything that happened
    before. The theorems quantify over every environment, so that a file, a query
    or a subprocess may fail or change between any two calls. A run leaves its
    trace: the calls it made with their answers, oldest first. *)

From S2P Require Import Prelude GoInt GoStrings StorageFee Merkle Pagination.

#[local] Open Scope string_scope.

(** * Data of the chain *)
Inductive OwnerType := OwnerType_USER | OwnerType_DAO.

#[export] Instance OwnerType_eq_dec : EqDecision OwnerType.
Proof. solve_decision. Defined.

(** [Permission] is the number of the permission level. *)
Record Collaborator := mkCollaborator { cl_Id : string; cl_Permission : Z }.

Record Repository := mkRepository {
  rp_Id : Z; rp_Name : string; rp_Fork : bool; rp_Parent : Z;
  rp_OwnerId : string; rp_OwnerType : OwnerType; rp_Collaborators : list Collaborator
}.

Record Packfile := mkPackfile { pk_Name : string; pk_Cid : string; pk_Size : Z }.
Record Branch := mkBranch { br_Name : string; br_Sha : string; br_AllowForcePush : bool; br_RepositoryId : Z }.
Record Tag := mkTag { tg_Name : string; tg_Sha : string }.
Record ChainLFSObject := mkChainLFSObject { cl_Oid : string; cl_Cid : string }.
Record ChainReleaseAsset := mkChainReleaseAsset {
  ra_Name : string; ra_Cid : string; ra_Sha256 : string; ra_Size : Z
}.

Inductive ChallengeType := CHALLENGE_TYPE_PACKFILE | CHALLENGE_TYPE_RELEASE_ASSET
  | CHALLENGE_TYPE_LFS_OBJECT | CHALLENGE_TYPE_OTHER.
Record Challenge := mkChallenge {
  ch_Type : ChallengeType; ch_ContentId : Z; ch_ChunkIndex : Z; ch_RootHash : list Z
}.

Record PullRequest := mkPullRequest {
  pr_Iid : Z; pr_Creator : string; pr_HeadRepositoryId : Z; pr_HeadBranch : string;
  pr_BaseRepositoryId : Z; pr_BaseBranch : string; pr_MergeCommitSha : string
}.

(** The chain's [ReleaseAssetUpdate] message part. *)
Record AssetUpdate := mkAssetUpdate {
  au_Name : string; au_Cid : string; au_RootHash : list Z; au_Size : Z; au_Sha256 : string;
  au_OldSha256 : string; au_OldCid : string; au_Delete : bool
}.

#[export] Instance AssetUpdate_eq_dec : EqDecision AssetUpdate.
Proof. solve_decision. Defined.

Record Attachment := mkAttachment { at_Name : string; at_Sha : string }.
Record Release := mkRelease { rl_RepositoryId : Z; rl_TagName : string; rl_Attachments : list Attachment }.

(** * Requests

    The structs that the JSON decoder fills from a body (utils/content.go, commits.go,
    diff.go, pull.go). *)
Record ContentRequestBody := mkContentRequestBody {
  cb_RepositoryID : Z; cb_RefId : string; cb_Path : string; cb_IncludeLastCommit : bool;
  cb_From : Z; cb_To : Z; cb_Pagination : option PageRequest; cb_NoRestriction : bool
}.
Record CommitsRequestBody := mkCommitsRequestBody {
  mb_RepositoryID : Z; mb_InitCommitId : string; mb_Path : string; mb_Pagination : option PageRequest
}.
Record DiffRequestBody := mkDiffRequestBody {
  db_RepositoryID : Z; db_PreviousCommitSha : string; db_CommitSha : string; db_OnlyStat : bool;
  db_Pagination : option PageRequest
}.
Record PullDiffRequestBody := mkPullDiffRequestBody {
  pd_BaseRepositoryID : Z; pd_HeadRepositoryID : Z; pd_BaseCommitSha : string; pd_HeadCommitSha : string;
  pd_OnlyStat : bool; pd_Pagination : option PageRequest
}.
Record PullRequestCommitsPostBody := mkPullRequestCommitsPostBody {
  pc_BaseRepositoryID : Z; pc_HeadRepositoryID : Z; pc_BaseBranch : string; pc_HeadBranch : string;
  pc_BaseCommitSha : string; pc_HeadCommitSha : string
}.
(** What the check of a pull request reads of [PullRequestMergePostBody]. *)
Record PullRequestMergePostBody := mkPullRequestMergePostBody {
  pm_BaseRepositoryID : Z; pm_HeadRepositoryID : Z; pm_BaseBranch : string; pm_HeadBranch : string;
  pm_UserName : string; pm_UserEmail : string
}.

(** An upload that no release refers to yet (internal/app/handler/attachment.go); times
    in nanoseconds. *)
Record PendingUpload := mkPendingUpload {
  pu_Address : string; pu_RepositoryId : Z; pu_TagName : string; pu_FileName : string;
  pu_Size : Z; pu_Sha256 : string; pu_CreatedAt : Z; pu_ExpiresAt : Z
}.

(** The messages the server sends to the chain. *)
Inductive Msg :=
| MsgUpdateTask (creator : string) (id state : Z) (message : string)
| MsgUpdateRepositoryPackfile (creator : string) (repositoryId : Z)
    (name cid : string) (rootHash : list Z) (size : Z) (oldCid : string)
| MsgProposeRepositoryPackfileUpdate (creator user : string) (repositoryId : Z)
    (name cid : string) (rootHash : list Z) (size : Z) (oldCid mergeCommitSha : string) (delete : bool)
| MsgProposeRepositoryDelete (creator user : string) (repositoryId : Z)
| MsgSubmitChallengeResponse (creator : string) (challengeId : Z) (data : list Z)
    (proofHashes : list (list Z)) (proofIndex : Z)
| MsgUpdateReleaseAssets (creator : string) (repositoryId : Z) (tag : string)
    (assets : list AssetUpdate)
| MsgProposeReleaseAssetsUpdate (creator user : string) (repositoryId : Z) (tag : string)
    (assets : list AssetUpdate)
| MsgUpdateLFSObject (creator : string) (repositoryId : Z) (oid cid : string)
    (rootHash : list Z) (size : Z)
| MsgProposeLFSObjectUpdate (creator user : string) (repositoryId : Z)
    (oid cid : string) (rootHash : list Z) (size : Z) (delete : bool).

#[export] Instance Msg_eq_dec : EqDecision Msg.
Proof. solve_decision. Defined.

(** * Calls *)
Inductive LockKey := RepoKey (id : Z) | AssetKey (sha : string) | LfsKey (oid : string).

#[export] Instance LockKey_eq_dec : EqDecision LockKey.
Proof. solve_decision. Defined.

(** What [os.Stat] tells: the size of the file, [os.IsNotExist], or another error. *)
Inductive stat := Exists (size : Z) | NotExist | StatError (e : error).

(** A directory entry, what [Info] tells of it, and a step of [filepath.Walk]. *)
Record DirEntry := mkDirEntry { de_Name : string; de_IsDir : bool }.
Record FileInfo := mkFileInfo { fi_ModTime : Z; fi_Size : Z }.
Record WalkEntry := mkWalkEntry { we_Path : string; we_IsDir : bool; we_Size : Z }.

(** What [select] picks in a polling loop: the context, with its error, or the ticker. *)
Inductive ready := CtxDone (e : error) | Tick.

Record HttpResponse := mkHttpResponse { StatusCode : Z; Status : string }.

(** A file of Pinata (handler/storage/pinata.go). *)
Record PinataFile := mkPinataFile { pf_ID : string; pf_Name : string; pf_Cid : string; pf_Size : Z }.

(** JSON that is sent. *)
Inductive json :=
| JNull
| JBool (b : bool)
| JNum (n : Z)
| JStr (s : string)
| JArr (xs : list json)
| JObj (fields : list (string * json)).

Inductive Call : Type -> Type :=
(* the chain *)
| GetQueryClient : Call (res unit)
| QRepository (id : Z) : Call (res Repository)
| QRepositoryPackfile (id : Z) : Call (res Packfile)
| QRepositoryBranchAll (owner name : string) : Call (res (list Branch))
| QRepositoryTagAll (owner name : string) : Call (res (list Tag))
| QRepositoryBranch (owner name branch : string) : Call (res Branch)
| QDaoMemberAll (dao : string) : Call (res (list string))
| QUserQuota (address : string) : Call (res Z)
| QStorageParams : Call (res Params)
| QBankBalance (address denom : string) : Call (res Z)
| QCidReferenceCount (cid : string) : Call (res Z)
| QPackfileUpdateProposal (repositoryId : Z) (user : string) : Call (res string)
| QRepositoryDeleteProposal (repositoryId : Z) (user : string) : Call (res unit)
| QLFSObjectUpdateProposal (repositoryId : Z) (oid user : string) : Call (res string)
| QReleaseAssetsUpdateProposal (repositoryId : Z) (tag user : string) : Call (res (list string))
| QLFSObjectsByRepositoryId (repositoryId : Z) : Call (res (list ChainLFSObject))
| QLFSObjectByRepositoryIdAndOid (repositoryId : Z) (oid : string) : Call (res ChainLFSObject)
| QRepositoryReleaseAsset (repositoryId : Z) (tag name : string) : Call (res ChainReleaseAsset)
| QAnyRepository (address name : string) : Call (res Repository)
| QPullRequest (owner name : string) (iid : Z) : Call (res PullRequest)
| QTask (id : Z) : Call (res Z)
| QChallenge (id : Z) : Call (res Challenge)
| QPackfile (id : Z) : Call (res Packfile)
| QReleaseAsset (id : Z) : Call (res ChainReleaseAsset)
| QLFSObject (id : Z) : Call (res ChainLFSObject)
| QRepositoryReleaseAssets (repositoryId : Z) (tag : string) : Call (res (list ChainReleaseAsset))
| QReleaseAssetsPage (repositoryId : Z) (key : option (list Z)) :
    Call (res (list ChainReleaseAsset * option (list Z)))
| QActiveProviders : Call (res (list string))
| QRepositoryReleaseAll (owner name : string) : Call (res (list string))
| QRepositoryRelease (owner name tag : string) : Call (res Release)
(* the queue of the batch transaction manager *)
| AddToBatch (msg : Msg) : Call (res unit)
(* starting: a constructor of another library and the closing of what it made, a go
   statement, the subscription of an event client to its queries, the ends of the event
   streams in their order, a server that is served until an error or, [None], until it is
   shut down, the stop channel of the batch manager *)
| Construct (what : string) : Call (res unit)
| CloseClient (what : string) : Call unit
| Go (what : string) : Call unit
| SubscribeQueries (client : string) (queries : list string) : Call (res unit)
| ProcessEvents (clients : list string) : Call (list (string * res unit))
| ListenAndServe (addr : string) : Call (option error)
| CloseStopCh : Call unit
(* the command line: configuration files, standard output, [log.Fatalf] *)
| ReadConfig (name : string) : Call (res unit)
| Println (text : string) : Call unit
| LogFatal (text : string) : Call unit
(* time *)
| Select : Call ready
(* files *)
| Stat (path : string) : Call stat
| MkdirAll (path : string) : Call (res unit)
| Mkdir (path : string) : Call (res unit)
| Create (path : string) : Call (res unit)
| WriteFile (path content : string) : Call (res unit)
| CopyInto (path : string) : Call (res Z)
| Remove (path : string) : Call (res unit)
| RemoveAll (path : string) : Call (res unit)
| ReadDir (path : string) : Call (res (list DirEntry))
| EntryInfo (path : string) : Call (res FileInfo)
| Walk (path : string) : Call (list WalkEntry * option error)
| Now : Call Z
(* subprocesses *)
| StdoutPipe (args : list string) : Call (res unit)
| StdinPipe : Call (res unit)
| Start (dir : string) (args : list string) : Call (res unit)
| FeedStdin (lines : list string) : Call unit
| CopyOut : Call (res unit)
| Wait : Call (res unit)
| Kill (sigkill : bool) : Call (res unit)
| WaitTimeout : Call bool
| Run (dir : string) (args : list string) : Call (res unit)
| Output (dir : string) (args : list string) : Call (res string)
| Getwd : Call (res string)
| CombinedOutput (args : list string) : Call (string * option error)
| StderrPipe (args : list string) : Call (res unit)
| ReadStderr : Call (res string)
(* HTTP and IPFS *)
| HttpPost (url : string) : Call (res HttpResponse)
| ClusterAdd (path : string) : Call string
| ClusterPin (cid name : string) : Call (res unit)
| DecodeCid (cid : string) : Call (res unit)
| ClusterUnpin (cid : string) : Call (res unit)
| UnixfsGet (cid : string) : Call (res (option File))
| OpenFile (path : string) : Call (res File)
(* external storage providers *)
| ProviderPin (provider path name : string) : Call (res unit)
| ProviderUnpin (provider name : string) : Call (res unit)
(* their requests: a multipart form, a request with a bearer token and the status of the
   answer, the JSON of the answer; the S3 API *)
| CreateFormFile (field name : string) : Call (res unit)
| CopyToForm (path : string) : Call (res Z)
| WriteField (name value : string) : Call (res unit)
| CloseForm : Call (res unit)
| NewRequest (method url : string) : Call (res unit)
| ClientDo (method url authorization : string) : Call (res Z)
| DecodePinata : Call (res PinataFile)
| DecodePinataList : Call (res (list PinataFile))
| FileSize (path : string) : Call (res Z)
| PutObject (bucket key path : string) : Call (res (option string))
| DeleteObject (bucket key : string) : Call (res unit)
(* the lock tables of utils/cache.go *)
| Lock (k : LockKey) : Call unit
| Unlock (k : LockKey) : Call unit
| RLock (k : LockKey) : Call unit
| RUnlock (k : LockKey) : Call unit
| InUse (k : LockKey) : Call bool
(* the request that is served: its body, and the struct the JSON decoder fills from it *)
| GrpcDial : Call (res unit)
| GzipReader : Call (res unit)
| DecodeBatchRequest : Call (res (string * list (string * Z)))
| DecodeVerifyRequest : Call (res (string * Z))
| DecodeLockRequest : Call (res string)
| DecodeUnlockRequest : Call (res unit)
| DecodeVerifyLocksRequest : Call (res unit)
(* the response *)
| SetHeader (name value : string) : Call unit
| WriteHeader (code : Z) : Call unit
| HttpError (text : string) (code : Z) : Call unit
| ResponseWrite (text : string) : Call (res unit)
| EncodeJson (v : json) : Call (res unit)
| CopyToResponse : Call (res unit)
(* a subprocess fed with the body of the request *)
| CopyToStdin : Call (res unit)
| CloseStdin : Call unit
(* reading files back *)
| FileStat (path : string) : Call (res unit)
| NewReaderPathFile (path : string) : Call (res unit)
| NewIpfsApi : Call (res unit)
| NewIpfsPath (path : string) : Call (res unit)
(* go-git *)
| PlainOpen (path : string) : Call (res unit)
| EncodedObject (hash : string) : Call (res (Z * Z))
| ObjectReader : Call (res unit)
| ObjectWriteHeader (ty size : Z) : Call (res unit)
(* the temporary repositories of merges; a command with its directory and the variables
   added to its environment *)
| MkdirTemp : Call (res string)
| PlainInit (path : string) : Call (res unit)
| OpenAppend (path : string) : Call (res unit)
| AppendLine (path line : string) : Call (res unit)
| TimeNow : Call string
| CombinedOutputIn (dir : string) (vars args : list string) : Call (string * option error)
| OutputIn (dir : string) (vars args : list string) : Call (string * option error)
(* of two goroutines, whether the first one answers first *)
| FirstFirst : Call bool
(* bodies of requests *)
| DecodeContentRequest : Call (res ContentRequestBody)
| DecodeCommitsRequest : Call (res CommitsRequestBody)
| DecodeDiffRequest : Call (res DiffRequestBody)
| DecodePullDiffRequest : Call (res PullDiffRequestBody)
| DecodePullCommitsRequest : Call (res PullRequestCommitsPostBody)
| DecodePullCheckRequest : Call (res PullRequestMergePostBody)
| ParseMultipartForm (maxMemory : Z) : Call (res unit)
| FormValues (name : string) : Call (list string)
| FormFile (name : string) : Call (res Z)
(* [json.Marshal] of a struct, written to the response or sent with [http.Error] *)
| WriteJson (v : json) : Call (res unit)
| HttpErrorJson (v : json) (code : Z) : Call unit
(* a temporary file; the bytes of the upload that were hashed and written to it; a copy
   of it *)
| TempFile : Call (res string)
| CopyUpload (path : string) : Call (res (list Z))
| CopyFrom (src dst : string) : Call (res Z)
(* the process-wide map of pending uploads *)
| PendingPut (token : string) (upload : PendingUpload) : Call unit
| PendingDelete (token : string) : Call unit
(* go-git: objects by the hash that [NewHash] makes of a text; the contents of a blob;
   what two trees differ in, where [None] is a nil tree *)
| GetCommit (sha : string) : Call (res CommitObj)
| CommitParent (sha : string) : Call (res CommitObj)
| GetTree (sha : string) : Call (res (list TreeEntry))
| FindEntry (tree path : string) : Call (res TreeEntry)
| GetBlob (sha : string) : Call (res Z)
| BlobReader (sha : string) : Call (res unit)
| ReadAll : Call (string * option error)
| DiffTrees (from : option string) (to : string) : Call (res (list Change))
| PatchStats (changes : list Change) : Call (res (list Pagination.FileStat)).

Inductive Obs := | Did (A : Type) (c : Call A) (answer : A).
Arguments Did {A} c answer.

Abbreviation Trace := (list Obs).
Definition Env := forall A : Type, Trace -> Call A -> A.

(** An environment where nothing is found and everything else works. *)
Definition quiet {A} (c : Call A) : A :=
  match c in Call A return A with
  | QRepository _ | QRepositoryPackfile _ | QRepositoryBranch _ _ _ | QAnyRepository _ _
  | QPullRequest _ _ _ | QChallenge _ | QPackfile _ | QReleaseAsset _ | QLFSObject _
  | QStorageParams | QLFSObjectByRepositoryIdAndOid _ _ | QRepositoryReleaseAsset _ _ _
  | QReleaseAssetsPage _ _ | OpenFile _ => Er (ErrNew "not found")
  | QPackfileUpdateProposal _ _ => Er (ErrNew "packfile update proposal not found")
  | QLFSObjectUpdateProposal _ _ _ => Er (ErrNew "lfs object update proposal not found")
  | QRepositoryBranchAll _ _ => Ok [] | QRepositoryTagAll _ _ => Ok []
  | QDaoMemberAll _ => Ok [] | QUserQuota _ => Ok 0 | QBankBalance _ _ => Ok 0
  | QCidReferenceCount _ => Ok 0 | QReleaseAssetsUpdateProposal _ _ _ => Ok []
  | QLFSObjectsByRepositoryId _ => Ok [] | QTask _ => Ok 0
  | QRepositoryReleaseAssets _ _ => Ok [] | QActiveProviders => Ok []
  | QRepositoryReleaseAll _ _ => Ok []
  | Select => CtxDone (ErrNew "context deadline exceeded")
  | Stat _ => NotExist | Walk _ => ([], None) | ReadDir _ => Ok [] | Now => 0 | InUse _ => false
  | EntryInfo _ => Ok (mkFileInfo 0 0) | CopyInto _ => Ok 0
  | Output _ _ => Ok EmptyString | Getwd => Ok EmptyString | ReadStderr => Ok EmptyString
  | CombinedOutput _ => (EmptyString, None) | ClusterAdd _ => EmptyString | WaitTimeout => true
  | HttpPost _ => Ok (mkHttpResponse 200 "200 OK")
  | UnixfsGet _ => Ok None
  | FeedStdin _ | Lock _ | Unlock _ | RLock _ | RUnlock _ => tt
  | MkdirTemp => Ok "/tmp/merge-1" | TimeNow => EmptyString | FirstFirst => true
  | CombinedOutputIn _ _ _ => (EmptyString, None) | OutputIn _ _ _ => (EmptyString, None)
  | SetHeader _ _ | WriteHeader _ | HttpError _ _ | CloseStdin => tt
  | DecodeBatchRequest | DecodeVerifyRequest | DecodeLockRequest | EncodedObject _ => Er (ErrNew "not found")
  | QRepositoryRelease _ _ _ | DecodeContentRequest | DecodeCommitsRequest | DecodeDiffRequest
  | DecodePullDiffRequest | DecodePullCommitsRequest | DecodePullCheckRequest
  | GetCommit _ | CommitParent _ | GetTree _ | FindEntry _ _ | GetBlob _ => Er (ErrNew "not found")
  | FormValues _ => [] | FormFile _ => Ok 0 | HttpErrorJson _ _ => tt
  | TempFile => Ok "/tmp/attachment-1" | CopyUpload _ => Ok [] | CopyFrom _ _ => Ok 0
  | PendingPut _ _ | PendingDelete _ => tt
  | CloseClient _ | Go _ | CloseStopCh | Println _ | LogFatal _ => tt
  | ProcessEvents _ => [] | ListenAndServe _ => None
  | CopyToForm _ | FileSize _ => Ok 0 | ClientDo _ _ _ => Ok 200 | PutObject _ _ _ => Ok None
  | DecodePinata => Ok (mkPinataFile EmptyString EmptyString EmptyString 0) | DecodePinataList => Ok []
  | ReadAll => (EmptyString, None) | DiffTrees _ _ => Ok [] | PatchStats _ => Ok []
  | _ => Ok tt
  end.

(** * Programs *)
Abbreviation Prog := (GoM Trace).

Section Programs.
Context (env : Env).

(** Make a call and go on with its answer. *)
Definition call {A} (c : Call A) : Prog A := fun h =>
  let a := env A h c in (Val a, (h ++ [Did c a])%list).

(** Make a call that answers [(A, error)] and return its error. *)
Definition call_res {A} (c : Call (res A)) : Prog A :=
  r ← call c; lift (of_res r).

(** [if err != nil { return fmt.Errorf(msg + ": %v", err) }]: the error text is kept
    and the chain is not. *)
Definition flatten {A} (msg : string) (m : Prog A) : Prog A := fun h =>
  match m h with
  | (Fail e, h') => (Fail (ErrNew (msg +:+ ": " +:+ Error e)), h')
  | os => os
  end.

(** utils/git.go: a command in its own process group, with a pipe for its output. *)
Definition GitCommand (args : list string) : Prog unit :=
  wrapM "failed to create stdout pipe" (call_res (StdoutPipe args)).

(** utils/git.go. [started] says whether the command has a process. *)
Definition CleanUpProcessGroup (started : bool) : Prog unit :=
  if negb started then mret tt else
  term ← call (Kill false);
  _ ← when (negb (is_ok term)) (_ ← call (Kill true); mret tt);
  finished ← call WaitTimeout;
  when (negb finished) (_ ← call (Kill true); _ ← call Wait; mret tt).

(** * Traces *)

(** The trace a run adds to the one it starts from. *)
Definition emitted {A} (m : Prog A) (h : Trace) : Trace := drop (length h) (snd (m h)).

(** A program only adds to the trace. *)
Definition extends {A} (m : Prog A) : Prop := forall h, exists t, snd (m h) = (h ++ t)%list.
End Programs.

Arguments call env {A} c.
Arguments call_res env {A} c.

(** The names a trace unpins at a provider, in order. *)
Definition unpinned_at (provider : string) (o : Obs) : option string :=
  match o with
  | @Did _ c _ => match c with
                  | ProviderUnpin p name => if decide (p = provider) then Some name else None
                  | _ => None
                  end
  end.
Definition provider_unpins (provider : string) (t : Trace) : list string :=
  omap (unpinned_at provider) t.

(** The cids a trace unpins in the IPFS cluster. *)
Definition cluster_unpin (o : Obs) : option string :=
  match o with
  | @Did _ c _ => match c with ClusterUnpin cid => Some cid | _ => None end
  end.
Definition cluster_unpins (t : Trace) : list string := omap cluster_unpin t.

(** A trace in which the chain said that nothing refers to [cid]. *)
Definition unreferenced (cid : string) (t : Trace) : Prop :=
  Did (QCidReferenceCount cid) (Ok 0) ∈ t.

Arguments unpinned_at : simpl never.

#[local] Close Scope string_scope.

(** * Reasoning about traces *)

(** A run started in [h] with outcome [o] and trace [h']; the common shape of a
    program's specification. *)
Lemma wp_call (env : Env) {A} (c : Call A) (Q : outcome A -> Trace -> Prop) h :
  (let a := env A h c in Q (Val a) (h ++ [Did c a])) -> wp (call env c) Q h.
Proof. done. Qed.

Lemma wp_call_res (env : Env) {A} (c : Call (res A)) (Q : outcome A -> Trace -> Prop) h :
  (let a := env (res A) h c in Q (of_res a) (h ++ [Did c a])) -> wp (call_res env c) Q h.
Proof. done. Qed.

(** A call whose error is wrapped, run. *)
Lemma run_wrap_call (env : Env) {A} msg (c : Call (res A)) h :
  wrapM msg (call_res env c) h = (wrap msg (of_res (env _ h c)), (h ++ [Did c (env _ h c)])%list).
Proof. unfold wrapM, call_res. rewrite run_bind. simpl. by destruct (env _ h c). Qed.

Lemma wp_flatten {A} msg (m : Prog A) Q h :
  wp m (fun o h' =>
          match o with
          | Fail e => Q (Fail (ErrNew (msg +:+ ": "%string +:+ Error e))) h'
          | o => Q o h'
          end) h ->
  wp (flatten msg m) Q h.
Proof. unfold wp, flatten. destruct (m h) as [[a|e|p] h']; auto. Qed.

(** An invariant of traces that a call keeps whatever its answer. *)
Definition keeps (I : Trace -> Prop) {A} (c : Call A) : Prop :=
  forall h a, I h -> I (h ++ [Did c a]).

Lemma preserves_call env I {A} (c : Call A) : keeps I c -> preserves I (call env c).
Proof. intros H h HI. by apply H. Qed.

Lemma preserves_call_res env I {A} (c : Call (res A)) : keeps I c -> preserves I (call_res env c).
Proof. intros H h HI. by apply H. Qed.

Lemma preserves_flatten I {A} msg (m : Prog A) : preserves I m -> preserves I (flatten msg m).
Proof.
  intros Hm s HI. specialize (Hm s HI). unfold flatten. by destruct (m s) as [[a|e|p] s'].
Qed.

(** Every observation of a trace satisfies [P] of what came before it. *)
Definition Guarded (P : Trace -> Obs -> Prop) (h : Trace) : Prop :=
  forall i o, h !! i = Some o -> P (take i h) o.

Lemma Guarded_nil P : Guarded P [].
Proof. by intros i o H. Qed.

Lemma Guarded_snoc P h o : Guarded P (h ++ [o]) <-> Guarded P h /\ P h o.
Proof.
  split.
  - intros H. split.
    + intros i x Hi. pose proof (lookup_lt_Some _ _ _ Hi).
      specialize (H i x). rewrite lookup_app_l, take_app_le in H by lia. by apply H.
    + specialize (H (length h) o). rewrite take_app_length in H.
      apply H. rewrite lookup_app_r, Nat.sub_diag by lia. done.
  - intros [H Ho] i x Hi. destruct (decide (i < length h)%nat) as [Hlt|Hge].
    + rewrite lookup_app_l in Hi by done. rewrite take_app_le by lia. by apply H.
    + rewrite lookup_app_r in Hi by lia.
      destruct (i - length h)%nat as [|k] eqn:Hk; [|done].
      assert (i = length h) as -> by lia. rewrite take_app_length.
      by injection Hi as <-.
Qed.

Lemma unreferenced_app cid h t : unreferenced cid h -> unreferenced cid (h ++ t).
Proof. unfold unreferenced. set_solver. Qed.

(** A fact about the past stays true. *)
Definition lasting (F : Trace -> Prop) : Prop := forall h t, F h -> F (h ++ t).

Lemma lasting_keeps F {A} (c : Call A) : lasting F -> keeps F c.
Proof. intros HF h a. apply HF. Qed.

Lemma lasting_elem o : lasting (fun h => o ∈ h).
Proof. intros h t. set_solver. Qed.

Lemma lasting_and F G : lasting F -> lasting G -> lasting (fun h => F h /\ G h).
Proof. intros HF HG h t []. split; auto. Qed.
Lemma lasting_ex {X} (P : X -> Trace -> Prop) : (forall x, lasting (P x)) -> lasting (fun h => exists x, P x h).
Proof. intros HP h t [x Hx]. exists x. by apply HP. Qed.
Lemma lasting_pure (Q : Prop) : lasting (fun _ => Q).
Proof. by intros h t HQ. Qed.
Lemma lasting_imp (Q : Prop) P : lasting P -> lasting (fun h => Q -> P h).
Proof. intros HP h t HQ q. by apply HP, HQ. Qed.

Lemma Guarded_keeps (P : Trace -> Obs -> Prop) (F : Trace -> Prop) {A} (c : Call A) :
  lasting F -> (forall h a, F h -> P h (Did c a)) ->
  keeps (fun h => Guarded P h /\ F h) c.
Proof.
  intros HF HP h a [HG Hh]. split; [|by apply HF]. apply Guarded_snoc. split; [done|by apply HP].
Qed.

(** A triple that keeps every observation guarded: [m], started where [P] holds, only
    makes calls that [G] allows, and where it returns, [Q] holds. *)
Definition guards (G : Trace -> Obs -> Prop) {A} (P : Trace -> Prop) (m : Prog A)
    (Q : A -> Trace -> Prop) : Prop :=
  forall h, Guarded G h -> P h -> Guarded G (m h).2 /\ forall a h', m h = (Val a, h') -> Q a h'.

Section Guards.
Context (env : Env) (G : Trace -> Obs -> Prop).

Lemma guards_ret {A} (P : Trace -> Prop) (a : A) (Q : A -> Trace -> Prop) :
  (forall h, P h -> Q a h) -> guards G P (mret a) Q.
Proof. intros HQ h HG HP. split; [done|]. intros ? ? [= <- <-]. auto. Qed.

Lemma guards_fail {A} (P : Trace -> Prop) e (Q : A -> Trace -> Prop) : guards G P (fail e) Q.
Proof. intros h HG HP. by split. Qed.

Lemma guards_lift {A} (P : Trace -> Prop) (o : outcome A) : guards G P (lift o) (fun a h => P h /\ o = Val a).
Proof. intros h HG HP. split; [done|]. by intros ? ? [= -> <-]. Qed.

Lemma guards_bind {A B} P (m : Prog A) (f : A -> Prog B) R Q :
  guards G P m R -> (forall a, guards G (R a) (f a) Q) -> guards G P (m ≫= f) Q.
Proof.
  intros Hm Hf h HG HP. destruct (Hm h HG HP) as [H1 H2]. rewrite run_bind.
  destruct (m h) as [[a|e|p] h1]; [apply (Hf a); [done|by apply H2]|by split|by split].
Qed.

Lemma guards_conseq {A} P P' (m : Prog A) (Q Q' : A -> Trace -> Prop) :
  guards G P m Q -> (forall h, P' h -> P h) -> (forall a h, Q a h -> Q' a h) -> guards G P' m Q'.
Proof. intros Hm HP HQ h HG Hh. destruct (Hm h HG (HP _ Hh)) as [H1 H2]. split; [done|]. auto. Qed.

Lemma guards_wrapM {A} P msg (m : Prog A) Q : guards G P m Q -> guards G P (wrapM msg m) Q.
Proof.
  intros Hm h HG HP. destruct (Hm h HG HP) as [H1 H2]. unfold wrapM.
  destruct (m h) as [[a|e|p] h1]; [by split|by split|by split].
Qed.

Lemma guards_flatten {A} P msg (m : Prog A) Q : guards G P m Q -> guards G P (flatten msg m) Q.
Proof.
  intros Hm h HG HP. destruct (Hm h HG HP) as [H1 H2]. unfold flatten.
  destruct (m h) as [[a|e|p] h1]; [by split|by split|by split].
Qed.

Lemma guards_attempt {A} P (m : Prog A) Q :
  preserves P m -> guards G P m Q ->
  guards G P (attempt m) (fun r h => P h /\ forall a, r = Ok a -> Q a h).
Proof.
  intros Hp Hm h HG HP. destruct (Hm h HG HP) as [H1 H2]. specialize (Hp h HP). unfold attempt.
  destruct (m h) as [[a|e|p] h1]; simpl in *; (split; [done|]); intros r h' [= <- <-]; split; auto;
    intros b [= <-]; auto.
Qed.

Lemma guards_call_res {A} (P : Trace -> Prop) (c : Call (res A)) :
  lasting P -> (forall h a, P h -> G h (Did c a)) ->
  guards G P (call_res env c) (fun a h => P h /\ Did c (Ok a) ∈ h).
Proof.
  intros HP Hc h HG Hh. unfold call_res, call. rewrite run_bind. cbn. split.
  - apply Guarded_snoc. auto.
  - intros a h'. destruct (env _ h c) eqn:E; [|done]. intros [= <- <-]. split; [by apply HP|set_solver].
Qed.
End Guards.

(** ** Calls do not panic *)
Lemma safe_call env {A} (c : Call A) : safe (call env c).
Proof. done. Qed.

Lemma safe_call_res env {A} (c : Call (res A)) : safe (call_res env c).
Proof. intros h. unfold call_res. rewrite run_bind. cbn. apply panics_of_res. Qed.

Lemma safe_flatten {A} msg (m : Prog A) : safe m -> safe (flatten msg m).
Proof. intros H s. specialize (H s). unfold flatten. by destruct (m s) as [[a|e|p] s']. Qed.

(** After a query, the continuation only runs on an answer of the environment. *)
Lemma safe_bind_call_res (env : Env) {A B} (c : Call (res A)) (f : A -> Prog B) :
  (forall h a, env (res A) h c = Ok a -> safe (f a)) -> safe (call_res env c ≫= f).
Proof.
  intros H. apply safe_bind_val; [apply safe_call_res|]. intros s a s'.
  unfold call_res. rewrite run_bind. cbn. destruct (env (res A) s c) eqn:E; [|done].
  intros [= <- _]. by apply (H s).
Qed.

#[export] Hint Resolve safe_call safe_call_res safe_flatten : go.

(** ** Locks

    The locks a trace has taken and not released: how often [k] was locked minus how
    often it was unlocked, for the write lock and for the read lock. *)
Definition lock_change (k : LockKey) (o : Obs) : Z * Z :=
  match o with
  | @Did _ c _ =>
      match c with
      | Lock k' => if decide (k' = k) then (1, 0) else (0, 0)
      | Unlock k' => if decide (k' = k) then (-1, 0) else (0, 0)
      | RLock k' => if decide (k' = k) then (0, 1) else (0, 0)
      | RUnlock k' => if decide (k' = k) then (0, -1) else (0, 0)
      | _ => (0, 0)
      end
  end.
Definition held (k : LockKey) (h : Trace) : Z * Z :=
  fold_left (fun n o => (n.1 + (lock_change k o).1, n.2 + (lock_change k o).2)) h (0, 0).
Arguments held : simpl never.

Lemma held_snoc k h o :
  held k (h ++ [o]) = ((held k h).1 + (lock_change k o).1, (held k h).2 + (lock_change k o).2).
Proof. unfold held. by rewrite fold_left_app. Qed.

(** A program that has released every lock it took, however it ended. *)
Definition balanced {A} (m : Prog A) : Prop := forall h k, held k (snd (m h)) = held k h.

Definition is_lock {A} (c : Call A) : bool :=
  match c with Lock _ | Unlock _ | RLock _ | RUnlock _ => true | _ => false end.

Lemma balanced_preserves {A} (m : Prog A) :
  balanced m <-> forall k n, preserves (fun h => held k h = n) m.
Proof.
  split; intros H.
  - intros k n h <-. apply H.
  - intros h k. by apply (H k (held k h)).
Qed.

Lemma keeps_held k n {A} (c : Call A) : is_lock c = false -> keeps (fun h => held k h = n) c.
Proof.
  intros Hc h a <-. rewrite held_snoc.
  assert (lock_change k (Did c a) = (0, 0)) as -> by (by destruct c).
  destruct (held k h) as [x y]. simpl. f_equal; lia.
Qed.

Lemma balanced_call env {A} (c : Call A) : is_lock c = false -> balanced (call env c).
Proof. intros H. apply balanced_preserves. intros k n. by apply preserves_call, keeps_held. Qed.

Lemma balanced_call_res env {A} (c : Call (res A)) : is_lock c = false -> balanced (call_res env c).
Proof. intros H. apply balanced_preserves. intros k n. by apply preserves_call_res, keeps_held. Qed.

(** [lock; defer unlock; body] releases the lock on every way out of the body. *)
Lemma balanced_locked (env : Env) {A} (c d : Call unit) (body : Prog A) :
  (forall k, let x := lock_change k (Did c tt) in let y := lock_change k (Did d tt) in
     x.1 + y.1 = 0 /\ x.2 + y.2 = 0) ->
  balanced body -> balanced (_ ← call env c; deferring (call env d) body).
Proof.
  intros Hcd Hb h k. unfold call, deferring. rewrite run_bind. cbv beta iota zeta.
  specialize (Hb (h ++ [Did c (env unit h c)]) k).
  destruct (body (h ++ [Did c (env unit h c)])) as [o h'].
  cbn [fst snd] in Hb |- *. rewrite !held_snoc in Hb |- *.
  destruct (env unit h c). destruct (env unit h' d).
  rewrite Hb. specialize (Hcd k). cbn in Hcd. destruct (held k h) as [x y]. simpl in *. f_equal; lia.
Qed.

(** Reduce the balance of a program to that of its parts. *)
Ltac balance_step k n :=
  repeat first
    [ progress intros
    | apply (proj1 (balanced_preserves _)); solve [auto with go]
    | apply preserves_call, keeps_held; reflexivity
    | apply preserves_call_res, keeps_held; reflexivity
    | apply preserves_ret | apply preserves_fail | apply preserves_lift | apply preserves_get
    | apply preserves_attempt | apply preserves_wrapM | apply preserves_when | apply preserves_flatten
    | apply preserves_bind | apply preserves_on_error | apply preserves_deferring
    | apply preserves_forM | apply preserves_foldM
    | match goal with
      | |- preserves _ (match ?x with _ => _ end) => destruct x
      | |- preserves _ (if ?x then _ else _) => destruct x
      end ].
Ltac balance := apply balanced_preserves; let k := fresh "k" in let n := fresh "n" in
  intros k n; balance_step k n.

Lemma GitCommand_balanced env args : balanced (GitCommand env args).
Proof. unfold GitCommand. balance. Qed.

Lemma CleanUpProcessGroup_balanced env started : balanced (CleanUpProcessGroup env started).
Proof. unfold CleanUpProcessGroup. balance. Qed.

Lemma GitCommand_safe env args : safe (GitCommand env args).
Proof. unfold GitCommand. safe_step. Qed.

Lemma CleanUpProcessGroup_safe env started : safe (CleanUpProcessGroup env started).
Proof. unfold CleanUpProcessGroup. safe_step. Qed.

#[export] Hint Resolve GitCommand_balanced CleanUpProcessGroup_balanced
  GitCommand_safe CleanUpProcessGroup_safe : go.

(** ** Calls that return *)
Lemma ends_call (env : Env) {A} (c : Call A) h (Q : A -> Trace -> Prop) :
  (forall a, env A h c = a -> Q a (h ++ [Did c a])) -> ends (call env c) h Q.
Proof. intros H a h' [= <- <-]. by apply H. Qed.

Lemma ends_call_res (env : Env) {A} (c : Call (res A)) h (Q : A -> Trace -> Prop) :
  (forall a, env (res A) h c = Ok a -> Q a (h ++ [Did c (Ok a)])) -> ends (call_res env c) h Q.
Proof.
  intros H a h'. unfold call_res, call. rewrite run_bind. cbn.
  destruct (env (res A) h c) eqn:E; [|done]. intros [= <- <-]. by apply H.
Qed.

Lemma ends_attempt_call (env : Env) {A} (c : Call (res A)) h (Q : res A -> Trace -> Prop) :
  (forall r, env (res A) h c = r -> Q r (h ++ [Did c r])) -> ends (attempt (call_res env c)) h Q.
Proof.
  intros HQ a h'. unfold attempt, call_res, call. rewrite run_bind. cbn.
  destruct (env (res A) h c) as [x|e] eqn:E; intros [= <- <-]; by apply HQ.
Qed.

Lemma ends_flatten {A} msg (m : Prog A) h Q : ends m h Q -> ends (flatten msg m) h Q.
Proof.
  intros H a h'. unfold flatten. destruct (m h) as [[b|e|p] h1] eqn:E; [|done|done].
  intros [= <- <-]. by apply H.
Qed.

(** ** Files *)

(** Is the file [p] there, as far as the trace tells? It is once it was created or
    seen, until something may have removed it: a removal, or a subprocess other than
    the git commands that only add files. *)
Definition adds_only (args : list string) : bool :=
  match args with
  | _ :: sub :: _ => bool_decide (sub = "index-pack" \/ sub = "update-ref")%string
  | _ => false
  end.
Definition file_step (p : string) (b : bool) (o : Obs) : bool :=
  match o with
  | @Did _ c a =>
      match c in Call A return A -> bool with
      | Create q => fun r => if decide (q = p) then is_ok r || b else b
      | Stat q => fun r => if decide (q = p) then match r with Exists _ => true | _ => b end else b
      | Remove _ | RemoveAll _ | Run _ _ | CombinedOutputIn _ _ _ | OutputIn _ _ _ => fun _ => false
      | Start _ args => fun _ => if adds_only args then b else false
      | _ => fun _ => b
      end a
  end.
Definition present (p : string) (h : Trace) : bool := fold_left (file_step p) h false.
Arguments present : simpl never.

Lemma present_snoc p h o : present p (h ++ [o]) = file_step p (present p h) o.
Proof. unfold present. by rewrite fold_left_app. Qed.

(** A file that is there is found. *)
Definition files_stay (env : Env) : Prop :=
  forall h p, present p h = true -> exists n, env stat h (Stat p) = Exists n.

Definition removes {A} (c : Call A) : bool :=
  match c with
  | Remove _ | RemoveAll _ | Run _ _ | CombinedOutputIn _ _ _ | OutputIn _ _ _ => true
  | Start _ args => negb (adds_only args)
  | _ => false
  end.

Lemma keeps_present p {A} (c : Call A) : removes c = false -> keeps (fun h => present p h = true) c.
Proof.
  intros Hc h a Hp. rewrite present_snoc, Hp. destruct c; simpl in *; try done;
    try (case_decide; [|done]; by destruct a || by rewrite orb_true_r).
  by destruct (adds_only args).
Qed.

Ltac present_step :=
  repeat first
    [ progress intros
    | solve [auto with go]
    | apply preserves_call, keeps_present; reflexivity
    | apply preserves_call_res, keeps_present; reflexivity
    | apply preserves_ret | apply preserves_fail | apply preserves_lift | apply preserves_get
    | apply preserves_attempt | apply preserves_wrapM | apply preserves_when | apply preserves_flatten
    | apply preserves_bind | apply preserves_on_error | apply preserves_deferring
    | apply preserves_forM | apply preserves_foldM
    | match goal with
      | |- preserves _ (match ?x with _ => _ end) => destruct x
      | |- preserves _ (if ?x then _ else _) => destruct x
      end ].

Lemma GitCommand_present env p args : preserves (fun h => present p h = true) (GitCommand env args).
Proof. unfold GitCommand. present_step. Qed.

Lemma CleanUpProcessGroup_present env p started :
  preserves (fun h => present p h = true) (CleanUpProcessGroup env started).
Proof. unfold CleanUpProcessGroup. present_step. Qed.

#[export] Hint Resolve GitCommand_present CleanUpProcessGroup_present : go.

(** ** Which calls a program makes *)
Definition CallSet := forall A : Type, Call A -> bool.

(** [m] makes no calls but those of [ok]: it keeps every invariant that these calls
    keep. *)
Definition only (ok : CallSet) {A} (m : Prog A) : Prop :=
  forall I : Trace -> Prop, (forall B (c : Call B), ok B c = true -> keeps I c) -> preserves I m.

Lemma only_preserves (ok : CallSet) (I : Trace -> Prop) {A} (m : Prog A) :
  only ok m -> (forall B (c : Call B), ok B c = true -> keeps I c) -> preserves I m.
Proof. auto. Qed.

Lemma only_call env (ok : CallSet) {A} (c : Call A) : ok A c = true -> only ok (call env c).
Proof. intros H I HI. by apply preserves_call, HI. Qed.

Lemma only_call_res env (ok : CallSet) {A} (c : Call (res A)) :
  ok (res A) c = true -> only ok (call_res env c).
Proof. intros H I HI. by apply preserves_call_res, HI. Qed.

(** Reduce the calls of a program to those of its parts. *)
Ltac only_step HI :=
  repeat first
    [ progress intros
    | assumption
    | eapply only_preserves; [solve [auto with go]|exact HI]
    | apply preserves_call, HI; reflexivity
    | apply preserves_call_res, HI; reflexivity
    | apply preserves_ret | apply preserves_fail | apply preserves_lift | apply preserves_get
    | apply preserves_attempt | apply preserves_wrapM | apply preserves_when | apply preserves_flatten
    | apply preserves_bind | apply preserves_on_error | apply preserves_deferring
    | apply preserves_forM | apply preserves_foldM
    | match goal with
      | |- preserves _ (match ?x with _ => _ end) => destruct x
      | |- preserves _ (if ?x then _ else _) => destruct x
      end ].
Ltac only_calls := let I := fresh "I" in let HI := fresh "HI" in intros I HI; only_step HI.
