(* ===== verification/StorageManager.v ===== *)
(** External storage providers (handler/storage/manager.go, interface.go).

    A provider is known by its [Name]; its [PinFile] and [UnpinFile] are calls. *)

From S2P Require Import Prelude GoInt GoStrings World.

#[local] Open Scope string_scope.

(** handler/storage/interface.go *)
Record Config := mkConfig {
  PinataJWT : string;
  FilebaseAccessKey : string; FilebaseSecretKey : string; FilebaseBucket : string;
  FilebaseRegion : string; FilebaseEndpoint : string;
  EnabledProviders : list string
}.

Record Manager := mkManager { providers : list string }.

Definition NewManager (ps : list string) : Manager := mkManager ps.
Definition GetProviders (m : Manager) : list string := providers m.
Definition HasProviders (m : Manager) : bool := bool_decide (0 < length (providers m))%nat.

Definition provider_error (name : string) (e : error) : string := name +:+ ": " +:+ Error e.

(** One round of a provider loop: the errors so far and the number of successes. *)
Definition count_result (acc : list string * Z) (name : string) (r : res unit) : list string * Z :=
  match r with
  | Er e => ((acc.1 ++ [provider_error name e])%list, acc.2)
  | Ok _ => (acc.1, acc.2 + 1)
  end.

(** The methods, for any implementation of those of the providers. *)
Section Manager_methods.
Context (ask : string -> Prog (res unit)).
Implicit Types m : Manager.

Definition pin_all m : Prog unit :=
  if decide (length (providers m) = 0)%nat then mret tt else
  '(errors, successCount) ← foldM (fun acc provider =>
      r ← ask provider;
      mret (count_result acc provider r)) (providers m) ([], 0);
  if bool_decide (successCount = 0) && bool_decide (0 < length errors)%nat
  then fail (ErrNew ("all storage providers failed: " +:+ Join errors "; "))
  else mret tt.

(** Unpinning never fails: the errors are only logged. *)
Definition unpin_all m : Prog unit :=
  if decide (length (providers m) = 0)%nat then mret tt else
  _ ← foldM (fun acc provider =>
      r ← ask provider;
      mret (count_result acc provider r)) (providers m) ([], 0);
  mret tt.
End Manager_methods.

Section Manager.
Context (env : Env).
Implicit Types m : Manager.

Definition PinFile m (filePath name : string) : Prog unit :=
  pin_all (fun provider => call env (ProviderPin provider filePath name)) m.
Definition UnpinFile m (name : string) : Prog unit :=
  unpin_all (fun provider => call env (ProviderUnpin provider name)) m.
End Manager.

Section Factory.
(** The result of [NewFilebaseProvider], which opens an AWS session. *)
Context (NewFilebaseProvider : string -> string -> string -> string -> string -> res string).

Definition add_provider (config : Config) (ps : list string) (providerName : string) :
    outcome (list string) :=
  let kind := ToLower providerName in
  if decide (kind = "pinata") then
    if decide (PinataJWT config = "")
    then Fail (ErrNew "PINATA_JWT is required when pinata provider is enabled")
    else Val (ps ++ ["pinata"])%list
  else if decide (kind = "filebase") then
    if decide (FilebaseAccessKey config = "" \/ FilebaseSecretKey config = "" \/ FilebaseBucket config = "")
    then Fail (ErrNew "FILEBASE_ACCESS_KEY, FILEBASE_SECRET_KEY, and FILEBASE_BUCKET are required when filebase provider is enabled")
    else
      let region := if decide (FilebaseRegion config = "") then "us-east-1" else FilebaseRegion config in
      let endpoint := if decide (FilebaseEndpoint config = "") then "https://s3.filebase.com"
                      else FilebaseEndpoint config in
      p ← wrap "failed to create filebase provider"
            (of_res (NewFilebaseProvider (FilebaseAccessKey config) (FilebaseSecretKey config)
                       (FilebaseBucket config) region endpoint));
      Val (ps ++ [p])%list
  else Fail (ErrNew ("unknown storage provider: " +:+ providerName)).

Fixpoint add_providers (config : Config) (names ps : list string) : outcome (list string) :=
  match names with
  | [] => Val ps
  | n :: names => ps' ← add_provider config ps n; add_providers config names ps'
  end.

Definition CreateProviders (config : Config) : outcome (list string) :=
  add_providers config (EnabledProviders config) [].
End Factory.

#[local] Close Scope string_scope.

(** * Lemmas *)

(** A loop that makes one call per element makes them in order and folds the
    answers. *)
Lemma foldM_calls env {A X B} (c : X -> Call A) (f : B -> X -> A -> B) xs acc h :
  exists answers,
    length answers = length xs /\
    foldM (fun b x => a ← call env (c x); mret (f b x a)) xs acc h =
      (Val (fold_left (fun b xa => f b xa.1 xa.2) (zip xs answers) acc),
       h ++ zip_with (fun x a => Did (c x) a) xs answers).
Proof.
  revert acc h. induction xs as [|x xs IH]; intros acc h.
  - exists []. split; [done|]. simpl. by rewrite app_nil_r.
  - destruct (IH (f acc x (env A h (c x))) (h ++ [Did (c x) (env A h (c x))])) as (as_ & Hl & Hf).
    exists (env A h (c x) :: as_). split; [simpl; by rewrite Hl|].
    cbn [foldM].
    rewrite (run_bind_val _ _ h (f acc x (env A h (c x))) (h ++ [Did (c x) (env A h (c x))])) by done.
    rewrite Hf. simpl. by rewrite <- app_assoc.
Qed.

Definition failed (r : res unit) : bool := negb (is_ok r).

Lemma count_results xs answers acc :
  length answers = length xs ->
  let acc' := fold_left (fun b xa => count_result b xa.1 xa.2) (zip xs answers) acc in
  acc'.1 = acc.1 ++ omap (fun xa => match xa.2 with Er e => Some (provider_error xa.1 e) | Ok _ => None end)
             (zip xs answers) /\
  acc'.2 = acc.2 + Z.of_nat (length (filter (fun r => failed r = false) answers)).
Proof.
  revert answers acc. induction xs as [|x xs IH]; intros [|a answers] acc Hl; try done.
  - simpl. rewrite app_nil_r. split; [done|lia].
  - specialize (IH answers (count_result acc x a) ltac:(simpl in Hl; lia)).
    destruct IH as [IH1 IH2]. cbn [zip zip_with fold_left fst snd]. cbn zeta in *.
    rewrite IH1, IH2. destruct a; split.
    + done.
    + rewrite filter_cons_True by done. cbn [length count_result snd]. lia.
    + cbn [count_result fst]. by rewrite <- app_assoc.
    + rewrite filter_cons_False by done. cbn [count_result snd]. lia.
Qed.

(** All answers are errors exactly when no answer is counted as a success. *)
Lemma no_success answers :
  length (filter (fun r => failed r = false) answers) = 0%nat <->
  Forall (fun r => failed r = true) answers.
Proof.
  induction answers as [|a answers IH]; [by split|].
  destruct (failed a) eqn:E.
  - rewrite filter_cons_False, IH by congruence. split; [by constructor|by inversion 1].
  - rewrite filter_cons_True by done. split; [done|]. inversion 1; congruence.
Qed.

Lemma error_messages xs answers :
  length answers = length xs -> Forall (fun r => failed r = true) answers ->
  length (omap (fun xa : string * res unit =>
     match xa.2 with Er e => Some (provider_error xa.1 e) | Ok _ => None end) (zip xs answers))
  = length xs.
Proof.
  revert answers. induction xs as [|x xs IH]; intros [|a answers] Hl Hf; try done.
  inversion Hf as [|? ? Ha Hf']; subst. destruct a; [done|]. simpl.
  by rewrite IH by (done || simpl in Hl; lia).
Qed.

Lemma UnpinFile_run env m name h :
  exists answers,
    length answers = length (providers m) /\
    UnpinFile env m name h =
      (Val tt, h ++ zip_with (fun p a => Did (ProviderUnpin p name) a) (providers m) answers).
Proof.
  unfold UnpinFile, unpin_all. case_decide as Hz.
  { exists []. apply length_zero_iff_nil in Hz. rewrite Hz. simpl. by rewrite app_nil_r. }
  destruct (foldM_calls env (fun p => ProviderUnpin p name) count_result (providers m) ([], 0) h)
    as (answers & Hl & Hf).
  exists answers. split; [done|]. by rewrite (run_bind_val _ _ _ _ _ Hf).
Qed.

(** Among distinct providers, each one is asked once. *)
Lemma provider_unpins_zip p name ps answers :
  NoDup ps -> p ∈ ps -> length answers = length ps ->
  provider_unpins p (zip_with (fun q (a : res unit) => Did (ProviderUnpin q name) a) ps answers) = [name].
Proof.
  assert (Hnone : forall ps (answers : list (res unit)), p ∉ ps ->
    provider_unpins p (zip_with (fun q a => Did (ProviderUnpin q name) a) ps answers) = []).
  { intros qs. induction qs as [|q qs IH]; intros [|a as_] Hn; try done.
    unfold provider_unpins in *. cbn [zip_with omap list_omap]. unfold unpinned_at at 1.
    apply not_elem_of_cons in Hn as [Hpq Hn]. rewrite decide_False by congruence. by apply IH. }
  intros Hd. revert answers. induction Hd as [|q qs Hq Hd IH]; intros answers Hin Hl; [set_solver|].
  destruct answers as [|a as_]; [done|].
  unfold provider_unpins in *. cbn [zip_with omap list_omap]. unfold unpinned_at at 1.
  destruct (decide (q = p)) as [->|Hne].
  - f_equal. by apply Hnone.
  - apply elem_of_cons in Hin as [->|Hin]; [done|]. apply IH; [done|]. simpl in Hl. lia.
Qed.

(** * Properties *)

(** Pinning hands the file to every configured provider once, in the configured
    order, whatever the earlier ones answered, and fails exactly when there is a
    provider and all of them failed. *)
Theorem PinFile_every_provider env m filePath name h :
  exists answers,
    length answers = length (providers m) /\
    snd (PinFile env m filePath name h) =
      h ++ zip_with (fun p a => Did (ProviderPin p filePath name) a) (providers m) answers /\
    fst (PinFile env m filePath name h) =
      (if bool_decide (providers m <> [] /\ Forall (fun r => failed r = true) answers)
       then Fail (ErrNew ("all storage providers failed: " +:+
              Join (omap (fun xa => match xa.2 with Er e => Some (provider_error xa.1 e) | Ok _ => None end)
                         (zip (providers m) answers)) "; "))%string
       else Val tt).
Proof.
  unfold PinFile, pin_all. case_decide as Hz.
  { exists []. apply length_zero_iff_nil in Hz. rewrite Hz. simpl. by rewrite app_nil_r. }
  destruct (foldM_calls env (fun p => ProviderPin p filePath name) count_result (providers m) ([], 0) h)
    as (answers & Hl & Hf).
  exists answers. split; [done|]. rewrite (run_bind_val _ _ _ _ _ Hf).
  destruct (count_results (providers m) answers ([], 0) Hl) as [H1 H2]. cbn zeta in H1, H2.
  destruct (fold_left _ _ _) as [errs n]. simpl in H1, H2. subst errs n.
  destruct (decide (Forall (fun r => failed r = true) answers)) as [Hall|Hall].
  - rewrite (proj2 (no_success _) Hall), (error_messages _ _ Hl Hall).
    assert (Hne : providers m <> []) by (intros Hnil; by rewrite Hnil in Hz).
    rewrite !(bool_decide_eq_true_2 (_ = _)), (bool_decide_eq_true_2 (_ < _)%nat),
      (bool_decide_eq_true_2 (_ /\ _)) by (done || lia). by split.
  - rewrite (bool_decide_eq_false_2 (_ = 0)).
    2:{ intros H. apply Hall, no_success. lia. }
    rewrite (bool_decide_eq_false_2 (_ /\ _)) by tauto. by split.
Qed.

(** Unpinning asks every configured provider once, in order, and never fails. *)
Theorem UnpinFile_every_provider env m name h :
  exists answers,
    length answers = length (providers m) /\
    UnpinFile env m name h =
      (Val tt, h ++ zip_with (fun p a => Did (ProviderUnpin p name) a) (providers m) answers).
Proof. apply UnpinFile_run. Qed.
