(* ===== verification/Providers.v ===== *)
(** The external storage providers (handler/storage/pinata.go, filebase.go, and the client
    of handler/pinata.go), and the manager over them: which requests it makes of each. *)

From S2P Require Import Prelude GoInt GoStrings Merkle World StorageManager.

#[local] Open Scope string_scope.

(** handler/storage/interface.go: what the manager asks of a provider. *)
Record PinResponse := mkPinResponse {
  pin_ID : string; pin_Name : string; pin_CID : string; pin_Size : Z
}.
Class StorageProvider := {
  Name : string;
  Provider_PinFile : string -> string -> Prog PinResponse;
  Provider_UnpinFile : string -> Prog unit
}.

Section Providers.
Context (env : Env).

(** * Pinata *)
Section Pinata.
Context (jwtToken : string).
Let bearer := "Bearer " +:+ jwtToken.

(** Send a request; an answer other than 200 is an error with the body of the answer. *)
Definition pinata_request (what method url : string) : Prog unit :=
  status ← wrapM ("failed to send " +:+ what +:+ "request") (call_res env (ClientDo method url bearer));
  if decide (status <> 200) then
    body ← call env ReadAll;
    fail (ErrNew ("pinata " +:+ what +:+ "request failed with status " +:+ FormatInt status +:+ ": " +:+ fst body))
  else mret tt.

Definition upload_url : string := "https://uploads.pinata.cloud/v3/files".
Definition files_url : string := "https://api.pinata.cloud/v3/files/public".

(** The file name goes into the query as it is. *)
Definition list_url (fileName : string) : string := files_url +:+ "?name=" +:+ fileName.
Definition delete_url (id : string) : string := files_url +:+ "/" +:+ id.

Definition PinataClient_PinFile (filePath name : string) : Prog PinataFile :=
  _ ← wrapM "failed to open file" (call_res env (OpenFile filePath));
  _ ← wrapM "failed to create form file" (call_res env (CreateFormFile "file" name));
  _ ← wrapM "failed to copy file content" (call_res env (CopyToForm filePath));
  _ ← wrapM "failed to write network field" (call_res env (WriteField "network" "public"));
  _ ← wrapM "failed to close writer" (call_res env CloseForm);
  _ ← wrapM "failed to create request" (call_res env (NewRequest "POST" upload_url));
  _ ← pinata_request "" "POST" upload_url;
  wrapM "failed to decode response" (call_res env DecodePinata).

Definition PinataClient_UnpinFile (fileName : string) : Prog unit :=
  _ ← wrapM "failed to create list request" (call_res env (NewRequest "GET" (list_url fileName)));
  _ ← pinata_request "list " "GET" (list_url fileName);
  files ← wrapM "failed to decode list response" (call_res env DecodePinataList);
  match files with
  | [] => fail (ErrNew "no file found with the given name")
  | file :: _ =>
      _ ← wrapM "failed to create delete request" (call_res env (NewRequest "DELETE" (delete_url (pf_ID file))));
      pinata_request "delete " "DELETE" (delete_url (pf_ID file))
  end.

(** The provider has the same code as the client, but for the response. *)
Definition PinataProvider_PinFile (filePath name : string) : Prog PinResponse :=
  file ← PinataClient_PinFile filePath name;
  mret (mkPinResponse (pf_ID file) (pf_Name file) (pf_Cid file) (pf_Size file)).
Definition PinataProvider_UnpinFile : string -> Prog unit := PinataClient_UnpinFile.

#[export] Instance PinataProvider : StorageProvider := {
  Name := "pinata"; Provider_PinFile := PinataProvider_PinFile; Provider_UnpinFile := PinataProvider_UnpinFile
}.
End Pinata.

(** * Filebase *)
Section Filebase.
Context (bucket : string).

(** The id is the entity tag, without the quotes around it. *)
Definition etag_id (etag : option string) : string :=
  match etag with
  | None => ""
  | Some id =>
      if Nat.ltb 2 (slen id) && HasPrefix id dquote && HasSuffix id dquote
      then stake (slen id - 2) (sdrop 1 id) else id
  end.

Definition FilebaseProvider_PinFile (filePath name : string) : Prog PinResponse :=
  _ ← wrapM "failed to open file" (call_res env (OpenFile filePath));
  size ← wrapM "failed to get file info" (call_res env (FileSize filePath));
  etag ← wrapM "failed to upload file to Filebase" (call_res env (PutObject bucket name filePath));
  mret (mkPinResponse (etag_id etag) name "" size).
Definition FilebaseProvider_UnpinFile (name : string) : Prog unit :=
  wrapM "failed to delete file from Filebase" (call_res env (DeleteObject bucket name)).

#[export] Instance FilebaseProvider : StorageProvider := {
  Name := "filebase"; Provider_PinFile := FilebaseProvider_PinFile; Provider_UnpinFile := FilebaseProvider_UnpinFile
}.
End Filebase.

(** * The manager with its providers

    [NewManager] gets the provider objects; the model finds the object by its name. *)
Context (jwtToken bucket : string).

Definition provider_of (name : string) : StorageProvider :=
  if decide (name = "pinata") then PinataProvider jwtToken else FilebaseProvider bucket.

Definition Manager_PinFile (m : Manager) (filePath name : string) : Prog unit :=
  pin_all (fun p => attempt (_ ← @Provider_PinFile (provider_of p) filePath name; mret tt)) m.
Definition Manager_UnpinFile (m : Manager) (name : string) : Prog unit :=
  unpin_all (fun p => attempt (@Provider_UnpinFile (provider_of p) name)) m.
End Providers.


(** * Lemmas *)
Section Requests.
Context (env : Env).

Lemma run_bind_inv {A B} (m : Prog A) (k : A -> Prog B) h b h' :
  (x ← m; k x) h = (Val b, h') -> exists a h1, m h = (Val a, h1) /\ k a h1 = (Val b, h').
Proof. rewrite run_bind. destruct (m h) as [[a|e|p] h1]; [by exists a, h1|done..]. Qed.

(** A successful run of a call is one observation. *)
Lemma wrap_call_inv {A B} msg (c : Call (res A)) (k : A -> Prog B) h b h' :
  (x ← wrapM msg (call_res env c); k x) h = (Val b, h') ->
  exists a, k a (h ++ [Did c (Ok a)])%list = (Val b, h').
Proof.
  rewrite run_bind, run_wrap_call. destruct (env _ h c) as [a|e]; [by exists a|done].
Qed.

Lemma pinata_request_inv jwt what method url {B} (k : unit -> Prog B) h b h' :
  (x ← pinata_request env jwt what method url; k x) h = (Val b, h') ->
  k tt (h ++ [Did (ClientDo method url ("Bearer " +:+ jwt)) (Ok 200)])%list = (Val b, h').
Proof.
  unfold pinata_request. intros ([] & h1 & E & H)%run_bind_inv.
  apply wrap_call_inv in E as [status E]. case_decide as Hs; [done|].
  injection E as <-. by subst status.
Qed.

End Requests.

(** * Pinata *)

(** A file counts as pinned only if its upload was answered with 200. When [PinFile]
    returns, it has opened the file, sent it under its name as a public one, with the
    token, in one request, and the response is what the service answered. *)
Theorem pinata_PinFile_uploads (env : Env) jwt filePath name h resp h' :
  @Provider_PinFile (PinataProvider env jwt) filePath name h = (Val resp, h') ->
  exists content n file,
    h' = (h ++ [Did (OpenFile filePath) (Ok content); Did (CreateFormFile "file" name) (Ok tt);
                Did (CopyToForm filePath) (Ok n); Did (WriteField "network" "public") (Ok tt);
                Did CloseForm (Ok tt); Did (NewRequest "POST" upload_url) (Ok tt);
                Did (ClientDo "POST" upload_url ("Bearer " +:+ jwt)) (Ok 200); Did DecodePinata (Ok file)])%list /\
    resp = mkPinResponse (pf_ID file) (pf_Name file) (pf_Cid file) (pf_Size file).
Proof.
  simpl. unfold PinataProvider_PinFile. intros (file & h1 & E & [= <- <-])%run_bind_inv. unfold PinataClient_PinFile in E.
  apply wrap_call_inv in E as [content E]. apply wrap_call_inv in E as [[] E]. apply wrap_call_inv in E as [n E].
  do 3 (apply wrap_call_inv in E as [[] E]). apply pinata_request_inv in E.
  rewrite run_wrap_call in E. destruct (env _ _ DecodePinata) as [file'|e] eqn:Ed; [|done]. injection E as <- <-.
  exists content, n, file'. split; [|done]. by rewrite <- !app_assoc.
Qed.

(** Unpinning deletes the first file of the list that the service gives for the name, and
    no other one: when it returns, it has asked for the list of the name and then for the
    removal of the first file of the answer. *)
Theorem pinata_UnpinFile_deletes_first (env : Env) jwt name h h' :
  @Provider_UnpinFile (PinataProvider env jwt) name h = (Val tt, h') ->
  exists file files,
    h' = (h ++ [Did (NewRequest "GET" (list_url name)) (Ok tt);
                Did (ClientDo "GET" (list_url name) ("Bearer " +:+ jwt)) (Ok 200);
                Did DecodePinataList (Ok (file :: files));
                Did (NewRequest "DELETE" (delete_url (pf_ID file))) (Ok tt);
                Did (ClientDo "DELETE" (delete_url (pf_ID file)) ("Bearer " +:+ jwt)) (Ok 200)])%list.
Proof.
  simpl. unfold PinataProvider_UnpinFile, PinataClient_UnpinFile. intros E.
  apply wrap_call_inv in E as [[] E]. apply pinata_request_inv in E. apply wrap_call_inv in E as [files E].
  destruct files as [|file files]; [done|]. apply wrap_call_inv in E as [[] E].
  assert (E' : (x ← pinata_request env jwt "delete " "DELETE" (delete_url (pf_ID file)); mret x)%string
    (((((h ++ [Did (NewRequest "GET" (list_url name)) (Ok tt)]) ++
       [Did (ClientDo "GET" (list_url name) ("Bearer " +:+ jwt)) (Ok 200)]) ++
       [Did DecodePinataList (Ok (file :: files))]) ++
       [Did (NewRequest "DELETE" (delete_url (pf_ID file))) (Ok tt)])%list) = (Val tt, h'))
    by by rewrite run_bind, E.
  apply pinata_request_inv in E'. injection E' as <-. exists file, files. by rewrite <- !app_assoc.
Qed.

(** * Filebase *)

(** The id is what stands between the quotes of the tag; a tag without quotes, or that is
    nothing but its quotes, is the id. *)
Theorem etag_id_quoted id : id <> ""%string -> etag_id (Some (dquote +:+ id +:+ dquote)%string) = id.
Proof.
  intros Hne. unfold etag_id. rewrite HasPrefix_app, <- sapp_assoc, HasSuffix_app, !slen_app.
  change (slen dquote) with 1%nat.
  destruct (Nat.ltb_spec 2 (1 + slen id + 1)%nat) as [_|Hl]; [|destruct id; simpl in Hl; [done|lia]].
  cbn [andb]. replace (1 + slen id + 1 - 2)%nat with (slen id) by lia.
  rewrite sapp_assoc. change (sdrop 1 (dquote +:+ id +:+ dquote)) with (id +:+ dquote)%string. apply stake_app.
Qed.
Example etag_id_plain : etag_id (Some "abc"%string) = "abc"%string.
Proof. reflexivity. Qed.

(** * The manager and its providers *)

(** The calls of an upload or a removal that went well: no error, the status 200, a file in
    the list. *)
Definition went_well (o : Obs) : bool :=
  match o with
  | @Did _ c a =>
      match c in Call A return A -> bool with
      | OpenFile _ => is_ok | CreateFormFile _ _ => is_ok | CopyToForm _ => is_ok | WriteField _ _ => is_ok
      | CloseForm => is_ok | NewRequest _ _ => is_ok | DecodePinata => is_ok
      | FileSize _ => is_ok | PutObject _ _ _ => is_ok | DeleteObject _ _ => is_ok
      | ClientDo _ _ _ => fun r => match r with Ok status => bool_decide (status = 200) | Er _ => false end
      | DecodePinataList => fun r => match r with Ok (_ :: _) => true | _ => false end
      | _ => fun _ => true
      end a
  end.
Definition all_well (t : Trace) : bool := forallb went_well t.

(** The run of [m] appends calls of which [Q] holds; it returns just when all went well. *)
Definition attempts (Q : Trace -> Prop) {A} (m : Prog A) : Prop := forall h, exists t,
  snd (m h) = (h ++ t)%list /\ Q t /\
  match fst (m h) with Val _ => all_well t = true | Fail _ => all_well t = false | Panic _ => False end.

Section Attempts.
Context (env : Env).

Lemma attempts_ret {A} (Q : Trace -> Prop) (a : A) : Q [] -> attempts Q (mret a).
Proof. intros HQ h. exists []. by rewrite app_nil_r. Qed.

Lemma attempts_call {A B} (Q : Trace -> Prop) msg (c : Call (res A)) (k : A -> Prog B) :
  (forall e, went_well (Did c (Er e)) = false /\ Q [Did c (Er e)]) ->
  (forall a, went_well (Did c (Ok a)) = true /\ attempts (fun t => Q (Did c (Ok a) :: t)) (k a)) ->
  attempts Q (x ← wrapM msg (call_res env c); k x).
Proof.
  intros He Hk h. rewrite run_bind, run_wrap_call. destruct (env _ h c) as [a|e].
  - destruct (Hk a) as [Ha Hka]. destruct (Hka (h ++ [Did c (Ok a)])%list) as (t & Ht & HQ & Hm).
    exists (Did c (Ok a) :: t). cbn [of_res wrap]. split; [by rewrite Ht, <- app_assoc|]. split; [done|].
    unfold all_well. cbn [forallb]. by rewrite Ha.
  - destruct (He e) as [He' HQ]. exists [Did c (Er e)]. split; [done|]. split; [done|].
    unfold all_well. cbn [forallb fst]. by rewrite He'.
Qed.

Lemma attempts_last {A} (Q : Trace -> Prop) msg (c : Call (res A)) :
  (forall e, went_well (Did c (Er e)) = false /\ Q [Did c (Er e)]) ->
  (forall a, went_well (Did c (Ok a)) = true /\ Q [Did c (Ok a)]) ->
  attempts Q (wrapM msg (call_res env c)).
Proof.
  intros He Hk h. rewrite run_wrap_call. unfold all_well. destruct (env _ h c) as [a|e].
  - destruct (Hk a) as [Ha HQ]. exists [Did c (Ok a)]. cbn [forallb fst]. by rewrite Ha.
  - destruct (He e) as [He' HQ]. exists [Did c (Er e)]. cbn [forallb fst]. by rewrite He'.
Qed.

Lemma attempts_request {B} (Q : Trace -> Prop) jwt what method url (k : unit -> Prog B) :
  let do r := Did (ClientDo method url ("Bearer " +:+ jwt)%string) r in
  (forall e, Q [do (Er e)]) -> (forall status body, status <> 200 -> Q [do (Ok status); Did ReadAll body]) ->
  attempts (fun t => Q (do (Ok 200) :: t)) (k tt) ->
  attempts Q (x ← pinata_request env jwt what method url; k x).
Proof.
  intros do He Hs Hk h. unfold pinata_request. rewrite run_bind, run_bind, run_wrap_call.
  destruct (env _ h (ClientDo _ _ _)) as [status|e]; cbn [of_res wrap].
  - destruct (decide (status <> 200)) as [Hst|Hst].
    + rewrite run_bind. unfold call. cbv beta iota zeta. eexists. split; [cbn [fail snd]; by rewrite <- app_assoc|].
      split; [by apply Hs|]. unfold all_well. cbn. by rewrite bool_decide_eq_false_2.
    + assert (status = 200) as -> by (by apply dec_stable).
      cbv beta iota zeta delta [mret GoM_ret].
      destruct (Hk (h ++ [do (Ok 200)])%list) as (t & Ht & HQ & Hm). exists (do (Ok 200) :: t).
      split; [etransitivity; [exact Ht|by rewrite <- app_assoc]|]. split; [done|]. exact Hm.
  - exists [do (Er e)]. split; [done|]. split; [apply He|done].
Qed.

(** The first file of a list. *)
Lemma attempts_list {B} (Q : Trace -> Prop) msg none (k : PinataFile -> Prog B) :
  (forall e, Q [Did DecodePinataList (Er e)]) -> Q [Did DecodePinataList (Ok [])] ->
  (forall file files, attempts (fun t => Q (Did DecodePinataList (Ok (file :: files)) :: t)) (k file)) ->
  attempts Q (files ← wrapM msg (call_res env DecodePinataList);
              match files with [] => fail none | file :: _ => k file end).
Proof.
  intros He Hn Hk h. rewrite run_bind, run_wrap_call.
  destruct (env _ h DecodePinataList) as [[|file files]|e]; cbn [of_res wrap].
  - exists [Did DecodePinataList (Ok [])]. by split.
  - destruct (Hk file files (h ++ [Did DecodePinataList (Ok (file :: files))])%list) as (t & Ht & HQ & Hm).
    exists (Did DecodePinataList (Ok (file :: files)) :: t). split; [by rewrite Ht, <- app_assoc|]. by split.
  - exists [Did DecodePinataList (Er e)]. by split.
Qed.

Lemma attempts_bind_ret {A B} (Q : Trace -> Prop) (m : Prog A) (f : A -> B) :
  attempts Q m -> attempts Q (x ← m; mret (f x)).
Proof.
  intros Hm h. destruct (Hm h) as (t & Ht & HQ & Hr). exists t. rewrite run_bind.
  by destruct (m h) as [[a|e|p] h1].
Qed.

Lemma attempts_weaken {A} (P Q : Trace -> Prop) (m : Prog A) :
  attempts P m -> (forall t, P t -> Q t) -> attempts Q m.
Proof. intros Hm HPQ h. destruct (Hm h) as (t & Ht & HP & Hr). exists t. auto. Qed.
End Attempts.

(** What a provider is asked for an upload, and the whole upload. *)
Section Uploads.
Context (jwt bucket : string).
Let bearer := ("Bearer " +:+ jwt)%string.

Definition upload_call (p filePath name : string) (o : Obs) : Prop :=
  match o with
  | @Did _ c _ =>
      match c with
      | OpenFile path | CopyToForm path | FileSize path => path = filePath
      | CreateFormFile _ n => n = name
      | WriteField _ _ | CloseForm | DecodePinata | ReadAll => True
      | NewRequest method url => method = "POST" /\ url = upload_url
      | ClientDo method url auth => p = "pinata" /\ method = "POST" /\ url = upload_url /\ auth = bearer
      | PutObject b key path => p <> "pinata" /\ b = bucket /\ key = name /\ path = filePath
      | _ => False
      end
  end%string.
Definition uploaded (p filePath name : string) (t : Trace) : Prop :=
  if decide (p = "pinata")%string
  then exists content n file,
    t = [Did (OpenFile filePath) (Ok content); Did (CreateFormFile "file" name) (Ok tt);
         Did (CopyToForm filePath) (Ok n); Did (WriteField "network" "public") (Ok tt);
         Did CloseForm (Ok tt); Did (NewRequest "POST" upload_url) (Ok tt);
         Did (ClientDo "POST" upload_url bearer) (Ok 200); Did DecodePinata (Ok file)]
  else exists content size etag,
    t = [Did (OpenFile filePath) (Ok content); Did (FileSize filePath) (Ok size);
         Did (PutObject bucket name filePath) (Ok etag)].
Definition upload_attempt (filePath name p : string) (t : Trace) : Prop :=
  Forall (upload_call p filePath name) t /\ (all_well t = true -> uploaded p filePath name t).

(** The same for a removal. At Pinata the file to remove is the first of the list for its
    name. *)
Definition removal_call (p name : string) (t : Trace) (o : Obs) : Prop :=
  let first file := exists files, Did DecodePinataList (Ok (file :: files)) ∈ t in
  match o with
  | @Did _ c _ =>
      match c with
      | NewRequest _ _ | DecodePinataList | ReadAll => True
      | ClientDo method url auth =>
          p = "pinata" /\ auth = bearer /\
          (method = "GET" /\ url = list_url name \/
           method = "DELETE" /\ exists file, first file /\ url = delete_url (pf_ID file))
      | DeleteObject b key => p <> "pinata" /\ b = bucket /\ key = name
      | _ => False
      end
  end%string.
Definition removed (p name : string) (t : Trace) : Prop :=
  if decide (p = "pinata")%string
  then exists file files,
    t = [Did (NewRequest "GET" (list_url name)) (Ok tt);
         Did (ClientDo "GET" (list_url name) bearer) (Ok 200);
         Did DecodePinataList (Ok (file :: files));
         Did (NewRequest "DELETE" (delete_url (pf_ID file))) (Ok tt);
         Did (ClientDo "DELETE" (delete_url (pf_ID file)) bearer) (Ok 200)]
  else t = [Did (DeleteObject bucket name) (Ok tt)].
Definition removal_attempt (name p : string) (t : Trace) : Prop :=
  Forall (removal_call p name t) t /\ (all_well t = true -> removed p name t).

Ltac attempt_step :=
  first [ apply attempts_call; intros ?; (split; [done|])
        | apply attempts_request; [intros ?|intros ? ? ?|]
        | apply attempts_last; intros ?; (split; [done|])
        | apply attempts_ret ].
(** A call of the attempt's own. *)
Ltac own_call := simpl;
  first [ done
        | split; [done|]; split; [done|]; left; done
        | split; [done|]; split; [done|]; right; split; [done|];
          eexists; split; [eexists; do 2 right; left|]; done ].
(** An attempt that broke off made calls of its own only. *)
Ltac broke_off := unfold upload_attempt, removal_attempt; split;
  [repeat (apply Forall_cons_2; [own_call|]); apply Forall_nil_2
  |intros Hw; exfalso; revert Hw; unfold all_well; cbn;
   repeat match goal with H : ?s <> 200 |- _ => rewrite (bool_decide_eq_false_2 (s = 200)) by exact H; clear H end;
   done].

Lemma Provider_PinFile_attempts env p filePath name :
  attempts (upload_attempt filePath name p) (@Provider_PinFile (provider_of env jwt bucket p) filePath name).
Proof.
  unfold provider_of. destruct (decide (p = "pinata")%string) as [Hp|Hp]; simpl.
  - unfold PinataProvider_PinFile. apply attempts_bind_ret. unfold PinataClient_PinFile.
    repeat attempt_step; try broke_off.
    split; [by repeat constructor|]. intros _. unfold uploaded. rewrite decide_True by done.
    repeat match goal with x : unit |- _ => destruct x end. by do 3 eexists.
  - unfold FilebaseProvider_PinFile. repeat attempt_step; try broke_off.
    split; [by repeat constructor|]. intros _. unfold uploaded. rewrite decide_False by done. by do 3 eexists.
Qed.

(** The last request of a removal, with nothing after it. *)
Lemma attempts_last_request env (Q : Trace -> Prop) what method url :
  let do r := Did (ClientDo method url bearer) r in
  (forall e, Q [do (Er e)]) -> (forall status body, status <> 200 -> Q [do (Ok status); Did ReadAll body]) ->
  Q [do (Ok 200)] -> attempts Q (pinata_request env jwt what method url).
Proof.
  intros do He Hs Hk h. destruct (attempts_request env Q jwt what method url mret He Hs) with (h := h) as (t & Ht & HQ & Hm);
    [by apply attempts_ret|]. exists t. rewrite run_bind in Ht, Hm.
  by destruct (pinata_request _ _ _ _ _ h) as [[[]|e|q] h1].
Qed.

Lemma Provider_UnpinFile_attempts env p name :
  attempts (removal_attempt name p) (@Provider_UnpinFile (provider_of env jwt bucket p) name).
Proof.
  unfold provider_of. destruct (decide (p = "pinata")%string) as [Hp|Hp]; simpl.
  - unfold PinataProvider_UnpinFile, PinataClient_UnpinFile.
    attempt_step; [broke_off|]. attempt_step; [broke_off..|].
    apply attempts_list; [intros e; broke_off|broke_off|].
    intros file files. attempt_step; [broke_off|]. apply attempts_last_request; [intros e; broke_off|intros ? ? ?; broke_off|].
    repeat match goal with x : unit |- _ => destruct x end.
    split; [repeat (apply Forall_cons_2; [own_call|]); apply Forall_nil_2|].
    intros _. unfold removed. rewrite decide_True by done. by do 2 eexists.
  - unfold FilebaseProvider_UnpinFile. attempt_step; [broke_off|].
    split; [by repeat constructor|]. intros _. unfold removed. rewrite decide_False by done. by destruct a.
Qed.
End Uploads.

(** A loop over the providers that counts results: one attempt after the other. *)
Lemma foldM_attempts (P : string -> Trace -> Prop) (m : string -> Prog unit) ps acc h :
  (forall p, attempts (P p) (m p)) ->
  exists answers ts, length answers = length ps /\ Forall2 P ps ts /\
    Forall2 (fun r t => is_ok r = all_well t) answers ts /\
    foldM (fun acc p => r ← attempt (m p); mret (count_result acc p r)) ps acc h =
      (Val (fold_left (fun b xa => count_result b xa.1 xa.2) (zip ps answers) acc), (h ++ concat ts)%list).
Proof.
  intros Hm. revert acc h. induction ps as [|p ps IH]; intros acc h.
  { exists [], []. split; [done|]. split; [done|]. split; [done|]. cbn. by rewrite app_nil_r. }
  destruct (Hm p h) as (t & Ht & HPt & Hr).
  assert (Hone : exists r, attempt (m p) h = (Val r, (h ++ t)%list) /\ is_ok r = all_well t).
  { unfold attempt. destruct (m p h) as [[a|e|q] h1]; cbn in *; subst h1; [exists (Ok a)|exists (Er e)|done];
      by rewrite Hr. }
  destruct Hone as (r & Hrun & Hok). destruct (IH (count_result acc p r) (h ++ t)%list) as (answers & ts & Hl & HP' & Hr' & Hf).
  exists (r :: answers), (t :: ts). split; [simpl; by rewrite Hl|]. split; [by constructor|]. split; [by constructor|].
  cbn [foldM]. rewrite (run_bind_val _ _ h (count_result acc p r) (h ++ t)%list) by (by rewrite (run_bind_val _ _ _ _ _ Hrun)).
  rewrite Hf. cbn [concat]. by rewrite app_assoc.
Qed.

Lemma failed_reasons ps (answers : list (res unit)) :
  length answers = length ps -> Forall (fun r => failed r = true) answers ->
  exists reasons, length reasons = length ps /\
    omap (fun xa : string * res unit => match xa.2 with Er e => Some (provider_error xa.1 e) | Ok _ => None end)
      (zip ps answers) = zip_with provider_error ps reasons.
Proof.
  revert answers. induction ps as [|p ps IH]; intros [|a answers] Hl Hf; try done; [by exists []|].
  inversion Hf as [|? ? Ha Hf']; subst. destruct a as [|e]; [done|].
  destruct (IH answers) as (reasons & Hlr & Hr); [simpl in Hl; lia|done|].
  exists (e :: reasons). split; [simpl; by rewrite Hlr|]. simpl. f_equal. exact Hr.
Qed.

(** C40: the manager hands a file to every provider and takes it back from every one.
    Whatever the files, the services and their answers are: [PinFile] makes one attempt at
    each configured provider, in their order, whatever came of those before. An attempt at
    Pinata or Filebase asks for nothing but the upload of this file under its name, with
    the token or into the bucket of the configuration, and where no call of it failed (and
    the status was 200) it is the whole upload. [PinFile] returns if there is no provider
    or an attempt went well; otherwise it fails with the reasons of all of them.
    [UnpinFile] always returns, after one attempt at each provider, in order, that asks
    for the removal of the object of that name at Filebase, and at Pinata of the first
    file of the list for the name, and of nothing else. *)
Theorem Manager_requests (env : Env) jwt bucket m filePath name h :
  (exists tries, Forall2 (upload_attempt jwt bucket filePath name) (providers m) tries /\
     snd (Manager_PinFile env jwt bucket m filePath name h) = (h ++ concat tries)%list /\
     if decide (providers m = [] \/ existsb all_well tries = true)
     then fst (Manager_PinFile env jwt bucket m filePath name h) = Val tt
     else exists reasons, length reasons = length (providers m) /\
       fst (Manager_PinFile env jwt bucket m filePath name h) =
         Fail (ErrNew ("all storage providers failed: " +:+
                       Join (zip_with (fun p e => p +:+ ": " +:+ Error e) (providers m) reasons) "; ")%string)) /\
  exists tries, Forall2 (removal_attempt jwt bucket name) (providers m) tries /\
    Manager_UnpinFile env jwt bucket m name h = (Val tt, (h ++ concat tries)%list).
Proof.
  split.
  - destruct (foldM_attempts _ _ (providers m) ([], 0) h
      (fun p => attempts_bind_ret _ _ (fun _ => tt) (Provider_PinFile_attempts jwt bucket env p filePath name))) as (answers & ts & Hl & HP & Hr & Hf).
    exists ts. split; [done|]. unfold Manager_PinFile, pin_all. case_decide as Hz.
    { apply length_zero_iff_nil in Hz. rewrite Hz in *. apply Forall2_nil_inv_l in HP as ->. cbn.
      by rewrite app_nil_r. }
    rewrite (run_bind_val _ _ _ _ _ Hf).
    destruct (count_results (providers m) answers ([], 0) Hl) as [H1 H2]. cbn zeta in H1, H2.
    destruct (fold_left _ _ _) as [errs n]. simpl in H1, H2. subst errs n.
    assert (Hno : existsb all_well ts = true <-> ~ Forall (fun r => failed r = true) answers).
    { clear -Hr. induction Hr as [|r t answers ts Hrt _ IH]; [split; [done|by intros []]|].
      cbn [existsb]. rewrite <- Hrt. destruct (is_ok r) eqn:E; cbn [orb].
      - split; [|done]. intros _ Hall. inversion Hall as [|? ? Hf]; subst. unfold failed in Hf. by rewrite E in Hf.
      - rewrite IH. split; intros H Hall; apply H; [by inversion Hall|].
        constructor; [|done]. unfold failed. by rewrite E. }
    assert (Hne : providers m <> []) by (intros Hnil; by rewrite Hnil in Hz).
    destruct (decide (Forall (fun r => failed r = true) answers)) as [Hall|Hall].
    + rewrite (proj2 (no_success _) Hall), (error_messages _ _ Hl Hall).
      rewrite !(bool_decide_eq_true_2 (_ = _)), (bool_decide_eq_true_2 (_ < _)%nat) by (done || lia).
      split; [done|]. rewrite decide_False by tauto.
      destruct (failed_reasons (providers m) answers Hl Hall) as (reasons & Hlr & Hre).
      exists reasons. split; [done|]. cbn [andb fst fail app]. do 4 f_equal. exact Hre.
    + rewrite (bool_decide_eq_false_2 (_ = 0)).
      2:{ intros H. apply Hall, no_success. lia. }
      split; [done|]. by rewrite decide_True by tauto.
  - destruct (foldM_attempts _ _ (providers m) ([], 0) h
      (fun p => Provider_UnpinFile_attempts jwt bucket env p name)) as (answers & ts & Hl & HP & Hr & Hf).
    exists ts. split; [done|]. unfold Manager_UnpinFile, unpin_all. case_decide as Hz.
    { apply length_zero_iff_nil in Hz. rewrite Hz in *. apply Forall2_nil_inv_l in HP as ->. cbn.
      by rewrite app_nil_r. }
    by rewrite (run_bind_val _ _ _ _ _ Hf).
Qed.

(** Two providers, the first of which fails. *)
Definition providers_env : Env := fun A h c =>
  match c in Call A return A with
  | OpenFile _ => Ok (Merkle.well_formed_file [1])
  | ClientDo _ _ _ => Ok 503
  | PutObject _ _ _ => Ok (Some (dquote +:+ "e7" +:+ dquote)%string)
  | FileSize _ => Ok 1
  | DecodePinataList => Ok [mkPinataFile "id1" "a" "c" 1; mkPinataFile "id2" "a" "c" 1]
  | c => quiet c
  end.
Example one_provider_is_enough :
  fst (Manager_PinFile providers_env "jwt" "b" (mkManager ["pinata"; "filebase"]) "/f" "a" []) = Val tt /\
  fst (Manager_PinFile providers_env "jwt" "b" (mkManager ["pinata"]) "/f" "a" []) =
    Fail (ErrNew "all storage providers failed: pinata: pinata request failed with status 503: ").
Proof. split; vm_compute; reflexivity. Qed.

#[local] Close Scope string_scope.
