(* ===== verification/ChainClient.v ===== *)
(** The client of the chain (app/gitopia.go): queries, proposals, and the polling for
    a proposal to show up. *)

From S2P Require Import Prelude GoInt GoStrings StorageFee World.

#[local] Open Scope string_scope.

(** [GitopiaProxy]: the client's own address; the queue of messages is reached by the
    call [AddToBatch]. *)
Record GitopiaProxy := mkGitopiaProxy { ClientAddress : string }.

Definition CheckProvider (g : GitopiaProxy) (providerAddress : string) : bool :=
  bool_decide (ClientAddress g = providerAddress).

Section ChainClient.
Context (env : Env).
Implicit Types g : GitopiaProxy.

(** [if err != nil { return ..., errors.WithMessage(err, "query error") }]. *)
Definition query {A} (c : Call (res A)) : Prog A := wrapM "query error" (call_res env c).

(** ** Messages *)
Definition UpdateTask g (id state : Z) (message : string) : Prog unit :=
  call_res env (AddToBatch (MsgUpdateTask (ClientAddress g) id state message)).

Definition UpdateRepositoryPackfile g (repositoryId : Z) (name cid : string) (rootHash : list Z)
    (size : Z) (oldCid : string) : Prog unit :=
  call_res env (AddToBatch
    (MsgUpdateRepositoryPackfile (ClientAddress g) repositoryId name cid rootHash (u64 size) oldCid)).

Definition ProposePackfileUpdate g (user : string) (repositoryId : Z) (name cid : string)
    (rootHash : list Z) (size : Z) (oldCid mergeCommitSha : string) (delete : bool) : Prog unit :=
  call_res env (AddToBatch
    (MsgProposeRepositoryPackfileUpdate (ClientAddress g) user repositoryId name cid rootHash
       (u64 size) oldCid mergeCommitSha delete)).

Definition ProposeRepositoryDelete g (user : string) (repositoryId : Z) : Prog unit :=
  call_res env (AddToBatch (MsgProposeRepositoryDelete (ClientAddress g) user repositoryId)).

Definition SubmitChallenge g (challengeId : Z) (data : list Z) (hashes : list (list Z)) (index : Z) :
    Prog unit :=
  call_res env (AddToBatch (MsgSubmitChallengeResponse (ClientAddress g) challengeId data hashes index)).

Definition UpdateReleaseAssets g (repositoryId : Z) (tag : string) (assets : list AssetUpdate) : Prog unit :=
  call_res env (AddToBatch (MsgUpdateReleaseAssets (ClientAddress g) repositoryId tag assets)).

Definition ProposeReleaseAssetsUpdate g (user : string) (repositoryId : Z) (tag : string)
    (assets : list AssetUpdate) : Prog unit :=
  call_res env (AddToBatch
    (MsgProposeReleaseAssetsUpdate (ClientAddress g) user repositoryId tag assets)).

Definition UpdateLFSObject g (repositoryId : Z) (oid cid : string) (rootHash : list Z) (size : Z) :
    Prog unit :=
  call_res env (AddToBatch
    (MsgUpdateLFSObject (ClientAddress g) repositoryId oid cid rootHash (u64 size))).

Definition ProposeLFSObjectUpdate g (user : string) (repositoryId : Z) (oid cid : string)
    (rootHash : list Z) (size : Z) (delete : bool) : Prog unit :=
  call_res env (AddToBatch
    (MsgProposeLFSObjectUpdate (ClientAddress g) user repositoryId oid cid rootHash (u64 size) delete)).

(** ** Queries *)
Definition RepositoryName (id : Z) : Prog string :=
  resp ← query (QRepository id); mret (rp_Name resp).
Definition RepositoryId (address repoName : string) : Prog Z :=
  resp ← query (QAnyRepository address repoName); mret (rp_Id resp).
Definition PullRequest_ (repositoryId pullRequestIid : Z) : Prog PullRequest :=
  repoResp ← query (QRepository repositoryId);
  query (QPullRequest (rp_OwnerId repoResp) (rp_Name repoResp) pullRequestIid).
Definition Task (id : Z) : Prog Z := query (QTask id).
Definition Repository_ (repositoryId : Z) : Prog Repository := query (QRepository repositoryId).
Definition Challenge_ (id : Z) : Prog Challenge := query (QChallenge id).
Definition Packfile_ (id : Z) : Prog Packfile := query (QPackfile id).
Definition UserQuota (address : string) : Prog Z := query (QUserQuota address).
Definition ReleaseAsset (id : Z) : Prog ChainReleaseAsset := query (QReleaseAsset id).
Definition RepositoryReleaseAsset (repositoryId : Z) (tag name : string) : Prog ChainReleaseAsset :=
  query (QRepositoryReleaseAsset repositoryId tag name).
Definition RepositoryReleaseAssets (repositoryId : Z) (tag : string) : Prog (list ChainReleaseAsset) :=
  query (QRepositoryReleaseAssets repositoryId tag).
Definition RepositoryPackfile (repositoryId : Z) : Prog Packfile :=
  query (QRepositoryPackfile repositoryId).
Definition StorageParams : Prog Params := query QStorageParams.
Definition ReleaseAssetsUpdateProposal (repositoryId : Z) (tag user : string) : Prog (list string) :=
  query (QReleaseAssetsUpdateProposal repositoryId tag user).
(** The only query whose error is returned as it is. *)
Definition CosmosBankBalance (address denom : string) : Prog Coin :=
  amount ← call_res env (QBankBalance address denom); mret (mkCoin denom amount).
Definition StorageCidReferenceCount (cid : string) : Prog Z := query (QCidReferenceCount cid).
Definition ActiveProviders : Prog (list string) := query QActiveProviders.
Definition RepositoryReleaseAssetsByRepositoryId (repositoryId : Z) (nextKey : option (list Z)) :
    Prog (list ChainReleaseAsset * option (list Z)) :=
  query (QReleaseAssetsPage repositoryId nextKey).
Definition LFSObject_ (id : Z) : Prog ChainLFSObject := query (QLFSObject id).
Definition LFSObjectsByRepositoryId (repositoryId : Z) : Prog (list ChainLFSObject) :=
  query (QLFSObjectsByRepositoryId repositoryId).
Definition LFSObjectByRepositoryIdAndOid (repositoryId : Z) (oid : string) : Prog ChainLFSObject :=
  query (QLFSObjectByRepositoryIdAndOid repositoryId oid).
Definition PackfileUpdateProposal (repositoryId : Z) (user : string) : Prog string :=
  query (QPackfileUpdateProposal repositoryId user).
Definition RepositoryDeleteProposal (repositoryId : Z) (user : string) : Prog unit :=
  query (QRepositoryDeleteProposal repositoryId user).
Definition LFSObjectUpdateProposal (repositoryId : Z) (oid user : string) : Prog string :=
  query (QLFSObjectUpdateProposal repositoryId oid user).
Definition RepositoryReleaseAll (ownerId repositoryName : string) : Prog (list string) :=
  query (QRepositoryReleaseAll ownerId repositoryName).

(** The loop over the pages of the release assets; [fuel] bounds the pages. *)
Fixpoint all_pages (fuel : nat) (repositoryId : Z) (nextKey : option (list Z))
    (allAssets : list ChainReleaseAsset) : Prog (list ChainReleaseAsset) :=
  match fuel with
  | O => gopanic "out of fuel"
  | S fuel =>
      '(assets, next) ← RepositoryReleaseAssetsByRepositoryId repositoryId nextKey;
      match next with
      | None => mret (allAssets ++ assets)%list
      | Some k => all_pages fuel repositoryId (Some k) (allAssets ++ assets)%list
      end
  end.
Definition RepositoryReleaseAssetsByRepositoryIdAll (fuel : nat) (repositoryId : Z) :
    Prog (list ChainReleaseAsset) := all_pages fuel repositoryId None [].

(** ** Has a proposal shown up? *)

(** [if strings.Contains(err.Error(), missing) { return false, nil }]. *)
Definition or_missing {A} (missing : string) (f : A -> bool) (m : Prog A) : Prog bool :=
  r ← attempt m;
  match r with
  | Ok a => mret (f a)
  | Er e => if Contains (Error e) missing then mret false else fail e
  end.

Definition CheckProposePackfileUpdate (repositoryId : Z) (user : string) : Prog bool :=
  or_missing "packfile update proposal not found" (fun cid => bool_decide (cid <> ""))
    (PackfileUpdateProposal repositoryId user).
Definition CheckProposeRepositoryDelete (repositoryId : Z) (user : string) : Prog bool :=
  or_missing "repository delete proposal not found" (fun _ => true)
    (RepositoryDeleteProposal repositoryId user).
Definition CheckProposeLFSObjectUpdate (repositoryId : Z) (oid user : string) : Prog bool :=
  or_missing "lfs object update proposal not found" (fun cid => bool_decide (cid <> ""))
    (LFSObjectUpdateProposal repositoryId oid user).
Definition CheckProposeReleaseAssetsUpdate (repositoryId : Z) (tag user : string) : Prog bool :=
  or_missing "release assets update proposal not found"
    (fun assets => bool_decide (0 < length assets)%nat)
    (ReleaseAssetsUpdateProposal repositoryId tag user).
Definition CheckPullRequestUpdate (repositoryId pullRequestIid : Z) (mergeCommitSha : string) : Prog bool :=
  pullRequest ← PullRequest_ repositoryId pullRequestIid;
  mret (bool_decide (pr_MergeCommitSha pullRequest = mergeCommitSha)).

(** ** Polling

    The ticker fires every second and the context ends after ten; [fuel] bounds the
    rounds of the loop. *)
Fixpoint poll_loop (fuel : nat) (checkerFn : Prog bool) : Prog unit :=
  match fuel with
  | O => gopanic "out of fuel"
  | S fuel =>
      s ← call env Select;
      match s with
      | CtxDone e => fail e
      | Tick =>
          success ← checkerFn;
          match success with true => mret tt | false => poll_loop fuel checkerFn end
      end
  end.

Definition PollForUpdate (fuel : nat) (checkerFn : Prog bool) : Prog unit :=
  success ← checkerFn;
  match success with true => mret tt | false => poll_loop fuel checkerFn end.
End ChainClient.

Definition DeadlineExceeded : error := ErrNew "context deadline exceeded".

#[local] Close Scope string_scope.

(** * Lemmas *)

(** The ticks of a trace. *)
Definition is_tick (o : Obs) : bool :=
  match o with
  | @Did _ c a => match c in Call A return A -> bool with
                  | Select => fun r => match r with Tick => true | CtxDone _ => false end
                  | _ => fun _ => false
                  end a
  end.
Definition ticks (h : Trace) : nat := length (filter (fun o => is_tick o = true) h).
Arguments ticks : simpl never.

Lemma ticks_app h t : ticks (h ++ t) = (ticks h + ticks t)%nat.
Proof. unfold ticks. by rewrite list.filter_app, length_app. Qed.

Lemma ticks_tick h : ticks (h ++ [Did Select Tick]) = S (ticks h).
Proof. rewrite ticks_app. change (ticks [Did Select Tick]) with 1%nat. lia. Qed.

Section Poll.
Context (env : Env) (checkerFn : Prog bool).

(** The checker does not run out of fuel and does not touch the ticker. *)
Context (checker_total : forall h, panics (fst (checkerFn h)) = false).
Context (checker_ticks : forall h, (ticks h <= ticks (snd (checkerFn h)))%nat).

(** The context's deadline: it is done once [n] ticks went by. *)
Context (n : nat).
Context (deadline : forall h, (n <= ticks h)%nat -> exists e, env ready h Select = CtxDone e).

Lemma poll_loop_total fuel h :
  (n < fuel + ticks h)%nat -> (0 < fuel)%nat ->
  panics (fst (poll_loop env fuel checkerFn h)) = false.
Proof using checker_total checker_ticks deadline.
  revert h. induction fuel as [|fuel IH]; intros h Hf Hpos; [lia|].
  cbn [poll_loop]. rewrite (run_bind_val _ _ h (env ready h Select) (h ++ [Did Select (env ready h Select)])) by done.
  destruct (env ready h Select) as [e|] eqn:Es; [done|].
  cbv beta iota. rewrite run_bind. pose proof (checker_total (h ++ [Did Select Tick])) as Ht.
  pose proof (checker_ticks (h ++ [Did Select Tick])) as Hk. rewrite ticks_tick in Hk.
  destruct (checkerFn _) as [[[]|e|p] h']; try done. simpl in Hk.
  destruct fuel as [|fuel].
  - destruct (deadline h) as [e He]; [lia|congruence].
  - apply IH; lia.
Qed.

(** The loop answers normally only after a check that said yes, and that check is
    the last thing that happened. *)
Lemma poll_loop_success fuel h h' :
  poll_loop env fuel checkerFn h = (Val tt, h') -> exists h0, checkerFn h0 = (Val true, h').
Proof.
  revert h. induction fuel as [|fuel IH]; intros h; [done|].
  cbn [poll_loop]. rewrite (run_bind_val _ _ h (env ready h Select) (h ++ [Did Select (env ready h Select)])) by done.
  destruct (env ready h Select) as [e|]; [done|].
  cbv beta iota. rewrite run_bind.
  destruct (checkerFn _) as [[[]|e|p] h1] eqn:Ec; try done.
  - intros [= <-]. by eexists.
  - apply IH.
Qed.
End Poll.

Lemma query_ok (env : Env) {A} (c : Call (res A)) a h :
  env (res A) h c = Ok a -> query env c h = (Val a, h ++ [Did c (Ok a)]).
Proof. intros H. unfold query, wrapM, call_res, call. rewrite run_bind, H. done. Qed.

Lemma query_er (env : Env) {A} (c : Call (res A)) e h :
  env (res A) h c = Er e -> query env c h = (Fail (ErrWrap "query error" e), h ++ [Did c (Er e)]).
Proof. intros H. unfold query, wrapM, call_res, call. rewrite run_bind, H. done. Qed.

(** A check is one query: it answers, and the ticker is left alone. *)
Lemma check_total (env : Env) {A} (c : Call (res A)) missing f h :
  panics (fst (or_missing missing f (query env c) h)) = false.
Proof.
  unfold or_missing, attempt. rewrite run_bind.
  destruct (env _ h c) as [a|e] eqn:E.
  - by rewrite (query_ok _ _ _ _ E).
  - rewrite (query_er _ _ _ _ E). cbn. by destruct (Contains _ _).
Qed.

Lemma check_ticks (env : Env) {A} (c : Call (res A)) missing f h :
  (ticks h <= ticks (snd (or_missing missing f (query env c) h)))%nat.
Proof.
  unfold or_missing, attempt. rewrite run_bind.
  destruct (env _ h c) as [a|e] eqn:E.
  - rewrite (query_ok _ _ _ _ E). cbn. rewrite ticks_app. lia.
  - rewrite (query_er _ _ _ _ E). cbn. destruct (Contains _ _); cbn; rewrite ticks_app; lia.
Qed.

Lemma or_missing_yes (env : Env) {A} (c : Call (res A)) missing f h h' :
  or_missing missing f (query env c) h = (Val true, h') ->
  exists a, f a = true /\ h' = h ++ [Did c (Ok a)].
Proof.
  unfold or_missing, attempt. rewrite run_bind.
  destruct (env _ h c) as [a|e] eqn:E.
  - rewrite (query_ok _ _ _ _ E). cbn. intros [= Hf <-]. eauto.
  - rewrite (query_er _ _ _ _ E). cbn. by destruct (Contains _ _).
Qed.

Lemma or_missing_preserves env I {A} (c : Call (res A)) missing f :
  keeps I c -> preserves I (or_missing missing f (query env c)).
Proof.
  intros Hk. unfold or_missing, query. apply preserves_bind.
  - apply preserves_attempt, preserves_wrapM, preserves_call_res, Hk.
  - intros [a|e]; [apply preserves_ret|]. destruct (Contains _ _); [apply preserves_ret|apply preserves_fail].
Qed.

(** Polling reports success on a check that said yes, and keeps what the check and the
    ticker keep. *)
Lemma PollForUpdate_success env fuel checkerFn h h' :
  PollForUpdate env fuel checkerFn h = (Val tt, h') -> exists h0, checkerFn h0 = (Val true, h').
Proof.
  unfold PollForUpdate. rewrite run_bind. destruct (checkerFn h) as [[[]|e|p] h1] eqn:E; try done.
  - intros [= <-]. eauto.
  - apply poll_loop_success.
Qed.

Lemma PollForUpdate_preserves env I fuel checkerFn :
  keeps I Select -> preserves I checkerFn -> preserves I (PollForUpdate env fuel checkerFn).
Proof.
  intros Hs Hc. assert (Hl : forall n, preserves I (poll_loop env n checkerFn)).
  { induction n as [|n IH]; cbn [poll_loop]; [by intros ? ?|]. apply preserves_bind; [by apply preserves_call|].
    intros [e|]; [apply preserves_fail|].
    apply preserves_bind; [done|]. intros []; [apply preserves_ret|apply IH]. }
  apply preserves_bind; [done|]. intros []; [apply preserves_ret|apply Hl].
Qed.

(** ** Pages *)

(** The pages of a paginated answer, starting at a key. *)
Inductive pages_from {A} (page : option (list Z) -> res (list A * option (list Z))) :
    option (list Z) -> list A -> nat -> Prop :=
| pages_last k xs : page k = Ok (xs, None) -> pages_from page k xs 1
| pages_more k xs next ys n :
    page k = Ok (xs, Some next) -> pages_from page (Some next) ys n ->
    pages_from page k (xs ++ ys) (S n).

Lemma all_pages_collects (env : Env) page repositoryId k rest n :
  (forall h k, env _ h (QReleaseAssetsPage repositoryId k) = page k) ->
  pages_from page k rest n ->
  forall fuel acc h, (n <= fuel)%nat ->
    fst (all_pages env fuel repositoryId k acc h) = Val (acc ++ rest).
Proof.
  intros Henv Hp. induction Hp as [k xs Hk|k xs next ys n Hk Hp IH]; intros fuel acc h Hf;
    (destruct fuel as [|fuel]; [lia|]); cbn [all_pages];
    rewrite (run_bind_val _ _ _ _ _ (query_ok env _ _ h (eq_trans (Henv h k) Hk))); [done|].
  rewrite IH by lia. by rewrite <- app_assoc.
Qed.

(** * Properties *)

(** C35: polling ends. With a checker that answers and leaves the ticker alone, and a
    context that is done once [n] ticks went by, [n + 1] rounds are enough; and when
    polling reports success, the last check is the one that said yes, and nothing
    happened after it. *)
Theorem PollForUpdate_ends (env : Env) checkerFn n h :
  (forall h, panics (fst (checkerFn h)) = false) ->
  (forall h, (ticks h <= ticks (snd (checkerFn h)))%nat) ->
  (forall h, (n <= ticks h)%nat -> exists e, env ready h Select = CtxDone e) ->
  panics (fst (PollForUpdate env (S n) checkerFn h)) = false /\
  (forall h', PollForUpdate env (S n) checkerFn h = (Val tt, h') ->
     exists h0, checkerFn h0 = (Val true, h')).
Proof.
  intros Ht Hk Hd. unfold PollForUpdate. rewrite run_bind.
  pose proof (Ht h) as Hh. destruct (checkerFn h) as [[[]|e|p] h1] eqn:Ec; try done.
  - split; [done|]. intros h' [= <-]. by exists h.
  - split; [apply (poll_loop_total _ _ Ht Hk n Hd); lia|].
    intros h'. apply poll_loop_success.
Qed.

(** An environment in which a packfile proposal shows up after two ticks. *)
Definition slow_chain : Env := fun A h c =>
  match c in Call A return A with
  | Select => if decide (3 <= ticks h)%nat then CtxDone DeadlineExceeded else Tick
  | QPackfileUpdateProposal _ _ =>
      if decide (2 <= ticks h)%nat then Ok "cid"%string
      else Er (ErrNew "packfile update proposal not found")
  | c => quiet c
  end.

Lemma PollForUpdate_ends_witness :
  panics (fst (PollForUpdate slow_chain 4 (CheckProposePackfileUpdate slow_chain 7 "u") [])) = false.
Proof.
  apply (PollForUpdate_ends slow_chain (CheckProposePackfileUpdate slow_chain 7 "u") 3 []).
  - intros h. apply check_total.
  - intros h. apply check_ticks.
  - intros h Hn. exists DeadlineExceeded. cbn. by rewrite decide_True.
Defined.

(** Reading all release assets of a repository collects the pages the chain
    answers, in their order, and stops after the page without a next key. *)
Theorem RepositoryReleaseAssetsByRepositoryIdAll_pages (env : Env) page repositoryId assets n h :
  (forall h k, env _ h (QReleaseAssetsPage repositoryId k) = page k) ->
  pages_from page None assets n ->
  fst (RepositoryReleaseAssetsByRepositoryIdAll env n repositoryId h) = Val assets.
Proof. intros He Hp. by apply (all_pages_collects _ _ _ _ _ _ He Hp). Qed.

Definition two_pages : Env := fun A h c =>
  match c in Call A return A with
  | QReleaseAssetsPage _ None => Ok ([mkChainReleaseAsset "a" "c1" "s1" 1], Some [1])
  | QReleaseAssetsPage _ (Some _) => Ok ([mkChainReleaseAsset "b" "c2" "s2" 2], None)
  | c => quiet c
  end.

Lemma RepositoryReleaseAssetsByRepositoryIdAll_pages_witness :
  fst (RepositoryReleaseAssetsByRepositoryIdAll two_pages 2 7 []) =
  Val [mkChainReleaseAsset "a" "c1" "s1" 1; mkChainReleaseAsset "b" "c2" "s2" 2].
Proof.
  apply (RepositoryReleaseAssetsByRepositoryIdAll_pages two_pages
           (fun k => two_pages _ [] (QReleaseAssetsPage 7 k))).
  - intros h k. destruct k; reflexivity.
  - apply (pages_more _ None [mkChainReleaseAsset "a" "c1" "s1" 1] [1]); [reflexivity|].
    apply pages_last. reflexivity.
Defined.
