(* ===== verification/Cache.v ===== *)
(** Caching of repositories, release assets and LFS objects (utils/cache.go from
    IsRepositoryPackfileCached on, utils/git.go, and Server.CacheRepository of
    internal/app/common.go).

    The lock tables are in RepoLocks.v; here taking and releasing a lock are calls. *)

From S2P Require Import Prelude GoInt GoStrings GoPath World.

#[local] Open Scope string_scope.

Definition repo_dir (cacheDir : string) (id : Z) : string :=
  PathJoin [cacheDir; FormatUint id +:+ ".git"].

Section Cache.
Context (env : Env).
Context (viper : string -> string).

Definition connect : Prog unit :=
  wrapM "error connecting to gitopia" (call_res env GetQueryClient).

(** [_, err := os.Stat(p); err == nil]. *)
Definition file_exists (p : string) : Prog bool :=
  s ← call env (Stat p);
  mret (match s with Exists _ => true | _ => false end).

(** [_, err := os.Stat(p); os.IsNotExist(err)]. *)
Definition file_missing (p : string) : Prog bool :=
  s ← call env (Stat p);
  mret (match s with NotExist => true | _ => false end).

(** A query whose "packfile not found" error means that there is no packfile. *)
Definition query_packfile (on_error : error -> error) (id : Z) : Prog (option Packfile) :=
  r ← call env (QRepositoryPackfile id);
  match r with
  | Ok p => mret (Some p)
  | Er e => if Contains (Error e) "packfile not found" then mret None else fail (on_error e)
  end.

Definition IsRepositoryPackfileCached (id : Z) (cacheDir : string) : Prog bool :=
  _ ← connect;
  p ← query_packfile (ErrWrap "failed to get cid from chain") id;
  match p with
  | None => mret false
  | Some packfile =>
      if decide (pk_Cid packfile = "") then mret true
      else file_exists (PathJoin [repo_dir cacheDir id; "objects"; "pack"; pk_Name packfile])
  end.

Definition ipfs_url (cid : string) : string :=
  "http://" +:+ viper "IPFS_HOST" +:+ ":" +:+ viper "IPFS_PORT" +:+ "/api/v0/cat?arg=/ipfs/"
    +:+ cid +:+ "&progress=false".

(** Start fetching an object from IPFS; [what] names it in the errors. *)
Definition fetch (what cid : string) : Prog unit :=
  resp ← flatten ("failed to fetch " +:+ what +:+ " from IPFS") (call_res env (HttpPost (ipfs_url cid)));
  if decide (StatusCode resp <> 200)
  then fail (ErrNew ("failed to fetch " +:+ what +:+ " from IPFS: " +:+ Status resp))
  else mret tt.

Definition downloadPackfile (cid packfileName repoDir : string) : Prog unit :=
  _ ← fetch "packfile" cid;
  let packDir := PathJoin [repoDir; "objects"; "pack"] in
  _ ← flatten "failed to create pack directory" (call_res env (MkdirAll packDir));
  let packfilePath := PathJoin [packDir; packfileName] in
  _ ← flatten "failed to create packfile" (call_res env (Create packfilePath));
  _ ← flatten "failed to write packfile" (call_res env (CopyInto packfilePath));
  let args := ["git"; "index-pack"; packfilePath] in
  _ ← GitCommand env args;
  _ ← call_res env (Start repoDir args);
  deferring (CleanUpProcessGroup env true)
    (_ ← call_res env CopyOut; call_res env Wait).

(** The parents of a fork first; [fuel] bounds the length of the chain of forks. *)
Fixpoint DownloadRepositoryPackfile (fuel : nat) (id : Z) (cacheDir : string) : Prog unit :=
  match fuel with
  | O => gopanic "out of fuel"
  | S fuel =>
      _ ← connect;
      repo ← call_res env (QRepository id);
      let repoDir := repo_dir cacheDir (rp_Id repo) in
      fresh ← file_missing (PathJoin [repoDir; "objects"]);
      _ ← when fresh
            (wrapM "failed to initialize repository"
               (call_res env (Run EmptyString ["git"; "init"; "--bare"; repoDir])));
      _ ← when (rp_Fork repo)
            (isParentCached ← wrapM "error checking if parent repo is cached"
                               (IsRepositoryPackfileCached (rp_Parent repo) cacheDir);
             _ ← when (negb isParentCached)
                   (wrapM "error downloading parent repo"
                      (DownloadRepositoryPackfile fuel (rp_Parent repo) cacheDir));
             let alternatesPath := PathJoin [repoDir; "objects"; "info"; "alternates"] in
             unlinked ← file_missing alternatesPath;
             when unlinked
               (let parentObjectsPath := PathJoin [repo_dir cacheDir (rp_Parent repo); "objects"] in
                flatten "failed to write alternates file"
                  (call_res env (WriteFile alternatesPath (parentObjectsPath +:+ String nl EmptyString)))));
      p ← query_packfile (fun e => ErrNew ("failed to get cid from chain: " +:+ Error e)) id;
      match p with
      | None => mret tt
      | Some packfile =>
          wrapM "error downloading packfile"
            (downloadPackfile (pk_Cid packfile) (pk_Name packfile) repoDir)
      end
  end.
End Cache.

Section Refs.
Context (env : Env).

(** One round of syncRefsIndividually: [git update-ref] for one ref, and the name it
    is reported under when it fails. *)
Definition update_ref (repoDir ref sha label : string) : Prog (list string) :=
  let args := ["git"; "update-ref"; ref; sha] in
  r ← attempt (GitCommand env args);
  match r with
  | Er _ => mret [label]
  | Ok _ =>
      r ← call env (Start repoDir args);
      match r with
      | Er _ => mret [label]
      | Ok _ =>
          r ← call env CopyOut;
          match r with
          | Er _ => _ ← CleanUpProcessGroup env true; mret [label]
          | Ok _ =>
              r ← call env Wait;
              match r with
              | Er _ => mret [label]
              | Ok _ => _ ← CleanUpProcessGroup env true; mret []
              end
          end
      end
  end.

Definition syncRefsIndividually (repoDir : string) (branches : list Branch) (tags : list Tag) :
    Prog (list string) :=
  failed ← foldM (fun failedRefs b =>
      f ← update_ref repoDir ("refs/heads/" +:+ br_Name b) (br_Sha b) ("branch:" +:+ br_Name b);
      mret (failedRefs ++ f)%list) branches [];
  foldM (fun failedRefs t =>
      f ← update_ref repoDir ("refs/tags/" +:+ tg_Name t) (tg_Sha t) ("tag:" +:+ tg_Name t);
      mret (failedRefs ++ f)%list) tags failed.

Definition update_commands (branches : list Branch) (tags : list Tag) : list string :=
  (map (fun b => "update refs/heads/" +:+ br_Name b +:+ " " +:+ br_Sha b) branches
   ++ map (fun t => "update refs/tags/" +:+ tg_Name t +:+ " " +:+ tg_Sha t) tags)%list.

Definition syncRefsWithUpdateRef (repoDir : string) (branches : list Branch) (tags : list Tag) :
    Prog (list string) :=
  let updateCommands := update_commands branches tags in
  if decide (length updateCommands = 0)%nat then mret [] else
  let args := ["git"; "update-ref"; "--stdin"] in
  let fallback := syncRefsIndividually repoDir branches tags in
  r ← attempt (GitCommand env args);
  match r with
  | Er _ => fallback
  | Ok _ =>
      r ← call env StdinPipe;
      match r with
      | Er _ => fallback
      | Ok _ =>
          r ← call env (Start repoDir args);
          match r with
          | Er _ => fallback
          | Ok _ =>
              _ ← call env (FeedStdin updateCommands);
              r ← call env CopyOut;
              match r with
              | Er _ => _ ← CleanUpProcessGroup env true; fallback
              | Ok _ =>
                  r ← call env Wait;
                  match r with
                  | Er _ => fallback
                  | Ok _ => _ ← CleanUpProcessGroup env true; mret []
                  end
              end
          end
      end
  end.

(** The branches and the tags are asked for in parallel; both answers are awaited
    before either error is looked at. *)
Definition SyncRepositoryRefs (id : Z) (cacheDir : string) : Prog unit :=
  _ ← connect env;
  repo ← call_res env (QRepository id);
  let repoDir := repo_dir cacheDir id in
  branchRes ← call env (QRepositoryBranchAll (rp_OwnerId repo) (rp_Name repo));
  tagRes ← call env (QRepositoryTagAll (rp_OwnerId repo) (rp_Name repo));
  branches ← lift (of_res branchRes);
  tags ← lift (of_res tagRes);
  if decide (0 < length branches \/ 0 < length tags)%nat
  then _ ← syncRefsWithUpdateRef repoDir branches tags; mret tt
  else mret tt.
End Refs.

Section Caching.
Context (env : Env).
Context (viper : string -> string).
Context (fuel : nat).

Definition CacheRepository (id : Z) (cacheDir : string) : Prog unit :=
  isRepoCached ← wrapM "error checking if repo is cached" (IsRepositoryPackfileCached env id cacheDir);
  _ ← when (negb isRepoCached)
        (wrapM "error downloading repository packfile"
           (DownloadRepositoryPackfile env viper fuel id cacheDir));
  wrapM "error syncing repository refs" (SyncRepositoryRefs env id cacheDir).

(** ** Release assets *)
Definition asset_path (sha256 : string) : string := viper "ATTACHMENT_DIR" +:+ "/" +:+ sha256.

Definition IsReleaseAssetCached (sha256 cacheDir : string) : Prog bool :=
  file_exists env (asset_path sha256).

Definition DownloadReleaseAsset (cid sha256 cacheDir : string) : Prog unit :=
  _ ← fetch env viper "release asset" cid;
  _ ← flatten "failed to create attachment file" (call_res env (Create (asset_path sha256)));
  _ ← flatten "failed to write attachment file" (call_res env (CopyInto (asset_path sha256)));
  mret tt.

Definition CacheReleaseAsset (repositoryId : Z) (tag name cacheDir : string) : Prog unit :=
  _ ← connect env;
  asset ← wrapM "failed to get release asset from chain"
            (call_res env (QRepositoryReleaseAsset repositoryId tag name));
  isAssetCached ← wrapM "error checking if asset is cached"
                    (IsReleaseAssetCached (ra_Sha256 asset) cacheDir);
  when (negb isAssetCached)
    (wrapM "error downloading release asset"
       (DownloadReleaseAsset (ra_Cid asset) (ra_Sha256 asset) cacheDir)).

(** ** LFS objects *)
Definition lfs_path (oid : string) : string := PathJoin [viper "LFS_OBJECTS_DIR"; oid].

(** [lock(k); defer unlock(k); body]. *)
Definition with_rlock {A} (k : LockKey) (body : Prog A) : Prog A :=
  _ ← call env (RLock k); deferring (call env (RUnlock k)) body.
Definition with_lock {A} (k : LockKey) (body : Prog A) : Prog A :=
  _ ← call env (Lock k); deferring (call env (Unlock k)) body.

Definition IsLFSObjectCached (oid : string) : Prog bool :=
  with_rlock (LfsKey oid) (file_exists env (lfs_path oid)).

(** The object is looked for again under the lock, so that it is not downloaded
    twice. *)
Definition DownloadLFSObject (cid oid : string) : Prog unit :=
  with_lock (LfsKey oid)
    (present ← file_exists env (lfs_path oid);
     when (negb present)
       (_ ← fetch env viper "lfs object" cid;
        _ ← flatten "failed to create lfs object directory"
              (call_res env (MkdirAll (Dir (lfs_path oid))));
        _ ← flatten "failed to create lfs object file" (call_res env (Create (lfs_path oid)));
        _ ← flatten "failed to write lfs object file" (call_res env (CopyInto (lfs_path oid)));
        mret tt)).

Definition CacheLFSObjects (repositoryId : Z) : Prog unit :=
  _ ← connect env;
  objects ← wrapM "failed to get lfs objects from chain"
              (call_res env (QLFSObjectsByRepositoryId repositoryId));
  forM_ objects (fun lfsObject =>
    isLFSObjectCached ← wrapM "error checking if lfs object is cached"
                          (IsLFSObjectCached (cl_Oid lfsObject));
    when (negb isLFSObjectCached)
      (wrapM "error downloading lfs object"
         (DownloadLFSObject (cl_Cid lfsObject) (cl_Oid lfsObject)))).

(** ** Server.CacheRepository (internal/app/common.go); [dir] is [s.Config.Dir]. *)
Definition Server_CacheRepository (dir : string) (repoId : Z) : Prog unit :=
  p ← query_packfile env (fun e => ErrNew ("failed to get packfile from chain: " +:+ Error e)) repoId;
  repo ← flatten "failed to get repo from chain" (call_res env (QRepository repoId));
  let repoPath := repo_dir dir repoId in
  let has_packfile := match p with Some packfile => bool_decide (pk_Cid packfile <> "") | None => false end in
  _ ← when (has_packfile || rp_Fork repo)
        (cached ← match p with
                  | Some packfile =>
                      if decide (pk_Cid packfile = "") then mret false
                      else file_exists env (PathJoin [repoPath; "objects"; "pack"; pk_Name packfile])
                  | None => mret false
                  end;
         when (negb cached)
           (flatten "failed to cache repository" (DownloadRepositoryPackfile env viper fuel repoId dir)));
  _ ← flatten "failed to sync repository refs" (SyncRepositoryRefs env repoId dir);
  flatten ("failed to cache lfs objects for repo " +:+ FormatUint repoId) (CacheLFSObjects repoId).
End Caching.

#[local] Close Scope string_scope.

(** * Every lock that is taken is released *)
Section Balanced.
Context (env : Env) (viper : string -> string).

Lemma connect_balanced : balanced (connect env).
Proof. unfold connect. balance. Qed.

Lemma file_exists_balanced p : balanced (file_exists env p).
Proof. unfold file_exists. balance. Qed.

Lemma file_missing_balanced p : balanced (file_missing env p).
Proof. unfold file_missing. balance. Qed.

Lemma query_packfile_balanced f id : balanced (query_packfile env f id).
Proof. unfold query_packfile. balance. Qed.
#[local] Hint Resolve connect_balanced file_exists_balanced file_missing_balanced
  query_packfile_balanced : go.

Lemma IsRepositoryPackfileCached_balanced id dir : balanced (IsRepositoryPackfileCached env id dir).
Proof. unfold IsRepositoryPackfileCached. balance. Qed.

Lemma fetch_balanced what cid : balanced (fetch env viper what cid).
Proof. unfold fetch. balance. Qed.
#[local] Hint Resolve IsRepositoryPackfileCached_balanced fetch_balanced : go.

Lemma downloadPackfile_balanced cid name dir : balanced (downloadPackfile env viper cid name dir).
Proof. unfold downloadPackfile. balance. Qed.
#[local] Hint Resolve downloadPackfile_balanced : go.

Lemma DownloadRepositoryPackfile_balanced fuel id dir :
  balanced (DownloadRepositoryPackfile env viper fuel id dir).
Proof.
  revert id. induction fuel as [|fuel IH]; intros id; cbn [DownloadRepositoryPackfile]; [done|].
  balance.
Qed.

Lemma update_ref_balanced dir ref sha label : balanced (update_ref env dir ref sha label).
Proof. unfold update_ref. balance. Qed.
#[local] Hint Resolve DownloadRepositoryPackfile_balanced update_ref_balanced : go.

Lemma syncRefsIndividually_balanced dir bs ts : balanced (syncRefsIndividually env dir bs ts).
Proof. unfold syncRefsIndividually. balance. Qed.
#[local] Hint Resolve syncRefsIndividually_balanced : go.

Lemma syncRefsWithUpdateRef_balanced dir bs ts : balanced (syncRefsWithUpdateRef env dir bs ts).
Proof. unfold syncRefsWithUpdateRef. balance. Qed.
#[local] Hint Resolve syncRefsWithUpdateRef_balanced : go.

Lemma SyncRepositoryRefs_balanced id dir : balanced (SyncRepositoryRefs env id dir).
Proof. unfold SyncRepositoryRefs. balance. Qed.
#[local] Hint Resolve SyncRepositoryRefs_balanced : go.

Lemma CacheRepository_balanced fuel id dir : balanced (CacheRepository env viper fuel id dir).
Proof. unfold CacheRepository. balance. Qed.

Lemma DownloadReleaseAsset_balanced cid sha dir : balanced (DownloadReleaseAsset env viper cid sha dir).
Proof. unfold DownloadReleaseAsset. balance. Qed.
#[local] Hint Resolve DownloadReleaseAsset_balanced : go.

Lemma CacheReleaseAsset_balanced id tag name dir : balanced (CacheReleaseAsset env viper id tag name dir).
Proof. unfold CacheReleaseAsset, IsReleaseAssetCached. balance. Qed.

Lemma with_lock_balanced {A} k (body : Prog A) : balanced body -> balanced (with_lock env k body).
Proof.
  intros H. apply balanced_locked; [|done]. intros k'. simpl. by case_decide.
Qed.

Lemma with_rlock_balanced {A} k (body : Prog A) : balanced body -> balanced (with_rlock env k body).
Proof.
  intros H. apply balanced_locked; [|done]. intros k'. simpl. by case_decide.
Qed.

Lemma IsLFSObjectCached_balanced oid : balanced (IsLFSObjectCached env viper oid).
Proof. apply with_rlock_balanced. auto with go. Qed.

Lemma DownloadLFSObject_balanced cid oid : balanced (DownloadLFSObject env viper cid oid).
Proof. apply with_lock_balanced. balance. Qed.
#[local] Hint Resolve IsLFSObjectCached_balanced DownloadLFSObject_balanced : go.

Lemma CacheLFSObjects_balanced id : balanced (CacheLFSObjects env viper id).
Proof. unfold CacheLFSObjects. balance. Qed.
#[local] Hint Resolve CacheLFSObjects_balanced : go.

Lemma Server_CacheRepository_balanced fuel dir id :
  balanced (Server_CacheRepository env viper fuel dir id).
Proof. unfold Server_CacheRepository. balance. Qed.
End Balanced.

#[export] Hint Resolve connect_balanced file_exists_balanced CacheRepository_balanced
  CacheReleaseAsset_balanced IsLFSObjectCached_balanced DownloadLFSObject_balanced
  Server_CacheRepository_balanced with_lock_balanced with_rlock_balanced : go.

(** * The calls of the cache: no message to the chain, nothing unpinned or removed, no
    subprocess but those that add packfiles and refs *)
Definition cache_call : CallSet := fun A c =>
  match c with
  | GetQueryClient | QRepository _ | QRepositoryPackfile _ | QRepositoryBranchAll _ _
  | QRepositoryTagAll _ _ | QLFSObjectsByRepositoryId _ | QRepositoryReleaseAsset _ _ _
  | Stat _ | MkdirAll _ | Create _ | WriteFile _ _ | CopyInto _
  | StdoutPipe _ | StdinPipe | FeedStdin _ | CopyOut | Wait | Kill _ | WaitTimeout | Run _ _
  | HttpPost _ | Lock _ | Unlock _ | RLock _ | RUnlock _ => true
  | Start _ args => adds_only args
  | _ => false
  end.

Section Calls.
Context (env : Env) (viper : string -> string).

Lemma IsRepositoryPackfileCached_calls id dir :
  only cache_call (IsRepositoryPackfileCached env id dir).
Proof. unfold IsRepositoryPackfileCached, connect, query_packfile, file_exists. only_calls. Qed.

Lemma downloadPackfile_calls cid name dir : only cache_call (downloadPackfile env viper cid name dir).
Proof. unfold downloadPackfile, fetch, GitCommand, CleanUpProcessGroup. only_calls. Qed.
#[local] Hint Resolve IsRepositoryPackfileCached_calls downloadPackfile_calls : go.

Lemma DownloadRepositoryPackfile_calls fuel id dir :
  only cache_call (DownloadRepositoryPackfile env viper fuel id dir).
Proof.
  revert id. induction fuel as [|fuel IH]; intros id; cbn [DownloadRepositoryPackfile]; [by intros ? ? ?|].
  unfold connect, file_missing, query_packfile. only_calls.
Qed.

Lemma update_ref_calls dir ref sha label : only cache_call (update_ref env dir ref sha label).
Proof. unfold update_ref, GitCommand, CleanUpProcessGroup. only_calls. Qed.
#[local] Hint Resolve DownloadRepositoryPackfile_calls update_ref_calls : go.

Lemma SyncRepositoryRefs_calls id dir : only cache_call (SyncRepositoryRefs env id dir).
Proof.
  unfold SyncRepositoryRefs, syncRefsWithUpdateRef, syncRefsIndividually, connect, GitCommand,
    CleanUpProcessGroup. only_calls.
Qed.
#[local] Hint Resolve SyncRepositoryRefs_calls : go.

Lemma CacheRepository_calls fuel id dir : only cache_call (CacheRepository env viper fuel id dir).
Proof. unfold CacheRepository. only_calls. Qed.

Lemma CacheReleaseAsset_calls id tag name dir :
  only cache_call (CacheReleaseAsset env viper id tag name dir).
Proof.
  unfold CacheReleaseAsset, IsReleaseAssetCached, DownloadReleaseAsset, fetch, connect, file_exists.
  only_calls.
Qed.

Lemma IsLFSObjectCached_calls oid : only cache_call (IsLFSObjectCached env viper oid).
Proof. unfold IsLFSObjectCached, with_rlock, file_exists. only_calls. Qed.

Lemma DownloadLFSObject_calls cid oid : only cache_call (DownloadLFSObject env viper cid oid).
Proof. unfold DownloadLFSObject, with_lock, fetch, file_exists. only_calls. Qed.
#[local] Hint Resolve IsLFSObjectCached_calls DownloadLFSObject_calls : go.

Lemma Server_CacheRepository_calls fuel dir id :
  only cache_call (Server_CacheRepository env viper fuel dir id).
Proof.
  unfold Server_CacheRepository, CacheLFSObjects, query_packfile, connect, file_exists. only_calls.
Qed.
End Calls.

#[export] Hint Resolve CacheRepository_calls CacheReleaseAsset_calls IsLFSObjectCached_calls
  DownloadLFSObject_calls Server_CacheRepository_calls : go.

(** * Absence of panics *)
Section Safe.
Context (env : Env) (viper : string -> string).

Lemma connect_safe : safe (connect env).
Proof. unfold connect. safe_step. Qed.

Lemma file_exists_safe p : safe (file_exists env p).
Proof. unfold file_exists. safe_step. Qed.

Lemma file_missing_safe p : safe (file_missing env p).
Proof. unfold file_missing. safe_step. Qed.

Lemma query_packfile_safe f id : safe (query_packfile env f id).
Proof. unfold query_packfile. safe_step. Qed.
#[local] Hint Resolve connect_safe file_exists_safe file_missing_safe query_packfile_safe : go.

Lemma IsRepositoryPackfileCached_safe id dir : safe (IsRepositoryPackfileCached env id dir).
Proof. unfold IsRepositoryPackfileCached. safe_step. Qed.

Lemma fetch_safe what cid : safe (fetch env viper what cid).
Proof. unfold fetch. safe_step. Qed.
#[local] Hint Resolve IsRepositoryPackfileCached_safe fetch_safe : go.

Lemma downloadPackfile_safe cid name dir : safe (downloadPackfile env viper cid name dir).
Proof. unfold downloadPackfile. safe_step. Qed.
#[local] Hint Resolve downloadPackfile_safe : go.

(** The recursion follows the parents of forks, so any measure that decreases
    along them bounds it. *)
Lemma DownloadRepositoryPackfile_safe (depth : Z -> nat) fuel id dir :
  (forall h id r, env _ h (QRepository id) = Ok r -> rp_Fork r = true ->
     (depth (rp_Parent r) < depth id)%nat) ->
  (depth id < fuel)%nat -> safe (DownloadRepositoryPackfile env viper fuel id dir).
Proof.
  intros Hdepth. revert id. induction fuel as [|fuel IH]; intros id Hf; [lia|].
  cbn [DownloadRepositoryPackfile]. apply safe_bind; [auto with go|]. intros _.
  apply safe_bind_call_res. intros h r Hr.
  destruct (rp_Fork r) eqn:Efork; [|safe_step].
  specialize (IH (rp_Parent r) ltac:(specialize (Hdepth h id r Hr Efork); lia)). safe_step.
Qed.
End Safe.

(** * Files on success *)
Section Present.
Context (env : Env) (viper : string -> string) (path : string).
Let there := fun h => present path h = true.

Lemma update_ref_present dir ref sha label : preserves there (update_ref env dir ref sha label).
Proof. unfold update_ref, there. present_step. Qed.
#[local] Hint Resolve update_ref_present : go.

Lemma syncRefsIndividually_present dir bs ts : preserves there (syncRefsIndividually env dir bs ts).
Proof. unfold syncRefsIndividually, there. present_step. Qed.
#[local] Hint Resolve syncRefsIndividually_present : go.

Lemma syncRefsWithUpdateRef_present dir bs ts : preserves there (syncRefsWithUpdateRef env dir bs ts).
Proof. unfold syncRefsWithUpdateRef, there. present_step. Qed.
#[local] Hint Resolve syncRefsWithUpdateRef_present : go.

Lemma SyncRepositoryRefs_present id dir : preserves there (SyncRepositoryRefs env id dir).
Proof. unfold SyncRepositoryRefs, connect, there. present_step. Qed.

Lemma file_exists_ends h :
  ends (file_exists env path) h (fun b h' => b = true -> there h').
Proof.
  unfold file_exists, there. apply ends_bind, ends_call. intros a _. apply ends_ret.
  destruct a; try done. intros _. rewrite present_snoc. simpl. by rewrite decide_True.
Qed.

(** A download that succeeds leaves its packfile behind. *)
Lemma downloadPackfile_ends cid name dir h :
  path = PathJoin [PathJoin [dir; "objects"; "pack"]; name]%string ->
  ends (downloadPackfile env viper cid name dir) h (fun _ h' => there h').
Proof.
  intros Hp. unfold downloadPackfile, there. cbv zeta. rewrite <- Hp. apply ends_skip. intros ? h1. apply ends_skip. intros ? h2.
  apply ends_bind, ends_flatten, ends_call_res. intros [] _.
  match goal with |- ends _ ?h _ => set (h3 := h) end.
  assert (H3 : present path h3 = true).
  { unfold h3. rewrite present_snoc. simpl. by rewrite decide_True. }
  clearbody h3. apply ends_preserves; [|done]. present_step.
Qed.
End Present.

Lemma packfile_path dir id name :
  name <> EmptyString ->
  PathJoin [PathJoin [repo_dir dir id; "objects"; "pack"]; name]%string =
  PathJoin [repo_dir dir id; "objects"; "pack"; name]%string.
Proof.
  intros Hn. apply (PathJoin_snoc [repo_dir dir id; "objects"; "pack"]%string name); [done| |done].
  repeat constructor; try done. unfold repo_dir, PathJoin.
  destruct (filter _ _) as [|x xs] eqn:E; [|apply Clean_not_empty].
  rewrite (filter_cons (fun e : string => e <> EmptyString) dir) in E.
  destruct (decide (dir <> EmptyString)); [done|].
  rewrite filter_cons_True in E; [done|].
  intros Happ. apply (f_equal slen) in Happ. rewrite slen_app in Happ. simpl in Happ. lia.
Qed.

(** * Properties *)

(** C5: caching works. Let the chain's packfile of repository [id] have a cid and a
    name, let the chain answer with the repository that was asked for, and let files
    stay until they are removed. When [CacheRepository] returns without an error the
    packfile is in the cache: looking for it finds it. *)
Theorem CacheRepository_caches (env : Env) viper fuel id dir packfile h h' :
  files_stay env ->
  (forall h r, env _ h (QRepository id) = Ok r -> rp_Id r = id) ->
  (forall h, env _ h (QRepositoryPackfile id) = Ok packfile) ->
  pk_Cid packfile <> EmptyString -> pk_Name packfile <> EmptyString ->
  CacheRepository env viper fuel id dir h = (Val tt, h') ->
  exists n, env stat h' (Stat (PathJoin [repo_dir dir id; "objects"; "pack"; pk_Name packfile]%string))
            = Exists n.
Proof.
  intros Hfiles Hid Hpk Hcid Hname. set (path := PathJoin _). intros Hrun. apply Hfiles. revert Hrun.
  enough (Hends : ends (CacheRepository env viper fuel id dir) h (fun _ h' => present path h' = true))
    by apply Hends.
  unfold CacheRepository. apply ends_bind, ends_wrapM.
  apply (ends_mono _ _ (fun b h' => b = true -> present path h' = true)).
  { unfold IsRepositoryPackfileCached. apply ends_skip. intros _u h1. apply ends_bind.
    unfold query_packfile. apply ends_bind, ends_call. intros r Hr. rewrite Hpk in Hr. subst r.
    apply ends_ret. rewrite decide_False by done. apply file_exists_ends. }
  intros cached h1 Hcached. apply ends_bind.
  apply (ends_mono _ _ (fun _ h' => present path h' = true)).
  2:{ intros u h2 Hp. apply ends_preserves; [|done]. apply preserves_wrapM, SyncRepositoryRefs_present. }
  apply ends_when; [|intros H; apply Hcached; by destruct cached].
  intros _. apply ends_wrapM. destruct fuel as [|fuel]; [done|]. cbn [DownloadRepositoryPackfile].
  apply ends_skip. intros u2 h2. apply ends_bind, ends_call_res. intros r Hr.
  specialize (Hid _ _ Hr). rewrite Hid.
  apply ends_skip. intros fresh h3. apply ends_skip. intros u4 h4. apply ends_skip. intros u5 h5.
  apply ends_bind. unfold query_packfile. apply ends_bind, ends_call. intros r' Hr'.
  rewrite Hpk in Hr'. subst r'. apply ends_ret. apply ends_wrapM, downloadPackfile_ends.
  symmetry. by apply packfile_path.
Qed.

(** A chain with one repository, and a disk that keeps what is created. *)
Definition disk_env (repo : Repository) (packfile : Packfile) : Env := fun A h c =>
  match c in Call A return A with
  | QRepository _ => Ok repo
  | QRepositoryPackfile _ => Ok packfile
  | Stat p => if present p h then Exists 1 else NotExist
  | c => quiet c
  end.

Definition demo_repo : Repository := mkRepository 7 "r" false 0 "o" OwnerType_USER [].
Definition demo_packfile : Packfile := mkPackfile "p.pack" "cid" 10.
Definition no_config : string -> string := fun _ => EmptyString.

Lemma CacheRepository_caches_witness :
  let env := disk_env demo_repo demo_packfile in
  let h' := snd (CacheRepository env no_config 1 7 "c" []) in
  exists n, env stat h' (Stat (PathJoin [repo_dir "c" 7; "objects"; "pack"; "p.pack"]%string)) = Exists n.
Proof.
  intros env h'.
  apply (CacheRepository_caches env no_config 1 7 "c" demo_packfile []); try done.
  - intros h p Hp. exists 1. cbn. by rewrite Hp.
  - intros h r [= <-]. done.
Defined.

(** C36: downloading a fork ends: the recursion goes to the parent of a fork, so with
    any measure that decreases along the parents, one more round than the measure is
    enough, whatever else the environment answers. *)
Theorem DownloadRepositoryPackfile_terminates (env : Env) viper (depth : Z -> nat) id dir h :
  (forall h id r, env _ h (QRepository id) = Ok r -> rp_Fork r = true ->
     (depth (rp_Parent r) < depth id)%nat) ->
  panics (fst (DownloadRepositoryPackfile env viper (S (depth id)) id dir h)) = false.
Proof. intros H. apply (DownloadRepositoryPackfile_safe env viper depth _ _ _ H). lia. Qed.

(** A chain where repository [n] is a fork of [n - 1], down to 0. *)
Definition fork_env : Env := fun A h c =>
  match c in Call A return A with
  | QRepository id => Ok (mkRepository id "r" (bool_decide (0 < id)) (id - 1) "o" OwnerType_USER [])
  | QRepositoryPackfile _ => Ok demo_packfile
  | Stat p => if present p h then Exists 1 else NotExist
  | c => quiet c
  end.

Lemma DownloadRepositoryPackfile_terminates_witness :
  panics (fst (DownloadRepositoryPackfile fork_env no_config 4 3 "c" [])) = false.
Proof.
  apply (DownloadRepositoryPackfile_terminates fork_env no_config Z.to_nat 3 "c" []).
  intros h id r [= <-]. simpl. rewrite bool_decide_eq_true. lia.
Defined.

(** The locks of LFS objects are released on every way out: caching the objects of
    a repository, or a whole repository, leaves every lock as it found it, also when a
    download fails. *)
Theorem CacheLFSObjects_releases_locks (env : Env) viper fuel dir id h k :
  held k (snd (CacheLFSObjects env viper id h)) = held k h /\
  held k (snd (Server_CacheRepository env viper fuel dir id h)) = held k h.
Proof. split; [apply CacheLFSObjects_balanced|apply Server_CacheRepository_balanced]. Qed.

(** A download that fails half-way poisons the cache. When fetching an LFS object
    ends with the error of the copy, the file that was created for it stays: from then
    on the object counts as cached, and the download is not tried again. *)
Theorem DownloadLFSObject_partial_is_cached (env : Env) viper cid oid h h' e :
  files_stay env ->
  DownloadLFSObject env viper cid oid h
    = (Fail (ErrNew ("failed to write lfs object file: " +:+ e)%string), h') ->
  fst (IsLFSObjectCached env viper oid h') = Val true /\
  fst (DownloadLFSObject env viper cid oid h') = Val tt.
Proof.
  intros Hstay Hrun. set (path := lfs_path viper oid).
  assert (Hthere : present path h' = true).
  { revert Hrun.
    enough (Hwp : wp (DownloadLFSObject env viper cid oid)
              (fun o h' => (exists e, o = Fail (ErrNew ("failed to write lfs object file: " +:+ e)%string)) ->
                           present path h' = true) h)
      by (intros Hrun; unfold wp in Hwp; rewrite Hrun in Hwp; by apply Hwp; eexists).
    unfold DownloadLFSObject, with_lock, file_exists, fetch. fold path.
    apply wp_bind, wp_call. cbv zeta. apply wp_deferring, wp_bind, wp_bind, wp_call. cbv zeta.
    apply wp_ret, wp_when; [intros _|by intros _ [? ?]].
    apply wp_bind, wp_bind, wp_flatten, wp_call_res. cbv zeta.
    destruct (env (res HttpResponse) _ _) as [resp|e1]; cbn [of_res].
    2:{ apply wp_call. cbv zeta. intros [e2 H]. by injection H. }
    case_decide; [apply wp_fail, wp_call; cbv zeta; intros [e2 H2]; by injection H2|].
    apply wp_ret, wp_bind, wp_flatten, wp_call_res. cbv zeta.
    destruct (env (res unit) _ _) as [[]|e1]; cbn [of_res].
    2:{ apply wp_call. cbv zeta. intros [e2 H2]. by injection H2. }
    apply wp_bind, wp_flatten, wp_call_res. cbv zeta.
    destruct (env (res unit) _ _) as [[]|e1]; cbn [of_res].
    2:{ apply wp_call. cbv zeta. intros [e2 H2]. by injection H2. }
    match goal with |- wp _ _ (?h ++ [Did (Create path) (Ok tt)]) => set (h1 := h ++ _) end.
    assert (H1 : present path h1 = true).
    { unfold h1. rewrite present_snoc. simpl. by rewrite decide_True. }
    clearbody h1. apply wp_bind, wp_flatten, wp_call_res. cbv zeta.
    destruct (env (res Z) _ _) as [n|e1]; cbn [of_res].
    - apply wp_ret, wp_call. cbv zeta. by intros [? ?].
    - apply wp_call. cbv zeta. intros _. by rewrite !present_snoc. }
  split.
  - unfold IsLFSObjectCached, with_rlock, deferring, file_exists, call. rewrite !run_bind. cbv beta iota zeta.
    fold path.
    destruct (Hstay (h' ++ [Did (RLock (LfsKey oid)) (env unit h' (RLock (LfsKey oid)))]) path) as [n ->];
      [by rewrite present_snoc|done].
  - unfold DownloadLFSObject, with_lock, deferring, file_exists, call. rewrite !run_bind. cbv beta iota zeta.
    fold path.
    destruct (Hstay (h' ++ [Did (Lock (LfsKey oid)) (env unit h' (Lock (LfsKey oid)))]) path) as [n ->];
      [by rewrite present_snoc|done].
Qed.

(** A disk that is full: files can be created and not written. *)
Definition full_disk : Env := fun A h c =>
  match c in Call A return A with
  | Stat p => if present p h then Exists 0 else NotExist
  | CopyInto _ => Er (ErrNew "no space left on device")
  | c => quiet c
  end.

Lemma DownloadLFSObject_partial_is_cached_witness :
  let h' := snd (DownloadLFSObject full_disk no_config "cid" "oid" []) in
  fst (IsLFSObjectCached full_disk no_config "oid" h') = Val true /\
  fst (DownloadLFSObject full_disk no_config "cid" "oid" h') = Val tt.
Proof.
  intros h'.
  apply (DownloadLFSObject_partial_is_cached full_disk no_config "cid" "oid" [] h' "no space left on device").
  - intros h p Hp. exists 0. cbn. by rewrite Hp.
  - vm_compute. reflexivity.
Defined.
