(* ===== verification/PinHandlers.v ===== *)
(** The handlers of storage events (handler/packfileUpdated.go,
    releaseAssetsUpdated.go, lfsObjectUpdated.go, repositoryDeleted.go,
    deleteStorageObject.go, proposalTimeout.go, deleteRepository.go) and the IPFS
    cluster functions of utils/ipfs.go.

    Log messages are left out. The handlers that process their events with a pool of
    workers run [Process] once per event (WorkerPool.v); the others run it in a
    loop. *)

From S2P Require Import Prelude GoInt GoStrings World StorageManager ChainClient Cache Events.

#[local] Open Scope string_scope.

(** * utils/ipfs.go *)
Section Ipfs.
Context (env : Env).

(** The cid is the last one the cluster announced; an error of [Add] only ends the
    announcements. *)
Definition ipfs_PinFile (filePath : string) : Prog string :=
  cid ← call env (ClusterAdd filePath);
  _ ← wrapM "failed to pin file in IPFS cluster" (call_res env (ClusterPin cid (Base filePath)));
  mret cid.

Definition ipfs_UnpinFile (cidString : string) : Prog unit :=
  _ ← call_res env (DecodeCid cidString);
  call_res env (ClusterUnpin cidString).
End Ipfs.

Section Handlers.
Context (env : Env) (viper : string -> string) (fuel : nat).
Context (gc : GitopiaProxy) (storageManager : Manager).

Let refCount := StorageCidReferenceCount env.
Let has_providers := HasProviders storageManager.

(** [err := PinFile(...); if err != nil { log }]: the error is dropped. *)
Definition pin_logged (filePath name : string) : Prog unit :=
  _ ← attempt (PinFile env storageManager filePath name); mret tt.
Definition unpin_logged (name : string) : Prog unit :=
  _ ← attempt (UnpinFile env storageManager name); mret tt.

(** ** handler/packfileUpdated.go *)
Definition packfile_path (id : Z) (newName : string) : string :=
  PathJoin [viper "GIT_REPOS_DIR"; FormatUint id +:+ ".git/objects/pack/"; newName].

(** The part of Process after the new packfile was pinned. *)
Definition PackfileUpdated_unpin (event : PackfileUpdatedEvent) : Prog unit :=
  _ ← when (bool_decide (pe_OldCid event <> "") && bool_decide (pe_OldCid event <> pe_NewCid event))
        (n ← refCount (pe_OldCid event);
         when (bool_decide (n = 0) && has_providers)
           (unpin_logged ("packfiles/" +:+ pe_OldName event)));
  when (pe_Deleted event)
    (n ← refCount (pe_NewCid event);
     when (bool_decide (n = 0) && has_providers)
       (unpin_logged ("packfiles/" +:+ pe_NewName event))).

(** The read lock is released when Process returns, not at the end of the branch
    that takes it. *)
Definition PackfileUpdated_Process (event : PackfileUpdatedEvent) : Prog unit :=
  let rest := PackfileUpdated_unpin event in
  if bool_decide (pe_NewCid event <> "") && negb (pe_Deleted event) && has_providers then
    n ← refCount (pe_NewCid event);
    if decide (n = 1) then
      with_rlock env (RepoKey (pe_RepositoryId event))
        (_ ← CacheRepository env viper fuel (pe_RepositoryId event) (viper "GIT_REPOS_DIR");
         let packfilePath := packfile_path (pe_RepositoryId event) (pe_NewName event) in
         _ ← pin_logged packfilePath ("packfiles/" +:+ Base packfilePath);
         rest)
    else rest
  else rest.

(** ** handler/releaseAssetsUpdated.go: one round of the loop over the assets.
    [continue] is a normal end of the round. *)
Definition release_asset_round (event : ReleaseAssetsUpdatedEvent) (asset : ReleaseAssetUpdate) :
    Prog unit :=
  let unpin_old := unpin_logged ("release-assets/" +:+ ru_OldSha256 asset) in
  if ru_Delete asset then
    r ← attempt (refCount (ru_OldCid asset));
    match r with
    | Er _ => mret tt
    | Ok n => when (bool_decide (n = 0) && has_providers) unpin_old
    end
  else
    _ ← when (bool_decide (ru_Cid asset <> "") && has_providers)
          (n ← refCount (ru_Cid asset);
           when (bool_decide (n = 1))
             (_ ← attempt (CacheReleaseAsset env viper (ae_RepositoryId event) (ae_Tag event)
                            (ru_Name asset) (viper "ATTACHMENT_DIR"));
              pin_logged (PathJoin [viper "ATTACHMENT_DIR"; ru_Sha256 asset])
                ("release-assets/" +:+ ru_Sha256 asset)));
    when (bool_decide (ru_OldCid asset <> "") && bool_decide (ru_OldCid asset <> ru_Cid asset)
          && has_providers)
      (r ← attempt (refCount (ru_OldCid asset));
       match r with
       | Er _ => mret tt
       | Ok n => when (bool_decide (n = 0)) unpin_old
       end).

Definition ReleaseAssetsUpdated_Process (event : ReleaseAssetsUpdatedEvent) : Prog unit :=
  forM_ (ae_Assets event) (release_asset_round event).

(** ** handler/lfsObjectUpdated.go *)
Definition LfsObjectUpdated_Process (event : LfsObjectUpdatedEvent) : Prog unit :=
  let name := "lfs-objects/" +:+ le_Oid event in
  if le_Deleted event then
    when (bool_decide (le_Oid event <> "") && has_providers)
      (n ← refCount (le_Cid event);
       when (bool_decide (n = 0) && has_providers) (unpin_logged name))
  else
    when (bool_decide (le_Cid event <> "") && has_providers)
      (n ← refCount (le_Cid event);
       when (bool_decide (n = 1))
         (r ← attempt (IsLFSObjectCached env viper (le_Oid event));
          let cached := match r with Ok b => b | Er _ => false end in
          _ ← when (negb cached)
                (_ ← attempt (DownloadLFSObject env viper (le_Cid event) (le_Oid event)); mret tt);
          pin_logged (PathJoin [viper "LFS_OBJECTS_DIR"; le_Oid event]) name)).

(** ** handler/repositoryDeleted.go *)
Definition unpin_unreferenced (cid name : string) : Prog unit :=
  n ← refCount cid; when (bool_decide (n = 0)) (unpin_logged name).

Definition RepositoryDeleted_Process (event : RepositoryDeletedEvent) : Prog unit :=
  _ ← when (bool_decide (re_PackfileCid event <> "") && has_providers)
        (unpin_unreferenced (re_PackfileCid event) ("packfiles/" +:+ re_PackfileName event));
  _ ← when has_providers
        (forM_ (re_ReleaseAssets event) (fun asset =>
           unpin_unreferenced (da_Cid asset) ("release-assets/" +:+ da_Sha asset)));
  when has_providers
    (forM_ (re_LfsObjects event) (fun lfsObject =>
       unpin_unreferenced (lo_Cid lfsObject) ("lfs-objects/" +:+ lo_Oid lfsObject))).

(** ** handler/deleteStorageObject.go *)
Definition DeleteStorageObject_Process (event : CidsEvent) : Prog unit :=
  when (CheckProvider gc (ci_Provider event))
    (forM_ (ci_Cids event) (fun cid =>
       when (bool_decide (cid <> ""))
         (n ← wrapM "failed to get cid reference count" (refCount cid);
          when (bool_decide (n = 0))
            (wrapM "failed to unpin cid from IPFS cluster" (ipfs_UnpinFile env cid))))).

(** ** handler/proposalTimeout.go *)
Definition ProposalTimeout_Process (event : CidsEvent) : Prog unit :=
  when (CheckProvider gc (ci_Provider event))
    (forM_ (ci_Cids event) (fun cid =>
       n ← wrapM "failed to get cid reference count" (refCount cid);
       when (bool_decide (n = 0)) (_ ← attempt (ipfs_UnpinFile env cid); mret tt))).

(** ** handler/deleteRepository.go *)
Definition DeleteRepository_Process (event : DeleteRepositoryEvent) : Prog unit :=
  when (CheckProvider gc (dr_Provider event))
    (_ ← wrapM "failed to propose repository delete"
           (ProposeRepositoryDelete env gc (dr_Creator event) (dr_RepositoryId event));
     wrapM "failed to verify repository delete"
       (PollForUpdate env fuel
          (CheckProposeRepositoryDelete env (dr_RepositoryId event) (dr_Creator event)))).

(** ** The sequential Handle functions *)

(** [if err := Process(event); err != nil { log }] for every event. *)
Definition handle_each {E} (process : E -> Prog unit) (events : list E) : Prog unit :=
  forM_ events (fun e => _ ← attempt (process e); mret tt).

Definition handle_buffer {E} (unmarshal : string -> outcome (list E)) (process : E -> Prog unit)
    (eventBuf : string) : Prog unit :=
  events ← wrapM "event parse error" (lift (unmarshal eventBuf));
  handle_each process events.

Context {J : Json} {K : GitopiaKeys}.

Definition ReleaseAssetsUpdated_Handle : string -> Prog unit :=
  handle_buffer UnmarshalReleaseAssetsUpdatedEvent ReleaseAssetsUpdated_Process.
Definition RepositoryDeleted_Handle : string -> Prog unit :=
  handle_buffer UnmarshalRepositoryDeletedEvent RepositoryDeleted_Process.
Definition DeleteStorageObject_Handle : string -> Prog unit :=
  handle_buffer UnmarshalDeleteStorageObjectEvent DeleteStorageObject_Process.
Definition ProposalTimeout_Handle : string -> Prog unit :=
  handle_buffer UnmarshalProposalTimeoutEvent ProposalTimeout_Process.
End Handlers.

#[local] Close Scope string_scope.

(** * Nothing that is referenced gets unpinned

    [pairs] lists the cids an event is about, with the names under which the external
    providers know them. *)
Definition unpin_ok (pairs : list (string * string)) (h : Trace) (o : Obs) : Prop :=
  match o with
  | @Did _ c _ =>
      match c with
      | ProviderUnpin _ name => exists cid, (cid, name) ∈ pairs /\ unreferenced cid h
      | ClusterUnpin cid => unreferenced cid h
      | _ => True
      end
  end.

Definition not_unpin : CallSet := fun A c =>
  match c with ProviderUnpin _ _ | ClusterUnpin _ => false | _ => true end.

(** The invariant, with a lasting fact about the past. *)
Definition unpins_ok (pairs : list (string * string)) (F : Trace -> Prop) (h : Trace) : Prop :=
  Guarded (unpin_ok pairs) h /\ F h.

Lemma keeps_unpins_ok pairs F {A} (c : Call A) :
  lasting F -> not_unpin A c = true -> keeps (unpins_ok pairs F) c.
Proof. intros HF Hc. apply Guarded_keeps; [done|]. intros h a _. by destruct c. Qed.

Lemma only_unpins_ok pairs F (ok : CallSet) {A} (m : Prog A) :
  only ok m -> (forall B (c : Call B), ok B c = true -> not_unpin B c = true) -> lasting F ->
  preserves (unpins_ok pairs F) m.
Proof. intros Hm Hok HF. apply Hm. intros B c Hc. apply keeps_unpins_ok; auto. Qed.


Lemma lasting_unreferenced (P : Prop) cid : lasting (fun h => P -> unreferenced cid h).
Proof. intros h t H HP. by apply unreferenced_app, H. Qed.

#[local] Hint Resolve lasting_and lasting_unreferenced : go.

(** A computation that is one query for the number of references to [cid]. *)
Definition counts (cid : string) (m : Prog Z) : Prop :=
  forall h, exists o x, m h = (o, h ++ [Did (QCidReferenceCount cid) x]) /\ (o = Val 0 -> x = Ok 0).

Lemma counts_refCount env cid : counts cid (StorageCidReferenceCount env cid).
Proof.
  intros h. unfold StorageCidReferenceCount.
  destruct (env (res Z) h (QCidReferenceCount cid)) as [n|e] eqn:E.
  - rewrite (query_ok _ _ _ _ E). do 2 eexists. split; [done|]. by intros [= ->].
  - rewrite (query_er _ _ _ _ E). do 2 eexists. by split.
Qed.

Lemma counts_wrapM msg cid m : counts cid m -> counts cid (wrapM msg m).
Proof.
  intros H h. destruct (H h) as (o & x & E & Hx). unfold wrapM. rewrite E.
  by destruct o; do 2 eexists; split.
Qed.

Lemma unpins_ok_count pairs F cid (x : res Z) h :
  lasting F -> unpins_ok pairs F h ->
  unpins_ok pairs (fun h => F h /\ (x = Ok 0 -> unreferenced cid h))
    (h ++ [Did (QCidReferenceCount cid) x]).
Proof.
  intros HF [HG Hh]. split; [by apply Guarded_snoc|]. split; [by apply HF|].
  intros ->. unfold unreferenced. set_solver.
Qed.

(** After the query, the continuation may rely on a count of zero. *)
Lemma preserves_counted pairs F cid (m : Prog Z) (f : Z -> Prog unit) :
  lasting F -> counts cid m ->
  (forall n, preserves (unpins_ok pairs (fun h => F h /\ (n = 0 -> unreferenced cid h))) (f n)) ->
  preserves (unpins_ok pairs F) (m ≫= f).
Proof.
  intros HF Hm Hf h Hh. rewrite run_bind. destruct (Hm h) as (o & x & -> & Hx).
  destruct (unpins_ok_count pairs F cid x h HF Hh) as (HG & Hh' & Hz).
  destruct o as [n|e|p]; [|by split|by split].
  destruct (Hf n (h ++ [Did (QCidReferenceCount cid) x])) as (? & ? & ?); [|by split].
  split; [done|]. split; [done|]. intros ->. by apply Hz, Hx.
Qed.

Lemma preserves_attempt_counted pairs F cid (m : Prog Z) (f : res Z -> Prog unit) :
  lasting F -> counts cid m ->
  (forall n, preserves (unpins_ok pairs (fun h => F h /\ (n = 0 -> unreferenced cid h))) (f (Ok n))) ->
  (forall e, preserves (unpins_ok pairs F) (f (Er e))) ->
  preserves (unpins_ok pairs F) (attempt m ≫= f).
Proof.
  intros HF Hm Hf He h Hh. rewrite run_bind. unfold attempt. destruct (Hm h) as (o & x & -> & Hx).
  destruct (unpins_ok_count pairs F cid x h HF Hh) as (HG & Hh' & Hz).
  destruct o as [n|e|p]; [| |by split].
  - destruct (Hf n (h ++ [Did (QCidReferenceCount cid) x])) as (? & ? & ?); [|by split].
    split; [done|]. split; [done|]. intros ->. by apply Hz, Hx.
  - by apply He.
Qed.

Section Unpin.
Context (env : Env) (viper : string -> string) (fuel : nat) (gc : GitopiaProxy) (sm : Manager).
Context (pairs : list (string * string)).

Lemma pin_logged_ok F path name :
  lasting F -> preserves (unpins_ok pairs F) (pin_logged env sm path name).
Proof.
  intros HF. unfold pin_logged, PinFile, pin_all. preserve.
  1: by apply preserves_call, keeps_unpins_ok. all: by destruct b as [? ?] || done.
Qed.

Lemma unpin_logged_ok F cid name :
  lasting F -> (cid, name) ∈ pairs -> (forall h, F h -> unreferenced cid h) ->
  preserves (unpins_ok pairs F) (unpin_logged env sm name).
Proof.
  intros HF Hin Hun. unfold unpin_logged, UnpinFile, unpin_all. preserve.
  apply preserves_call, Guarded_keeps; [done|]. intros h a Hh. exists cid. auto.
Qed.

(** The common case: unpin when the count is zero. *)
Lemma unpin_when_zero F cid name (b : bool) n :
  lasting F -> (cid, name) ∈ pairs ->
  preserves (unpins_ok pairs (fun h => F h /\ (n = 0 -> unreferenced cid h)))
    (when (bool_decide (n = 0) && b) (unpin_logged env sm name)).
Proof.
  intros HF Hin. case_bool_decide as Hn; [|apply preserves_ret].
  apply preserves_when, (unpin_logged_ok _ cid); auto with go. intros h [_ H]. auto.
Qed.

Lemma unpin_when_zero' F cid name n :
  lasting F -> (cid, name) ∈ pairs ->
  preserves (unpins_ok pairs (fun h => F h /\ (n = 0 -> unreferenced cid h)))
    (when (bool_decide (n = 0)) (unpin_logged env sm name)).
Proof.
  intros HF Hin. pose proof (unpin_when_zero F cid name true n HF Hin) as H.
  by rewrite andb_true_r in H.
Qed.

Lemma cluster_unpin_when_zero F cid n :
  lasting F ->
  preserves (unpins_ok pairs (fun h => F h /\ (n = 0 -> unreferenced cid h)))
    (when (bool_decide (n = 0)) (ipfs_UnpinFile env cid)).
Proof.
  intros HF. case_bool_decide as Hn; [|apply preserves_ret].
  apply preserves_when, preserves_bind.
  - apply preserves_call_res, keeps_unpins_ok; auto with go.
  - intros _. apply preserves_call_res, Guarded_keeps; [auto with go|].
    intros h a [_ H]. simpl. auto.
Qed.

Lemma cache_unpins_ok F {A} (m : Prog A) :
  lasting F -> only cache_call m -> preserves (unpins_ok pairs F) m.
Proof. intros HF Hm. apply (only_unpins_ok _ _ cache_call); auto. intros B c. by destruct c. Qed.
End Unpin.

(** The pairs an event is about. *)
Definition packfile_pairs (e : PackfileUpdatedEvent) : list (string * string) :=
  [(pe_OldCid e, "packfiles/" +:+ pe_OldName e); (pe_NewCid e, "packfiles/" +:+ pe_NewName e)]%string.
Definition asset_pairs (e : ReleaseAssetsUpdatedEvent) : list (string * string) :=
  map (fun a => (ru_OldCid a, "release-assets/" +:+ ru_OldSha256 a)%string) (ae_Assets e).
Definition lfs_pairs (e : LfsObjectUpdatedEvent) : list (string * string) :=
  [(le_Cid e, "lfs-objects/" +:+ le_Oid e)]%string.
Definition deleted_pairs (e : RepositoryDeletedEvent) : list (string * string) :=
  (re_PackfileCid e, "packfiles/" +:+ re_PackfileName e)%string
  :: map (fun a => (da_Cid a, "release-assets/" +:+ da_Sha a)%string) (re_ReleaseAssets e)
  ++ map (fun o => (lo_Cid o, "lfs-objects/" +:+ lo_Oid o)%string) (re_LfsObjects e).

Section Handlers_ok.
Context (env : Env) (viper : string -> string) (fuel : nat) (gc : GitopiaProxy) (sm : Manager).

Lemma PackfileUpdated_unpin_ok F e :
  lasting F -> preserves (unpins_ok (packfile_pairs e) F) (PackfileUpdated_unpin env sm e).
Proof.
  intros HF. unfold PackfileUpdated_unpin. apply preserves_bind.
  - apply preserves_when, (preserves_counted _ _ (pe_OldCid e)); [done|apply counts_refCount|].
    intros n. apply unpin_when_zero; [done|]. unfold packfile_pairs. set_solver.
  - intros _. apply preserves_when, (preserves_counted _ _ (pe_NewCid e)); [done|apply counts_refCount|].
    intros n. apply unpin_when_zero; [done|]. unfold packfile_pairs. set_solver.
Qed.

Lemma PackfileUpdated_ok F e :
  lasting F -> preserves (unpins_ok (packfile_pairs e) F) (PackfileUpdated_Process env viper fuel sm e).
Proof.
  intros HF. unfold PackfileUpdated_Process.
  destruct (_ && _ && _); [|by apply PackfileUpdated_unpin_ok].
  apply preserves_bind.
  { intros h Hh. destruct (counts_refCount env (pe_NewCid e) h) as (o & x & -> & _).
    destruct Hh. split; [by apply Guarded_snoc|by apply HF]. }
  intros n. case_decide; [|by apply PackfileUpdated_unpin_ok].
  unfold with_rlock. apply preserves_bind; [by apply preserves_call, keeps_unpins_ok|].
  intros _. apply preserves_deferring; [by apply preserves_call, keeps_unpins_ok|].
  apply preserves_bind; [apply cache_unpins_ok; auto with go|]. intros _.
  apply preserves_bind; [by apply pin_logged_ok|]. intros _. by apply PackfileUpdated_unpin_ok.
Qed.

Lemma ReleaseAssetsUpdated_ok F e :
  lasting F -> preserves (unpins_ok (asset_pairs e) F) (ReleaseAssetsUpdated_Process env viper sm e).
Proof.
  intros HF. apply preserves_forM. intros a Ha.
  assert (Hin : (ru_OldCid a, "release-assets/" +:+ ru_OldSha256 a)%string ∈ asset_pairs e).
  { unfold asset_pairs. apply list_elem_of_In, in_map_iff. exists a. split; [done|].
    by apply list_elem_of_In. }
  unfold release_asset_round. destruct (ru_Delete a).
  - apply (preserves_attempt_counted _ _ (ru_OldCid a)); [done|apply counts_refCount| |by intros; apply preserves_ret].
    intros n. by apply unpin_when_zero.
  - apply preserves_bind.
    + apply preserves_when, (preserves_counted _ _ (ru_Cid a)); [done|apply counts_refCount|].
      intros n. apply preserves_when, preserves_bind.
      * apply preserves_attempt, cache_unpins_ok; auto with go.
      * intros _. apply pin_logged_ok. auto with go.
    + intros _. apply preserves_when, (preserves_attempt_counted _ _ (ru_OldCid a));
        [done|apply counts_refCount| |by intros; apply preserves_ret].
      intros n. by apply unpin_when_zero'.
Qed.

Lemma LfsObjectUpdated_ok F e :
  lasting F -> preserves (unpins_ok (lfs_pairs e) F) (LfsObjectUpdated_Process env viper sm e).
Proof.
  intros HF. unfold LfsObjectUpdated_Process.
  assert (Hin : (le_Cid e, "lfs-objects/" +:+ le_Oid e)%string ∈ lfs_pairs e)
    by (unfold lfs_pairs; set_solver).
  destruct (le_Deleted e);
    apply preserves_when, (preserves_counted _ _ (le_Cid e)); try done; try apply counts_refCount;
    intros n.
  - by apply unpin_when_zero.
  - apply preserves_when, preserves_bind.
    + apply preserves_attempt, cache_unpins_ok; auto with go.
    + intros r. apply preserves_bind; [|intros _; apply pin_logged_ok; auto with go].
      apply preserves_when, preserves_bind; [|by intros; apply preserves_ret].
      apply preserves_attempt, cache_unpins_ok; auto with go.
Qed.

Lemma unpin_unreferenced_ok pairs F cid name :
  lasting F -> (cid, name) ∈ pairs -> preserves (unpins_ok pairs F) (unpin_unreferenced env sm cid name).
Proof.
  intros HF Hin. apply (preserves_counted _ _ cid); [done|apply counts_refCount|].
  intros n. by apply unpin_when_zero'.
Qed.

Lemma RepositoryDeleted_ok F e :
  lasting F -> preserves (unpins_ok (deleted_pairs e) F) (RepositoryDeleted_Process env sm e).
Proof.
  intros HF. unfold RepositoryDeleted_Process, deleted_pairs.
  apply preserves_bind; [apply preserves_when, unpin_unreferenced_ok; [done|set_solver]|]. intros _.
  apply preserves_bind; [|intros _]; apply preserves_when, preserves_forM; intros a Ha;
    apply unpin_unreferenced_ok; try done; apply list_elem_of_In; right; apply in_app_iff;
    [left|right]; apply in_map_iff; exists a; (split; [done|by apply list_elem_of_In]).
Qed.

Lemma DeleteStorageObject_ok F e :
  lasting F -> preserves (unpins_ok [] F) (DeleteStorageObject_Process env gc e).
Proof.
  intros HF. apply preserves_when, preserves_forM. intros cid _. apply preserves_when.
  apply (preserves_counted _ _ cid); [done|apply counts_wrapM, counts_refCount|].
  intros n. pose proof (cluster_unpin_when_zero env [] F cid n HF) as H.
  destruct (bool_decide (n = 0)); [|done]. by apply preserves_wrapM.
Qed.

Lemma ProposalTimeout_ok F e :
  lasting F -> preserves (unpins_ok [] F) (ProposalTimeout_Process env gc e).
Proof.
  intros HF. apply preserves_when, preserves_forM. intros cid _.
  apply (preserves_counted _ _ cid); [done|apply counts_wrapM, counts_refCount|].
  intros n. pose proof (cluster_unpin_when_zero env [] F cid n HF) as H.
  destruct (bool_decide (n = 0)); [|apply preserves_ret].
  apply preserves_bind; [by apply preserves_attempt|]. intros _. apply preserves_ret.
Qed.
End Handlers_ok.

(** * What gets unpinned, exactly *)
Section Exact.
Context (env : Env) (sm : Manager) (rc : string -> Z) (provider : string).
Context (counts_rc : forall h cid, env (res Z) h (QCidReferenceCount cid) = Ok (rc cid)).
Context (distinct : NoDup (providers sm)) (configured : provider ∈ providers sm).

Lemma has_providers_true : HasProviders sm = true.
Proof using configured.
  clear -configured. unfold HasProviders. apply bool_decide_eq_true. destruct (providers sm); [set_solver|simpl; lia].
Qed.

(** A step of a handler that unpins the names [names]. *)
Definition unpins (m : Prog unit) (names : list string) : Prop :=
  forall h, exists h', m h = (Val tt, h') /\
    provider_unpins provider h' = provider_unpins provider h ++ names.

Lemma unpins_ret : unpins (mret tt) [].
Proof. intros h. exists h. by rewrite app_nil_r. Qed.

Lemma unpins_bind m f xs ys : unpins m xs -> unpins f ys -> unpins (_ ← m; f) (xs ++ ys).
Proof.
  intros Hm Hf h. destruct (Hm h) as (h1 & E1 & H1). destruct (Hf h1) as (h2 & E2 & H2).
  exists h2. rewrite run_bind, E1. split; [done|]. by rewrite H2, H1, app_assoc.
Qed.

Lemma unpins_forM {A} (xs : list A) body (names : A -> list string) :
  (forall x, unpins (body x) (names x)) -> unpins (forM_ xs body) (concat (map names xs)).
Proof.
  intros Hb. induction xs as [|x xs IH]; [apply unpins_ret|]. by apply unpins_bind.
Qed.

Definition zero_names (p : string * string) : list string :=
  if decide (rc p.1 = 0) then [p.2] else [].

Lemma unpin_unreferenced_exact cid name :
  unpins (unpin_unreferenced env sm cid name) (zero_names (cid, name)).
Proof using counts_rc distinct configured.
  intros h. unfold unpin_unreferenced, StorageCidReferenceCount, zero_names.
  rewrite (run_bind_val _ _ _ _ _ (query_ok env _ _ h (counts_rc h cid))).
  assert (Hq : provider_unpins provider (h ++ [Did (QCidReferenceCount cid) (Ok (rc cid))])
               = provider_unpins provider h).
  { unfold provider_unpins. rewrite omap_app. simpl. by rewrite app_nil_r. }
  simpl. case_bool_decide as Hz.
  - rewrite decide_True by done. cbn [when]. unfold unpin_logged, attempt.
    destruct (UnpinFile_run env sm name (h ++ [Did (QCidReferenceCount cid) (Ok (rc cid))]))
      as (answers & Hl & E).
    eexists. rewrite run_bind, E. split; [done|].
    unfold provider_unpins in *. rewrite omap_app, Hq. f_equal.
    by apply provider_unpins_zip.
  - rewrite decide_False by done. eexists. split; [done|]. by rewrite Hq, app_nil_r.
Qed.
End Exact.

(** The pairs whose count a deletion looks at: the packfile only if it has a cid. *)
Definition counted_pairs (e : RepositoryDeletedEvent) : list (string * string) :=
  filter (fun p => p.1 <> EmptyString)
    [(re_PackfileCid e, "packfiles/" +:+ re_PackfileName e)%string]
  ++ map (fun a => (da_Cid a, "release-assets/" +:+ da_Sha a)%string) (re_ReleaseAssets e)
  ++ map (fun o => (lo_Cid o, "lfs-objects/" +:+ lo_Oid o)%string) (re_LfsObjects e).

(** * Absence of panics of the handlers *)
Lemma refCount_safe env cid : safe (StorageCidReferenceCount env cid).
Proof. unfold StorageCidReferenceCount, query. safe_step. Qed.

Lemma UnpinFile_safe env sm name : safe (UnpinFile env sm name).
Proof. intros h. destruct (UnpinFile_run env sm name h) as (? & _ & ->). done. Qed.
#[export] Hint Resolve refCount_safe UnpinFile_safe : go.

Lemma RepositoryDeleted_safe env sm e : safe (RepositoryDeleted_Process env sm e).
Proof. unfold RepositoryDeleted_Process, unpin_unreferenced, unpin_logged. safe_step. Qed.

(** * Properties *)

(** C6: the handlers of storage events never unpin what the chain still refers to.
    Whatever the environment answers, every file one of them unpins at an external
    provider goes by a name that the event ties to a cid, and every cid it unpins in
    the IPFS cluster, and the chain had said of that cid, earlier in the same run,
    that nothing refers to it. *)
Theorem unpin_only_unreferenced (env : Env) viper fuel gc sm :
  (forall e, Guarded (unpin_ok (packfile_pairs e)) (snd (PackfileUpdated_Process env viper fuel sm e []))) /\
  (forall e, Guarded (unpin_ok (asset_pairs e)) (snd (ReleaseAssetsUpdated_Process env viper sm e []))) /\
  (forall e, Guarded (unpin_ok (lfs_pairs e)) (snd (LfsObjectUpdated_Process env viper sm e []))) /\
  (forall e, Guarded (unpin_ok (deleted_pairs e)) (snd (RepositoryDeleted_Process env sm e []))) /\
  (forall e, Guarded (unpin_ok []) (snd (DeleteStorageObject_Process env gc e []))) /\
  (forall e, Guarded (unpin_ok []) (snd (ProposalTimeout_Process env gc e []))).
Proof.
  assert (H : forall pairs (m : Prog unit),
    preserves (unpins_ok pairs (fun _ => True)) m -> Guarded (unpin_ok pairs) (snd (m []))).
  { intros pairs m Hm. apply (Hm []). split; [apply Guarded_nil|done]. }
  repeat split; intros e; apply H;
    [apply PackfileUpdated_ok|apply ReleaseAssetsUpdated_ok|apply LfsObjectUpdated_ok
    |apply RepositoryDeleted_ok|apply DeleteStorageObject_ok|apply ProposalTimeout_ok]; done.
Qed.

(** C28: when a repository is deleted, exactly the unreferenced objects are unpinned.
    With distinct providers and a chain that answers every reference count, each
    provider is asked to unpin, in the event's order, the packfile (if it has a cid),
    the release assets and the LFS objects whose count is zero, and nothing else. *)
Theorem RepositoryDeleted_unpins (env : Env) sm (rc : string -> Z) provider e :
  (forall h cid, env (res Z) h (QCidReferenceCount cid) = Ok (rc cid)) ->
  NoDup (providers sm) -> provider ∈ providers sm ->
  exists h, RepositoryDeleted_Process env sm e [] = (Val tt, h) /\
    provider_unpins provider h = map snd (filter (fun p => rc p.1 = 0) (counted_pairs e)).
Proof.
  intros Hrc Hd Hin. set (names := fun xs => concat (map (zero_names rc) xs)).
  assert (Hnames : forall xs, names xs = map snd (filter (fun p => rc p.1 = 0) xs)).
  { induction xs as [|x xs IH]; [done|]. unfold names, zero_names in *. simpl. rewrite IH.
    rewrite filter_cons. by case_decide. }
  rewrite <- Hnames. unfold counted_pairs, names. rewrite !map_app, !concat_app.
  enough (H : unpins provider (RepositoryDeleted_Process env sm e)
     (concat (map (zero_names rc)
        (filter (fun p => p.1 <> EmptyString) [(re_PackfileCid e, "packfiles/" +:+ re_PackfileName e)%string]))
      ++ concat (map (zero_names rc)
           (map (fun a => (da_Cid a, "release-assets/" +:+ da_Sha a)%string) (re_ReleaseAssets e)))
      ++ concat (map (zero_names rc)
           (map (fun o => (lo_Cid o, "lfs-objects/" +:+ lo_Oid o)%string) (re_LfsObjects e))))) by apply (H []).
  unfold RepositoryDeleted_Process. rewrite (has_providers_true sm provider Hin).
  apply unpins_bind; [|apply unpins_bind]; cbn [when].
  - rewrite andb_true_r, filter_cons, filter_nil. simpl. case_bool_decide; case_decide; try done.
    + cbn [when]. rewrite <- (app_nil_r (concat _)). simpl. rewrite !app_nil_r.
      by apply unpin_unreferenced_exact.
    + apply unpins_ret.
  - rewrite map_map. apply unpins_forM. intros a. by apply unpin_unreferenced_exact.
  - rewrite map_map. apply unpins_forM. intros o. by apply unpin_unreferenced_exact.
Qed.

(** A chain where only the cid [c0] is still referenced. *)
Definition one_reference : Env := fun A h c =>
  match c in Call A return A with
  | QCidReferenceCount cid => Ok (if decide (cid = "c0"%string) then 1 else 0)
  | c => quiet c
  end.

Lemma RepositoryDeleted_unpins_witness :
  exists h,
    RepositoryDeleted_Process one_reference (mkManager ["pinata"; "filebase"]%string)
      (mkRepositoryDeletedEvent 7 "p" "c0" "p.pack" [mkDeletedAsset "a" "c1" "s1" "t"]
         [mkLFSObject "o2" "c2"; mkLFSObject "o0" "c0"]) [] = (Val tt, h) /\
    provider_unpins "filebase" h = ["release-assets/s1"; "lfs-objects/o2"]%string.
Proof.
  destruct (RepositoryDeleted_unpins one_reference (mkManager ["pinata"; "filebase"]%string)
           (fun cid => if decide (cid = "c0"%string) then 1 else 0) "filebase"
           (mkRepositoryDeletedEvent 7 "p" "c0" "p.pack" [mkDeletedAsset "a" "c1" "s1" "t"]
              [mkLFSObject "o2" "c2"; mkLFSObject "o0" "c0"])) as (h & H1 & H2).
  - reflexivity.
  - apply (bool_decide_unpack _). vm_compute. exact I.
  - apply (bool_decide_unpack _). vm_compute. exact I.
  - exists h. split; [exact H1|]. rewrite H2. vm_compute. reflexivity.
Defined.

(** One bad event does not stop the others. When the buffer decodes, the handler
    of repository deletions runs on every event in turn, from the trace the previous
    one left, and ends without an error; when it does not, nothing is done. *)
Theorem RepositoryDeleted_Handle_isolates (env : Env) sm {J : Json} buf :
  (forall events h, UnmarshalRepositoryDeletedEvent buf = Val events ->
     RepositoryDeleted_Handle env sm buf h
       = (Val tt, fold_left (fun h e => snd (RepositoryDeleted_Process env sm e h)) events h)) /\
  (forall e h, UnmarshalRepositoryDeletedEvent buf = Fail e ->
     RepositoryDeleted_Handle env sm buf h = (Fail (ErrWrap "event parse error" e), h)).
Proof.
  unfold RepositoryDeleted_Handle, handle_buffer. split; intros x h Hx.
  - rewrite run_bind. unfold wrapM, lift. rewrite Hx. unfold handle_each. clear Hx.
    revert h. induction x as [|e x IH]; intros h; [done|]. cbn [forM_ fold_left].
    rewrite run_bind. unfold attempt at 1. rewrite run_bind.
    pose proof (RepositoryDeleted_safe env sm e h) as Hs.
    destruct (RepositoryDeleted_Process env sm e h) as [[[]|er|p] h1]; [apply IH|apply IH|done].
  - rewrite run_bind. unfold wrapM, lift. by rewrite Hx.
Qed.
