(* ===== verification/Offsets.v ===== *)
(** The offset of a consumer of events (app/consumer/persistence.go): a number kept in a
    file. The state is the file and the position of the open descriptor; a system call
    may fail, a write that fails may have written a part. *)

From S2P Require Import Prelude GoInt GoStrings.

#[local] Open Scope string_scope.

(** * The file *)
Record OffsetFile := mkOffsetFile { content : string; pos : nat }.

Inductive FileOp := OpenOp | Truncate | Seek | Write | Sync.

(** Which calls fail, and how much a failing write has written. *)
Record Disk := mkDisk { fails : FileOp -> option error; written : nat }.

Section Client.
Context (disk : Disk).
Abbreviation M := (GoM OffsetFile).

Definition op (o : FileOp) (effect : OffsetFile -> OffsetFile) : M unit := fun f =>
  match fails disk o with Some e => (Fail e, f) | None => (Val tt, effect f) end.

(** Writing at the position of the descriptor; a gap is filled with zero bytes. *)
Definition zeros (n : nat) : string := String.string_of_list_ascii (replicate n "000"%char).
Definition write_at (s : string) (f : OffsetFile) : OffsetFile :=
  let c := content f in
  mkOffsetFile (stake (pos f) c +:+ zeros (pos f - slen c) +:+ s +:+ sdrop (pos f + slen s) c) (pos f + slen s).

Definition write (s : string) : M unit := fun f =>
  match fails disk Write with
  | Some e => (Fail e, write_at (stake (written disk) s) f)
  | None => (Val tt, write_at s f)
  end.

(** ** NewClient: the file of the topic, created when it is not there. *)
Definition OFFSET_FILE : string := ".o".
Definition offset_path (topic : string) : string := "_" +:+ topic +:+ OFFSET_FILE.
Definition NewClient (stored : option string) : outcome OffsetFile :=
  match fails disk OpenOp with
  | Some e => Fail (ErrWrap "error opening offset file" e)
  | None => Val (mkOffsetFile (default "" stored) 0)
  end.

(** ** Commit *)
Definition Commit (offset : Z) : M unit :=
  _ ← wrapM "error truncating offset file" (op Truncate (fun f => mkOffsetFile "" (pos f)));
  _ ← wrapM "error overwriting offset file" (op Seek (fun f => mkOffsetFile (content f) 0));
  _ ← wrapM "error formatting offset file" (write (FormatUint offset));
  wrapM "error syncing offset file" (op Sync id).

(** ** Offset

    [fmt.Fscanf(f, "%d", &n)]: blanks, then digits. It reads one rune at a time, and one
    rune past the number. *)
Definition is_blank (c : ascii) : bool :=
  existsb (Ascii.eqb c) [" "%char; "009"%char; "011"%char; "012"%char; "013"%char].
Definition is_digit (c : ascii) : bool :=
  let n := Ascii.nat_of_ascii c in Nat.leb 48 n && Nat.leb n 57.

Fixpoint span (p : ascii -> bool) (s : string) : string * string :=
  match s with
  | String c s' => if p c then let '(a, b) := span p s' in (String c a, b) else ("", s)
  | "" => ("", "")
  end.

Definition EOF : error := ErrNew "EOF".

Definition Fscanf_d : M Z := fun f =>
  let '(blanks, rest) := span is_blank (sdrop (pos f) (content f)) in
  let '(digits, rest') := span is_digit rest in
  let over (s : string) : nat := if decide (s = "") then 0%nat else 1%nat in
  let at_ (n : nat) : OffsetFile := mkOffsetFile (content f) (pos f + n) in
  if decide (rest = "") then (Fail EOF, at_ (slen blanks))
  else if HasPrefix rest (String "010" "") then (Fail (ErrNew "unexpected newline"), at_ (S (slen blanks)))
  else if decide (digits = "") then (Fail (ErrNew "expected integer"), at_ (S (slen blanks)))
  else (of_res (ParseUint digits), at_ (slen blanks + slen digits + over rest')%nat).

Definition Offset : M Z :=
  on_error Fscanf_d
    (fun e => if decide (e <> EOF) then fail (ErrWrap "error reading offset file" e) else mret 0)
    mret.
End Client.

#[local] Close Scope string_scope.

(** * Lemmas *)
Lemma span_all p s : (forall c, has_char c s = true -> p c = true) -> span p s = (s, ""%string).
Proof.
  induction s as [|c s IH]; intros Hp; [done|]. simpl. rewrite Hp by (simpl; by rewrite Ascii.eqb_refl).
  rewrite IH; [done|]. intros d Hd. apply Hp. simpl. by rewrite Hd, orb_true_r.
Qed.

Lemma write_empty s : write_at s (mkOffsetFile "" 0) = mkOffsetFile s (slen s).
Proof. unfold write_at. simpl. by destruct (slen s); rewrite ?sapp_nil_r. Qed.
#[local] Arguments write_at : simpl never.

Lemma stake_all s : stake (slen s) s = s.
Proof. rewrite <- (sapp_nil_r s) at 2. apply stake_app. Qed.

Lemma sdrop_all s : sdrop (slen s) s = ""%string.
Proof. rewrite <- (sapp_nil_r s) at 2. apply sdrop_app. Qed.

(** What a commit leaves: everything, or what was there, or the first digits. *)
Lemma Commit_content disk n f :
  match Commit disk n f with
  | (Val _, f') => f' = mkOffsetFile (FormatUint n) (slen (FormatUint n))
  | (Fail _, f') => content f' = content f \/ exists k, content f' = stake k (FormatUint n)
  | (Panic _, _) => False
  end.
Proof.
  unfold Commit, wrapM, op, write. rewrite !run_bind.
  destruct (fails disk Truncate); [by left|]. rewrite run_bind.
  destruct (fails disk Seek); [right; by exists 0%nat|]. rewrite run_bind. cbn [content pos].
  destruct (fails disk Write); rewrite write_empty.
  { right. by exists (written disk). }
  destruct (fails disk Sync); [|done]. right. exists (slen (FormatUint n)). simpl.
  by rewrite stake_all.
Qed.

Lemma digits_go_digits fuel n acc :
  (forall c, has_char c acc = true -> is_digit c = true) -> 0 <= n ->
  forall c, has_char c (digits_go 10 fuel n acc) = true -> is_digit c = true.
Proof.
  revert n acc. induction fuel as [|fuel IH]; intros n acc Hacc Hn; [done|]. cbn [digits_go].
  assert (Hs : forall c, has_char c (String (digit_char 10 (n mod 10)) acc) = true -> is_digit c = true).
  { intros c. simpl. destruct (Ascii.eqb_spec c (digit_char 10 (n mod 10))) as [->|_]; [|apply Hacc].
    intros _. pose proof (Z.mod_pos_bound n 10). unfold is_digit, digit_char. rewrite decide_True by lia.
    rewrite Ascii.nat_ascii_embedding by lia. apply andb_true_iff. split; apply Nat.leb_le; lia. }
  case_decide; [done|]. apply IH; [done|]. apply Z.div_pos; lia.
Qed.

Lemma FormatUint_digits n c : is_u64 n -> has_char c (FormatUint n) = true -> is_digit c = true.
Proof. intros [Hn _]. by apply digits_go_digits. Qed.

Lemma FormatUint_not_empty n : FormatUint n <> EmptyString.
Proof. apply digits_go_not_empty. lia. Qed.

Lemma ParseUint_errors s e : ParseUint s = Er e -> exists fn i r, e = ErrNum fn i r.
Proof.
  unfold ParseUint. destruct (String.eqb s EmptyString); [intros [= <-]; eauto|].
  generalize 0, s at 2. intros n s0. revert n. induction s as [|c s IH]; intros n; simpl; [done|].
  destruct (digit_val c); [|intros [= <-]; eauto]. do 2 (case_decide; [intros [= <-]; eauto|]). apply IH.
Qed.

(** Reading a file of digits from its start. *)
Lemma Offset_digits s :
  (forall c, has_char c s = true -> is_digit c = true) ->
  fst (Offset (mkOffsetFile s 0)) =
    (if decide (s = ""%string) then Val 0
     else match ParseUint s with Ok n => Val n | Er e => Fail (ErrWrap "error reading offset file" e) end).
Proof.
  intros Hs. unfold Offset, on_error, Fscanf_d. cbn [pos content sdrop].
  destruct s as [|c s]; [done|].
  assert (Hc : is_digit c = true) by (apply Hs; simpl; by rewrite Ascii.eqb_refl).
  assert (Hb : span is_blank (String c s) = (EmptyString, String c s)).
  { simpl. destruct (is_blank c) eqn:E; [|done]. exfalso. revert E. unfold is_blank. simpl.
    rewrite !orb_true_iff, !Ascii.eqb_eq. intros H. by repeat destruct H as [->|H]. }
  rewrite Hb, (span_all is_digit) by done. rewrite decide_False by done.
  assert (HasPrefix (String c s) (String "010" "") = false) as ->.
  { unfold HasPrefix. rewrite (prefix_one "010" c). by destruct (Ascii.eqb_spec "010" c) as [<-|]. }
  rewrite !decide_False by done. destruct (ParseUint (String c s)) as [n|e] eqn:E; [done|]. simpl.
  rewrite decide_True; [done|]. intros ->. by apply ParseUint_errors in E as (fn & i & r & [=]).
Qed.

(** The first digits of a number are a number that is not larger. *)
Lemma parse_go_prefix n a b s0 s1 v :
  0 <= n -> parse_go n (a +:+ b) s0 = Ok v -> exists u, parse_go n a s1 = Ok u /\ 0 <= u <= v.
Proof.
  revert n. induction a as [|c a IH]; intros n Hn; simpl.
  - intros Hb. exists n. split; [done|]. revert n Hn Hb. induction b as [|c b IHb]; intros n Hn; simpl.
    + intros [= ->]. lia.
    + unfold digit_val. case_bool_decide; [|done]. do 2 (case_decide; [done|]). intros H'%IHb; lia.
  - unfold digit_val. case_bool_decide; [|done]. do 2 (case_decide; [done|]). apply IH. lia.
Qed.

(** * Properties *)

(** A committed offset is read back: when [Commit] succeeds, whatever was in the file
    before, the next client of the topic reads the number that was committed. *)
Theorem Commit_roundtrip disk n f f' disk' g :
  is_u64 n -> Commit disk n f = (Val tt, f') -> NewClient disk' (Some (content f')) = Val g ->
  fst (Offset g) = Val n.
Proof.
  intros Hn Hc Hg. pose proof (Commit_content disk n f) as H. rewrite Hc in H. subst f'.
  unfold NewClient in Hg. destruct (fails disk' OpenOp); [done|]. injection Hg as <-. simpl.
  rewrite Offset_digits by (intros c; by apply FormatUint_digits).
  rewrite decide_False by by apply FormatUint_not_empty. by rewrite ParseUint_FormatUint.
Qed.

(** A commit that fails never moves the offset forward beyond the number it was given:
    the file is as it was, or the next client reads a number that is not larger (also
    when only the first digits were written, or none). *)
Theorem Commit_never_ahead disk n f e f' :
  is_u64 n -> Commit disk n f = (Fail e, f') ->
  content f' = content f \/ exists m, fst (Offset (mkOffsetFile (content f') 0)) = Val m /\ 0 <= m <= n.
Proof.
  intros Hn Hc. pose proof (Commit_content disk n f) as H. rewrite Hc in H.
  destruct H as [H|[k H]]; [by left|]. right. rewrite H.
  rewrite Offset_digits.
  2:{ intros c Hk. apply (FormatUint_digits n c Hn). rewrite <- (stake_sdrop k (FormatUint n)), has_char_app, Hk. done. }
  case_decide as Hk; [exists 0; split; [done|unfold is_u64 in *; lia]|].
  pose proof (ParseUint_FormatUint n Hn) as Hp. unfold ParseUint in *.
  destruct (String.eqb_spec (FormatUint n) EmptyString); [done|].
  destruct (String.eqb_spec (stake k (FormatUint n)) EmptyString); [done|].
  rewrite <- (stake_sdrop k (FormatUint n)) in Hp at 1.
  destruct (parse_go_prefix 0 _ _ _ (stake k (FormatUint n)) n ltac:(lia) Hp) as (u & -> & Hu). by exists u.
Qed.

(** The client that committed does not read its offset back: its descriptor stands at the
    end of the file, and the end of the file counts as zero. *)
Theorem Offset_after_Commit disk n f f' :
  is_u64 n -> Commit disk n f = (Val tt, f') -> fst (Offset f') = Val 0.
Proof.
  intros Hn Hc. pose proof (Commit_content disk n f) as H. rewrite Hc in H. subst f'.
  unfold Offset, on_error, Fscanf_d. cbn [pos content].
  by rewrite sdrop_all.
Qed.

(** A disk on which every call works, and one that is full after two bytes. *)
Definition good_disk : Disk := mkDisk (fun _ => None) 0.
Definition full_disk : Disk :=
  mkDisk (fun o => match o with Write => Some (ErrNew "no space left on device") | _ => None end) 2.
Lemma Commit_roundtrip_witness :
  let f := snd (Commit good_disk 7 (mkOffsetFile "123456" 6)) in
  exists g, NewClient good_disk (Some (content f)) = Val g /\ fst (Offset g) = Val 7.
Proof.
  cbv zeta. eexists. split; [vm_compute; reflexivity|].
  eapply (Commit_roundtrip good_disk 7 (mkOffsetFile "123456" 6) _ good_disk);
    [unfold is_u64; lia | vm_compute; reflexivity | vm_compute; reflexivity].
Defined.
Example partial_commit :
  fst (Offset (mkOffsetFile (content (snd (Commit full_disk 1234 (mkOffsetFile "99" 0)))) 0)) = Val 12.
Proof. reflexivity. Qed.
