(* ===== verification/WorkerPool.v ===== *)
(** The pool of workers that the Handle functions of handler/packfileUpdated.go,
    lfsObjectUpdated.go, deleteRepository.go, release.go (at most five workers) and
    mergePullRequest.go (at most three) process their events with: one goroutine per
    event, a buffered channel as a semaphore, and a WaitGroup.

    A state says where each event's goroutine is; a step is one scheduling point. The
    loop that starts the goroutines, the goroutines and [wg.Wait] interleave freely.

    [Process] may never return: two merges can wait for each other's locks for ever
    (MergeRaces). Which events this happens to in an execution, [stuck], is a parameter;
    such an event keeps its slot. *)

From S2P Require Import Prelude.
From Stdlib Require Import Permutation.

(** [maxWorkers := limit; if len(events) < maxWorkers { maxWorkers = len(events) }]. *)
Definition max_workers (limit n : nat) : nat := if (n <? limit)%nat then n else limit.

Section Pool.
Context {E : Type} (limit : nat) (events : list E) (stuck : E -> bool).

Record Pool := mkPool {
  unstarted : list E;   (* the loop has not reached them *)
  waiting : list E;     (* at [semaphore <- struct{}{}] *)
  running : list E;     (* in Process; each holds a slot of the channel *)
  leaving : list E;     (* after [<-semaphore], before [wg.Done()] *)
  finished : list E;
  returned : bool       (* [wg.Wait()] is over and Handle returned *)
}.

Definition initial : Pool := mkPool events [] [] [] [] false.

(** The capacity of the channel. *)
Definition capacity : nat := max_workers limit (length events).

(** The WaitGroup's counter: started and not done. *)
Definition wg_counter (s : Pool) : nat :=
  (length (waiting s) + length (running s) + length (leaving s))%nat.

Inductive step : Pool -> Pool -> Prop :=
| step_start e es w r l f :
    step (mkPool (e :: es) w r l f false) (mkPool es (w ++ [e]) r l f false)
| step_acquire u w1 e w2 r l f :
    (length r < capacity)%nat ->
    step (mkPool u (w1 ++ e :: w2) r l f false) (mkPool u (w1 ++ w2) (r ++ [e]) l f false)
| step_process u w r1 e r2 l f :
    (* Process returned, with an error that is logged or without; the slot is free *)
    stuck e = false ->
    step (mkPool u w (r1 ++ e :: r2) l f false) (mkPool u w (r1 ++ r2) (l ++ [e]) f false)
| step_done u w r l1 e l2 f :
    step (mkPool u w r (l1 ++ e :: l2) f false) (mkPool u w r (l1 ++ l2) (f ++ [e]) false)
| step_wait w r l f :
    (* the loop is over and the counter is zero *)
    wg_counter (mkPool [] w r l f false) = 0%nat ->
    step (mkPool [] w r l f false) (mkPool [] w r l f true).

Definition reachable (s : Pool) : Prop := rtc step initial s.

(** ** Invariant *)
Definition everything (s : Pool) : list E :=
  unstarted s ++ waiting s ++ running s ++ leaving s ++ finished s.

Record pool_ok (s : Pool) : Prop := {
  ok_events : Permutation (everything s) events;
  ok_slots : (length (running s) <= capacity)%nat;
  ok_returned : returned s = true ->
    unstarted s = [] /\ waiting s = [] /\ running s = [] /\ leaving s = [];
  ok_processed : Forall (fun e => stuck e = false) (leaving s ++ finished s)
}.

Lemma pool_ok_initial : pool_ok initial.
Proof.
  split; simpl; [unfold everything; simpl; by rewrite app_nil_r|lia|done|constructor].
Qed.

Lemma step_ok s s' : step s s' -> pool_ok s -> pool_ok s'.
Proof.
  intros Hs [Hev Hsl Hret Hp]. destruct Hs; split; simpl in *; try done;
    try (rewrite <- Hev; unfold everything; simpl; rewrite <- ?app_assoc; simpl;
         rewrite <- ?app_assoc; simpl; by rewrite <- !Permutation_middle, ?app_nil_r).
  - rewrite length_app. simpl. lia.
  - rewrite length_app in Hsl |- *. simpl in Hsl. lia.
  - decompose_Forall; auto.
  - decompose_Forall; auto.
  - unfold wg_counter in *. simpl in *. intros _.
    destruct w, r, l; simpl in *; try lia. done.
Qed.

Lemma reachable_ok s : reachable s -> pool_ok s.
Proof.
  intros H. unfold reachable in H. pose proof pool_ok_initial as H0.
  induction H as [|s1 s2 s3 H1 _ IH]; [done|]. by apply IH, (step_ok s1).
Qed.

(** ** Progress *)

(** What is left to do: each event takes four steps, and the wait one more. *)
Definition work (s : Pool) : nat :=
  (4 * length (unstarted s) + 3 * length (waiting s) + 2 * length (running s)
   + length (leaving s) + if returned s then 0 else 1)%nat.

Lemma step_work s s' : step s s' -> work s = S (work s').
Proof. intros H. destruct H; unfold work; simpl; rewrite ?length_app; simpl; lia. Qed.

Lemma nsteps_work n s s' : nsteps step n s s' -> work s = (n + work s')%nat.
Proof.
  induction 1 as [|n s1 s2 s3 H1 _ IH]; [done|]. rewrite (step_work _ _ H1), IH. lia.
Qed.

Lemma capacity_positive : events <> [] -> (0 < limit)%nat -> (0 < capacity)%nat.
Proof.
  unfold capacity, max_workers. intros Hne Hl. destruct events; [done|].
  destruct (_ <? _)%nat; simpl; lia.
Qed.

(** What stands still: only stuck events run, and they hold every slot if one waits. *)
Lemma pool_stands_still s :
  pool_ok s -> (forall s', ~ step s s') -> returned s = false ->
  unstarted s = [] /\ leaving s = [] /\ Forall (fun e => stuck e = true) (running s) /\
  (waiting s = [] /\ running s <> [] \/ (capacity <= length (running s))%nat).
Proof.
  intros Hok Hstop Hr. destruct s as [u w r l f b]; simpl in *; subst b.
  destruct u as [|e u]; [|destruct (Hstop _ (step_start e u w r l f))].
  destruct l as [|e l]; [|destruct (Hstop _ (step_done [] w r [] e l f))].
  split; [done|]. split; [done|]. split.
  - apply Forall_forall. intros e He. destruct (stuck e) eqn:Hs; [done|].
    apply list_elem_of_In, list_elem_of_split in He as (r1 & r2 & ->).
    destruct (Hstop _ (step_process [] w r1 e r2 [] f Hs)).
  - destruct (decide (capacity <= length r)%nat) as [Hc|Hc]; [by right|left].
    destruct w as [|e w]; [|destruct (Hstop _ (step_acquire [] [] e w r [] f ltac:(lia)))]. split; [done|].
    intros ->. destruct (Hstop _ (step_wait [] [] [] f eq_refl)).
Qed.

(** Those of a list, and the others. *)
Definition hung (es : list E) : list E := filter (fun e => stuck e = true) es.
Definition sound (es : list E) : list E := filter (fun e => stuck e = false) es.

Lemma hung_all es : Forall (fun e => stuck e = true) es -> hung es = es /\ sound es = [].
Proof.
  unfold hung, sound. induction 1 as [|e es He _ [IH1 IH2]]; [done|].
  rewrite filter_cons_True, filter_cons_False by congruence. by rewrite IH1, IH2.
Qed.
Lemma sound_all es : Forall (fun e => stuck e = false) es -> sound es = es /\ hung es = [].
Proof.
  unfold hung, sound. induction 1 as [|e es He _ [IH1 IH2]]; [done|].
  rewrite filter_cons_True, filter_cons_False by congruence. by rewrite IH1, IH2.
Qed.

(** At a standstill the processed events are all that are not stuck, unless the stuck ones
    hold every slot. *)
Lemma standstill_finished s :
  pool_ok s -> (forall s', ~ step s s') -> (length (hung events) < capacity)%nat ->
  Permutation (finished s) (sound events).
Proof.
  intros Hok Hstop Hlt. pose proof Hok as [Hev Hsl Hret Hp].
  assert (Hsound : sound (finished s) = finished s).
  { apply sound_all. by apply Forall_app in Hp as [_ Hp]. }
  unfold everything in Hev. destruct (returned s) eqn:Hr.
  - destruct (Hret eq_refl) as (E1 & E2 & E3 & E4). rewrite E1, E2, E3, E4 in Hev. simpl in Hev.
    rewrite <- Hsound at 1. unfold sound. by rewrite Hev.
  - destruct (pool_stands_still s Hok Hstop Hr) as (E1 & E4 & Hrun & Hw). rewrite E1, E4 in Hev. simpl in Hev.
    destruct (hung_all _ Hrun) as [Hh Hs]. destruct Hw as [[E2 _]|Hfull].
    + rewrite E2 in Hev. simpl in Hev. unfold sound at 1. rewrite <- Hev, list.filter_app.
      change (Permutation (finished s) (sound (running s) ++ sound (finished s))). by rewrite Hs, Hsound.
    + assert (Hl : (length (running s) <= length (hung events))%nat); [|lia].
      unfold hung. rewrite <- Hev, !list.filter_app, !length_app.
      change (filter (fun e => stuck e = true) (running s)) with (hung (running s)). rewrite Hh. lia.
Qed.
End Pool.

Arguments Pool E : clear implicits.

(** * Properties *)

(** C30: a Handle function with workers never processes more events at once than its
    limit, nor than there are events, and when it returns every event of the buffer
    has been processed exactly once, in every interleaving of the goroutines and whichever
    events are never done. *)
Theorem Handle_pool_safe {E} limit (events : list E) stuck s :
  reachable limit events stuck s ->
  (length (running s) <= limit)%nat /\
  (length (running s) <= length events)%nat /\
  (returned s = true -> Permutation (finished s) events).
Proof.
  intros H. apply reachable_ok in H as [Hev Hsl Hret _].
  unfold capacity, max_workers in Hsl.
  split; [|split]; [destruct (_ <? _)%nat eqn:El; [apply Nat.ltb_lt in El|]; lia
                   |destruct (_ <? _)%nat eqn:El; [|apply Nat.ltb_ge in El]; lia|].
  intros Hr. destruct (Hret Hr) as (E1 & E2 & E3 & E4).
  unfold everything in Hev. rewrite E1, E2, E3, E4 in Hev. done.
Qed.

Lemma Handle_pool_safe_witness :
  let s := mkPool [3] [2] [1] [] [] false in
  (length (running s) <= 5)%nat /\ (length (running s) <= 3)%nat /\
  (returned s = true -> Permutation (finished s) [1; 2; 3]).
Proof.
  apply (Handle_pool_safe 5 [1; 2; 3] (fun _ => false) (mkPool [3] [2] [1] [] [] false)).
  eapply rtc_l; [apply step_start|]. eapply rtc_l; [apply step_start|].
  eapply rtc_l; [|apply rtc_refl]. apply (step_acquire 5 [1; 2; 3] _ [3] [] 1 [2] []).
  vm_compute. lia.
Defined.

(** C31: a Handle function with workers returns just when all of its events do. No
    execution for [n] events is longer than [4 n + 1] steps, so each comes to a standstill;
    there, Handle has returned if and only if no event of the buffer is stuck in [Process].
    An event that is stuck does not keep the others from being processed, as long as fewer
    events are stuck than there are workers: all others have been processed then, although
    Handle waits for ever. *)
Theorem Handle_pool_returns {E} limit (events : list E) stuck s :
  (0 < limit)%nat -> reachable limit events stuck s ->
  (forall n s', nsteps (step limit events stuck) n s s' -> (n <= 4 * length events + 1)%nat) /\
  ((forall s', ~ step limit events stuck s s') ->
     (returned s = true <-> Forall (fun e => stuck e = false) events) /\
     ((length (filter (fun e => stuck e = true) events) < limit `min` length events)%nat ->
        Permutation (finished s) (filter (fun e => stuck e = false) events))).
Proof.
  intros Hl H. pose proof (reachable_ok _ _ _ _ H) as Hok. split.
  { intros n s' Hn. apply rtc_nsteps in H as [m Hm].
    pose proof (nsteps_work _ _ _ _ _ _ Hm) as Hw1. pose proof (nsteps_work _ _ _ _ _ _ Hn) as Hw2.
    unfold work at 1 in Hw1. simpl in Hw1. lia. }
  intros Hstop. split.
  - pose proof Hok as [Hev Hsl Hret Hp]. unfold everything in Hev. split.
    + intros Hr. destruct (Hret Hr) as (E1 & E2 & E3 & E4). rewrite E1, E2, E3, E4 in Hev. simpl in Hev.
      rewrite <- Hev. by apply Forall_app in Hp as [_ Hp].
    + intros Hall. destruct (returned s) eqn:Hr; [done|].
      destruct (pool_stands_still _ _ _ _ Hok Hstop Hr) as (E1 & E4 & Hrun & Hw).
      assert (Hnone : running s = []).
      { rewrite <- Hev, !Forall_app in Hall. destruct Hall as (_ & _ & Hall & _).
        destruct (running s) as [|e r]; [done|]. decompose_Forall. congruence. }
      rewrite Hnone in Hw. destruct Hw as [[_ Hne]|Hc]; [done|]. simpl in Hc.
      destruct events as [|e es].
      * rewrite E1, E4, Hnone in Hev. simpl in Hev. apply Permutation_sym, Permutation_nil, app_eq_nil in Hev as [E2 _].
        destruct s as [u w r l f b]; simpl in *; subst.
        destruct (Hstop _ (step_wait limit [] stuck [] [] [] f eq_refl)).
      * pose proof (capacity_positive limit (e :: es) ltac:(done) Hl). lia.
  - intros Hlt. apply (standstill_finished limit events stuck); [done..|]. unfold capacity, max_workers.
    unfold hung. destruct (_ <? _)%nat eqn:El; [apply Nat.ltb_lt in El|apply Nat.ltb_ge in El]; lia.
Qed.

(** Two events, one of which is stuck: the other one is processed, and Handle waits. *)
Lemma Handle_pool_returns_witness :
  let stuck := Nat.eqb 1 in
  let s := mkPool [] [] [1%nat] [] [2%nat] false in
  ~ Forall (fun e => stuck e = false) [1; 2]%nat /\ Permutation (finished s) [2%nat].
Proof.
  intros stuck s. assert (Hr : reachable 3 [1; 2]%nat stuck s).
  { eapply rtc_l; [apply step_start|]. eapply rtc_l; [apply step_start|].
    eapply rtc_l; [apply (step_acquire 3 [1; 2]%nat stuck [] [] 1%nat [2%nat] []); vm_compute; lia|].
    eapply rtc_l; [apply (step_acquire 3 [1; 2]%nat stuck [] [] 2%nat [] [1%nat]); vm_compute; lia|].
    eapply rtc_l; [by apply (step_process 3 [1; 2]%nat stuck [] [] [1%nat] 2%nat [] [])|].
    eapply rtc_l; [apply (step_done 3 [1; 2]%nat stuck [] [] [1%nat] [] 2%nat [] [])|]. apply rtc_refl. }
  destruct (Handle_pool_returns 3 [1; 2]%nat stuck s ltac:(lia) Hr) as [_ Hstop].
  destruct Hstop as [Hret Hfin].
  { intros s' Hs. inversion Hs; try discriminate;
      match goal with H : ?l ++ _ :: _ = _ |- _ => destruct l as [|? []]; simplify_eq/= end. }
  split; [by rewrite <- Hret|]. apply Hfin. vm_compute. lia.
Defined.

(** * The Handle functions that use the pool *)
Definition PackfileUpdated_Handle_step {E} := @step E 5.
Definition LfsObjectUpdated_Handle_step {E} := @step E 5.
Definition DeleteRepository_Handle_step {E} := @step E 5.
Definition Release_Handle_step {E} := @step E 5.
Definition InvokeMergePullRequest_Handle_step {E} := @step E 3.
