(* ===== verification/RepoLocks.v ===== *)
(** The lock tables of utils/cache.go: reference-counted readers-writer locks, one per
    repository, release asset and LFS object, created on first use and removed from the
    table by a timer five minutes after a release.

    The three tables have the same code; [K] is the type of their keys. A session is
    one use of a lock, from the call that takes it to the end of the call that releases
    it. A step is one access to shared memory - to the table, a counter, or [mu] - and the
    sessions and the timers interleave freely. The counters are int32 in the code; they
    count sessions. [lastUsed] is never read. *)

From S2P Require Import Prelude.

(** [RefCountedRWMutex]: the holders of [mu], and the two counters. *)
Record Mutex := mkMutex {
  writer : option nat; readers : list nat; readCount : Z; writeCount : Z
}.
Definition new_mutex : Mutex := mkMutex None [] 0 0.

Section Locks.
Context {K : Type} `{Countable K}.

(** Where a session is, with the object that the table gave it last. Locking: it has
    [Found] the object, has counted itself and [Want]s [mu], [Hold]s it. Unlocking: it has
    found the object again and [Check]s the counter, it is about to [Free] [mu], it
    [Leave]s: [mu] is released and it is still counted. The last reader looks at the
    writers too ([LastR]). *)
Inductive session :=
| Idle | Done
| FoundW (k : K) (o : nat) | WantW (k : K) (o : nat) | HoldW (k : K) (o : nat)
| CheckW (k : K) (o : nat) | FreeW (k : K) (o : nat) | LeaveW (k : K) (o : nat)
| FoundR (k : K) (o : nat) | WantR (k : K) (o : nat) | HoldR (k : K) (o : nat)
| CheckR (k : K) (o : nat) | FreeR (k : K) (o : nat) | LeaveR (k : K) (o : nat)
| LastR (k : K) (o : nat).

Record Locks := mkLocks {
  heap : list Mutex;        (* every mutex that was ever allocated *)
  table : gmap K nat;       (* the sync.Map *)
  sessions : list session;
  timers : list K;          (* the goroutines waiting to delete a key *)
  crashed : bool            (* "sync: Unlock of unlocked RWMutex" *)
}.

Definition initial (n : nat) : Locks := mkLocks [] ∅ (replicate n Idle) [] false.

(** [LoadOrStore(k, &RefCountedRWMutex{...})]. *)
Definition getMutex (k : K) (s : Locks) : nat * Locks :=
  match table s !! k with
  | Some o => (o, s)
  | None =>
      let o := length (heap s) in
      (o, mkLocks (heap s ++ [new_mutex]) (<[k := o]> (table s)) (sessions s) (timers s) (crashed s))
  end.

Definition set_session (i : nat) (x : session) (s : Locks) : Locks :=
  mkLocks (heap s) (table s) (<[i := x]> (sessions s)) (timers s) (crashed s).
Definition set_mutex (o : nat) (m : Mutex) (s : Locks) : Locks :=
  mkLocks (<[o := m]> (heap s)) (table s) (sessions s) (timers s) (crashed s).
Definition crash (s : Locks) : Locks :=
  mkLocks (heap s) (table s) (sessions s) (timers s) true.
(** [go func() { ... time.After(5 * time.Minute) ... }()]; nothing ever signals
    [cleanupCh]. *)
Definition schedule (k : K) (b : bool) (s : Locks) : Locks :=
  if b then mkLocks (heap s) (table s) (sessions s) (k :: timers s) (crashed s) else s.

Definition mutex (o : nat) (s : Locks) : Mutex := default new_mutex (heap s !! o).

Definition add_writer (d : Z) (m : Mutex) : Mutex :=
  mkMutex (writer m) (readers m) (readCount m) (writeCount m + d).
Definition add_reader (d : Z) (m : Mutex) : Mutex :=
  mkMutex (writer m) (readers m) (readCount m + d) (writeCount m).

(** LockRepository: the lookup, [atomic.AddInt32], [mu.Lock()]. *)
Definition Lock_find (i : nat) (k : K) (s : Locks) : Locks :=
  let '(o, s) := getMutex k s in set_session i (FoundW k o) s.
Definition Lock_count (i : nat) (k : K) (o : nat) (s : Locks) : Locks :=
  set_session i (WantW k o) (set_mutex o (add_writer 1 (mutex o s)) s).
Definition Lock_take (i : nat) (k : K) (o : nat) (s : Locks) : Locks :=
  let m := mutex o s in
  set_session i (HoldW k o) (set_mutex o (mkMutex (Some i) [] (readCount m) (writeCount m)) s).

(** UnlockRepository looks the mutex up again; then [atomic.LoadInt32], [mu.Unlock()] and
    [atomic.AddInt32]. *)
Definition Unlock_find (i : nat) (k : K) (s : Locks) : Locks :=
  let '(o, s) := getMutex k s in set_session i (CheckW k o) s.
Definition Unlock_check (i : nat) (k : K) (o : nat) (s : Locks) : Locks :=
  set_session i (if decide (writeCount (mutex o s) <= 0) then Done else FreeW k o) s.
Definition Unlock_release (i : nat) (k : K) (o : nat) (s : Locks) : Locks :=
  let m := mutex o s in
  match writer m with
  | None => crash s
  | Some _ =>
      set_session i (LeaveW k o)
        (set_mutex o (mkMutex None (readers m) (readCount m) (writeCount m)) s)
  end.
Definition Unlock_count (i : nat) (k : K) (o : nat) (s : Locks) : Locks :=
  let m := add_writer (-1) (mutex o s) in
  set_session i Done (schedule k (bool_decide (writeCount m = 0)) (set_mutex o m s)).

(** The read lock. *)
Definition RLock_find (i : nat) (k : K) (s : Locks) : Locks :=
  let '(o, s) := getMutex k s in set_session i (FoundR k o) s.
Definition RLock_count (i : nat) (k : K) (o : nat) (s : Locks) : Locks :=
  set_session i (WantR k o) (set_mutex o (add_reader 1 (mutex o s)) s).
Definition RLock_take (i : nat) (k : K) (o : nat) (s : Locks) : Locks :=
  let m := mutex o s in
  set_session i (HoldR k o)
    (set_mutex o (mkMutex None (i :: readers m) (readCount m) (writeCount m)) s).
(** [mu] does not know which reader releases it: the session's own hold if it has
    one, otherwise some other one. *)
Definition remove_reader (i : nat) (rs : list nat) : list nat :=
  if decide (i ∈ rs) then filter (fun j => j <> i) rs else tail rs.
Definition RUnlock_find (i : nat) (k : K) (s : Locks) : Locks :=
  let '(o, s) := getMutex k s in set_session i (CheckR k o) s.
Definition RUnlock_check (i : nat) (k : K) (o : nat) (s : Locks) : Locks :=
  set_session i (if decide (readCount (mutex o s) <= 0) then Done else FreeR k o) s.
Definition RUnlock_release (i : nat) (k : K) (o : nat) (s : Locks) : Locks :=
  let m := mutex o s in
  match readers m with
  | [] => crash s
  | rs =>
      set_session i (LeaveR k o)
        (set_mutex o (mkMutex (writer m) (remove_reader i rs) (readCount m) (writeCount m)) s)
  end.
(** [AddInt32(&readCount, -1) == 0 && LoadInt32(&writeCount) == 0]. *)
Definition RUnlock_count (i : nat) (k : K) (o : nat) (s : Locks) : Locks :=
  let m := add_reader (-1) (mutex o s) in
  set_session i (if decide (readCount m = 0) then LastR k o else Done) (set_mutex o m s).
Definition RUnlock_last (i : nat) (k : K) (o : nat) (s : Locks) : Locks :=
  set_session i Done (schedule k (bool_decide (writeCount (mutex o s) = 0)) s).

(** [repoMutexes.Delete(repoID)], five minutes later; [ts] are the other timers. *)
Definition timer_fires (k : K) (ts : list K) (s : Locks) : Locks :=
  mkLocks (heap s) (delete k (table s)) (sessions s) ts (crashed s).

(** IsRepositoryInUse, as one look at the table and the two counters. *)
Definition IsInUse (k : K) (s : Locks) : bool :=
  match table s !! k with
  | Some o => bool_decide (0 < readCount (mutex o s)) || bool_decide (0 < writeCount (mutex o s))
  | None => false
  end.

(** A pending writer does not keep readers out here, as it does in the runtime: that
    only leaves more interleavings. *)
Inductive step : Locks -> Locks -> Prop :=
| step_lock i k s : sessions s !! i = Some Idle -> step s (Lock_find i k s)
| step_lock_count i k o s : sessions s !! i = Some (FoundW k o) -> step s (Lock_count i k o s)
| step_lock_take i k o s :
    sessions s !! i = Some (WantW k o) ->
    writer (mutex o s) = None -> readers (mutex o s) = [] -> step s (Lock_take i k o s)
| step_unlock i k o s : sessions s !! i = Some (HoldW k o) -> step s (Unlock_find i k s)
| step_unlock_check i k o s : sessions s !! i = Some (CheckW k o) -> step s (Unlock_check i k o s)
| step_unlock_release i k o s : sessions s !! i = Some (FreeW k o) -> step s (Unlock_release i k o s)
| step_unlock_count i k o s : sessions s !! i = Some (LeaveW k o) -> step s (Unlock_count i k o s)
| step_rlock i k s : sessions s !! i = Some Idle -> step s (RLock_find i k s)
| step_rlock_count i k o s : sessions s !! i = Some (FoundR k o) -> step s (RLock_count i k o s)
| step_rlock_take i k o s :
    sessions s !! i = Some (WantR k o) ->
    writer (mutex o s) = None -> step s (RLock_take i k o s)
| step_runlock i k o s : sessions s !! i = Some (HoldR k o) -> step s (RUnlock_find i k s)
| step_runlock_check i k o s : sessions s !! i = Some (CheckR k o) -> step s (RUnlock_check i k o s)
| step_runlock_release i k o s : sessions s !! i = Some (FreeR k o) -> step s (RUnlock_release i k o s)
| step_runlock_count i k o s : sessions s !! i = Some (LeaveR k o) -> step s (RUnlock_count i k o s)
| step_runlock_last i k o s : sessions s !! i = Some (LastR k o) -> step s (RUnlock_last i k o s).

(** The lock a session uses, from the lookup to the end of the unlock. *)
Definition ref (x : session) : option (K * nat) :=
  match x with
  | Idle | Done => None
  | FoundW k o | WantW k o | HoldW k o | CheckW k o | FreeW k o | LeaveW k o
  | FoundR k o | WantR k o | HoldR k o | CheckR k o | FreeR k o | LeaveR k o
  | LastR k o => Some (k, o)
  end.

(** The timer as the code has it; one that would look at the counters first; and one that
    only removes a lock that no session uses. *)
Inductive timer : Locks -> Locks -> Prop :=
| timer_any k t1 t2 s : timers s = t1 ++ k :: t2 -> timer s (timer_fires k (t1 ++ t2) s).
Inductive idle_timer : Locks -> Locks -> Prop :=
| timer_idle k t1 t2 s :
    timers s = t1 ++ k :: t2 -> IsInUse k s = false -> idle_timer s (timer_fires k (t1 ++ t2) s).
Inductive unused_timer : Locks -> Locks -> Prop :=
| timer_unused k t1 t2 s :
    timers s = t1 ++ k :: t2 -> (forall i x o, sessions s !! i = Some x -> ref x <> Some (k, o)) ->
    unused_timer s (timer_fires k (t1 ++ t2) s).

Definition code_step (s s' : Locks) : Prop := step s s' \/ timer s s'.
Definition idle_step (s s' : Locks) : Prop := step s s' \/ idle_timer s s'.
Definition safe_step (s s' : Locks) : Prop := step s s' \/ unused_timer s s'.

(** A session holds [mu] from the end of the lock to [mu.Unlock()]. *)
Definition held_write (x : session) : option K :=
  match x with HoldW k _ | CheckW k _ | FreeW k _ => Some k | _ => None end.
Definition held_read (x : session) : option K :=
  match x with HoldR k _ | CheckR k _ | FreeR k _ => Some k | _ => None end.
Definition holds_write (i : nat) (k : K) (s : Locks) : Prop :=
  exists x, sessions s !! i = Some x /\ held_write x = Some k.
Definition holds_read (i : nat) (k : K) (s : Locks) : Prop :=
  exists x, sessions s !! i = Some x /\ held_read x = Some k.
Definition holds (i : nat) (k : K) (s : Locks) : Prop := holds_write i k s \/ holds_read i k s.
End Locks.

Arguments session K : clear implicits.
Arguments Locks K {_ _}.

(** * Invariant *)

(** A sum over the sessions. *)
Definition total {A} (f : A -> Z) (xs : list A) : Z := fold_right (fun x n => f x + n) 0 xs.

Lemma total_insert {A} (f : A -> Z) xs i x y :
  xs !! i = Some x -> total f (<[i := y]> xs) = total f xs - f x + f y.
Proof.
  revert i. induction xs as [|z xs IH]; intros i Hi; [done|].
  destruct i as [|i]; simpl in *; [injection Hi as ->; lia|]. rewrite (IH _ Hi). lia.
Qed.

Lemma total_zero {A} (f : A -> Z) xs : (forall i x, xs !! i = Some x -> f x = 0) -> total f xs = 0.
Proof.
  induction xs as [|x xs IH]; intros Hf; [done|]. simpl.
  rewrite (Hf 0%nat x eq_refl), IH; [done|]. intros i y. apply (Hf (S i)).
Qed.

Lemma total_pos {A} (f : A -> Z) xs i x :
  (forall y, 0 <= f y) -> xs !! i = Some x -> f x <= total f xs.
Proof.
  intros Hf. assert (Hn : forall ys, 0 <= total f ys).
  { induction ys as [|y ys IH]; simpl; [lia|]. specialize (Hf y). lia. }
  revert i. induction xs as [|y xs IH]; intros i Hi; [done|]. simpl.
  destruct i as [|i]; simpl in Hi; [injection Hi as ->; specialize (Hn xs); lia|].
  specialize (IH _ Hi). specialize (Hf y). lia.
Qed.

Lemma ex_some {A} (P : A -> Prop) (y : A) : (exists x, Some y = Some x /\ P x) <-> P y.
Proof. split; [by intros (x & [= ->] & ?)|by exists y]. Qed.

Section Invariant.
Context {K : Type} `{Countable K}.
Implicit Types (s : Locks K) (x y : session K) (k : K) (o i j : nat).

Definition writes o x : Z :=
  match x with
  | WantW _ o' | HoldW _ o' | CheckW _ o' | FreeW _ o' | LeaveW _ o' => if decide (o' = o) then 1 else 0
  | _ => 0
  end.
Definition reads o x : Z :=
  match x with
  | WantR _ o' | HoldR _ o' | CheckR _ o' | FreeR _ o' | LeaveR _ o' => if decide (o' = o) then 1 else 0
  | _ => 0
  end.
Definition is_HoldW o x : Prop :=
  match x with HoldW _ o' | CheckW _ o' | FreeW _ o' => o' = o | _ => False end.
Definition is_HoldR o x : Prop :=
  match x with HoldR _ o' | CheckR _ o' | FreeR _ o' => o' = o | _ => False end.

Record inv s : Prop := {
  inv_ref : forall i x k o, sessions s !! i = Some x -> ref x = Some (k, o) -> table s !! k = Some o;
  inv_heap : forall k o, table s !! k = Some o -> (o < length (heap s))%nat;
  inv_inj : forall k k' o, table s !! k = Some o -> table s !! k' = Some o -> k = k';
  inv_count : forall o, writeCount (mutex o s) = total (writes o) (sessions s) /\
                        readCount (mutex o s) = total (reads o) (sessions s);
  inv_writer : forall i o, writer (mutex o s) = Some i <->
                           exists x, sessions s !! i = Some x /\ is_HoldW o x;
  inv_reader : forall i o, i ∈ readers (mutex o s) <->
                           exists x, sessions s !! i = Some x /\ is_HoldR o x;
  inv_excl : forall o, writer (mutex o s) <> None -> readers (mutex o s) = [];
  inv_alive : crashed s = false
}.

Lemma mutex_set_eq o m s : (o < length (heap s))%nat -> mutex o (set_mutex o m s) = m.
Proof. intros Ho. unfold mutex, set_mutex. simpl. by rewrite list_lookup_insert_eq. Qed.

Lemma mutex_set_ne o o' m s : o <> o' -> mutex o' (set_mutex o m s) = mutex o' s.
Proof. intros Ho. unfold mutex, set_mutex. simpl. by rewrite list_lookup_insert_ne. Qed.

Lemma inv_initial n : inv (initial n).
Proof.
  assert (Hidle : forall i x, replicate n (@Idle K) !! i = Some x -> x = Idle).
  { intros i x Hx. by apply lookup_replicate in Hx as [-> _]. }
  split; simpl.
  - intros i x k o Hx. by rewrite (Hidle _ _ Hx).
  - intros k o. by rewrite lookup_empty.
  - intros k k' o. by rewrite lookup_empty.
  - intros o. unfold mutex. simpl. split; symmetry; apply total_zero; intros i x Hx;
      by rewrite (Hidle _ _ Hx).
  - intros i o. unfold mutex. simpl. split; [done|]. intros (x & Hx & Hw).
    rewrite (Hidle _ _ Hx) in Hw. done.
  - intros i o. unfold mutex. simpl. split; [set_solver|]. intros (x & Hx & Hw).
    rewrite (Hidle _ _ Hx) in Hw. done.
  - intros o. unfold mutex. simpl. done.
  - done.
Qed.

(** A session only refers to an allocated mutex. *)
Lemma ref_allocated s i x k o :
  inv s -> sessions s !! i = Some x -> ref x = Some (k, o) -> (o < length (heap s))%nat.
Proof. intros Hi Hx Hr. eapply inv_heap; [done|]. by eapply inv_ref. Qed.

Lemma total_allocated s o (f : session K -> Z) :
  inv s -> (length (heap s) <= o)%nat ->
  (forall x, f x <> 0 -> exists k, ref x = Some (k, o)) -> total f (sessions s) = 0.
Proof.
  intros Hi Ho Hf. apply total_zero. intros i x Hx.
  destruct (decide (f x = 0)) as [|Hne]; [done|]. destruct (Hf x Hne) as [k Hk].
  pose proof (ref_allocated _ _ _ _ _ Hi Hx Hk). lia.
Qed.

(** Looking a key up, or storing a new mutex for it. *)
Lemma inv_getMutex k s o s' :
  inv s -> getMutex k s = (o, s') ->
  inv s' /\ table s' !! k = Some o /\ sessions s' = sessions s /\ (o < length (heap s'))%nat.
Proof.
  intros Hi. unfold getMutex. destruct (table s !! k) as [o'|] eqn:Ek; intros [= <- <-].
  { split; [done|]. split; [done|]. split; [done|]. by eapply inv_heap. }
  assert (Hmutex : forall o, mutex o (mkLocks (heap s ++ [new_mutex]) (<[k:=length (heap s)]> (table s))
                                        (sessions s) (timers s) (crashed s)) = mutex o s).
  { intros o. unfold mutex. simpl. destruct (decide (o < length (heap s))%nat).
    - by rewrite lookup_app_l.
    - rewrite lookup_app_r by lia. rewrite (lookup_ge_None_2 (heap s)) by lia.
      by destruct (o - length (heap s))%nat as [|[]]. }
  split; [|simpl; rewrite lookup_insert_eq, length_app; simpl; repeat split; lia].
  destruct Hi as [Href Hheap Hinj Hcount Hw Hr Hex Hal].
  split; try (intros o; rewrite ?Hmutex; auto; fail); simpl.
  - intros i x k' o Hx Hr'. pose proof (Href _ _ _ _ Hx Hr') as Ht.
    rewrite lookup_insert_ne; [done|]. intros <-. congruence.
  - intros k' o Ht. rewrite length_app. simpl. apply lookup_insert_Some in Ht as [[_ <-]|[_ Ht]]; [lia|].
    specialize (Hheap _ _ Ht). lia.
  - intros k1 k2 o H1 H2. apply lookup_insert_Some in H1 as [[<- <-]|[Hn1 H1]];
      apply lookup_insert_Some in H2 as [[<- H2']|[Hn2 H2]]; try done.
    + specialize (Hheap _ _ H2). lia.
    + specialize (Hheap _ _ H1). lia.
    + by eapply Hinj.
  - intros i o. rewrite Hmutex. apply Hw.
  - intros i o. rewrite Hmutex. apply Hr.
  - done.
Qed.

(** A session moves from [x] to [y] on mutex [o] of key [k], which becomes [m]. *)
Lemma inv_move s i x y k o m :
  inv s -> sessions s !! i = Some x -> table s !! k = Some o ->
  (ref x = None \/ ref x = Some (k, o)) -> (ref y = None \/ ref y = Some (k, o)) ->
  writeCount m = writeCount (mutex o s) - writes o x + writes o y ->
  readCount m = readCount (mutex o s) - reads o x + reads o y ->
  (forall j, writer m = Some j <-> (if decide (j = i) then is_HoldW o y else writer (mutex o s) = Some j)) ->
  (forall j, j ∈ readers m <-> (if decide (j = i) then is_HoldR o y else j ∈ readers (mutex o s))) ->
  (writer m <> None -> readers m = []) ->
  inv (set_session i y (set_mutex o m s)).
Proof.
  intros Hi Hx Hk Hrx Hry Hwc Hrc Hwm Hrm Hexm.
  pose proof (inv_heap _ Hi _ _ Hk) as Ho.
  pose proof (lookup_lt_Some _ _ _ Hx) as Hlt.
  destruct Hi as [Href Hheap Hinj Hcount Hw Hr Hex Hal].
  assert (Hmut : forall o', mutex o' (set_session i y (set_mutex o m s)) =
                            if decide (o' = o) then m else mutex o' s).
  { intros o'. change (mutex o' (set_session i y (set_mutex o m s))) with (mutex o' (set_mutex o m s)).
    case_decide as Hd; [subst; by apply mutex_set_eq|by apply mutex_set_ne]. }
  assert (Hother : forall z o', ref z = None \/ ref z = Some (k, o) -> o' <> o ->
            writes o' z = 0 /\ reads o' z = 0 /\ ~ is_HoldW o' z /\ ~ is_HoldR o' z).
  { intros z o' Hz Hne. destruct z; simpl in *; try (repeat split; try done; auto; fail);
      destruct Hz as [|[= -> ->]]; try done; repeat split; try done; try (by rewrite decide_False);
      auto. }
  split; simpl.
  - intros j z k' o' Hz Hrz. apply list_lookup_insert_Some in Hz as [(<- & <- & _)|[_ Hz]].
    + destruct Hry as [Hry|Hry]; rewrite Hry in Hrz; [done|]. by injection Hrz as <- <-.
    + by eapply Href.
  - intros k' o' Ht. rewrite length_insert. by eapply Hheap.
  - done.
  - intros o'. rewrite Hmut, !(total_insert _ _ _ _ _ Hx). case_decide as Hd.
    + subst. specialize (Hcount o). lia.
    + destruct (Hother x o' Hrx Hd) as (-> & -> & _), (Hother y o' Hry Hd) as (-> & -> & _).
      specialize (Hcount o'). lia.
  - intros j o'. rewrite Hmut. case_decide as Hd.
    + subst. rewrite Hwm. case_decide as Hj.
      * subst. by rewrite list_lookup_insert_eq, ex_some by done.
      * rewrite list_lookup_insert_ne by done. apply Hw.
    + rewrite Hw. destruct (decide (j = i)) as [->|Hj]; [|by rewrite list_lookup_insert_ne].
      rewrite list_lookup_insert_eq by done. destruct (Hother x o' Hrx Hd) as (_ & _ & Hnx & _),
        (Hother y o' Hry Hd) as (_ & _ & Hny & _). rewrite Hx, !ex_some. tauto.
  - intros j o'. rewrite Hmut. case_decide as Hd.
    + subst. rewrite Hrm. case_decide as Hj.
      * subst. by rewrite list_lookup_insert_eq, ex_some by done.
      * rewrite list_lookup_insert_ne by done. apply Hr.
    + rewrite Hr. destruct (decide (j = i)) as [->|Hj]; [|by rewrite list_lookup_insert_ne].
      rewrite list_lookup_insert_eq by done. destruct (Hother x o' Hrx Hd) as (_ & _ & _ & Hnx),
        (Hother y o' Hry Hd) as (_ & _ & _ & Hny). rewrite Hx, !ex_some. tauto.
  - intros o'. rewrite Hmut. case_decide; [done|apply Hex].
  - done.
Qed.

Lemma writes_nonneg o x : 0 <= writes o x.
Proof. destruct x; simpl; try case_decide; lia. Qed.
Lemma reads_nonneg o x : 0 <= reads o x.
Proof. destruct x; simpl; try case_decide; lia. Qed.

(** A session that uses a mutex keeps its counter positive. *)
Lemma count_writer s i x o :
  inv s -> sessions s !! i = Some x -> writes o x = 1 -> 0 < writeCount (mutex o s).
Proof.
  intros Hi Hx Hw. rewrite (proj1 (inv_count _ Hi o)).
  pose proof (total_pos (writes o) _ i x (writes_nonneg o) Hx). lia.
Qed.
Lemma count_reader s i x o :
  inv s -> sessions s !! i = Some x -> reads o x = 1 -> 0 < readCount (mutex o s).
Proof.
  intros Hi Hx Hw. rewrite (proj2 (inv_count _ Hi o)).
  pose proof (total_pos (reads o) _ i x (reads_nonneg o) Hx). lia.
Qed.

(** With the invariant the second lookup of an unlock finds the same mutex. *)
Lemma getMutex_ref s i x k o :
  inv s -> sessions s !! i = Some x -> ref x = Some (k, o) -> getMutex k s = (o, s).
Proof. intros Hi Hx Hr. unfold getMutex. by rewrite (inv_ref _ Hi _ _ _ _ Hx Hr). Qed.

Lemma no_writer s i x o :
  inv s -> sessions s !! i = Some x -> ~ is_HoldW o x -> writer (mutex o s) <> Some i.
Proof.
  intros Hi Hx Hn Hw. apply (inv_writer _ Hi) in Hw as (y & Hy & Hh). congruence.
Qed.
Lemma no_reader s i x o :
  inv s -> sessions s !! i = Some x -> ~ is_HoldR o x -> i ∉ readers (mutex o s).
Proof.
  intros Hi Hx Hn Hw. apply (inv_reader _ Hi) in Hw as (y & Hy & Hh). congruence.
Qed.

(** Moves that leave [mu] alone. *)
Lemma inv_recount s i x y k o dw dr :
  inv s -> sessions s !! i = Some x -> table s !! k = Some o ->
  (ref x = None \/ ref x = Some (k, o)) -> (ref y = None \/ ref y = Some (k, o)) ->
  dw = writes o y - writes o x -> dr = reads o y - reads o x ->
  ~ is_HoldW o x -> ~ is_HoldR o x -> ~ is_HoldW o y -> ~ is_HoldR o y ->
  inv (set_session i y (set_mutex o
         (mkMutex (writer (mutex o s)) (readers (mutex o s)) (readCount (mutex o s) + dr)
            (writeCount (mutex o s) + dw)) s)).
Proof.
  intros Hi Hx Hk Hrx Hry -> -> Hwx Hrdx Hwy Hrdy.
  apply (inv_move s i x y k o); try done; simpl; try lia.
  - intros j. case_decide as Hj; [|done]. subst.
    split; [intros Hw; by destruct (no_writer _ _ _ _ Hi Hx Hwx)|done].
  - intros j. case_decide as Hj; [|done]. subst.
    split; [intros Hw; by destruct (no_reader _ _ _ _ Hi Hx Hrdx)|done].
  - apply (inv_excl _ Hi).
Qed.

Lemma inv_schedule k b s : inv s -> inv (schedule k b s).
Proof. intros [? ? ? ? ? ? ? ?]. destruct b; by split. Qed.

Lemma set_session_schedule i x k b s :
  set_session i x (schedule k b s) = schedule k b (set_session i x s).
Proof. by destruct b. Qed.

(** Moves that leave the mutex alone. *)
Lemma inv_goto s i x y k o :
  inv s -> sessions s !! i = Some x -> table s !! k = Some o ->
  (ref x = None \/ ref x = Some (k, o)) -> (ref y = None \/ ref y = Some (k, o)) ->
  writes o y = writes o x -> reads o y = reads o x ->
  (is_HoldW o y <-> is_HoldW o x) -> (is_HoldR o y <-> is_HoldR o x) ->
  inv (set_session i y s).
Proof.
  intros Hi Hx Hk Hrx Hry Hw Hr Hhw Hhr. pose proof (inv_heap _ Hi _ _ Hk) as Ho.
  assert (Hsame : set_mutex o (mutex o s) s = s).
  { destruct s as [h t ss ts c]. unfold set_mutex, mutex. simpl in *. f_equal.
    destruct (lookup_lt_is_Some_2 h o Ho) as [m Hm]. rewrite Hm. simpl. by apply list_insert_id. }
  rewrite <- Hsame. apply (inv_move s i x y k o); try done; try lia.
  - intros j. case_decide as Hj; [|done]. subst. rewrite Hhw, (inv_writer _ Hi), Hx, ex_some. done.
  - intros j. case_decide as Hj; [|done]. subst. rewrite Hhr, (inv_reader _ Hi), Hx, ex_some. done.
  - apply (inv_excl _ Hi).
Qed.

Lemma inv_holder s i x o : inv s -> sessions s !! i = Some x -> is_HoldW o x -> writer (mutex o s) = Some i.
Proof. intros Hi Hx Hh. apply (inv_writer _ Hi). by exists x. Qed.

Lemma inv_reading s i x o :
  inv s -> sessions s !! i = Some x -> is_HoldR o x -> i ∈ readers (mutex o s) /\ writer (mutex o s) = None.
Proof.
  intros Hi Hx Hh. assert (Hin : i ∈ readers (mutex o s)) by (apply (inv_reader _ Hi); by exists x).
  split; [done|]. destruct (writer (mutex o s)) eqn:Ew; [|done].
  rewrite (inv_excl _ Hi o) in Hin by congruence. set_solver.
Qed.

(** The lookups: of a session that begins, and of one that holds the lock. *)
Lemma find_inv s i (y : nat -> session K) k :
  inv s -> sessions s !! i = Some Idle ->
  (forall o, ref (y o) = Some (k, o) /\ writes o (y o) = 0 /\ reads o (y o) = 0 /\
     ~ is_HoldW o (y o) /\ ~ is_HoldR o (y o)) ->
  inv (let '(o, s') := getMutex k s in set_session i (y o) s').
Proof.
  intros Hi Hx Hy. destruct (getMutex k s) as [o s1] eqn:Eg.
  destruct (inv_getMutex _ _ _ _ Hi Eg) as (Hi1 & Hk & Hse & _). rewrite <- Hse in Hx.
  destruct (Hy o) as (Hr & Hw & Hrd & Hhw & Hhr). apply (inv_goto _ _ Idle _ k o); simpl; auto; tauto.
Qed.

(** A move that stays on its mutex and keeps its share of the counters and of [mu]. *)
Lemma stay_inv s i x y k o :
  inv s -> sessions s !! i = Some x -> ref x = Some (k, o) -> (ref y = None \/ ref y = Some (k, o)) ->
  writes o y = writes o x -> reads o y = reads o x ->
  (is_HoldW o y <-> is_HoldW o x) -> (is_HoldR o y <-> is_HoldR o x) ->
  inv (set_session i y s).
Proof. intros Hi Hx Hr. apply (inv_goto s i x y k o); auto. by eapply inv_ref. Qed.

Lemma step_inv_write s i x k o :
  inv s -> sessions s !! i = Some x ->
  (x = FoundW k o -> inv (Lock_count i k o s)) /\
  (x = WantW k o -> writer (mutex o s) = None -> readers (mutex o s) = [] -> inv (Lock_take i k o s)) /\
  (x = FreeW k o -> inv (Unlock_release i k o s)) /\
  (x = LeaveW k o -> inv (Unlock_count i k o s)).
Proof.
  intros Hi Hx. split; [|split; [|split]]; intros ->; pose proof (inv_ref _ Hi _ _ _ _ Hx eq_refl) as Hk.
  - unfold Lock_count, add_writer. rewrite <- (Z.add_0_r (readCount _)).
    apply (inv_recount _ _ (FoundW k o) _ k); try done; auto; simpl; by rewrite ?decide_True.
  - intros Hw Hr. apply (inv_move s i (WantW k o) _ k o); try done; auto; simpl; try lia.
    + intros j. case_decide; [by subst|]. rewrite Hw. naive_solver.
    + intros j. rewrite Hr. case_decide; set_solver.
  - unfold Unlock_release. pose proof (inv_holder _ _ _ o Hi Hx eq_refl) as Hwr. rewrite Hwr.
    assert (Hnr : readers (mutex o s) = []) by (apply (inv_excl _ Hi); congruence).
    apply (inv_move s i (FreeW k o) _ k o); try done; auto; simpl; try lia.
    + intros j. case_decide; [done|]. rewrite Hwr. naive_solver.
    + intros j. rewrite Hnr. case_decide; set_solver.
  - unfold Unlock_count. rewrite set_session_schedule. apply inv_schedule. unfold add_writer.
    rewrite <- (Z.add_0_r (readCount _)).
    apply (inv_recount _ _ (LeaveW k o) _ k); try done; auto; simpl; by rewrite ?decide_True.
Qed.

Lemma step_inv_read s i x k o :
  inv s -> sessions s !! i = Some x ->
  (x = FoundR k o -> inv (RLock_count i k o s)) /\
  (x = WantR k o -> writer (mutex o s) = None -> inv (RLock_take i k o s)) /\
  (x = FreeR k o -> inv (RUnlock_release i k o s)) /\
  (x = LeaveR k o -> inv (RUnlock_count i k o s)).
Proof.
  intros Hi Hx. split; [|split; [|split]]; intros ->; pose proof (inv_ref _ Hi _ _ _ _ Hx eq_refl) as Hk.
  - unfold RLock_count, add_reader. rewrite <- (Z.add_0_r (writeCount _)).
    apply (inv_recount _ _ (FoundR k o) _ k); try done; auto; simpl; by rewrite ?decide_True.
  - intros Hw. apply (inv_move s i (WantR k o) _ k o); try done; auto; simpl; try lia.
    + intros j. rewrite Hw. case_decide; naive_solver.
    + intros j. case_decide; [subst; set_solver|]. set_solver.
  - unfold RUnlock_release. destruct (inv_reading _ _ _ o Hi Hx eq_refl) as [Hin Hnw].
    assert (Hin' : remove_reader i (readers (mutex o s)) = filter (fun j => j <> i) (readers (mutex o s)))
      by (unfold remove_reader; by rewrite decide_True).
    destruct (readers (mutex o s)) as [|r rs] eqn:Er; [set_solver|]. rewrite <- Er in *. rewrite Hin'.
    apply (inv_move s i (FreeR k o) _ k o); try done; auto; simpl; try lia.
    + intros j. rewrite Hnw. case_decide; naive_solver.
    + intros j. rewrite list_elem_of_filter. case_decide; naive_solver.
  - unfold RUnlock_count, add_reader. rewrite <- (Z.add_0_r (writeCount _)).
    apply (inv_recount _ _ (LeaveR k o) _ k); try done; auto; case_decide; simpl; auto; by rewrite ?decide_True.
Qed.

Lemma step_inv s s' : step s s' -> inv s -> inv s'.
Proof.
  intros Hs Hi. destruct Hs as [i k s Hx|i k o s Hx|i k o s Hx Hw Hr|i k o s Hx|i k o s Hx|i k o s Hx
    |i k o s Hx|i k s Hx|i k o s Hx|i k o s Hx Hw|i k o s Hx|i k o s Hx|i k o s Hx|i k o s Hx|i k o s Hx];
    try (by eapply (step_inv_write _ _ _ _ _ Hi Hx)); try (by eapply (step_inv_read _ _ _ _ _ Hi Hx)).
  - apply (find_inv s i (FoundW k)); [done..|]. intros o. simpl. repeat split; auto.
  - unfold Unlock_find. rewrite (getMutex_ref _ _ _ _ _ Hi Hx eq_refl).
    apply (stay_inv _ _ (HoldW k o) _ k o); simpl; auto.
  - unfold Unlock_check. pose proof (count_writer _ _ _ o Hi Hx) as Hc. simpl in Hc.
    rewrite !decide_True in Hc by done. rewrite decide_False by (specialize (Hc eq_refl); lia).
    apply (stay_inv _ _ (CheckW k o) _ k o); simpl; auto.
  - apply (find_inv s i (FoundR k)); [done..|]. intros o. simpl. repeat split; auto.
  - unfold RUnlock_find. rewrite (getMutex_ref _ _ _ _ _ Hi Hx eq_refl).
    apply (stay_inv _ _ (HoldR k o) _ k o); simpl; auto.
  - unfold RUnlock_check. pose proof (count_reader _ _ _ o Hi Hx) as Hc. simpl in Hc.
    rewrite !decide_True in Hc by done. rewrite decide_False by (specialize (Hc eq_refl); lia).
    apply (stay_inv _ _ (CheckR k o) _ k o); simpl; auto.
  - unfold RUnlock_last. rewrite set_session_schedule. apply inv_schedule.
    apply (stay_inv _ _ (LastR k o) _ k o); simpl; auto.
Qed.

(** What a session holds is the lock it refers to. *)
Lemma held_write_ref x k : held_write x = Some k -> exists o, ref x = Some (k, o) /\ is_HoldW o x /\ writes o x = 1.
Proof. destruct x; simpl; intros [= ->]; eexists; rewrite decide_True; done. Qed.
Lemma held_read_ref x k : held_read x = Some k -> exists o, ref x = Some (k, o) /\ is_HoldR o x /\ reads o x = 1.
Proof. destruct x; simpl; intros [= ->]; eexists; rewrite decide_True; done. Qed.

(** A lock that is held is in use. *)
Lemma holds_in_use s i k : inv s -> holds i k s -> IsInUse k s = true.
Proof.
  intros Hi Hh. unfold IsInUse. destruct Hh as [(x & Hx & Hh)|(x & Hx & Hh)].
  - destruct (held_write_ref _ _ Hh) as (o & Hr & _ & Hw). rewrite (inv_ref _ Hi _ _ _ _ Hx Hr).
    apply orb_true_iff. right. by apply bool_decide_eq_true, (count_writer _ _ _ _ Hi Hx).
  - destruct (held_read_ref _ _ Hh) as (o & Hr & _ & Hw). rewrite (inv_ref _ Hi _ _ _ _ Hx Hr).
    apply orb_true_iff. left. by apply bool_decide_eq_true, (count_reader _ _ _ _ Hi Hx).
Qed.

Lemma unused_timer_inv s s' : unused_timer s s' -> inv s -> inv s'.
Proof.
  intros [k t1 t2 t _ Hno] Hi. destruct Hi as [Href Hheap Hinj Hcount Hw Hr Hex Hal]. split; simpl; try done.
  - intros i x k' o Hx Hrx. rewrite lookup_delete_ne; [by eapply Href|].
    intros <-. by destruct (Hno _ _ o Hx).
  - intros k' o Hk. apply lookup_delete_Some in Hk as [_ Hk]. by eapply Hheap.
  - intros k1 k2 o Hk1 Hk2. apply lookup_delete_Some in Hk1 as [_ Hk1].
    apply lookup_delete_Some in Hk2 as [_ Hk2]. by eapply Hinj.
Qed.

Lemma safe_reachable_inv n s : rtc safe_step (initial n) s -> inv s.
Proof.
  intros Hr. pose proof (inv_initial n) as H0. induction Hr as [|s1 s2 s3 Hs _ IH]; [done|].
  apply IH. destruct Hs as [Hs|Hs]; [by apply (step_inv s1)|by apply (unused_timer_inv s1)].
Qed.
End Invariant.

(** * The three tables *)

(** LockRepository, UnlockRepository, RLockRepository, RUnlockRepository. *)
Definition repo_step : Locks Z -> Locks Z -> Prop := code_step.
Definition IsRepositoryInUse : Z -> Locks Z -> bool := IsInUse.
(** LockAsset, UnlockAsset, RLockAsset, RUnlockAsset. *)
Definition asset_step : Locks string -> Locks string -> Prop := code_step.
Definition IsAssetInUse : string -> Locks string -> bool := IsInUse.
(** LockLFSObject, UnlockLFSObject, RLockLFSObject, RUnlockLFSObject. *)
Definition lfs_step : Locks string -> Locks string -> Prop := code_step.
Definition IsLFSObjectInUse : string -> Locks string -> bool := IsInUse.

(** * Properties *)

(** C11: as long as a timer only removes a lock that no session uses, the locks exclude:
    in every state that any number of sessions can reach, a session that holds the
    write lock of a key is the only one that holds a lock of that key; a held lock is
    reported as in use; and no unlock hits an unlocked mutex. *)
Theorem locks_exclude {K} `{Countable K} n (s : Locks K) :
  rtc safe_step (initial n) s ->
  (forall i j k, holds_write i k s -> holds j k s -> i = j) /\
  (forall i k, holds i k s -> IsInUse k s = true) /\
  crashed s = false.
Proof.
  intros Hr. pose proof (safe_reachable_inv n s Hr) as Hi. split; [|split].
  - intros i j k (x & Hx & Hhx) Hj. destruct (held_write_ref _ _ Hhx) as (o & Hrx & Hox & _).
    pose proof (inv_ref _ Hi _ _ _ _ Hx Hrx) as Hk. pose proof (inv_holder _ _ _ _ Hi Hx Hox) as Hw.
    destruct Hj as [(y & Hy & Hhy)|(y & Hy & Hhy)].
    + destruct (held_write_ref _ _ Hhy) as (o' & Hry & Hoy & _).
      pose proof (inv_ref _ Hi _ _ _ _ Hy Hry) as Hk'. assert (o' = o) as -> by congruence.
      pose proof (inv_holder _ _ _ _ Hi Hy Hoy). congruence.
    + destruct (held_read_ref _ _ Hhy) as (o' & Hry & Hoy & _).
      pose proof (inv_ref _ Hi _ _ _ _ Hy Hry) as Hk'. assert (o' = o) as -> by congruence.
      destruct (inv_reading _ _ _ _ Hi Hy Hoy). congruence.
  - intros i k Hh. by eapply holds_in_use.
  - apply (inv_alive _ Hi).
Qed.

(** A session locks, and unlocks. *)
Definition lock_all (i : nat) (k : Z) (o : nat) (s : Locks Z) : Locks Z :=
  Lock_take i k o (Lock_count i k o (Lock_find i k s)).
Definition unlock_all (i : nat) (k : Z) (o : nat) (s : Locks Z) : Locks Z :=
  Unlock_count i k o (Unlock_release i k o (Unlock_check i k o (Unlock_find i k s))).

Ltac locks i k o := eapply rtc_l; [by apply (step_lock i k)|eapply rtc_l;
  [by apply (step_lock_count i k o)|eapply rtc_l; [by apply (step_lock_take i k o)|]]].
Ltac unlocks i k o := eapply rtc_l; [by apply (step_unlock i k o)|eapply rtc_l;
  [by apply (step_unlock_check i k o)|eapply rtc_l; [by apply (step_unlock_release i k o)|
   eapply rtc_l; [by apply (step_unlock_count i k o)|]]]].

(** Three sessions of one repository, step by step: 0 locks and unlocks, 1 locks. *)
Definition run_01 : Locks Z := lock_all 1 7 0 (unlock_all 0 7 0 (lock_all 0 7 0 (initial 3))).

Lemma run_01_steps : rtc step (initial 3) run_01.
Proof. unfold run_01, lock_all, unlock_all. locks 0%nat 7 0%nat. unlocks 0%nat 7 0%nat. locks 1%nat 7 0%nat. apply rtc_refl. Qed.

Lemma locks_exclude_witness :
  IsInUse 7 run_01 = true /\ crashed run_01 = false.
Proof.
  destruct (locks_exclude 3 run_01) as (_ & H2 & H3).
  - apply (rtc_subrel step); [intros x y Hs; by left|apply run_01_steps].
  - split; [|done]. apply (H2 1%nat). left. by exists (HoldW 7 0).
Defined.

(** The timer of the code breaks the exclusion. It removes the lock of a repository
    five minutes after a release, without looking whether it was taken again: then two
    sessions hold the write lock of one repository, and a repository that is being
    used is reported as free. *)
Theorem cleanup_breaks_exclusion :
  exists s1 s2 : Locks Z,
    rtc repo_step (initial 3) s1 /\ repo_step s1 s2 /\
    holds_write 1 7 s2 /\ IsRepositoryInUse 7 s2 = false /\
    exists s3, rtc repo_step s2 s3 /\ holds_write 1 7 s3 /\ holds_write 2 7 s3.
Proof.
  exists run_01, (timer_fires 7 [] run_01). split; [|split; [|split; [|split]]].
  - apply (rtc_subrel step); [intros x y Hs; by left|apply run_01_steps].
  - right. by apply (timer_any 7 [] []).
  - by exists (HoldW 7 0).
  - reflexivity.
  - exists (lock_all 2 7 1 (timer_fires 7 [] run_01)). split; [|split].
    + apply (rtc_subrel step); [intros x y Hs; by left|]. unfold lock_all. locks 2%nat 7 1%nat. apply rtc_refl.
    + by exists (HoldW 7 0).
    + by exists (HoldW 7 1).
Qed.

(** Looking at the counters would not repair the timer: a session that has looked the
    mutex up and not counted itself yet is invisible to it. It then takes a mutex that is
    in the table no more, beside another session that takes a new one. *)
Theorem idle_check_is_not_enough :
  exists s : Locks Z, rtc idle_step (initial 3) s /\ holds_write 1 7 s /\ holds_write 2 7 s.
Proof.
  set (s1 := Lock_find 1 7 (unlock_all 0 7 0 (lock_all 0 7 0 (initial 3)))).
  set (s2 := timer_fires 7 [] s1).
  exists (lock_all 2 7 1 (Lock_take 1 7 0 (Lock_count 1 7 0 s2))). split; [|split].
  - etrans; [apply (rtc_subrel step); [intros x y Hs; by left|]|].
    { locks 0%nat 7 0%nat. unlocks 0%nat 7 0%nat.
      eapply rtc_l; [by apply (step_lock 1 7)|]. apply rtc_refl. }
    eapply rtc_l; [right; by apply (timer_idle 7 [] [] s1)|].
    apply (rtc_subrel step); [intros x y Hs; by left|]. unfold lock_all.
    eapply rtc_l; [by apply (step_lock_count 1 7 0)|]. eapply rtc_l; [by apply (step_lock_take 1 7 0)|].
    locks 2%nat 7 1%nat. apply rtc_refl.
  - by exists (HoldW 7 0).
  - by exists (HoldW 7 1).
Qed.
