(* ===== verification/CacheManager.v ===== *)
(** The cache manager (utils/cache_manager.go): removal of repositories, release assets
    and LFS objects that are too old, and of the oldest ones when a cache is too
    large.

    The order in which [sort.Slice] leaves entries of equal age is not specified; the
    model inserts in order, and no theorem depends on it. *)

From S2P Require Import Prelude GoInt GoStrings World.
From Stdlib Require Import Sorted Permutation.

#[local] Open Scope string_scope.

(** Sizes and ages in bytes and nanoseconds. *)
Record CacheManager := mkCacheManager {
  repoCacheDir : string; assetCacheDir : string; lfsCacheDir : string;
  repoMaxAge : Z; assetMaxAge : Z; lfsMaxAge : Z;
  repoMaxSize : Z; assetMaxSize : Z; lfsMaxSize : Z
}.

(** [entryInfo] *)
Record entryInfo := mkEntryInfo { e_path : string; e_modTime : Z; e_size : Z }.

(** [sort.Slice] with [less a b]. *)
Fixpoint insert_by {A} (less : A -> A -> bool) (x : A) (xs : list A) : list A :=
  match xs with
  | [] => [x]
  | y :: ys => if less x y then x :: xs else y :: insert_by less x ys
  end.
Definition sort_by {A} (less : A -> A -> bool) (xs : list A) : list A :=
  fold_right (insert_by less) [] xs.
Definition older (a b : entryInfo) : bool := bool_decide (e_modTime a < e_modTime b).

Section CacheManager.
Context (env : Env).
Implicit Types cm : CacheManager.

(** calculateDirSize *)
Definition calculateDirSize (path : string) : Prog Z :=
  w ← call env (Walk path);
  match snd w with
  | Some e => fail e
  | None => mret (fold_left (fun size x => if we_IsDir x then size else i64 (size + we_Size x)) (fst w) 0)
  end.

(** "Remove oldest entries until we're under the size limit". *)
Fixpoint evict (remove : string -> Call (res unit)) (maxSize : Z) (entries : list entryInfo)
    (totalSize : Z) : Prog Z :=
  match entries with
  | [] => mret totalSize
  | entry :: entries =>
      if decide (totalSize <= maxSize) then mret totalSize else
      r ← call env (remove (e_path entry));
      match r with
      | Er _ => evict remove maxSize entries totalSize
      | Ok _ => evict remove maxSize entries (i64 (totalSize - e_size entry))
      end
  end.

(** ** Repositories *)

(** The checks both passes make on an entry: it is a directory named after a
    repository that is not in use. *)
Definition usable_repo (entry : DirEntry) : Prog bool :=
  if negb (de_IsDir entry) then mret false else
  match ParseUint (TrimSuffix (de_Name entry) ".git") with
  | Er _ => mret false
  | Ok repoID => used ← call env (InUse (RepoKey repoID)); mret (negb used)
  end.

Definition age_repo cm (totalSize : Z) (entry : DirEntry) : Prog Z :=
  usable ← usable_repo entry;
  match usable with
  | false => mret totalSize
  | true =>
      let repoPath := PathJoin [repoCacheDir cm; de_Name entry] in
      r ← call env (EntryInfo repoPath);
      match r with
      | Er _ => mret totalSize
      | Ok info =>
          now ← call env Now;
          if decide (repoMaxAge cm < now - fi_ModTime info) then
            _ ← call env (RemoveAll repoPath); mret totalSize
          else
            r ← attempt (calculateDirSize repoPath);
            match r with
            | Er _ => mret totalSize
            | Ok size => mret (i64 (totalSize + size))
            end
      end
  end.

Definition candidate_repo cm (sortedEntries : list entryInfo) (entry : DirEntry) : Prog (list entryInfo) :=
  usable ← usable_repo entry;
  match usable with
  | false => mret sortedEntries
  | true =>
      let repoPath := PathJoin [repoCacheDir cm; de_Name entry] in
      r ← call env (EntryInfo repoPath);
      match r with
      | Er _ => mret sortedEntries
      | Ok info =>
          r ← attempt (calculateDirSize repoPath);
          match r with
          | Er _ => mret sortedEntries
          | Ok size => mret (sortedEntries ++ [mkEntryInfo repoPath (fi_ModTime info) size])%list
          end
      end
  end.

Definition clearRepositoryCache cm : Prog unit :=
  entries ← wrapM "failed to read repository cache directory" (call_res env (ReadDir (repoCacheDir cm)));
  totalSize ← foldM (age_repo cm) entries 0;
  if decide (repoMaxSize cm < totalSize) then
    entries ← wrapM "failed to read repository cache directory" (call_res env (ReadDir (repoCacheDir cm)));
    candidates ← foldM (candidate_repo cm) entries [];
    _ ← evict RemoveAll (repoMaxSize cm) (sort_by older candidates) totalSize; mret tt
  else mret tt.

(** ** Release assets *)
Definition usable_asset (entry : DirEntry) : Prog bool :=
  if de_IsDir entry then mret false else
  used ← call env (InUse (AssetKey (de_Name entry))); mret (negb used).

Definition age_asset cm (totalSize : Z) (entry : DirEntry) : Prog Z :=
  usable ← usable_asset entry;
  match usable with
  | false => mret totalSize
  | true =>
      let assetPath := PathJoin [assetCacheDir cm; de_Name entry] in
      r ← call env (EntryInfo assetPath);
      match r with
      | Er _ => mret totalSize
      | Ok info =>
          now ← call env Now;
          if decide (assetMaxAge cm < now - fi_ModTime info) then
            _ ← call env (Remove assetPath); mret totalSize
          else mret (i64 (totalSize + fi_Size info))
      end
  end.

Definition candidate_asset cm (sortedEntries : list entryInfo) (entry : DirEntry) : Prog (list entryInfo) :=
  usable ← usable_asset entry;
  match usable with
  | false => mret sortedEntries
  | true =>
      let assetPath := PathJoin [assetCacheDir cm; de_Name entry] in
      r ← call env (EntryInfo assetPath);
      match r with
      | Er _ => mret sortedEntries
      | Ok info => mret (sortedEntries ++ [mkEntryInfo assetPath (fi_ModTime info) (fi_Size info)])%list
      end
  end.

Definition clearAssetCache cm : Prog unit :=
  entries ← wrapM "failed to read asset cache directory" (call_res env (ReadDir (assetCacheDir cm)));
  totalSize ← foldM (age_asset cm) entries 0;
  if decide (assetMaxSize cm < totalSize) then
    entries ← wrapM "failed to read asset cache directory" (call_res env (ReadDir (assetCacheDir cm)));
    candidates ← foldM (candidate_asset cm) entries [];
    _ ← evict Remove (assetMaxSize cm) (sort_by older candidates) totalSize; mret tt
  else mret tt.

(** ** LFS objects: the second pass sorts the entries it has, and looks at each entry
    again when its turn comes. *)
Definition usable_lfs (entry : DirEntry) : Prog bool :=
  if de_IsDir entry then mret false else
  used ← call env (InUse (LfsKey (de_Name entry))); mret (negb used).

Definition lfs_entry_path cm (entry : DirEntry) : string := PathJoin [lfsCacheDir cm; de_Name entry].

Definition age_lfs cm (totalSize : Z) (entry : DirEntry) : Prog Z :=
  usable ← usable_lfs entry;
  match usable with
  | false => mret totalSize
  | true =>
      r ← call env (EntryInfo (lfs_entry_path cm entry));
      match r with
      | Er _ => mret totalSize
      | Ok info =>
          now ← call env Now;
          if decide (lfsMaxAge cm < now - fi_ModTime info) then
            _ ← call env (Remove (lfs_entry_path cm entry)); mret totalSize
          else mret (i64 (totalSize + fi_Size info))
      end
  end.

(** The comparison is false when either [Info] fails. *)
Definition older_lfs (a b : DirEntry * res FileInfo) : bool :=
  match snd a, snd b with
  | Ok i, Ok j => bool_decide (fi_ModTime i < fi_ModTime j)
  | _, _ => false
  end.

Fixpoint evict_lfs cm (entries : list DirEntry) (totalSize : Z) : Prog Z :=
  match entries with
  | [] => mret totalSize
  | entry :: entries =>
      if decide (totalSize <= lfsMaxSize cm) then mret totalSize else
      usable ← usable_lfs entry;
      match usable with
      | false => evict_lfs cm entries totalSize
      | true =>
          r ← call env (EntryInfo (lfs_entry_path cm entry));
          match r with
          | Er _ => evict_lfs cm entries totalSize
          | Ok info =>
              r ← call env (Remove (lfs_entry_path cm entry));
              match r with
              | Er _ => evict_lfs cm entries totalSize
              | Ok _ => evict_lfs cm entries (i64 (totalSize - fi_Size info))
              end
          end
      end
  end.

Definition clearLfsCache cm : Prog unit :=
  entries ← wrapM "failed to read lfs cache directory" (call_res env (ReadDir (lfsCacheDir cm)));
  totalSize ← foldM (age_lfs cm) entries 0;
  if decide (lfsMaxSize cm < totalSize) then
    infos ← foldM (fun acc entry =>
              r ← call env (EntryInfo (lfs_entry_path cm entry)); mret (acc ++ [(entry, r)])%list)
            entries [];
    _ ← evict_lfs cm (map fst (sort_by older_lfs infos)) totalSize; mret tt
  else mret tt.

Definition clearCache cm : Prog unit :=
  _ ← wrapM "failed to clear repository cache" (clearRepositoryCache cm);
  _ ← wrapM "failed to clear asset cache" (clearAssetCache cm);
  wrapM "failed to clear lfs cache" (clearLfsCache cm).

(** ** The routine

    What the select statement receives: a tick, or the end of the stop channel. *)
Inductive received := Tick | Stopped.

Fixpoint routine_loop cm (events : list received) : Prog unit :=
  match events with
  | [] | Stopped :: _ => mret tt
  | Tick :: events => _ ← attempt (clearCache cm); routine_loop cm events
  end.
Definition clearCacheRoutine cm (clearInterval : Z) (events : list received) : Prog unit :=
  if decide (clearInterval <= 0) then gopanic "non-positive interval for NewTicker"
  else routine_loop cm events.
End CacheManager.

(** * Configuration

    Durations in nanoseconds; [viper] answers zero for a key that is not set. *)
Record Viper := mkViper {
  GetString : string -> string; GetDuration : string -> option Z; GetInt64 : string -> option Z
}.
Definition duration (v : Viper) (key : string) : Z := default 0 (GetDuration v key).
Definition int64 (v : Viper) (key : string) : Z := default 0 (GetInt64 v key).

Definition NewCacheManager (v : Viper) : CacheManager := mkCacheManager
  (GetString v "GIT_REPOS_DIR") (GetString v "ATTACHMENT_DIR") (GetString v "LFS_OBJECTS_DIR")
  (duration v "CACHE_REPO_MAX_AGE") (duration v "CACHE_ASSET_MAX_AGE") (duration v "CACHE_LFS_MAX_AGE")
  (int64 v "CACHE_REPO_MAX_SIZE") (int64 v "CACHE_ASSET_MAX_SIZE") (int64 v "CACHE_LFS_MAX_SIZE").
Definition clear_interval (v : Viper) : Z := duration v "CACHE_CLEAR_INTERVAL".

(** config/cache.go *)
Record CacheConfig := mkCacheConfig {
  RepoMaxAge : Z; RepoMaxSize : Z; AssetMaxAge : Z; AssetMaxSize : Z; ClearInterval : Z
}.
Definition Hour : Z := 3600 * 1000000000.
Definition DefaultCacheConfig : CacheConfig := mkCacheConfig
  (24 * Hour) (10 * 1024 * 1024 * 1024) (7 * 24 * Hour) (5 * 1024 * 1024 * 1024) Hour.

(** A key that is set replaces the default. *)
Definition LoadCacheConfig (v : Viper) : CacheConfig :=
  let config := DefaultCacheConfig in mkCacheConfig
    (default (RepoMaxAge config) (GetDuration v "CACHE_REPO_MAX_AGE"))
    (default (RepoMaxSize config) (GetInt64 v "CACHE_REPO_MAX_SIZE"))
    (default (AssetMaxAge config) (GetDuration v "CACHE_ASSET_MAX_AGE"))
    (default (AssetMaxSize config) (GetInt64 v "CACHE_ASSET_MAX_SIZE"))
    (default (ClearInterval config) (GetDuration v "CACHE_CLEAR_INTERVAL")).

(** * Start and Stop *)
Record Routine := mkRoutine { isRunning : bool; stopChan_closed : bool }.
Definition new_routine : Routine := mkRoutine false false.

Definition Start_routine : GoM Routine unit :=
  s ← get;
  match isRunning s with
  | true => fail (ErrNew "cache manager is already running")
  | false => put (mkRoutine true (stopChan_closed s))
  end.

(** Closing a closed channel is a panic. *)
Definition Stop_routine : GoM Routine unit :=
  s ← get;
  match isRunning s with
  | false => mret tt
  | true => match stopChan_closed s with
            | true => gopanic "close of closed channel"
            | false => put (mkRoutine false true)
            end
  end.

#[local] Close Scope string_scope.

(** * What is removed was not in use *)
Definition removal_ok (cm : CacheManager) (h : Trace) (o : Obs) : Prop :=
  match o with
  | @Did _ c _ =>
      match c with
      | RemoveAll p =>
          exists name id, p = PathJoin [repoCacheDir cm; name] /\
            ParseUint (TrimSuffix name ".git") = Ok id /\ Did (InUse (RepoKey id)) false ∈ h
      | Remove p =>
          exists name, (p = PathJoin [assetCacheDir cm; name] /\ Did (InUse (AssetKey name)) false ∈ h) \/
                       (p = PathJoin [lfsCacheDir cm; name] /\ Did (InUse (LfsKey name)) false ∈ h)
      | _ => True
      end
  end.

Definition no_removal {A} (c : Call A) : bool :=
  match c with Remove _ | RemoveAll _ => false | _ => true end.

Section Removals.
Context (env : Env) (cm : CacheManager).
Let ok := Guarded (removal_ok cm).

(** From a trace where every removal is justified and [P] holds, [m] justifies its
    own removals, and when it returns [a], [Q a] holds. *)
Definition clears {A} (P : Trace -> Prop) (m : Prog A) (Q : A -> Trace -> Prop) : Prop :=
  forall h, ok h -> P h -> ok (snd (m h)) /\ (forall a, fst (m h) = Val a -> Q a (snd (m h))).

Lemma clears_ret {A} (a : A) P (Q : A -> Trace -> Prop) : (forall h, P h -> Q a h) -> clears P (mret a) Q.
Proof. intros HQ h Hh HP. split; [done|]. intros ? [= <-]. by apply HQ. Qed.

Lemma clears_fail {A} e P (Q : A -> Trace -> Prop) : clears P (fail e) Q.
Proof. by intros h Hh HP. Qed.

Lemma clears_call {A} (c : Call A) (P : Trace -> Prop) (Q : A -> Trace -> Prop) :
  (forall h a, P h -> removal_ok cm h (Did c a)) ->
  (forall h a, P h -> Q a (h ++ [Did c a])) -> clears P (call env c) Q.
Proof.
  intros Hok HQ h Hh HP. split; [apply Guarded_snoc; by split; [|apply Hok]|].
  intros ? [= <-]. by apply HQ.
Qed.

Lemma clears_bind {A B} (m : Prog A) (f : A -> Prog B) P (R : A -> Trace -> Prop) Q :
  clears P m R -> (forall a, clears (R a) (f a) Q) -> clears P (m ≫= f) Q.
Proof.
  intros Hm Hf h Hh HP. destruct (Hm h Hh HP) as [H1 H2]. rewrite run_bind.
  destruct (m h) as [[a|e|p] h1]; simpl in *; [|by split|by split].
  apply (Hf a); auto.
Qed.

Lemma clears_conseq {A} (m : Prog A) (P P' : Trace -> Prop) (Q Q' : A -> Trace -> Prop) :
  clears P m Q -> (forall h, P' h -> P h) -> (forall a h, Q a h -> Q' a h) -> clears P' m Q'.
Proof. intros Hm HP HQ h Hh HP'. destruct (Hm h Hh (HP h HP')) as [H1 H2]. split; auto. Qed.

Lemma clears_wrapM {A} msg (m : Prog A) P (Q : A -> Trace -> Prop) : clears P m Q -> clears P (wrapM msg m) Q.
Proof.
  intros Hm h Hh HP. destruct (Hm h Hh HP) as [H1 H2]. unfold wrapM.
  destruct (m h) as [[a|e|p] h1]; simpl in *; by split.
Qed.

Lemma clears_foldM {A B} (body : B -> A -> Prog B) xs (R : B -> Trace -> Prop) acc :
  (forall b x, x ∈ xs -> clears (R b) (body b x) R) -> clears (R acc) (foldM body xs acc) R.
Proof.
  revert acc. induction xs as [|x xs IH]; intros acc Hb; [by apply clears_ret|].
  cbn [foldM]. eapply clears_bind; [apply Hb; set_solver|].
  intros b. apply IH. intros b' y Hy. apply Hb. set_solver.
Qed.

(** A call that removes nothing and a fact that lasts. *)
Lemma clears_quiet {A} (c : Call A) (F : Trace -> Prop) :
  lasting F -> no_removal c = true -> clears F (call env c) (fun _ => F).
Proof.
  intros HF Hc. apply clears_call; [intros h a _; by destruct c|]. intros h a HP. by apply HF.
Qed.

Lemma clears_quiet_res {A} (c : Call (res A)) (F : Trace -> Prop) :
  lasting F -> no_removal c = true -> clears F (call_res env c) (fun _ => F).
Proof.
  intros HF Hc. apply (clears_bind _ _ _ (fun _ => F)); [by apply clears_quiet|].
  intros r h Hh HP. by split.
Qed.

Lemma calculateDirSize_clears path (F : Trace -> Prop) :
  lasting F -> clears F (attempt (calculateDirSize env path)) (fun _ => F).
Proof.
  intros HF h Hh HP. unfold attempt, calculateDirSize. rewrite run_bind. cbn.
  destruct (snd (env _ h (Walk path))); cbn;
    (split; [by apply Guarded_snoc|]; intros ? [= <-]; by apply HF).
Qed.

(** ** The passes over the repositories *)
Definition usable_at (h : Trace) (name : string) : Prop :=
  exists id, ParseUint (TrimSuffix name ".git") = Ok id /\ Did (InUse (RepoKey id)) false ∈ h.
Definition cand_repo (h : Trace) (e : entryInfo) : Prop :=
  exists name, e_path e = PathJoin [repoCacheDir cm; name] /\ usable_at h name.

Lemma lasting_usable name : lasting (fun h => usable_at h name).
Proof. intros h t (id & H1 & H2). exists id. split; [done|]. set_solver. Qed.

Lemma lasting_cands es : lasting (fun h => Forall (cand_repo h) es).
Proof.
  intros h t H. eapply Forall_impl; [|exact H]. intros e (name & E & Hu). exists name.
  split; [done|]. by apply lasting_usable.
Qed.

Lemma usable_repo_clears entry F :
  lasting F ->
  clears F (usable_repo env entry) (fun b h => F h /\ (b = true -> usable_at h (de_Name entry))).
Proof.
  intros HF. unfold usable_repo. destruct (negb _); [by apply clears_ret|].
  destruct (ParseUint _) as [id|] eqn:Ep; [|by apply clears_ret].
  apply (clears_bind _ _ _ (fun used h => F h /\ (used = false -> usable_at h (de_Name entry)))).
  - apply clears_call; [done|]. intros h a HP. split; [by apply HF|]. intros ->.
    exists id. split; [done|]. set_solver.
  - intros used. apply clears_ret. intros h [HP Hu]. split; [done|]. intros Hb. apply Hu. by destruct used.
Qed.

Lemma age_repo_clears total entry : clears (fun _ => True) (age_repo env cm total entry) (fun _ _ => True).
Proof.
  unfold age_repo. eapply clears_bind; [by apply (usable_repo_clears entry (fun _ => True))|].
  intros [|]; [|by apply clears_ret].
  set (F := fun h => usable_at h (de_Name entry)).
  apply (clears_conseq _ F _ (fun _ _ => True)); [|intros h [_ H]; by apply H|done].
  pose proof (lasting_usable (de_Name entry)) as HF.
  eapply clears_bind; [by apply (clears_quiet _ F)|]. intros [info|e]; [|by apply clears_ret].
  eapply clears_bind; [by apply (clears_quiet _ F)|]. intros now. case_decide.
  - eapply clears_bind; [|by intros r; apply clears_ret].
    apply (clears_call _ _ (fun _ _ => True)); [|done]. intros h a (id & H1 & H2).
    exists (de_Name entry), id. by split.
  - eapply clears_bind; [by apply (calculateDirSize_clears _ F)|]. by intros [size|e]; apply clears_ret.
Qed.

Lemma candidate_repo_clears es entry :
  clears (fun h => Forall (cand_repo h) es) (candidate_repo env cm es entry)
    (fun es' h => Forall (cand_repo h) es').
Proof.
  unfold candidate_repo. eapply clears_bind; [apply (usable_repo_clears entry _ (lasting_cands es))|].
  intros [|]; [|apply clears_ret; by intros h [H _]].
  set (F := fun h => Forall (cand_repo h) es /\ usable_at h (de_Name entry)).
  apply (clears_conseq _ F _ (fun es' h => Forall (cand_repo h) es'));
    [|intros h [H1 H2]; split; [done|by apply H2]|done].
  assert (HF : lasting F).
  { intros h t [H1 H2]. split; [by apply lasting_cands|by apply lasting_usable]. }
  eapply clears_bind; [by apply (clears_quiet _ F)|].
  intros [info|e]; [|apply clears_ret; by intros h [H _]].
  eapply clears_bind; [by apply (calculateDirSize_clears _ F)|].
  intros [size|e]; apply clears_ret; [|by intros h [H _]].
  intros h [H1 H2]. apply Forall_app. split; [done|]. constructor; [|done].
  by exists (de_Name entry).
Qed.

(** Eviction removes what the candidates justify. *)
Lemma evict_clears remove max (C : Trace -> entryInfo -> Prop) es total :
  (forall e, lasting (fun h => C h e)) ->
  (forall h e a, C h e -> removal_ok cm h (Did (remove (e_path e)) a)) ->
  clears (fun h => Forall (C h) es) (evict env remove max es total) (fun _ _ => True).
Proof.
  intros HC Hrm. revert total. induction es as [|e es IH]; intros total; simpl; [by apply clears_ret|].
  case_decide; [by apply clears_ret|].
  apply (clears_bind _ _ _ (fun _ h => Forall (C h) es)); [|intros [[]|er]; apply IH].
  apply clears_call.
  - intros h a Hall. inversion Hall; subst. by apply Hrm.
  - intros h a Hall. inversion Hall as [|? ? _ Hes]; subst. eapply Forall_impl; [|exact Hes].
    intros x. by apply HC.
Qed.

Lemma sort_by_perm {A} (less : A -> A -> bool) xs : Permutation (sort_by less xs) xs.
Proof.
  induction xs as [|x xs IH]; [done|]. simpl. rewrite <- IH at 2.
  generalize (sort_by less xs). intros ys. induction ys as [|y ys IHy]; simpl; [done|].
  destruct (less x y); [done|]. rewrite IHy. apply perm_swap.
Qed.

Lemma clearRepositoryCache_clears :
  clears (fun _ => True) (clearRepositoryCache env cm) (fun _ _ => True).
Proof.
  unfold clearRepositoryCache.
  eapply clears_bind; [by apply clears_wrapM, (clears_quiet_res _ (fun _ => True))|]. intros entries.
  eapply clears_bind; [apply (clears_foldM _ _ (fun _ _ => True)); intros; apply age_repo_clears|].
  intros total. case_decide; [|by apply clears_ret].
  eapply clears_bind; [by apply clears_wrapM, (clears_quiet_res _ (fun _ => True))|]. intros entries'.
  apply (clears_bind _ _ _ (fun es h => Forall (cand_repo h) es)).
  { apply (clears_conseq _ (fun h => Forall (cand_repo h) []) _ (fun es h => Forall (cand_repo h) es));
      [|intros h _; apply List.Forall_nil|done].
    apply (clears_foldM _ _ (fun es h => Forall (cand_repo h) es)). intros b x _. apply candidate_repo_clears. }
  intros es. apply (clears_bind _ _ _ (fun _ _ => True)); [|by intros t; apply clears_ret].
  apply (clears_conseq _ (fun h => Forall (cand_repo h) (sort_by older es)) _ (fun _ _ => True)); [| |done].
  - apply evict_clears.
    + intros e h t (name & E & Hu). exists name. split; [done|]. by apply lasting_usable.
    + intros h e a (name & E & id & H1 & H2). exists name, id. by rewrite E.
  - intros h Hes. by rewrite sort_by_perm.
Qed.

(** ** The passes over the assets and the LFS objects: files whose key is their
    name. *)
Definition unused (k : LockKey) (h : Trace) : Prop := Did (InUse k) false ∈ h.

Lemma lasting_unused k : lasting (unused k).
Proof. intros h t H. unfold unused in *. set_solver. Qed.

Lemma usable_file_clears (entry : DirEntry) (k : LockKey) F :
  lasting F ->
  clears F (used ← call env (InUse k); mret (negb used)) (fun b h => F h /\ (b = true -> unused k h)).
Proof.
  intros HF. apply (clears_bind _ _ _ (fun used h => F h /\ (used = false -> unused k h))).
  - apply clears_call; [done|]. intros h a HP. split; [by apply HF|]. intros ->. unfold unused. set_solver.
  - intros used. apply clears_ret. intros h [HP Hu]. split; [done|]. intros Hb. apply Hu. by destruct used.
Qed.

Lemma usable_asset_clears entry F :
  lasting F ->
  clears F (usable_asset env entry) (fun b h => F h /\ (b = true -> unused (AssetKey (de_Name entry)) h)).
Proof.
  intros HF. unfold usable_asset. destruct (de_IsDir entry); [by apply clears_ret|].
  by apply usable_file_clears.
Qed.

Lemma usable_lfs_clears entry F :
  lasting F ->
  clears F (usable_lfs env entry) (fun b h => F h /\ (b = true -> unused (LfsKey (de_Name entry)) h)).
Proof.
  intros HF. unfold usable_lfs. destruct (de_IsDir entry); [by apply clears_ret|].
  by apply usable_file_clears.
Qed.

Lemma age_asset_clears total entry : clears (fun _ => True) (age_asset env cm total entry) (fun _ _ => True).
Proof.
  unfold age_asset. eapply clears_bind; [by apply (usable_asset_clears entry (fun _ => True))|].
  intros [|]; [|by apply clears_ret].
  set (F := unused (AssetKey (de_Name entry))). pose proof (lasting_unused (AssetKey (de_Name entry))) as HF.
  apply (clears_conseq _ F _ (fun _ _ => True)); [|intros h [_ H]; by apply H|done].
  eapply clears_bind; [by apply (clears_quiet _ F)|]. intros [info|e]; [|by apply clears_ret].
  eapply clears_bind; [by apply (clears_quiet _ F)|]. intros now. case_decide; [|by apply clears_ret].
  eapply clears_bind; [|by intros r; apply clears_ret].
  apply (clears_call _ _ (fun _ _ => True)); [|done]. intros h a Hu. exists (de_Name entry). by left.
Qed.

Definition cand_asset (h : Trace) (e : entryInfo) : Prop :=
  exists name, e_path e = PathJoin [assetCacheDir cm; name] /\ unused (AssetKey name) h.

Lemma lasting_cand_assets es : lasting (fun h => Forall (cand_asset h) es).
Proof.
  intros h t H. eapply Forall_impl; [|exact H]. intros e (name & E & Hu). exists name.
  split; [done|]. by apply lasting_unused.
Qed.

Lemma candidate_asset_clears es entry :
  clears (fun h => Forall (cand_asset h) es) (candidate_asset env cm es entry)
    (fun es' h => Forall (cand_asset h) es').
Proof.
  unfold candidate_asset. eapply clears_bind; [apply (usable_asset_clears entry _ (lasting_cand_assets es))|].
  intros [|]; [|apply clears_ret; by intros h [H _]].
  set (F := fun h => Forall (cand_asset h) es /\ unused (AssetKey (de_Name entry)) h).
  apply (clears_conseq _ F _ (fun es' h => Forall (cand_asset h) es'));
    [|intros h [H1 H2]; split; [done|by apply H2]|done].
  assert (HF : lasting F).
  { intros h t [H1 H2]. split; [by apply lasting_cand_assets|by apply lasting_unused]. }
  eapply clears_bind; [by apply (clears_quiet _ F)|].
  intros [info|e]; apply clears_ret; [|by intros h [H _]].
  intros h [H1 H2]. apply Forall_app. split; [done|]. constructor; [|done]. by exists (de_Name entry).
Qed.

Lemma clearAssetCache_clears : clears (fun _ => True) (clearAssetCache env cm) (fun _ _ => True).
Proof.
  unfold clearAssetCache.
  eapply clears_bind; [by apply clears_wrapM, (clears_quiet_res _ (fun _ => True))|]. intros entries.
  eapply clears_bind; [apply (clears_foldM _ _ (fun _ _ => True)); intros; apply age_asset_clears|].
  intros total. case_decide; [|by apply clears_ret].
  eapply clears_bind; [by apply clears_wrapM, (clears_quiet_res _ (fun _ => True))|]. intros entries'.
  apply (clears_bind _ _ _ (fun es h => Forall (cand_asset h) es)).
  { apply (clears_conseq _ (fun h => Forall (cand_asset h) []) _ (fun es h => Forall (cand_asset h) es));
      [|intros h _; apply List.Forall_nil|done].
    apply (clears_foldM _ _ (fun es h => Forall (cand_asset h) es)). intros b x _. apply candidate_asset_clears. }
  intros es. apply (clears_bind _ _ _ (fun _ _ => True)); [|by intros t; apply clears_ret].
  apply (clears_conseq _ (fun h => Forall (cand_asset h) (sort_by older es)) _ (fun _ _ => True)); [| |done].
  - apply evict_clears.
    + intros e h t (name & E & Hu). exists name. split; [done|]. by apply lasting_unused.
    + intros h e a (name & E & Hu). exists name. left. by rewrite E.
  - intros h Hes. by rewrite sort_by_perm.
Qed.

Lemma age_lfs_clears total entry : clears (fun _ => True) (age_lfs env cm total entry) (fun _ _ => True).
Proof.
  unfold age_lfs. eapply clears_bind; [by apply (usable_lfs_clears entry (fun _ => True))|].
  intros [|]; [|by apply clears_ret].
  set (F := unused (LfsKey (de_Name entry))). pose proof (lasting_unused (LfsKey (de_Name entry))) as HF.
  apply (clears_conseq _ F _ (fun _ _ => True)); [|intros h [_ H]; by apply H|done].
  eapply clears_bind; [by apply (clears_quiet _ F)|]. intros [info|e]; [|by apply clears_ret].
  eapply clears_bind; [by apply (clears_quiet _ F)|]. intros now. case_decide; [|by apply clears_ret].
  eapply clears_bind; [|by intros r; apply clears_ret].
  apply (clears_call _ _ (fun _ _ => True)); [|done]. intros h a Hu. exists (de_Name entry). by right.
Qed.

Lemma evict_lfs_clears entries total :
  clears (fun _ => True) (evict_lfs env cm entries total) (fun _ _ => True).
Proof.
  revert total. induction entries as [|entry entries IH]; intros total; simpl; [by apply clears_ret|].
  case_decide; [by apply clears_ret|].
  eapply clears_bind; [by apply (usable_lfs_clears entry (fun _ => True))|].
  intros [|]; [|eapply clears_conseq; [apply IH|done|done]].
  set (F := unused (LfsKey (de_Name entry))). pose proof (lasting_unused (LfsKey (de_Name entry))) as HF.
  apply (clears_conseq _ F _ (fun _ _ => True)); [|intros h [_ Hu]; by apply Hu|done].
  eapply clears_bind; [by apply (clears_quiet _ F)|].
  intros [info|e]; [|eapply clears_conseq; [apply IH|done|done]].
  apply (clears_bind _ _ _ (fun _ _ => True)); [|by intros [[]|e]; apply IH].
  apply (clears_call _ _ (fun _ _ => True)); [|done]. intros h a Hu. exists (de_Name entry). by right.
Qed.

Lemma clearLfsCache_clears : clears (fun _ => True) (clearLfsCache env cm) (fun _ _ => True).
Proof.
  unfold clearLfsCache.
  eapply clears_bind; [by apply clears_wrapM, (clears_quiet_res _ (fun _ => True))|]. intros entries.
  eapply clears_bind; [apply (clears_foldM _ _ (fun _ _ => True)); intros; apply age_lfs_clears|].
  intros total. case_decide; [|by apply clears_ret].
  apply (clears_bind _ _ _ (fun _ _ => True)).
  - apply (clears_foldM _ _ (fun _ _ => True)). intros b x _.
    eapply clears_bind; [by apply (clears_quiet _ (fun _ => True))|]. intros r. by apply clears_ret.
  - intros infos. apply (clears_bind _ _ _ (fun _ _ => True)); [apply evict_lfs_clears|].
    intros t. by apply clears_ret.
Qed.
End Removals.

(** * Eviction *)

(** The total after the removals that succeeded. *)
Definition size_after (total : Z) (tried : list (entryInfo * res unit)) : Z :=
  fold_left (fun t p => match p.2 with Ok _ => i64 (t - e_size p.1) | Er _ => t end) tried total.

Lemma evict_run env remove max es total h :
  exists tried answers kept,
    es = tried ++ kept /\ length answers = length tried /\
    evict env remove max es total h =
      (Val (size_after total (zip tried answers)),
       h ++ zip_with (fun e a => Did (remove (e_path e)) a) tried answers) /\
    (size_after total (zip tried answers) <= max \/ kept = []) /\
    (forall n, (n < length tried)%nat -> max < size_after total (take n (zip tried answers))).
Proof.
  revert total h. induction es as [|e es IH]; intros total h.
  { exists [], [], []. repeat split; try done; [|by right|simpl; lia]. simpl. by rewrite app_nil_r. }
  cbn [evict]. case_decide as Hle.
  { exists [], [], (e :: es). repeat split; try done; [|by left|simpl; lia]. simpl. by rewrite app_nil_r. }
  set (a := env (res unit) h (remove (e_path e))).
  rewrite (run_bind_val _ _ h a (h ++ [Did (remove (e_path e)) a])) by done.
  destruct (IH (match a with Ok _ => i64 (total - e_size e) | Er _ => total end)
              (h ++ [Did (remove (e_path e)) a])) as (tried & answers & kept & -> & Hl & Hrun & Hend & Hmin).
  exists (e :: tried), (a :: answers), kept. split; [done|]. split; [simpl; by rewrite Hl|].
  split; [|split; [done|]].
  - destruct a; rewrite Hrun; simpl; by rewrite <- app_assoc.
  - intros [|n] Hn; [simpl; lia|]. apply Hmin. simpl in Hn. lia.
Qed.

Definition aged (a b : entryInfo) : Prop := e_modTime a <= e_modTime b.

Lemma insert_by_perm {A} (less : A -> A -> bool) x xs : Permutation (insert_by less x xs) (x :: xs).
Proof.
  induction xs as [|y ys IH]; simpl; [done|]. destruct (less x y); [done|]. rewrite IH. apply perm_swap.
Qed.

Lemma sort_by_sorted es : StronglySorted aged (sort_by older es).
Proof.
  induction es as [|e es IH]; simpl; [constructor|]. revert IH. generalize (sort_by older es). intros ys.
  induction 1 as [|y ys Hs IH Hy]; simpl; [repeat constructor|].
  unfold older at 1. case_bool_decide as Hlt.
  - constructor; [by constructor|]. constructor; [unfold aged; lia|].
    eapply Forall_impl; [|exact Hy]. unfold aged. intros z Hz. lia.
  - constructor; [done|]. rewrite insert_by_perm. constructor; [unfold aged; lia|done].
Qed.

Lemma sorted_app xs ys a b :
  StronglySorted aged (xs ++ ys) -> a ∈ xs -> b ∈ ys -> e_modTime a <= e_modTime b.
Proof.
  induction xs as [|x xs IH]; intros Hs Ha Hb; [set_solver|]. inversion Hs as [|? ? Hs' Hall]; subst.
  apply elem_of_cons in Ha as [->|Ha]; [|by apply IH].
  rewrite List.Forall_forall in Hall. apply Hall. apply list_elem_of_In. set_solver.
Qed.

Lemma clearCacheRoutine_clears env cm interval events :
  clears cm (fun _ => True) (clearCacheRoutine env cm interval events) (fun _ _ => True).
Proof.
  unfold clearCacheRoutine. case_decide; [by intros h Hh _|].
  induction events as [|[] events IH]; simpl; [by apply clears_ret| |by apply clears_ret].
  apply (clears_bind cm _ _ _ (fun _ _ => True)); [|done]. intros h Hh HP. unfold attempt.
  assert (Hc : clears cm (fun _ => True) (clearCache env cm) (fun _ _ => True)).
  { unfold clearCache.
    apply (clears_bind cm _ _ _ (fun _ _ => True)); [apply clears_wrapM, clearRepositoryCache_clears|intros []].
    apply (clears_bind cm _ _ _ (fun _ _ => True)); [apply clears_wrapM, clearAssetCache_clears|intros []].
    apply clears_wrapM, clearLfsCache_clears. }
  destruct (Hc h Hh I) as [H1 _]. by destruct (clearCache env cm h) as [[a|e|p] h1].
Qed.

Lemma routine_loop_safe env cm events : safe (routine_loop env cm events).
Proof.
  assert (He : forall remove max es total, safe (evict env remove max es total)).
  { intros remove max es. induction es as [|e es IH]; intros total; simpl; safe_step; apply IH. }
  assert (Hl : forall es total, safe (evict_lfs env cm es total)).
  { intros es. induction es as [|e es IH]; intros total; simpl; unfold usable_lfs; safe_step; apply IH. }
  induction events as [|[] events IH]; simpl; try apply safe_ret.
  unfold clearCache, clearRepositoryCache, clearAssetCache, clearLfsCache, age_repo, candidate_repo, usable_repo,
    age_asset, candidate_asset, usable_asset, age_lfs, usable_lfs, calculateDirSize.
  safe_step.
Qed.

(** * Properties *)

(** C29: the cache manager only removes what it has found unused. Whatever the
    environment answers, each repository it removes is a directory of the repository
    cache named after an id, and each file it removes is a file of the asset or the LFS
    cache, whose lock was reported free earlier: by the same pass over the cache, and for
    the routine that clears the caches at every tick, since it was started. *)
Theorem clearCache_removes_unused env cm interval events :
  Guarded (removal_ok cm) (snd (clearCacheRoutine env cm interval events [])) /\
  Guarded (removal_ok cm) (snd (clearRepositoryCache env cm [])) /\
  Guarded (removal_ok cm) (snd (clearAssetCache env cm [])) /\
  Guarded (removal_ok cm) (snd (clearLfsCache env cm [])).
Proof.
  split; [|split; [|split]];
    [apply (clearCacheRoutine_clears env cm interval events [])|apply (clearRepositoryCache_clears env cm [])|apply (clearAssetCache_clears env cm [])
    |apply (clearLfsCache_clears env cm [])]; try done; apply Guarded_nil.
Qed.

(** C33: eviction removes the oldest entries first and stops as soon as the cache fits.
    Of the candidates, those it tries to remove are no younger than those it keeps; it
    tries the next one only while the total is above the limit; and it ends with the
    total within the limit or with nothing left to try. (This is the loop of the
    repositories and of the release assets, run on the sorted candidates as both do; the
    loop of the LFS objects, [evict_lfs], asks for each object again whether it is in use
    and is not covered here.) *)
Theorem evict_oldest_first env remove max candidates total h :
  exists tried answers kept,
    Permutation (tried ++ kept) candidates /\ length answers = length tried /\
    (forall a b, a ∈ tried -> b ∈ kept -> e_modTime a <= e_modTime b) /\
    evict env remove max (sort_by older candidates) total h =
      (Val (size_after total (zip tried answers)),
       h ++ zip_with (fun e a => Did (remove (e_path e)) a) tried answers) /\
    (size_after total (zip tried answers) <= max \/ kept = []) /\
    (forall n, (n < length tried)%nat -> max < size_after total (take n (zip tried answers))).
Proof.
  destruct (evict_run env remove max (sort_by older candidates) total h)
    as (tried & answers & kept & He & Hl & Hrun & Hend & Hmin).
  exists tried, answers, kept. split; [rewrite <- He; apply sort_by_perm|]. split; [done|].
  split; [|done]. intros a b Ha Hb. apply (sorted_app tried kept); [|done|done].
  rewrite <- He. apply sort_by_sorted.
Qed.

(** The cache manager can be stopped once. Starting it again after a stop is
    accepted, but the stop channel stays closed: the next stop closes it a second time
    and panics. *)
Theorem restart_then_stop_panics :
  fst (Start_routine new_routine) = Val tt /\
  let s := snd (Stop_routine (snd (Start_routine new_routine))) in
  isRunning s = false /\ fst (Start_routine s) = Val tt /\
  fst (Stop_routine (snd (Start_routine s))) = Panic "close of closed channel".
Proof. repeat split. Qed.

(** Clearing does not stop by itself: when an interval is configured, the routine goes
    on after every error. Without one (a key that is not set is zero) it panics at its
    start, although config/cache.go, which nothing uses, has a default. *)
Theorem clearCacheRoutine_survives env v events h :
  (0 < clear_interval v -> panics (fst (clearCacheRoutine env (NewCacheManager v) (clear_interval v) events h)) = false) /\
  (GetDuration v "CACHE_CLEAR_INTERVAL" = None ->
   panics (fst (clearCacheRoutine env (NewCacheManager v) (clear_interval v) events h)) = true /\
   ClearInterval (LoadCacheConfig v) = Hour).
Proof.
  split.
  - intros Hi. unfold clearCacheRoutine. rewrite decide_False by lia.
    apply routine_loop_safe.
  - intros Hn. unfold clearCacheRoutine, clear_interval, duration, LoadCacheConfig. by rewrite Hn.
Qed.
