(* ===== verification/SweepRace.v ===== *)
(** The cache manager beside the requests: the sweeps of utils/cache_manager.go and the
    locks of utils/cache.go as one step relation.

    A sweep asks whether a repository is in use and removes it later: at once when the
    repository is too old, after the listing and the sorting when the cache is too large. *)

From S2P Require Import Prelude RepoLocks CacheManager.

(** [chosen]: found free, not yet removed; [lost]: removed while a session held the lock. *)
Record Sweeping := mkSweeping {
  locks : Locks Z; chosen : list Z; removed : list Z; lost : list Z
}.
Definition idle_sweep (n : nat) : Sweeping := mkSweeping (initial n) [] [] [].

Definition session_holds (id : Z) (x : session Z) : bool :=
  bool_decide (held_write x = Some id \/ held_read x = Some id).
Definition is_held (id : Z) (l : Locks Z) : bool := existsb (session_holds id) (sessions l).

Definition check_free (id : Z) (s : Sweeping) : Sweeping :=
  mkSweeping (locks s) (id :: chosen s) (removed s) (lost s).
Definition remove_repo (id : Z) (s : Sweeping) : Sweeping :=
  mkSweeping (locks s) (filter (fun i => i <> id) (chosen s)) (id :: removed s)
    (if is_held id (locks s) then id :: lost s else lost s).

Section Sweep.
Context (lock_step : Locks Z -> Locks Z -> Prop).

Inductive sweep_step : Sweeping -> Sweeping -> Prop :=
| sweep_locks s l : lock_step (locks s) l -> sweep_step s (mkSweeping l (chosen s) (removed s) (lost s))
| sweep_check id s : IsRepositoryInUse id (locks s) = false -> sweep_step s (check_free id s)
| sweep_remove id s : id ∈ chosen s -> sweep_step s (remove_repo id s).

(** The same without a step between the check and the removal. *)
Inductive atomic_sweep : Sweeping -> Sweeping -> Prop :=
| atomic_locks s l : lock_step (locks s) l -> atomic_sweep s (mkSweeping l (chosen s) (removed s) (lost s))
| atomic_remove id s :
    IsRepositoryInUse id (locks s) = false -> atomic_sweep s (remove_repo id (check_free id s)).

Lemma atomic_locks_reach n s : rtc atomic_sweep (idle_sweep n) s -> rtc lock_step (initial n) (locks s).
Proof.
  intros Hr. change (initial n) with (locks (idle_sweep n)). induction Hr as [s|s1 s2 s3 Hs _ IH]; [done|].
  destruct Hs; [by eapply rtc_l|exact IH].
Qed.
End Sweep.

Lemma is_held_spec id l : is_held id l = true -> exists i, holds i id l.
Proof.
  unfold is_held. intros (x & Hin & Hx)%existsb_exists. apply list_elem_of_In, list_elem_of_lookup in Hin as [i Hi].
  exists i. apply bool_decide_eq_true in Hx as [Hx|Hx]; [left|right]; by exists x.
Qed.

(** A repository that is locked between the check and the removal is removed under the
    eyes of its holder. This does not need the defect of the clean-up timers: with timers
    that leave used locks alone, a session can hold the write lock of a repository that the
    sweep removes, although the sweep had found it free. *)
Theorem sweep_removes_locked :
  exists s, rtc (sweep_step safe_step) (idle_sweep 1) s /\ holds_write 0 7 (locks s) /\
    removed s = [7] /\ lost s = [7].
Proof.
  exists (remove_repo 7 (mkSweeping (lock_all 0 7 0 (initial 1)) [7] [] [])).
  split; [|split; [by exists (HoldW 7 0)|by split]].
  eapply rtc_l; [by apply (sweep_check _ 7)|].
  eapply rtc_l; [apply sweep_locks; left; by apply (step_lock 0 7)|].
  eapply rtc_l; [apply sweep_locks; left; by apply (step_lock_count 0 7 0)|].
  eapply rtc_l; [apply sweep_locks; left; by apply (step_lock_take 0 7 0)|].
  eapply rtc_l; [apply (sweep_remove _ 7); left|]. apply rtc_refl.
Qed.

(** Were the check and the removal one step, no repository would be removed while a
    session holds its lock. *)
Theorem atomic_sweep_loses_nothing n s : rtc (atomic_sweep safe_step) (idle_sweep n) s -> lost s = [].
Proof.
  revert s. apply (rtc_ind_r (R := atomic_sweep safe_step)); [done|]. intros s1 s2 Hr1 Hs IH.
  destruct Hs as [s l Hl|id s Hfree]; [done|]. simpl.
  destruct (is_held id (locks s)) eqn:Eh; [|done]. exfalso. apply is_held_spec in Eh as [i Hi].
  pose proof (safe_reachable_inv n _ (atomic_locks_reach _ n s Hr1)) as Hinv.
  unfold IsRepositoryInUse in Hfree.
  pose proof (holds_in_use _ _ _ Hinv Hi).
  congruence.
Qed.
