(* ===== verification/BatchTx.v ===== *)
(** The batch transaction manager (app/batch_tx_manager.go): messages are queued under
    a mutex, and a ticker takes the whole queue and broadcasts it as one transaction.

    The queue is a slice: its backing array outlives [txQueue\[:0\]], so a batch must be
    a copy. A step is one critical section or one broadcast; the goroutines that add,
    the ticker's and the one that stops the manager interleave freely. *)

From S2P Require Import Prelude World.
From Stdlib Require Import Permutation.

Record BatchTxManager := mkBatchTxManager {
  array : list Msg;           (* the backing array of [txQueue] *)
  len : nat;                  (* [len(txQueue)] *)
  inflight : list (list Msg); (* batches that were copied and not broadcast yet *)
  stopped : bool;             (* [stopCh] is closed *)
  (* what happened, oldest first *)
  added : list Msg;           (* arguments of AddToBatch *)
  batches : list (list Msg);  (* batches, as they were taken *)
  sent : list (list Msg);     (* batches whose transaction was accepted *)
  dropped : list (list Msg)   (* batches whose broadcast failed *)
}.

Definition NewBatchTxManager : BatchTxManager := mkBatchTxManager [] 0 [] false [] [] [] [].

Definition txQueue (b : BatchTxManager) : list Msg := take (len b) (array b).

(** [b.txQueue = append(b.txQueue, msgs...)]: the array is overwritten from [len] on.
    The error is always nil. *)
Definition AddToBatch (msgs : list Msg) (b : BatchTxManager) : BatchTxManager :=
  mkBatchTxManager (take (len b) (array b) ++ msgs ++ drop (len b + length msgs) (array b))
    (len b + length msgs) (inflight b) (stopped b)
    (added b ++ msgs) (batches b) (sent b) (dropped b).

(** The critical section of processBatch: copy the queue and truncate it. *)
Definition take_batch (b : BatchTxManager) : BatchTxManager :=
  if decide (len b = 0)%nat then b
  else
    let batch := txQueue b in
    mkBatchTxManager (array b) 0 (inflight b ++ [batch]) (stopped b)
      (added b) (batches b ++ [batch]) (sent b) (dropped b).

(** [BroadcastTxAndWait] of a batch in flight: an error is only logged. *)
Definition broadcast (l1 : list (list Msg)) (batch : list Msg) (l2 : list (list Msg)) (ok : bool)
    (b : BatchTxManager) : BatchTxManager :=
  mkBatchTxManager (array b) (len b) (l1 ++ l2) (stopped b) (added b) (batches b)
    (if ok then sent b ++ [batch] else sent b)
    (if ok then dropped b else dropped b ++ [batch]).

(** Stop closes the channel; the processBatch it runs next is a step of its own. *)
Definition close_stop (b : BatchTxManager) : BatchTxManager :=
  mkBatchTxManager (array b) (len b) (inflight b) true (added b) (batches b) (sent b) (dropped b).

Inductive step : BatchTxManager -> BatchTxManager -> Prop :=
| step_add msgs b : step b (AddToBatch msgs b)
| step_take b : step b (take_batch b)
| step_broadcast l1 batch l2 ok b :
    inflight b = l1 ++ batch :: l2 -> step b (broadcast l1 batch l2 ok b)
| step_stop b : stopped b = false -> step b (close_stop b).

Definition reachable (b : BatchTxManager) : Prop := rtc step NewBatchTxManager b.

(** * Invariant *)
Record batch_inv (b : BatchTxManager) : Prop := {
  inv_len : (len b <= length (array b))%nat;
  inv_fifo : concat (batches b) ++ txQueue b = added b;
  inv_batches : Permutation (sent b ++ dropped b ++ inflight b) (batches b);
  inv_nonempty : Forall (fun batch => batch <> []) (batches b)
}.

Lemma batch_inv_initial : batch_inv NewBatchTxManager.
Proof. split; simpl; done. Qed.

Lemma txQueue_add msgs b :
  (len b <= length (array b))%nat -> txQueue (AddToBatch msgs b) = txQueue b ++ msgs.
Proof.
  intros Hl. unfold txQueue, AddToBatch. simpl. rewrite app_assoc.
  apply take_app_length'. rewrite length_app, length_take. lia.
Qed.

Lemma batch_step_inv b b' : step b b' -> batch_inv b -> batch_inv b'.
Proof.
  intros Hs [Hl Hf Hb Hn]. destruct Hs as [msgs b|b|l1 batch l2 ok b Hin|b Hst].
  - split; try done.
    + simpl. rewrite !length_app, length_take, length_drop. lia.
    + rewrite txQueue_add by done. simpl. by rewrite app_assoc, Hf.
  - unfold take_batch. case_decide as Hz; [by split|]. split; simpl.
    + lia.
    + unfold txQueue at 2. simpl. rewrite app_nil_r, concat_app. simpl. by rewrite app_nil_r.
    + by rewrite !app_assoc, <- (app_assoc (sent b)), Hb.
    + apply Forall_app. split; [done|]. constructor; [|done].
      unfold txQueue. intros Hnil. apply (f_equal length) in Hnil. rewrite length_take in Hnil. simpl in Hnil. lia.
  - split; try done. simpl. rewrite Hin in Hb. rewrite <- Hb.
    destruct ok; rewrite <- ?app_assoc; simpl; by rewrite <- !Permutation_middle.
  - by split.
Qed.

Lemma reachable_inv b : reachable b -> batch_inv b.
Proof.
  intros Hr. unfold reachable in Hr. pose proof batch_inv_initial as H0.
  induction Hr as [|b1 b2 b3 Hs _ IH]; [done|]. by apply IH, (batch_step_inv b1).
Qed.

(** * Properties *)

(** The queue neither loses nor duplicates nor reorders messages. In every
    interleaving, the batches that were taken, in the order they were taken, followed by
    what is still queued, are exactly the messages that were added, in order; no batch is
    empty; and every batch is in flight, was accepted or was dropped, once. *)
Theorem batches_are_fifo b :
  reachable b ->
  concat (batches b) ++ txQueue b = added b /\
  Permutation (sent b ++ dropped b ++ inflight b) (batches b) /\
  Forall (fun batch => batch <> []) (batches b).
Proof. intros Hr. by destruct (reachable_inv b Hr). Qed.

Definition demo_msg (n : Z) : Msg := MsgProposeRepositoryDelete "p" "u" n.

(** Two messages are added and taken, and a third one overwrites the array while the
    batch is in flight. *)
Definition demo_run : BatchTxManager :=
  AddToBatch [demo_msg 3] (take_batch (AddToBatch [demo_msg 2] (AddToBatch [demo_msg 1] NewBatchTxManager))).

Lemma demo_run_reachable : reachable demo_run.
Proof.
  unfold demo_run, reachable. eapply rtc_l; [apply (step_add [demo_msg 1])|].
  eapply rtc_l; [apply (step_add [demo_msg 2])|]. eapply rtc_l; [apply step_take|].
  eapply rtc_l; [apply (step_add [demo_msg 3])|]. apply rtc_refl.
Qed.

Lemma batches_are_fifo_witness :
  inflight demo_run = [[demo_msg 1; demo_msg 2]] /\ txQueue demo_run = [demo_msg 3] /\
  concat (batches demo_run) ++ txQueue demo_run = added demo_run.
Proof.
  split; [reflexivity|]. split; [reflexivity|]. apply (batches_are_fifo demo_run demo_run_reachable).
Defined.

(** A failed broadcast loses its messages. There is a run in which a message was
    added, its batch was broadcast in vain, and nothing of it is queued or in flight any
    more; and from there on it stays dropped, in every run. *)
Theorem failed_batch_is_lost :
  exists b, reachable b /\ added b = [demo_msg 1] /\ dropped b = [[demo_msg 1]] /\
    txQueue b = [] /\ inflight b = [] /\
    (forall b', rtc step b b' -> [demo_msg 1] ∈ dropped b' /\ exists rest, added b' = demo_msg 1 :: rest).
Proof.
  set (b := broadcast [] [demo_msg 1] [] false (take_batch (AddToBatch [demo_msg 1] NewBatchTxManager))).
  exists b. split; [|split; [|split; [|split; [|split]]]]; try reflexivity.
  - unfold b, reachable. eapply rtc_l; [apply (step_add [demo_msg 1])|].
    eapply rtc_l; [apply step_take|]. eapply rtc_l; [by apply step_broadcast|]. apply rtc_refl.
  - intros b' Hr. assert (Hb : [demo_msg 1] ∈ dropped b /\ exists rest, added b = demo_msg 1 :: rest).
    { split; [vm_compute; left|by exists []]. }
    induction Hr as [|b1 b2 b3 Hs _ IH]; [done|]. apply IH. destruct Hb as (Hd & rest & Ha).
    destruct Hs as [msgs c|c|l1 batch l2 ok c Hin|c Hst]; simpl.
    + split; [done|]. exists (rest ++ msgs). by rewrite Ha.
    + unfold take_batch. case_decide; simpl; (split; [done|by exists rest]).
    + split; [|by exists rest]. destruct ok; [done|]. apply elem_of_app. by left.
    + split; [done|]. by exists rest.
Qed.
