(* ===== verification/BatchLoop.v ===== *)
(** The goroutines of the batch transaction manager (app/batch_tx_manager.go): the loop
    that Start spawns, the callers of Stop, and whoever adds messages. BatchTx.v has the
    critical sections; here each goroutine runs them in its own order.

    [Queue] says what the manager promises - a queue whose batches are cut and then
    accepted or lost, one at a time until it is closed - and the goroutines refine it. *)

From S2P Require Import Prelude World BatchTx.
From Stdlib Require Import Permutation.

(** * Labelled runs *)
Section Runs.
Context {S E : Type} (lstep : S -> option E -> S -> Prop).

Inductive run : S -> list (option E) -> S -> Prop :=
| run_nil s : run s [] s
| run_cons s1 e s2 tr s3 : lstep s1 e s2 -> run s2 tr s3 -> run s1 (e :: tr) s3.

Lemma run_inv (P : S -> Prop) s tr s' :
  (forall s e s', lstep s e s' -> P s -> P s') -> run s tr s' -> P s -> P s'.
Proof. intros HP Hr. induction Hr; naive_solver. Qed.

Lemma run_app s1 tr1 s2 tr2 s3 : run s1 tr1 s2 -> run s2 tr2 s3 -> run s1 (tr1 ++ tr2) s3.
Proof. intros Hr Hr2. induction Hr; [done|]. econstructor; eauto. Qed.
End Runs.

(** What can be seen of a run. *)
Definition visible {E} (tr : list (option E)) : list E := omap id tr.

(** A simulation with an invariant: each step is a step of the specification with the
    same label, so that a run is a run of the specification. *)
Lemma run_simulates {S T E} (lstep : S -> option E -> S -> Prop) (sstep : T -> option E -> T -> Prop)
    (P : S -> Prop) (abs : S -> T) s tr s' :
  (forall s e s', lstep s e s' -> P s -> P s' /\ sstep (abs s) e (abs s')) ->
  run lstep s tr s' -> P s -> run sstep (abs s) tr (abs s').
Proof.
  intros Hsim Hr. induction Hr as [s|s1 e s2 tr s3 H1 _ IH]; intros HP; [constructor|].
  destruct (Hsim _ _ _ H1 HP) as [HP2 Hs]. econstructor; eauto.
Qed.

Inductive Event :=
| Added (msgs : list Msg)      (* AddToBatch returned nil *)
| Accepted (batch : list Msg)  (* BroadcastTxAndWait returned nil *)
| Lost (batch : list Msg)      (* BroadcastTxAndWait returned an error *)
| Closed.                      (* Stop closed the channel *)

Definition added_msgs (tr : list (option Event)) : list Msg :=
  concat (omap (fun e : option Event => match e with Some (Added msgs) => Some msgs | _ => None end) tr).
Definition accepted_batches (tr : list (option Event)) : list (list Msg) :=
  omap (fun e : option Event => match e with Some (Accepted b) => Some b | _ => None end) tr.

Definition lost_batches (tr : list (option Event)) : list (list Msg) :=
  omap (fun e : option Event => match e with Some (Lost b) => Some b | _ => None end) tr.

(** * The promise *)
Module Queue.
Record State := mkState {
  pending : list Msg;          (* added, and in no batch yet *)
  outgoing : list (list Msg);  (* batches nobody has answered for *)
  open : bool                  (* nobody has stopped the manager *)
}.

Definition initial : State := mkState [] [] true.

Inductive step : State -> option Event -> State -> Prop :=
| step_add msgs p o op : step (mkState p o op) (Some (Added msgs)) (mkState (p ++ msgs) o op)
| step_cut p o (op : bool) :
    p <> [] -> (length o < if op then 1 else 2)%nat ->
    step (mkState p o op) None (mkState [] (o ++ [p]) op)
| step_accept p o1 b o2 op :
    step (mkState p (o1 ++ b :: o2) op) (Some (Accepted b)) (mkState p (o1 ++ o2) op)
| step_lose p o1 b o2 op :
    step (mkState p (o1 ++ b :: o2) op) (Some (Lost b)) (mkState p (o1 ++ o2) op)
| step_close p o : step (mkState p o true) (Some Closed) (mkState p o false)
| step_stutter s : step s None s.

(** What a run has done, while the queue is open: the batches that were answered for,
    in order, then the one that is out, then the pending messages. *)
Record ordered (tr : list (option Event)) (s : State) (answered : list (list Msg)) : Prop := {
  ord_open : open s = true;
  ord_one : (length (outgoing s) <= 1)%nat;
  ord_msgs : concat answered ++ concat (outgoing s) ++ pending s = added_msgs tr;
  ord_accepted : accepted_batches tr `sublist_of` answered;
  ord_all : (forall b, Some (Lost b) ∉ tr) -> accepted_batches tr = answered
}.

Lemma added_msgs_snoc tr e :
  added_msgs (tr ++ [e]) = added_msgs tr ++ (match e with Some (Added msgs) => msgs | _ => [] end).
Proof.
  unfold added_msgs. rewrite omap_app, concat_app. f_equal.
  destruct e as [[]|]; simpl; by rewrite ?app_nil_r.
Qed.

Lemma accepted_batches_snoc tr e :
  accepted_batches (tr ++ [e]) =
  accepted_batches tr ++ (match e with Some (Accepted b) => [b] | _ => [] end).
Proof. unfold accepted_batches. rewrite omap_app. f_equal. by destruct e as [[]|]. Qed.

Lemma lost_batches_snoc tr e :
  lost_batches (tr ++ [e]) = lost_batches tr ++ (match e with Some (Lost b) => [b] | _ => [] end).
Proof. unfold lost_batches. rewrite omap_app. f_equal. by destruct e as [[]|]. Qed.

(** Where the messages of a run are. *)
Definition whereabouts (tr : list (option Event)) (s : State) : list Msg :=
  concat (accepted_batches tr) ++ concat (lost_batches tr) ++ concat (outgoing s) ++ pending s.

Lemma step_conserves s e s' tr :
  step s e s' -> Permutation (whereabouts tr s) (added_msgs tr) ->
  Permutation (whereabouts (tr ++ [e]) s') (added_msgs (tr ++ [e])).
Proof.
  unfold whereabouts. intros Hs Hp. rewrite added_msgs_snoc, accepted_batches_snoc, lost_batches_snoc.
  rewrite <- Hp. destruct Hs; simpl; rewrite ?app_nil_r, ?concat_app; simpl; rewrite ?app_nil_r; solve_Permutation.
Qed.

Lemma run_conserves s tr s' tr0 :
  run step s tr s' -> Permutation (whereabouts tr0 s) (added_msgs tr0) ->
  Permutation (whereabouts (tr0 ++ tr) s') (added_msgs (tr0 ++ tr)).
Proof.
  intros Hr. revert tr0. induction Hr as [s|s1 e s2 tr s3 H1 _ IH]; intros tr0 Hp; [by rewrite app_nil_r|].
  specialize (IH (tr0 ++ [e]) (step_conserves _ _ _ _ H1 Hp)). by rewrite <- app_assoc in IH.
Qed.

Lemma ordered_initial : ordered [] initial [].
Proof. split; simpl; try done; lia. Qed.

(** The one batch that is out is the oldest one. *)
Lemma one_out (o1 : list (list Msg)) b o2 :
  (length (o1 ++ b :: o2) <= 1)%nat -> o1 = [] /\ o2 = [].
Proof. rewrite length_app. simpl. destruct o1, o2; simpl; intros; [done|lia..]. Qed.

Lemma step_ordered s e s' tr dn :
  step s e s' -> e <> Some Closed -> ordered tr s dn -> exists dn', ordered (tr ++ [e]) s' dn'.
Proof.
  intros Hs He [Hop Ho Hm Ha Hl].
  assert (Hlost : (forall b, Some (Lost b) ∉ tr ++ [e]) -> accepted_batches tr = dn).
  { intros Hno. apply Hl. intros b Hb. apply (Hno b), elem_of_app. by left. }
  destruct Hs as [msgs p o op|p o op Hp Hlt|p o1 b o2 op|p o1 b o2 op|p o|s]; simpl in *; try done.
  all: try (apply one_out in Ho as [-> ->]; simpl in * ).
  - exists dn. split; simpl; rewrite ?added_msgs_snoc, ?accepted_batches_snoc, ?app_nil_r; auto.
    by rewrite !app_assoc, <- (app_assoc (concat dn)), Hm.
  - subst op. assert (o = []) as -> by (destruct o; simpl in *; [done|lia]).
    exists dn. split; simpl; rewrite ?added_msgs_snoc, ?accepted_batches_snoc, ?app_nil_r; auto.
  - exists (dn ++ [b]). split; simpl; rewrite ?added_msgs_snoc, ?accepted_batches_snoc, ?app_nil_r; auto; try lia.
    + rewrite concat_app. simpl. by rewrite <- app_assoc.
    + by apply sublist_app.
    + intros Hno. by rewrite Hlost.
  - exists (dn ++ [b]). split; simpl; rewrite ?added_msgs_snoc, ?accepted_batches_snoc, ?app_nil_r; auto; try lia.
    + rewrite concat_app. simpl. by rewrite <- app_assoc.
    + by apply sublist_inserts_r.
    + intros Hno. destruct (Hno b). apply elem_of_app. right. by apply list_elem_of_singleton.
  - exists dn. split; simpl; rewrite ?added_msgs_snoc, ?accepted_batches_snoc, ?app_nil_r; auto.
Qed.

Lemma run_ordered s tr s' tr0 dn :
  run step s tr s' -> Some Closed ∉ tr -> ordered tr0 s dn -> exists dn', ordered (tr0 ++ tr) s' dn'.
Proof.
  intros Hr. revert tr0 dn. induction Hr as [s|s1 e s2 tr s3 H1 _ IH]; intros tr0 dn Hc Hd.
  - exists dn. by rewrite app_nil_r.
  - apply not_elem_of_cons in Hc as [He Hc].
    destruct (step_ordered _ _ _ _ _ H1 (not_eq_sym He) Hd) as [dn2 Hd2].
    destruct (IH _ _ Hc Hd2) as [dn3 Hd3]. exists dn3. by rewrite <- app_assoc in Hd3.
Qed.
End Queue.

(** * The goroutines *)

(** Where the goroutine of processBatches is. *)
Inductive LoopPc :=
| LIdle                      (* Start has not been called *)
| LSelect                    (* at the select *)
| LProcess                   (* processBatch is called *)
| LSend (batch : list Msg)   (* processBatch is in BroadcastTxAndWait *)
| LReturned.

(** Where a caller of Stop is. *)
Inductive StopPc :=
| SIdle                      (* it has not called Stop *)
| SClose                     (* the ticker is stopped; [close(b.stopCh)] is next *)
| SProcess
| SSend (batch : list Msg)
| SReturned.

#[export] Instance StopPc_eq_dec : EqDecision StopPc.
Proof. solve_decision. Defined.

Record Manager := mkManager {
  queue : BatchTxManager;
  ticking : bool;
  loop : LoopPc;
  stops : list StopPc;       (* the callers of Stop *)
  crashed : bool             (* a goroutine panicked *)
}.

(** A manager that [n] goroutines may stop. *)
Definition initial (n : nat) : Manager :=
  mkManager NewBatchTxManager true LIdle (replicate n SIdle) false.

(** After its critical section, processBatch returns or broadcasts the batch it took. *)
Definition loop_after (q : BatchTxManager) : LoopPc :=
  if decide (len q = 0)%nat then LSelect else LSend (txQueue q).
Definition stop_after (q : BatchTxManager) : StopPc :=
  if decide (len q = 0)%nat then SReturned else SSend (txQueue q).

Definition answer (ok : bool) (batch : list Msg) : Event := if ok then Accepted batch else Lost batch.

Inductive mstep : Manager -> option Event -> Manager -> Prop :=
| m_add msgs q tk l ss :
    mstep (mkManager q tk l ss false) (Some (Added msgs)) (mkManager (AddToBatch msgs q) tk l ss false)
| m_start q tk ss :
    mstep (mkManager q tk LIdle ss false) None (mkManager q tk LSelect ss false)
| m_tick q ss :
    (* a stopped ticker delivers nothing *)
    mstep (mkManager q true LSelect ss false) None (mkManager q true LProcess ss false)
| m_stopped q tk ss :
    stopped q = true ->
    mstep (mkManager q tk LSelect ss false) None (mkManager q tk LReturned ss false)
| m_loop_take q tk ss :
    mstep (mkManager q tk LProcess ss false) None
          (mkManager (take_batch q) tk (loop_after q) ss false)
| m_loop_sent q tk batch ss l1 l2 ok :
    inflight q = l1 ++ batch :: l2 ->
    mstep (mkManager q tk (LSend batch) ss false) (Some (answer ok batch))
          (mkManager (broadcast l1 batch l2 ok q) tk LSelect ss false)
| m_stop_ticker q tk l s1 s2 :
    mstep (mkManager q tk l (s1 ++ SIdle :: s2) false) None
          (mkManager q false l (s1 ++ SClose :: s2) false)
| m_close q tk l s1 s2 :
    stopped q = false ->
    mstep (mkManager q tk l (s1 ++ SClose :: s2) false) (Some Closed)
          (mkManager (close_stop q) tk l (s1 ++ SProcess :: s2) false)
| m_close_closed q tk l s1 s2 :
    (* close of closed channel *)
    stopped q = true ->
    mstep (mkManager q tk l (s1 ++ SClose :: s2) false) None
          (mkManager q tk l (s1 ++ SClose :: s2) true)
| m_stop_take q tk l s1 s2 :
    mstep (mkManager q tk l (s1 ++ SProcess :: s2) false) None
          (mkManager (take_batch q) tk l (s1 ++ stop_after q :: s2) false)
| m_stop_sent q tk l s1 batch s2 l1 l2 ok :
    inflight q = l1 ++ batch :: l2 ->
    mstep (mkManager q tk l (s1 ++ SSend batch :: s2) false) (Some (answer ok batch))
          (mkManager (broadcast l1 batch l2 ok q) tk l (s1 ++ SReturned :: s2) false).

(** The state of the promise that a manager is in. *)
Definition abs (m : Manager) : Queue.State :=
  Queue.mkState (txQueue (queue m)) (inflight (queue m)) (negb (stopped (queue m))).

(** Every goroutine has returned, or one of them panicked. *)
Definition ended (m : Manager) : Prop :=
  crashed m = true \/ loop m = LReturned /\ (forall s, s ∈ stops m -> s = SReturned).

Definition is_add (e : option Event) : bool := match e with Some (Added _) => true | _ => false end.

(** * Invariant *)

(** The batch a goroutine waits for an answer of. *)
Definition loop_batch (l : LoopPc) : list (list Msg) :=
  match l with LSend b => [b] | _ => [] end.
Definition stop_batch (s : StopPc) : list (list Msg) :=
  match s with SSend b => [b] | _ => [] end.

(** A caller of Stop that has closed the channel. *)
Definition past_close (s : StopPc) : nat :=
  match s with SProcess | SSend _ | SReturned => 1 | _ => 0 end.

Definition closers (ss : list StopPc) : nat := sum_list_with past_close ss.

Record manager_inv (m : Manager) : Prop := {
  mi_queue : batch_inv (queue m);
  mi_inflight : Permutation (inflight (queue m)) (loop_batch (loop m) ++ (stops m ≫= stop_batch));
  mi_closers : closers (stops m) = if stopped (queue m) then 1%nat else 0%nat;
  mi_ticking : stopped (queue m) = true -> ticking m = false;
  mi_close : SClose ∈ stops m -> ticking m = false
}.

Lemma closers_app s1 s s2 : closers (s1 ++ s :: s2) = (closers s1 + past_close s + closers s2)%nat.
Proof. unfold closers. rewrite sum_list_with_app. simpl. lia. Qed.

Lemma stop_batches_app (s1 : list StopPc) s s2 :
  (s1 ++ s :: s2) ≫= stop_batch = (s1 ≫= stop_batch) ++ stop_batch s ++ (s2 ≫= stop_batch).
Proof. by rewrite bind_app, bind_cons. Qed.

(** A goroutine waits for one batch at most, and only one caller closes the channel. *)
Lemma stop_batches_closers ss : (length (ss ≫= stop_batch) <= closers ss)%nat.
Proof.
  induction ss as [|s ss IH]; [done|]. rewrite bind_cons, length_app.
  change (closers (s :: ss)) with (past_close s + closers ss)%nat. destruct s; simpl; lia.
Qed.

Lemma manager_inv_initial n : manager_inv (initial n).
Proof.
  split; simpl.
  - apply batch_inv_initial.
  - induction n; [done|]. simpl. done.
  - induction n; [done|]. simpl. done.
  - done.
  - intros H. by apply elem_of_replicate in H as [? _].
Qed.

Lemma take_batch_loop q : inflight (take_batch q) = inflight q ++ loop_batch (loop_after q).
Proof. unfold take_batch, loop_after. case_decide; simpl; [by rewrite app_nil_r|done]. Qed.

Lemma take_batch_stop q : inflight (take_batch q) = inflight q ++ stop_batch (stop_after q).
Proof. unfold take_batch, stop_after. case_decide; simpl; [by rewrite app_nil_r|done]. Qed.

Lemma take_batch_stopped q : stopped (take_batch q) = stopped q.
Proof. unfold take_batch. by case_decide. Qed.

Lemma stop_after_past q : past_close (stop_after q) = 1%nat.
Proof. unfold stop_after. by case_decide. Qed.

Lemma stop_after_not_close q : stop_after q <> SClose.
Proof. unfold stop_after. by case_decide. Qed.

(** An answered batch is in flight no more. *)
Lemma answered_permutation (l1 l2 l r : list (list Msg)) b :
  Permutation (l1 ++ b :: l2) (l ++ b :: r) -> Permutation (l1 ++ l2) (l ++ r).
Proof. apply Permutation_app_inv. Qed.

Create Rewrite HintDb manager.
#[local] Hint Rewrite stop_batches_app closers_app take_batch_stopped stop_after_past : manager.

(** The critical section that a step runs is a step of BatchTx, or none. *)
Lemma mstep_queue m e m' : mstep m e m' -> queue m' = queue m \/ BatchTx.step (queue m) (queue m').
Proof. intros H. destruct H; simpl; eauto using BatchTx.step. Qed.

Lemma mstep_inv m e m' : mstep m e m' -> manager_inv m -> manager_inv m'.
Proof.
  intros Hs [Hq Hin Hcl Htk Hsc].
  assert (Hq' : batch_inv (queue m')).
  { destruct (mstep_queue _ _ _ Hs) as [->|H]; [done|by eapply batch_step_inv]. }
  destruct Hs; simpl in *; split; simpl; try done; autorewrite with manager in *; simpl in *;
    rewrite ?elem_of_app, ?elem_of_cons in *;
    try first [lia | intuition congruence | by rewrite Hin | by rewrite Hin, <- !app_assoc].
  - rewrite take_batch_loop, Hin. apply Permutation_app_comm.
  - apply (answered_permutation l1 l2 [] _ batch). by rewrite <- H, Hin.
  - destruct (stopped q); lia.
  - rewrite take_batch_stop, Hin. solve_Permutation.
  - intros [?|[Heq|?]]; [auto|by destruct (stop_after_not_close q)|auto].
  - rewrite app_assoc. apply (answered_permutation l1 l2 _ _ batch). by rewrite <- H, Hin, <- !app_assoc.
Qed.

Lemma run_manager_inv n tr m : run mstep (initial n) tr m -> manager_inv m.
Proof. intros Hr. eapply (run_inv mstep manager_inv); eauto using mstep_inv, manager_inv_initial. Qed.

(** * The goroutines keep the promise *)

(** Before the channel is closed only the loop takes batches; after it, one caller of
    Stop does too. *)
Lemma manager_capacity m :
  manager_inv m ->
  (length (inflight (queue m)) <= length (loop_batch (loop m)) + if stopped (queue m) then 1 else 0)%nat.
Proof.
  intros [_ Hin Hcl _ _]. rewrite Hin, length_app. pose proof (stop_batches_closers (stops m)). lia.
Qed.

(** Taking a batch is a cut of the promise, or no step of it. *)
Lemma take_batch_cut q :
  (len q <= length (array q))%nat ->
  (length (inflight q) < if negb (stopped q) then 1 else 2)%nat ->
  Queue.step (Queue.mkState (txQueue q) (inflight q) (negb (stopped q))) None
    (Queue.mkState (txQueue (take_batch q)) (inflight (take_batch q)) (negb (stopped (take_batch q)))).
Proof.
  intros Hl Hc. unfold take_batch. case_decide as Hz; [constructor|]. simpl.
  unfold txQueue at 2. simpl. constructor; [|done].
  intros Hnil. apply (f_equal length) in Hnil. unfold txQueue in Hnil. rewrite length_take in Hnil. simpl in Hnil. lia.
Qed.

Lemma broadcast_answer q l1 batch l2 ok :
  inflight q = l1 ++ batch :: l2 ->
  Queue.step (Queue.mkState (txQueue q) (inflight q) (negb (stopped q))) (Some (answer ok batch))
    (let q' := broadcast l1 batch l2 ok q in Queue.mkState (txQueue q') (inflight q') (negb (stopped q'))).
Proof. intros ->. destruct ok; constructor. Qed.

Lemma mstep_simulates m e m' :
  mstep m e m' -> manager_inv m -> manager_inv m' /\ Queue.step (abs m) e (abs m').
Proof.
  intros Hs Hi. split; [by eapply mstep_inv|]. pose proof (manager_capacity m Hi) as Hc.
  destruct Hi as [Hq Hin Hcl _ _]. destruct Hs; unfold abs; cbn [queue loop stops] in *;
    try apply Queue.step_stutter.
  - rewrite txQueue_add by apply Hq. constructor.
  - apply take_batch_cut; [apply Hq|]. destruct (stopped q); simpl in *; lia.
  - by apply broadcast_answer.
  - simpl. rewrite H. constructor.
  - rewrite closers_app in Hcl. simpl in Hcl.
    apply take_batch_cut; [apply Hq|]. destruct (stopped q) eqn:Est; [simpl|lia].
    assert (Hno : (s1 ++ SProcess :: s2) ≫= stop_batch = []).
    { apply length_zero_iff_nil. rewrite stop_batches_app, !length_app. simpl.
      pose proof (stop_batches_closers s1). pose proof (stop_batches_closers s2). lia. }
    rewrite Hin, Hno, app_nil_r. destruct l; simpl; lia.
  - by apply broadcast_answer.
Qed.

Lemma run_refines n tr m : run mstep (initial n) tr m -> run Queue.step Queue.initial tr (abs m).
Proof.
  intros Hr. apply (run_simulates mstep Queue.step manager_inv abs _ _ _ mstep_simulates Hr).
  apply manager_inv_initial.
Qed.

(** * Stopping *)

Lemma run_stops n tr m : run mstep (initial n) tr m -> length (stops m) = n.
Proof.
  intros Hr. eapply (run_inv mstep (fun m => length (stops m) = n)); [|done|by apply length_replicate].
  intros s e s' Hs. destruct Hs; simpl; rewrite ?length_app; simpl; lia.
Qed.

Definition loop_work (l : LoopPc) : nat :=
  match l with LIdle => 2 | LSelect => 1 | LProcess => 3 | LSend _ => 2 | LReturned => 0 end.
Definition stop_work (s : StopPc) : nat :=
  match s with SIdle => 4 | SClose => 3 | SProcess => 2 | SSend _ => 1 | SReturned => 0 end.

(** The steps that are left once the channel is closed; adding messages adds none. *)
Definition work (m : Manager) : nat :=
  ((if crashed m then 0 else 1) + loop_work (loop m) + sum_list_with stop_work (stops m))%nat.

Definition internal (tr : list (option Event)) : nat := length (filter (fun e => is_add e = false) tr).

Lemma mstep_closed m e m' : mstep m e m' -> stopped (queue m) = true -> stopped (queue m') = true.
Proof. intros Hs H. destruct Hs; simpl in *; rewrite ?take_batch_stopped; done. Qed.

Lemma stop_work_app s1 s s2 :
  sum_list_with stop_work (s1 ++ s :: s2) =
  (sum_list_with stop_work s1 + stop_work s + sum_list_with stop_work s2)%nat.
Proof. rewrite sum_list_with_app. simpl. lia. Qed.

Lemma mstep_work m e m' :
  mstep m e m' -> manager_inv m -> stopped (queue m) = true ->
  (work m' + (if is_add e then 0 else 1) <= work m)%nat.
Proof.
  intros Hs Hi Hst. pose proof (mi_ticking _ Hi) as Htk. clear Hi.
  destruct Hs; unfold work; simpl in *; rewrite ?stop_work_app; simpl; try lia.
  - by specialize (Htk Hst).
  - unfold loop_after. case_decide; simpl; lia.
  - destruct ok; simpl; lia.
  - unfold stop_after. case_decide; simpl; lia.
  - destruct ok; simpl; lia.
Qed.

Lemma run_work m tr m' :
  run mstep m tr m' -> manager_inv m -> stopped (queue m) = true ->
  (work m' + internal tr <= work m)%nat.
Proof.
  intros Hr. induction Hr as [m|m1 e m2 tr m3 H1 _ IH]; intros Hi Hst; [unfold internal; simpl; lia|].
  pose proof (mstep_work _ _ _ H1 Hi Hst) as Hw.
  specialize (IH (mstep_inv _ _ _ H1 Hi) (mstep_closed _ _ _ H1 Hst)).
  unfold internal in *. rewrite filter_cons. destruct (is_add e); simpl in *; lia.
Qed.

Lemma work_bound m : (work m <= 4 * length (stops m) + 4)%nat.
Proof.
  unfold work. assert (sum_list_with stop_work (stops m) <= 4 * length (stops m))%nat.
  { induction (stops m) as [|s ss IH]; simpl; [lia|]. destruct s; simpl; lia. }
  destruct (crashed m), (loop m); simpl; lia.
Qed.

(** A batch that a goroutine waits for is in flight. *)
Lemma waiting_in_flight m batch :
  manager_inv m -> batch ∈ loop_batch (loop m) ++ (stops m ≫= stop_batch) ->
  exists l1 l2, inflight (queue m) = l1 ++ batch :: l2.
Proof. intros Hi Hb. apply list_elem_of_split. by rewrite (mi_inflight _ Hi). Qed.

(** Once the channel is closed, no goroutine is stuck. *)
Lemma closed_progress m :
  manager_inv m -> stopped (queue m) = true -> ended m \/ exists e m', is_add e = false /\ mstep m e m'.
Proof.
  intros Hi Hst. pose proof (waiting_in_flight m) as Hw.
  destruct m as [q tk l ss [|]]; [by left; left|]. simpl in *.
  destruct l as [| | |batch|].
  - right. eexists None, _. split; [done|apply m_start].
  - right. eexists None, _. split; [done|by apply m_stopped].
  - right. eexists None, _. split; [done|apply m_loop_take].
  - destruct (Hw batch Hi) as (l1 & l2 & Hin); [by left|].
    right. eexists (Some (answer true batch)), _. split; [done|by apply m_loop_sent].
  - destruct (decide (Forall (fun s => s = SReturned) ss)) as [Hall|Hno].
    { left. right. split; [done|]. intros s Hs. by rewrite list.Forall_forall in Hall; apply Hall. }
    apply not_Forall_Exists in Hno; [|apply _]. apply Exists_exists in Hno as (s & Hs & Hne).
    apply list_elem_of_In, list_elem_of_split in Hs as (s1 & s2 & ->). right.
    destruct s as [| | |batch|]; try done.
    + eexists None, _. split; [done|apply m_stop_ticker].
    + eexists None, _. split; [done|by apply m_close_closed].
    + eexists None, _. split; [done|apply m_stop_take].
    + destruct (Hw batch Hi) as (l1 & l2 & Hin).
      { rewrite stop_batches_app. simpl. set_solver. }
      eexists (Some (answer true batch)), _. split; [done|by apply m_stop_sent].
    + by destruct Hne.
Qed.

(** When the channel is closed, whoever has left the critical section of its Stop is the
    one that closed it. *)
Record flushed (due : list Msg) (m : Manager) : Prop := {
  fl_added : due `prefix_of` added (queue m);
  fl_closed : stopped (queue m) = true;
  fl_taken : forall s, s ∈ stops m -> s = SReturned \/ stop_batch s <> [] ->
    due `prefix_of` concat (batches (queue m))
}.

Lemma take_batch_all q : batch_inv q -> concat (batches (take_batch q)) = added q.
Proof.
  intros [_ Hf _ _]. unfold take_batch. case_decide as Hz; simpl.
  - rewrite <- Hf. unfold txQueue. by rewrite Hz, take_0, app_nil_r.
  - by rewrite <- Hf, concat_app, concat_cons, app_nil_r.
Qed.

Lemma step_added q q' : BatchTx.step q q' -> added q `prefix_of` added q'.
Proof. intros H. destruct H; simpl; try done; [by apply prefix_app_r|]. unfold take_batch. by case_decide. Qed.

Lemma step_batches q q' : BatchTx.step q q' -> concat (batches q) `prefix_of` concat (batches q').
Proof.
  intros H. destruct H; simpl; try done. unfold take_batch. case_decide; simpl; [done|].
  rewrite concat_app. by apply prefix_app_r.
Qed.

(** Where a caller of Stop can have come to in a step. *)
Lemma mstep_stops m e m' s :
  mstep m e m' -> s ∈ stops m' ->
  s ∈ stops m \/ s = SClose \/ s = SProcess \/ queue m' = take_batch (queue m) \/
  (exists batch, SSend batch ∈ stops m).
Proof.
  intros Hs Hin. destruct Hs; simpl in *; eauto; rewrite ?elem_of_app, ?elem_of_cons in *; try naive_solver.
  right; right; right; right. exists batch. apply elem_of_app. right. by left.
Qed.

Lemma mstep_flushed due m e m' :
  mstep m e m' -> manager_inv m /\ flushed due m -> manager_inv m' /\ flushed due m'.
Proof.
  intros Hs [Hi [Ha Hst Hf]]. split; [by eapply mstep_inv|].
  assert (Hkeep : added (queue m) `prefix_of` added (queue m') /\
    concat (batches (queue m)) `prefix_of` concat (batches (queue m'))).
  { destruct (mstep_queue _ _ _ Hs) as [->|H]; [done|]. split; [by apply step_added|by apply step_batches]. }
  destruct Hkeep as [Ha' Hb']. split; [by etrans|by eapply mstep_closed|].
  intros s Hin Hs'. destruct (mstep_stops _ _ _ _ Hs Hin) as [Hold|[->|[->|[Hq|[b Hb]]]]].
  - etrans; [by apply (Hf s)|done].
  - by destruct Hs'.
  - by destruct Hs'.
  - rewrite Hq, take_batch_all by apply Hi. done.
  - etrans; [apply (Hf _ Hb)|done]. by right.
Qed.

(** At the close, no caller of Stop has taken anything. *)
Lemma close_flushed m m' :
  mstep m (Some Closed) m' -> manager_inv m -> flushed (added (queue m)) m'.
Proof.
  intros Hs Hi. pose proof (mi_closers _ Hi) as Hcl. clear Hi.
  remember (Some Closed) as e. destruct Hs; try done; [by destruct ok| |by destruct ok].
  simpl in *. rewrite H, closers_app in Hcl. simpl in Hcl. split; simpl; try done.
  intros s Hin Hs. exfalso. apply elem_of_app in Hin. rewrite elem_of_cons in Hin.
  assert (Hz : forall ss, closers ss = 0%nat -> s ∉ ss).
  { intros ss Hss Hi. apply list_elem_of_split in Hi as (u & v & ->). rewrite closers_app in Hss.
    destruct s, Hs; simpl in *; try done; lia. }
  destruct Hin as [Hin|[->|Hin]]; [apply (Hz s1); [lia|done]|by destruct Hs|apply (Hz s2); [lia|done]].
Qed.

Lemma inflight_all_answered m :
  manager_inv m -> SReturned ∈ stops m -> loop_batch (loop m) = [] -> inflight (queue m) = [].
Proof.
  intros [_ Hin Hcl _ _] Hs Hl. rewrite Hl in Hin. simpl in Hin.
  apply list_elem_of_split in Hs as (s1 & s2 & Hss). rewrite Hss in *. apply Permutation_nil.
  rewrite Hin. apply reflexive_eq, eq_sym, length_zero_iff_nil.
  rewrite stop_batches_app, closers_app, !length_app in *. simpl in *.
  pose proof (stop_batches_closers s1). pose proof (stop_batches_closers s2). destruct (stopped _); lia.
Qed.

(** What the chain accepted was added. *)
Lemma accepted_was_added n tr m batch msg :
  run mstep (initial n) tr m -> batch ∈ accepted_batches tr -> msg ∈ batch -> msg ∈ added_msgs tr.
Proof.
  intros Hr Hb Hm. apply run_refines, (Queue.run_conserves _ _ _ [] ) in Hr; [|done]. simpl in Hr.
  rewrite <- Hr. unfold Queue.whereabouts. apply elem_of_app. left.
  apply list_elem_of_In, in_concat. exists batch. by rewrite <- !list_elem_of_In.
Qed.

(** Once every goroutine has returned, a step can only add messages. *)
Lemma ended_step m e m' :
  mstep m e m' -> loop m = LReturned -> (forall s, s ∈ stops m -> s = SReturned) ->
  exists msgs, e = Some (Added msgs) /\ loop m' = LReturned /\ stops m' = stops m /\
    queue m' = AddToBatch msgs (queue m).
Proof.
  intros Hs Hl Hss.
  assert (Hno : forall s1 s s2, stops m = s1 ++ s :: s2 -> s = SReturned).
  { intros s1 s s2 E. apply Hss. rewrite E. apply elem_of_app. right. by left. }
  destruct Hs; simpl in *; try done; [by eexists|..]; by specialize (Hno _ _ _ eq_refl).
Qed.

Lemma sublist_concat (l1 l2 : list (list Msg)) : l1 `sublist_of` l2 -> concat l1 `sublist_of` concat l2.
Proof.
  induction 1 as [|x l1 l2 _ IH|x l1 l2 _ IH]; simpl; [done|by apply sublist_app|by apply sublist_inserts_l].
Qed.

(** * A run *)

(** A message is added, and the ticker's batch of it is out when a second one is added
    and Stop is called: Stop closes the channel, takes the second message, broadcasts it
    and returns, and only then the first batch is answered for. *)
Definition demo_before : list (option Event) :=
  [None; Some (Added [demo_msg 1]); None; None; Some (Added [demo_msg 2]); None].
Definition demo_after : list (option Event) := [None; Some (Accepted [demo_msg 2])].

Definition demo_queue : BatchTxManager :=
  AddToBatch [demo_msg 2] (take_batch (AddToBatch [demo_msg 1] NewBatchTxManager)).
Definition demo_open : Manager := mkManager demo_queue false (LSend [demo_msg 1]) [SClose] false.
Definition demo_closed : Manager :=
  mkManager (close_stop demo_queue) false (LSend [demo_msg 1]) [SProcess] false.
Definition demo_stopped : Manager :=
  mkManager (broadcast [[demo_msg 1]] [demo_msg 2] [] true (take_batch (close_stop demo_queue)))
    false (LSend [demo_msg 1]) [SReturned] false.

Lemma demo_run_before : run mstep (initial 1) demo_before demo_open.
Proof.
  eapply run_cons; [apply m_start|]. eapply run_cons; [apply m_add|].
  eapply run_cons; [apply m_tick|]. eapply run_cons; [apply m_loop_take|].
  eapply run_cons; [apply m_add|]. eapply run_cons; [apply (m_stop_ticker _ _ _ [] [])|]. apply run_nil.
Qed.

Lemma demo_close : mstep demo_open (Some Closed) demo_closed.
Proof. by apply (m_close _ _ _ [] []). Qed.

Lemma demo_run_after : run mstep demo_closed demo_after demo_stopped.
Proof.
  eapply run_cons; [apply (m_stop_take _ _ _ [] [])|].
  eapply run_cons; [|apply run_nil]. by apply (m_stop_sent _ _ _ [] _ [] _ _ true).
Qed.

Lemma demo_run_closed : run mstep (initial 1) (demo_before ++ [Some Closed]) demo_closed.
Proof. eapply run_app; [apply demo_run_before|]. eapply run_cons; [apply demo_close|apply run_nil]. Qed.

(** * Properties *)

(** C12: the manager refines its promise. Every run of its goroutines - the loop that Start
    spawns, any number of callers of Stop, and whoever adds messages, in any interleaving
    - is, with the same messages added and the same batches accepted and lost, a run of a
    queue whose pending messages are cut into one batch, of which one is out at a time
    while the manager is open and at most two after it was stopped. *)
Theorem manager_refines_queue n tr m :
  run mstep (initial n) tr m -> run Queue.step Queue.initial tr (abs m).
Proof. apply run_refines. Qed.

Lemma manager_refines_queue_witness :
  run Queue.step Queue.initial (demo_before ++ [Some Closed])
    (Queue.mkState [demo_msg 2] [[demo_msg 1]] false).
Proof. apply (manager_refines_queue 1 _ demo_closed demo_run_closed). Defined.

(** C13: no message is lost, sent twice or overtaken without a reason. In every run each
    added message is, exactly once, in an accepted batch, in one whose broadcast failed,
    in flight or still in the queue. And as long as nobody stops the manager the chain sees
    the messages in the order in which they were added: those of the accepted batches are
    a subsequence of the added ones, with gaps only where a broadcast failed, and at most
    one batch is in flight. *)
Theorem chain_order n tr m :
  run mstep (initial n) tr m ->
  Permutation (concat (accepted_batches tr) ++ concat (lost_batches tr) ++
               concat (inflight (queue m)) ++ txQueue (queue m)) (added_msgs tr) /\
  (Some Closed ∉ tr ->
   concat (accepted_batches tr) `sublist_of` added_msgs tr /\
   ((forall b, Some (Lost b) ∉ tr) -> concat (accepted_batches tr) `prefix_of` added_msgs tr) /\
   (length (inflight (queue m)) <= 1)%nat).
Proof.
  intros Hr. apply run_refines in Hr. split; [by apply (Queue.run_conserves _ _ _ [] Hr)|]. intros Hc.
  destruct (Queue.run_ordered _ _ _ [] [] Hr Hc Queue.ordered_initial) as [dn [_ Ho Hm Ha Hl]].
  simpl in *. rewrite <- Hm. split; [|split; [|done]].
  - by apply sublist_inserts_r, sublist_concat.
  - intros Hno. rewrite (Hl Hno). by apply prefix_app_r.
Qed.

Lemma chain_order_witness :
  added_msgs demo_before = [demo_msg 1; demo_msg 2] /\ (length (inflight (queue demo_open)) <= 1)%nat.
Proof.
  split; [reflexivity|]. apply (proj2 (chain_order 1 demo_before demo_open demo_run_before)).
  rewrite list_elem_of_In. simpl. intuition discriminate.
Defined.

(** C14: Stop flushes the queue. When it has returned, every message that was added before
    it closed the channel is in a batch that was taken, in order; and once the loop does
    not broadcast either, each of these batches was accepted or lost. *)
Theorem stop_flushes n tr0 m0 m1 tr m2 :
  run mstep (initial n) tr0 m0 -> mstep m0 (Some Closed) m1 -> run mstep m1 tr m2 ->
  SReturned ∈ stops m2 ->
  added (queue m0) `prefix_of` concat (batches (queue m2)) /\
  (loop_batch (loop m2) = [] ->
   Permutation (sent (queue m2) ++ dropped (queue m2)) (batches (queue m2))).
Proof.
  intros H0 Hc Hr Hs. apply run_manager_inv in H0.
  assert (H1 : manager_inv m1 /\ flushed (added (queue m0)) m1)
    by (split; [by eapply mstep_inv|by eapply close_flushed]).
  apply (run_inv _ (fun m => manager_inv m /\ flushed _ m) _ _ _ (mstep_flushed _) Hr) in H1 as [Hi Hf]. split.
  - apply (fl_taken _ _ Hf _ Hs). by left.
  - intros Hl. pose proof (inv_batches _ (mi_queue _ Hi)) as Hp.
    by rewrite (inflight_all_answered _ Hi Hs Hl), app_nil_r in Hp.
Qed.

Lemma stop_flushes_witness :
  added (queue demo_open) = [demo_msg 1; demo_msg 2] /\
  [demo_msg 1; demo_msg 2] `prefix_of` concat (batches (queue demo_stopped)).
Proof.
  split; [reflexivity|].
  apply (stop_flushes 1 demo_before demo_open demo_closed demo_after demo_stopped
           demo_run_before demo_close demo_run_after).
  by left.
Defined.

(** C15: a stopped manager comes to an end. Once the channel is closed, the goroutines take
    at most [4 * n + 4] more steps, however many messages are added meanwhile, and none of
    them is ever stuck: when no step but an addition is possible, the loop and every
    caller of Stop have returned, or one panicked. *)
Theorem closed_manager_ends n tr m :
  run mstep (initial n) tr m -> stopped (queue m) = true ->
  forall tr' m', run mstep m tr' m' ->
    (internal tr' <= 4 * n + 4)%nat /\
    ((forall e m'', mstep m' e m'' -> is_add e = true) -> ended m').
Proof.
  intros Hr Hst tr' m' Hr'. pose proof (run_manager_inv _ _ _ Hr) as Hi.
  pose proof (run_work _ _ _ Hr' Hi Hst) as Hw. pose proof (work_bound m) as Hb.
  rewrite (run_stops _ _ _ Hr) in Hb. split; [lia|]. intros Hstuck.
  destruct (closed_progress m') as [He|(e & m'' & He & Hs)]; [..|done|].
  - by apply (run_inv _ manager_inv _ _ _ mstep_inv Hr').
  - by apply (run_inv _ (fun m => stopped (queue m) = true) _ _ _ mstep_closed Hr').
  - by rewrite (Hstuck _ _ Hs) in He.
Qed.

Lemma closed_manager_ends_witness : internal demo_after = 2%nat /\ (internal demo_after <= 8)%nat.
Proof.
  split; [reflexivity|].
  apply (closed_manager_ends 1 _ demo_closed demo_run_closed eq_refl demo_after demo_stopped demo_run_after).
Defined.

(** A manager that one goroutine stops never panics. *)
Theorem one_stop_no_panic n tr m : (n <= 1)%nat -> run mstep (initial n) tr m -> crashed m = false.
Proof.
  intros Hn Hr.
  enough (H : (manager_inv m /\ length (stops m) = n) /\ crashed m = false) by apply H.
  eapply (run_inv mstep (fun m => (manager_inv m /\ length (stops m) = n) /\ crashed m = false)); [|exact Hr|].
  - intros s e s' Hs [[Hi Hl] Hc]. split; [split; [by eapply mstep_inv|]|].
    + destruct Hs; simpl in *; rewrite ?length_app in *; simpl in *; lia.
    + destruct Hs; try done. simpl in *. pose proof (mi_closers _ Hi) as Hcl. simpl in Hcl.
      rewrite H, closers_app in Hcl. rewrite length_app in Hl. simpl in *.
      destruct s1, s2; simpl in *; lia.
  - split; [split; [apply manager_inv_initial|by apply length_replicate]|done].
Qed.

(** Messages that are added when the goroutines have returned are never sent, although
    AddToBatch returns nil for them: in every run from there they stay in the queue. *)
Theorem added_after_end_is_lost m tr m' :
  loop m = LReturned -> (forall s, s ∈ stops m -> s = SReturned) -> run mstep m tr m' ->
  (len (queue m) <= length (array (queue m)))%nat ->
  txQueue (queue m') = txQueue (queue m) ++ added_msgs tr /\
  batches (queue m') = batches (queue m) /\ accepted_batches tr = [].
Proof.
  intros Hl Hs Hr. revert Hl Hs.
  induction Hr as [m|m1 e m2 tr m3 H1 _ IH]; intros Hl Hs Hq; [by rewrite app_nil_r|].
  destruct (ended_step _ _ _ H1 Hl Hs) as (msgs & -> & Hl2 & Hs2 & Hq2).
  rewrite <- Hs2 in Hs. destruct (IH Hl2 Hs) as (E1 & E2 & E3).
  { rewrite Hq2. simpl. rewrite !length_app, length_take. lia. }
  rewrite E1, E2, Hq2, txQueue_add by done. split; [|by split].
  by rewrite <- app_assoc.
Qed.

(** Stop does not wait for the loop. There is a run in which it has returned although a
    batch that was taken before the channel was closed is still in flight - process ends
    then, and with it the broadcast - and in which this batch reaches the chain after the
    messages that were added behind it. *)
Theorem stop_does_not_wait :
  exists tr m m', run mstep (initial 1) tr m /\ stops m = [SReturned] /\
    loop m = LSend [demo_msg 1] /\ inflight (queue m) = [[demo_msg 1]] /\
    mstep m (Some (Accepted [demo_msg 1])) m' /\
    added (queue m') = [demo_msg 1; demo_msg 2] /\ concat (sent (queue m')) = [demo_msg 2; demo_msg 1].
Proof.
  exists ((demo_before ++ [Some Closed]) ++ demo_after), demo_stopped, (mkManager
    (broadcast [] [demo_msg 1] [] true (queue demo_stopped)) false LSelect [SReturned] false).
  split; [eapply run_app; [apply demo_run_closed|apply demo_run_after]|].
  repeat (split; [reflexivity|]). split; [|done].
  by apply (m_loop_sent _ _ _ _ _ _ true).
Qed.
