(* ===== verification/Hooks.v ===== *)
(** The git hooks (hooks/utils/input.go, hooks/gitopia-pre-receive,
    hooks/gitopia-post-receive): what they read from git and when they accept a push.

    git runs a hook once per push and writes one line "old new ref" per updated ref. *)

From S2P Require Import Prelude GoInt GoStrings World.

#[local] Open Scope string_scope.

Definition ZeroSHA : string := "0000000000000000000000000000000000000000".

Inductive Action := PushAction | CreateAction | DeleteAction.

#[export] Instance Action_eq_dec : EqDecision Action.
Proof. solve_decision. Defined.

Record Input := mkInput {
  in_RepoId : Z; in_RepoPath : string; in_OldRev : string; in_NewRev : string;
  in_Ref : string; in_RefType : string; in_RefName : string
}.

Definition cr : ascii := "013".

(** [bufio.NewReader(r).ReadLine()]: the first line without its end; a line that does
    not fit the buffer of 4096 bytes is cut. *)
Definition ReadLine (s : string) : res string :=
  if decide (s = "") then Er (ErrNew "EOF") else
  match Index (stake 4096 s) (String nl "") with
  | Some i => Ok (TrimSuffix (stake i s) (String cr ""))
  | None => if decide (4096 <= slen s)%nat then Ok (TrimSuffix (stake 4096 s) (String cr "")) else Ok s
  end.

Definition parseHookAction (old new : string) : Action :=
  if decide (old = ZeroSHA /\ new <> ZeroSHA) then CreateAction
  else if decide (old <> ZeroSHA /\ new = ZeroSHA) then DeleteAction
  else PushAction.

Definition in_Action (i : Input) : Action := parseHookAction (in_OldRev i) (in_NewRev i).

Section Hooks.
Context (env : Env).

Definition Parse (inputStream : string) : Prog Input :=
  line ← lift (of_res (ReadLine inputStream));
  let chunks := Split line " " in
  if decide (length chunks <> 3)%nat then fail (ErrNew "invalid hook input") else
  old ← lift (index chunks 0); new ← lift (index chunks 1); ref ← lift (index chunks 2);
  let refchunks := Split ref "/" in
  wd ← call env Getwd;
  let dir := match wd with Ok d => d | Er _ => "" end in
  let '(b, _, _) := Cut (Base dir) "." in
  id ← lift (of_res (ParseUint b));
  refType ← lift (index refchunks 1);
  refName ← lift (index refchunks 2);
  mret (mkInput id dir old new ref refType refName).

Definition IsForcePush (i : Input) : Prog bool :=
  if decide (in_OldRev i = ZeroSHA \/ in_NewRev i = ZeroSHA) then mret false else
  r ← call env (CombinedOutput ["git"; "merge-base"; in_OldRev i; in_NewRev i]);
  match snd r with
  | Some e => fail (ErrWrap ("git merge base failed" +:+ fst r) e)
  | None => mret (bool_decide (TrimSpace (fst r) <> in_OldRev i))
  end.

Definition IsForcePushAllowedForBranch (repo : Z) (branch : string) : Prog bool :=
  _ ← wrapM "error connecting to gitopia" (call_res env GetQueryClient);
  r ← wrapM "error querying repo" (call_res env (QRepository repo));
  b ← wrapM "error querying repo branch" (call_res env (QRepositoryBranch (rp_OwnerId r) (rp_Name r) branch));
  mret (br_AllowForcePush b).

Definition NonFFErr : error := ErrNew "non fast-forward pushes are not allowed".

(** hooks/gitopia-pre-receive/main.go: an error makes git refuse the push. *)
Definition pre_receive (stdin : string) : Prog unit :=
  input ← wrapM "error parsing input" (Parse stdin);
  r ← attempt (IsForcePushAllowedForBranch (in_RepoId input) (in_RefName input));
  match r with
  | Er e => if Contains (Error e) "branch not found" then mret tt
            else fail (ErrWrap "error fetching force push config" e)
  | Ok true => mret tt
  | Ok false =>
      force ← wrapM "error checking force push" (IsForcePush input);
      match force with true => fail NonFFErr | false => mret tt end
  end.

(** hooks/gitopia-post-receive/main.go: keep the old head of a branch that was
    deleted or rewritten. *)
Definition post_receive (stdin : string) : Prog unit :=
  input ← wrapM "error parsing input" (Parse stdin);
  force ← wrapM "error checking force push" (IsForcePush input);
  if decide (force = true \/ in_Action input = DeleteAction) then
    let args := ["git"; "update-ref"; "refs/dangling/" +:+ in_OldRev input; in_OldRev input] in
    _ ← wrapM "error getting update ref err stream" (call_res env (StderrPipe args));
    _ ← wrapM "error craeting update-ref command" (call_res env (Start "" args));
    er ← wrapM "error reading update ref err stream" (call_res env ReadStderr);
    wrapM ("error waiting to run update-ref command:" +:+ er) (call_res env Wait)
  else mret tt.
End Hooks.

#[local] Close Scope string_scope.

(** * Lemmas *)

(** A line that git writes. *)
Definition hook_line (old new ref : string) : string := (old +:+ " " +:+ new +:+ " " +:+ ref)%string.

Lemma Index_nl a rest :
  has_char nl a = false -> Index (a +:+ String nl rest) (String nl EmptyString) = Some (slen a).
Proof.
  induction a as [|c a IH]; intros Ha.
  - simpl. by destruct rest.
  - cbn [has_char] in Ha. apply orb_false_iff in Ha as [Hc Ha].
    change (String c a +:+ String nl rest) with (String c (a +:+ String nl rest)).
    cbn [Index]. rewrite prefix_one, Hc, (IH Ha). done.
Qed.

Lemma stake_long n a b : (slen a <= n)%nat -> stake n (a +:+ b) = a +:+ stake (n - slen a) b.
Proof.
  revert n. induction a as [|c a IH]; intros n Hn; [simpl; by rewrite Nat.sub_0_r|].
  destruct n as [|n]; simpl in *; [lia|]. by rewrite IH by lia.
Qed.

(** The hook sees the first line, whatever follows. *)
Lemma ReadLine_first line rest :
  has_char nl line = false -> (slen line < 4096)%nat ->
  ReadLine (line +:+ String nl rest) = Ok (TrimSuffix line (String cr EmptyString)).
Proof.
  intros Hl Hn. unfold ReadLine. rewrite decide_False by (by destruct line).
  rewrite stake_long by lia. destruct (4096 - slen line)%nat as [|k] eqn:Ek; [lia|].
  cbn [stake]. rewrite Index_nl by done. by rewrite stake_app.
Qed.

Lemma chunks_of_line old new ref :
  has_char " " old = false -> has_char " " new = false -> has_char " " ref = false ->
  Split (hook_line old new ref) " " = [old; new; ref].
Proof.
  intros Ho Hn Hr.
  change (hook_line old new ref) with (old +:+ String " " (new +:+ String " " ref)).
  rewrite (Split_app " " old) by done. rewrite (Split_app " " new) by done.
  by rewrite (Split_none " " ref).
Qed.

Lemma refchunks_of_ref ty name :
  has_char "/" ty = false ->
  Split ("refs/" +:+ ty +:+ "/" +:+ name)%string "/" = "refs"%string :: ty :: Split name "/".
Proof.
  intros Ht. change ("refs/" +:+ ty +:+ "/" +:+ name)%string with
    ("refs" +:+ String "/" (ty +:+ String "/" name))%string.
  rewrite (Split_app "/" "refs") by done. by rewrite (Split_app "/" ty).
Qed.

Section Parse.
Context (env : Env) (id : Z) (dir : string).
Context (cwd : forall h, env _ h Getwd = Ok dir).
Context (repo_id : ParseUint (fst (fst (Cut (Base dir) "."))) = Ok id).

(** Reading one line, for a ref [refs/ty/name]; what comes after the line is not
    looked at, nor what comes after a slash in the name. *)
Lemma Parse_line old new ty name rest h :
  let line := hook_line old new ("refs/" +:+ ty +:+ "/" +:+ name)%string in
  has_char nl line = false -> (slen line < 4096)%nat -> HasSuffix line (String cr EmptyString) = false ->
  has_char " " old = false -> has_char " " new = false ->
  has_char " " ty = false -> has_char " " name = false -> has_char "/" ty = false ->
  Parse env (line +:+ String nl rest) h =
    (Val (mkInput id dir old new ("refs/" +:+ ty +:+ "/" +:+ name)%string ty
            (default EmptyString (head (Split name "/")))),
     h ++ [Did Getwd (Ok dir)]).
Proof using cwd repo_id.
  intros line Hnl Hlen Hcr Ho Hn Hty Hname Hslash. unfold Parse.
  assert (Hch : Split line " " = [old; new; ("refs/" +:+ ty +:+ "/" +:+ name)%string]).
  { apply chunks_of_line; [done|done|]. rewrite !has_char_app, Hty, Hname. done. }
  rewrite ReadLine_first, TrimSuffix_none by done.
  unfold of_res. rewrite run_lift_bind, Hch. cbv zeta. rewrite decide_False by (simpl; lia).
  cbn [index lookup list_lookup]. rewrite !run_lift_bind. rewrite refchunks_of_ref by done.
  rewrite (run_bind_val _ _ h (Ok dir) (h ++ [Did Getwd (Ok dir)])) by (unfold call; by rewrite cwd).
  destruct (Cut (Base dir) ".") as [[b ?] ?] eqn:Ec. simpl in repo_id. rewrite repo_id.
  rewrite run_lift_bind. cbn [index lookup list_lookup]. rewrite run_lift_bind.
  pose proof (split_go_ne "/" name 0) as Hne. fold (Split name "/") in Hne.
  destruct (Split name "/") as [|n0 ns]; [done|]. done.
Qed.
End Parse.

(** * Properties *)

(** A line for a branch, as git writes it, with none of the characters the parser cuts
    at. *)
Definition plain_push (old new name : string) : Prop :=
  has_char " " old = false /\ has_char " " new = false /\ has_char " " name = false /\
  has_char "/" name = false /\
  let line := hook_line old new ("refs/heads/" +:+ name)%string in
  has_char nl line = false /\ (slen line < 4096)%nat /\ HasSuffix line (String cr EmptyString) = false.

(** C7: the pre-receive hook refuses a push to a protected branch exactly when it is not
    a fast-forward. For a push of one branch whose name has no slash, in the directory of
    repository [id], with a chain that knows the branch and a git that finds the merge
    base, the hook accepts iff the branch allows force pushes, or the branch is created
    or deleted, or the merge base is the old head; otherwise it fails with the error for
    force pushes. *)
Theorem pre_receive_protects (env : Env) id dir repo branch base old new name h :
  (forall h, env _ h Getwd = Ok dir) ->
  ParseUint (fst (fst (Cut (Base dir) "."))) = Ok id ->
  (forall h, env _ h GetQueryClient = Ok tt) ->
  (forall h, env _ h (QRepository id) = Ok repo) ->
  (forall h, env _ h (QRepositoryBranch (rp_OwnerId repo) (rp_Name repo) name) = Ok branch) ->
  (forall h, env _ h (CombinedOutput ["git"; "merge-base"; old; new]%string) = (base, None)) ->
  plain_push old new name ->
  fst (pre_receive env (hook_line old new ("refs/heads/" +:+ name)%string +:+ String nl EmptyString) h) =
    if bool_decide (br_AllowForcePush branch = true \/ old = ZeroSHA \/ new = ZeroSHA \/ TrimSpace base = old)
    then Val tt else Fail NonFFErr.
Proof.
  intros Hwd Hid Hqc Hrepo Hbranch Hbase (H1 & H2 & H3 & H4 & H5 & H6 & H7).
  unfold pre_receive.
  assert (HP : wrapM "error parsing input"
      (Parse env (hook_line old new ("refs/heads/" +:+ name)%string +:+ String nl EmptyString)) h =
    (Val (mkInput id dir old new ("refs/heads/" +:+ name)%string "heads" name), h ++ [Did Getwd (Ok dir)])).
  { unfold wrapM. erewrite (Parse_line env id dir Hwd Hid old new "heads" name EmptyString) by done.
    by rewrite (Split_none "/" name). }
  rewrite (run_bind_val _ _ _ _ _ HP). cbn [in_RepoId in_RefName]. set (h1 := h ++ _).
  assert (HA : exists h2, attempt (IsForcePushAllowedForBranch env id name) h1
                          = (Val (Ok (br_AllowForcePush branch)), h2)).
  { unfold attempt, IsForcePushAllowedForBranch, wrapM, call_res, call. rewrite !run_bind.
    cbv beta iota zeta. rewrite Hqc. cbn [of_res lift mret GoM_ret]. rewrite !run_bind. cbv beta iota zeta.
    rewrite Hrepo. cbn [of_res lift]. rewrite !run_bind. cbv beta iota zeta. rewrite Hbranch.
    cbn. by eexists. }
  destruct HA as [h2 HA]. rewrite (run_bind_val _ _ _ _ _ HA). clear HA.
  destruct (br_AllowForcePush branch).
  { by rewrite bool_decide_eq_true_2 by (by left). }
  unfold wrapM, IsForcePush. cbn [in_OldRev in_NewRev]. rewrite run_bind.
  destruct (decide (old = ZeroSHA \/ new = ZeroSHA)) as [Hz|Hz].
  { rewrite (bool_decide_eq_true_2 (false = true \/ _)) by (destruct Hz; auto). done. }
  unfold call. rewrite run_bind. cbv beta iota zeta. rewrite Hbase. cbn.
  destruct (decide (TrimSpace base = old)) as [Hb|Hb].
  - rewrite (bool_decide_eq_false_2 (_ <> _)) by auto. by rewrite (bool_decide_eq_true_2 (false = true \/ _)) by auto.
  - rewrite (bool_decide_eq_true_2 (_ <> _)) by done.
    rewrite (bool_decide_eq_false_2 (false = true \/ _)); [done|].
    intros [?|[?|[?|?]]]; [done|apply Hz; auto..|done].
Qed.

(** A protected branch [main] at [aaa] with merge base [aaa] for a fast-forward to [bbb];
    every other pair of heads has merge base [ccc]. *)
Definition hook_env : Env := fun A h c =>
  match c in Call A return A with
  | Getwd => Ok "/data/7.git"%string
  | QRepository id => Ok (mkRepository id "r" false 0 "o" OwnerType_USER [])
  | QRepositoryBranch _ _ b =>
      if decide (b = "main"%string) then Ok (mkBranch "main" "aaa" false 7)
      else Er (ErrNew "branch not found")
  | CombinedOutput args =>
      ((if decide (args = ["git"; "merge-base"; "aaa"; "bbb"]%string) then "aaa" else "ccc")%string
         +:+ String nl EmptyString, None)
  | c => quiet c
  end.

Lemma pre_receive_protects_witness :
  fst (pre_receive hook_env (hook_line "aaa" "ddd" "refs/heads/main" +:+ String nl EmptyString) [])
  = Fail NonFFErr.
Proof.
  apply (pre_receive_protects hook_env 7 "/data/7.git" (mkRepository 7 "r" false 0 "o" OwnerType_USER [])
           (mkBranch "main" "aaa" false 7) ("ccc" +:+ String nl EmptyString) "aaa" "ddd" "main" []); try done.
  repeat split; vm_compute; try done; lia.
Defined.

(** Only the first ref of a push is checked. The hook's verdict does not depend on
    anything after the first line, so a push that starts with a harmless ref may rewrite
    a protected branch in its second line. *)
Theorem pre_receive_checks_first_ref_only (env : Env) line rest h :
  has_char nl line = false -> (slen line < 4096)%nat ->
  pre_receive env (line +:+ String nl rest) h = pre_receive env (line +:+ String nl EmptyString) h.
Proof.
  intros Hl Hn. unfold pre_receive, Parse. by rewrite !ReadLine_first.
Qed.

Lemma pre_receive_checks_first_ref_only_witness :
  let force := (hook_line "aaa" "ddd" "refs/heads/main" +:+ String nl EmptyString)%string in
  let harmless := hook_line ZeroSHA "eee" "refs/heads/new" in
  fst (pre_receive hook_env force []) = Fail NonFFErr /\
  fst (pre_receive hook_env (harmless +:+ String nl force) []) = Val tt.
Proof.
  intros force harmless. split; [reflexivity|].
  rewrite (pre_receive_checks_first_ref_only hook_env harmless force []);
    [reflexivity|reflexivity|vm_compute; lia].
Defined.

(** A branch whose name has a slash is protected by the settings of another one.
    For [refs/heads/a/b] the hook asks for the branch [a]. *)
Theorem Parse_nested_branch (env : Env) id dir old new a b h :
  (forall h, env _ h Getwd = Ok dir) ->
  ParseUint (fst (fst (Cut (Base dir) "."))) = Ok id ->
  has_char "/" a = false -> has_char " " old = false -> has_char " " new = false ->
  has_char " " a = false -> has_char " " b = false ->
  let line := hook_line old new ("refs/heads/" +:+ a +:+ "/" +:+ b)%string in
  has_char nl line = false -> (slen line < 4096)%nat -> HasSuffix line (String cr EmptyString) = false ->
  fst (Parse env (line +:+ String nl EmptyString) h) =
    Val (mkInput id dir old new ("refs/heads/" +:+ a +:+ "/" +:+ b)%string "heads" a).
Proof.
  intros Hwd Hid Ha H1 H2 H3 H4 line Hl Hn Hcr.
  etransitivity; [apply (f_equal fst), (Parse_line env id dir Hwd Hid old new "heads" (a +:+ "/" +:+ b)%string)|];
    try done.
  - by rewrite !has_char_app, H3, H4.
  - cbn [fst]. change (a +:+ "/" +:+ b)%string with (a +:+ String "/" b). by rewrite (Split_app "/" a).
Qed.

Lemma Parse_nested_branch_witness :
  fst (Parse hook_env (hook_line "aaa" "ddd" "refs/heads/main/x" +:+ String nl EmptyString) []) =
    Val (mkInput 7 "/data/7.git" "aaa" "ddd" "refs/heads/main/x" "heads" "main").
Proof.
  apply (Parse_nested_branch hook_env 7 "/data/7.git" "aaa" "ddd" "main" "x" []); try done.
  vm_compute. lia.
Defined.
