(* ===== verification/Auth.v ===== *)
(** Who may push: utils/auth.go and internal/app/auth.go.

    A client sends, as the password of HTTP Basic authentication, a transaction it has
    signed. The server decodes it, checks that one account signed it, asks the chain
    whether that account may push to the repository named in the path of the request,
    and verifies the signature. Decoding and verifying are done by the chain's own
    packages: they are the interface [Offchain]. *)

From S2P Require Import Prelude GoInt GoStrings Base64 World.

#[local] Open Scope string_scope.

(** * Requests *)

(** A request: [URL.Path] and [RequestURI], the parsed query, the header with its
    canonical keys. *)
Record HttpRequest := mkHttpRequest {
  r_Method : string; r_Path : string; r_RequestURI : string; r_Query : string -> string;
  r_Header : list (string * list string); r_ContentLength : Z; r_TLS : bool; r_Host : string
}.

(** [header.Get] of a canonical key. *)
Definition header_get (header : list (string * list string)) (key : string) : string :=
  match list_find (fun kv => kv.1 = key) header with
  | Some (_, (_, v :: _)) => v
  | _ => ""
  end.

(** * utils/auth.go *)
Definition DecodeBearer (header : list (string * list string)) : string :=
  match Split (header_get header "Authorization") "Bearer " with
  | [_; token] => token
  | _ => ""
  end.

Definition DecodeBasic (header : list (string * list string)) : string * string :=
  if decide (length header = 0)%nat then ("", "") else
  match Fields (header_get header "Authorization") with
  | [scheme; credentials] =>
      if decide (scheme <> "Basic") then ("", "") else
      match base64_decode credentials with
      | None => ("", "")
      | Some p =>
          match SplitN p ":" 2 with
          | user :: password :: _ => (user, password)
          | user :: [] => (user, "")
          | [] => ("", "")
          end
      end
  | _ => ("", "")
  end.

(** The path of a request to repository 7 is [/7.git/...]. *)
Definition ParseRepositoryIdfromURI (uri : string) : outcome Z :=
  idStr ← index (Split uri "/") 1;
  of_res (ParseUint (TrimSuffix idStr ".git")).

(** The chain's packages: transactions, the signers of each of their messages, and the
    check of the signatures; the levels of collaborators. *)
Class Offchain := {
  Tx : Type;
  decode_tx : string -> res Tx;
  tx_signers : Tx -> list (list string);
  verify_tx : Tx -> res unit;
  PushBranchPermission : Z;
  RepositoryCollaboratorExists : list Collaborator -> string -> option nat
}.

(** What is documented of them: the index is that of the first collaborator with the
    address. *)
Class OffchainLaws `{Offchain} :=
  collaborator_index : forall cs address,
    RepositoryCollaboratorExists cs address = fst <$> list_find (fun c => cl_Id c = address) cs.

Section Auth.
Context (env : Env) `{Offchain}.

Definition HavePushPermission (repoId : Z) (address : string) : Prog bool :=
  _ ← call_res env GrpcDial;
  repo ← call_res env (QRepository repoId);
  havePermission ←
    match rp_OwnerType repo with
    | OwnerType_USER => mret (bool_decide (address = rp_OwnerId repo))
    | OwnerType_DAO =>
        members ← call_res env (QDaoMemberAll (rp_OwnerId repo));
        mret (bool_decide (address ∈ members))
    end;
  match havePermission with
  | true => mret true
  | false =>
      match RepositoryCollaboratorExists (rp_Collaborators repo) address with
      | None => mret false
      | Some i =>
          c ← lift (index (rp_Collaborators repo) i);
          mret (bool_decide (PushBranchPermission <= cl_Permission c))
      end
  end.

(** The one signer of the one message. *)
Definition single_signer (tx : Tx) : outcome string :=
  match tx_signers tx with
  | [[address]] => Val address
  | _ => Fail (ErrNew "invalid signature")
  end.

Definition ValidateBasicAuth (r : HttpRequest) (username password : string) : Prog (bool * string) :=
  repoId ← lift (ParseRepositoryIdfromURI (r_Path r));
  tx ← lift (match decode_tx password with Ok tx => Val tx | Er _ => Fail (ErrNew "error decoding") end);
  _ ← lift (of_res (verify_tx tx));
  address ← lift (single_signer tx);
  havePushPermission ← flatten "error checking push permission" (HavePushPermission repoId address);
  match havePushPermission with
  | false => fail (ErrNew "user does not have push permission")
  | true => mret (true, address)
  end.

(** * internal/app/auth.go *)
Definition AuthFunc (token : string) (r : HttpRequest) : Prog (bool * string) :=
  repoID ← lift (ParseRepositoryIdfromURI (r_Path r));
  tx ← wrapM "error decoding token" (lift (of_res (decode_tx token)));
  address ← lift (single_signer tx);
  havePushPermission ← wrapM "error checking push permission" (HavePushPermission repoID address);
  match havePushPermission with
  | false => fail (ErrNew "user does not have push permission")
  | true =>
      _ ← wrapM "signature verification failed" (lift (of_res (verify_tx tx)));
      mret (true, address)
  end.
End Auth.

#[local] Close Scope string_scope.

(** * What the answers of the chain say about an account

    [may_push id address h]: in the trace [h] the chain described repository [id] so that
    [address] may push to it: as its owner, as a member of the DAO that owns it, or as a
    collaborator of sufficient level. *)
Section MayPush.
Context `{Offchain}.

Definition may_push (id : Z) (address : string) (h : Trace) : Prop :=
  exists repo, Did (QRepository id) (Ok repo) ∈ h /\
    (rp_OwnerType repo = OwnerType_USER /\ address = rp_OwnerId repo \/
     rp_OwnerType repo = OwnerType_DAO /\
       (exists members, Did (QDaoMemberAll (rp_OwnerId repo)) (Ok members) ∈ h /\ address ∈ members) \/
     exists i c, RepositoryCollaboratorExists (rp_Collaborators repo) address = Some i /\
       rp_Collaborators repo !! i = Some c /\ PushBranchPermission <= cl_Permission c).

Lemma lasting_may_push id address : lasting (may_push id address).
Proof.
  intros h t (repo & Hr & Hp). exists repo. split; [set_solver|].
  destruct Hp as [?|[[? (ms & ? & ?)]|?]]; [by left| |by right; right].
  right; left. split; [done|]. exists ms. set_solver.
Qed.

(** [token] is signed by [address], which may push to the repository of the path. *)
Definition authorised (token path address : string) (h : Trace) : Prop :=
  exists id tx, ParseRepositoryIdfromURI path = Val id /\ decode_tx token = Ok tx /\
    tx_signers tx = [[address]] /\ verify_tx tx = Ok tt /\ may_push id address h.

Lemma lasting_authorised token path address : lasting (authorised token path address).
Proof.
  intros h t (id & tx & ? & ? & ? & ? & ?). exists id, tx. by repeat split; try apply lasting_may_push.
Qed.
End MayPush.

(** * Soundness of the checks *)
Section Sound.
Context (env : Env) `{Offchain}.

Lemma of_res_val {A} (r : res A) a : of_res r = Val a -> r = Ok a.
Proof. destruct r; [by intros [= ->]|done]. Qed.

Lemma collaborator_ends repo address h (Q : bool -> Trace -> Prop) :
  (forall b, (b = true -> exists i c,
       RepositoryCollaboratorExists (rp_Collaborators repo) address = Some i /\
       rp_Collaborators repo !! i = Some c /\ PushBranchPermission <= cl_Permission c) -> Q b h) ->
  ends (match RepositoryCollaboratorExists (rp_Collaborators repo) address with
        | None => mret false
        | Some i =>
            c ← lift (index (rp_Collaborators repo) i);
            mret (bool_decide (PushBranchPermission <= cl_Permission c))
        end) h Q.
Proof.
  intros HQ. destruct (RepositoryCollaboratorExists _ _) as [i|] eqn:Ei; [|by apply ends_ret, HQ].
  apply ends_bind, ends_lift. intros c Hc. unfold index in Hc.
  destruct (_ !! i) as [c'|] eqn:El; [|done]. injection Hc as ->.
  apply ends_ret, HQ. intros Hb%bool_decide_eq_true_1. eauto.
Qed.

Lemma HavePushPermission_ends id address h :
  ends (HavePushPermission env id address) h (fun b h' => b = true -> may_push id address h').
Proof.
  unfold HavePushPermission. apply ends_skip. intros _ h1.
  apply ends_bind, ends_call_res. intros repo _. set (h2 := h1 ++ _).
  assert (Hrepo : Did (QRepository id) (Ok repo) ∈ h2) by set_solver.
  apply ends_bind. destruct (rp_OwnerType repo) eqn:Et.
  - apply ends_ret. case_bool_decide as Ha.
    + apply ends_ret. intros _. exists repo. auto.
    + apply collaborator_ends. intros b Hb Hbt. exists repo. auto.
  - apply ends_bind, ends_call_res. intros members _. apply ends_ret. case_bool_decide as Ha.
    + apply ends_ret. intros _. exists repo. split; [set_solver|]. right; left. split; [done|].
      exists members. set_solver.
    + apply collaborator_ends. intros b Hb Hbt. exists repo. split; [set_solver|auto].
Qed.

Lemma single_signer_val tx address : single_signer tx = Val address -> tx_signers tx = [[address]].
Proof.
  unfold single_signer. destruct (tx_signers tx) as [|[|a [|]] [|]]; try done. by intros [= ->].
Qed.

Lemma AuthFunc_ends token r h :
  ends (AuthFunc env token r) h (fun a h' => authorised token (r_Path r) a.2 h').
Proof.
  unfold AuthFunc. apply ends_bind, ends_lift. intros id Hid.
  apply ends_bind, ends_wrapM, ends_lift. intros tx Htx%of_res_val.
  apply ends_bind, ends_lift. intros address Ha%single_signer_val.
  apply ends_bind, ends_wrapM. eapply ends_mono; [apply HavePushPermission_ends|].
  intros b h1 Hp. destruct b; [|done].
  apply ends_bind, ends_wrapM, ends_lift. intros [] Hv%of_res_val.
  apply ends_ret. exists id, tx. auto 6.
Qed.

Lemma ValidateBasicAuth_ends r user password h :
  ends (ValidateBasicAuth env r user password) h (fun a h' => authorised password (r_Path r) a.2 h').
Proof.
  unfold ValidateBasicAuth. apply ends_bind, ends_lift. intros id Hid.
  apply ends_bind, ends_lift. intros tx Htx.
  assert (decode_tx password = Ok tx) by (destruct (decode_tx password); by simplify_eq).
  apply ends_bind, ends_lift. intros [] Hv%of_res_val.
  apply ends_bind, ends_lift. intros address Ha%single_signer_val.
  apply ends_bind, ends_flatten. eapply ends_mono; [apply HavePushPermission_ends|].
  intros b h1 Hp. destruct b; [|done]. apply ends_ret. exists id, tx. auto 6.
Qed.
End Sound.

(** * Properties *)

(** Owners, members of the owning DAO, and collaborators of sufficient level. *)
Definition push_allowed (level : Z) (repo : Repository) (members : list string) (address : string) : Prop :=
  (rp_OwnerType repo = OwnerType_USER /\ address = rp_OwnerId repo) \/
  (rp_OwnerType repo = OwnerType_DAO /\ address ∈ members) \/
  (exists i c, list_find (fun c => cl_Id c = address) (rp_Collaborators repo) = Some (i, c) /\
     level <= cl_Permission c).

(** C20: who may push is what the chain says. With a chain that answers, the check says yes
    exactly for the user who owns the repository, the members of the DAO that owns it, and
    the addresses whose (first) collaborator entry has the level for pushing; and it never
    panics. *)
Theorem HavePushPermission_spec (env : Env) `{OffchainLaws} id address repo members h :
  (forall h, env _ h GrpcDial = Ok tt) ->
  (forall h, env _ h (QRepository id) = Ok repo) ->
  (forall h, env _ h (QDaoMemberAll (rp_OwnerId repo)) = Ok members) ->
  exists b, fst (HavePushPermission env id address h) = Val b /\
    (b = true <-> push_allowed PushBranchPermission repo members address).
Proof.
  intros Hd Hr Hm. unfold HavePushPermission, call_res, call. rewrite !run_bind. cbv beta iota zeta.
  rewrite Hd. cbn [of_res lift]. rewrite !run_bind. cbv beta iota zeta. rewrite Hr. cbn [of_res lift].
  rewrite run_bind. unfold push_allowed. rewrite collaborator_index.
  destruct (rp_OwnerType repo).
  - cbn [mret GoM_ret]. case_bool_decide as Ha; [exists true; naive_solver|].
    destruct (list_find _ _) as [[i c]|] eqn:Ef; simpl; [|exists false; naive_solver].
    pose proof Ef as (Hc & _ & _)%list_find_Some. rewrite run_bind. unfold index. rewrite Hc. simpl.
    eexists; split; [done|]. rewrite bool_decide_eq_true. naive_solver.
  - rewrite run_bind. unfold call_res, call. rewrite run_bind. cbv beta iota zeta. rewrite Hm.
    cbn [of_res lift mret GoM_ret]. case_bool_decide as Ha; [exists true; naive_solver|].
    destruct (list_find _ _) as [[i c]|] eqn:Ef; simpl; [|exists false; naive_solver].
    pose proof Ef as (Hc & _ & _)%list_find_Some. rewrite run_bind. unfold index. rewrite Hc. simpl.
    eexists; split; [done|]. rewrite bool_decide_eq_true. naive_solver.
Qed.

(** Tokens are the addresses that signed them; [eve]'s do not verify. *)
#[local] Open Scope string_scope.
Definition demo_offchain : Offchain := {|
  Tx := string;
  decode_tx := Ok;
  tx_signers := fun tx => [[tx]];
  verify_tx := fun tx => if decide (tx = "eve") then Er (ErrNew "signature verification failed") else Ok tt;
  PushBranchPermission := 2;
  RepositoryCollaboratorExists := fun cs address => fst <$> list_find (fun c => cl_Id c = address) cs
|}.

Lemma demo_offchain_laws : @OffchainLaws demo_offchain.
Proof. done. Qed.

(** Repository 7 of the DAO [dao] with the member [bob]; [carol] may triage, [dave] may
    push. *)
Definition dao_repo : Repository :=
  mkRepository 7 "r" false 0 "dao" OwnerType_DAO [mkCollaborator "carol" 1; mkCollaborator "dave" 2].
Definition auth_env : Env := fun A h c =>
  match c in Call A return A with
  | QRepository _ => Ok dao_repo
  | QDaoMemberAll _ => Ok ["bob"]
  | c => quiet c
  end.

Lemma HavePushPermission_spec_witness :
  exists b, fst (@HavePushPermission auth_env demo_offchain 7 "dave" []) = Val b /\
    (b = true <-> push_allowed 2 dao_repo ["bob"] "dave").
Proof.
  apply (@HavePushPermission_spec auth_env demo_offchain demo_offchain_laws 7 "dave" dao_repo ["bob"] []);
    done.
Defined.

Example push_permissions :
  map (fun a => fst (@HavePushPermission auth_env demo_offchain 7 a [])) ["bob"; "carol"; "dave"; "dao"]
  = [Val true; Val false; Val true; Val false].
Proof. reflexivity. Qed.

Example DecodeBasic_alice : DecodeBasic [("Authorization", ["Basic Ym9iOnRva2Vu"])] = ("bob", "token").
Proof. reflexivity. Qed.
