(* ===== verification/Lfs.v ===== *)
(** Git LFS: the object store on disk (lfs/oid.go, lfs/storage.go) and the HTTP handlers
    of the batch API, the basic transfer and the lock API (route/lfs). *)

From S2P Require Import Prelude GoInt GoStrings GoPath StorageFee Merkle World ChainClient Cache PinHandlers Auth.

#[local] Open Scope string_scope.

(** * lfs/oid.go *)

(** The regular expression [^\[a-f0-9\]{64}$]. *)
Definition hex_digit (c : ascii) : bool :=
  has_char c "abcdef0123456789".
Definition ValidOID (oid : string) : bool :=
  Nat.eqb (slen oid) 64 && forallb hex_digit (String.list_ascii_of_string oid).

Definition ErrInvalidOID : error := ErrNew "OID is not valid".
Definition ErrObjectNotExist : error := ErrNew "Object does not exist".

(** * lfs/storage.go *)
Section LocalStorage.
Context (env : Env) (Root : string).

Definition storagePath (oid : string) : string := PathJoin [Root; oid].

(** The deferred function removes the file when [err] is not nil. *)
Definition LocalStorage_Upload (oid : string) : Prog Z :=
  if negb (ValidOID oid) then fail ErrInvalidOID else
  let fpath := storagePath oid in
  on_error
    (_ ← wrapM "create directories" (call_res env (MkdirAll (Dir fpath)));
     _ ← wrapM "create file" (call_res env (Create fpath));
     wrapM "copy file" (call_res env (CopyInto fpath)))
    (fun e => _ ← call env (Remove fpath); fail e)
    mret.

Definition LocalStorage_Download (oid : string) : Prog unit :=
  let fpath := storagePath oid in
  st ← call env (Stat fpath);
  match st with
  | NotExist => fail ErrObjectNotExist
  | _ =>
      _ ← wrapM "open file" (call_res env (OpenFile fpath));
      wrapM "copy file" (call_res env CopyToResponse)
  end.

(** An error other than [IsNotExist] leaves a nil [info]. *)
Definition LocalStorage_Size (oid : string) : Prog Z :=
  st ← call env (Stat (storagePath oid));
  match st with
  | NotExist => fail ErrObjectNotExist
  | StatError _ => gopanic "nil pointer dereference"
  | Exists size => mret size
  end.
End LocalStorage.

(** * Responses *)
Section Responses.
Context (env : Env).

Definition contentType : string := "application/vnd.git-lfs+json".

(** An error of the encoder is logged. *)
Definition responseJSON (status : Z) (v : json) : Prog unit :=
  _ ← call env (SetHeader "Content-Type" contentType);
  _ ← call env (WriteHeader status);
  _ ← call env (EncodeJson v);
  mret tt.

Definition responseError (message : string) : json := JObj [("message", JStr message)].

Definition internalServerError : Prog unit := responseJSON 500 (responseError "Internal server error").
End Responses.

(** * route/lfs/basic.go *)
Section Basic.
Context (env : Env) (viper : string -> string) (fuel : nat) (gc : GitopiaProxy).
Context (sha256 : bytes -> bytes) `{MerkleTree} `{SdkMath} `{Offchain}.

(** The only storage is the local one, below LFS_OBJECTS_DIR. *)
Let Root := viper "LFS_OBJECTS_DIR".

(** The path is [/{id}.git/info/lfs/objects/basic/{oid}]. *)
Definition oid_of_path (path : string) : option string :=
  let components := Split path "/" in
  if decide (length components <> 7)%nat then None else components !! 6%nat.

Definition ServeDownloadHandler (r : HttpRequest) : Prog unit :=
  on_error (lift (ParseRepositoryIdfromURI (r_Path r)))
    (fun e => responseJSON env 400 (responseError (Error e)))
    (fun repoId =>
       match oid_of_path (r_Path r) with
       | None => responseJSON env 400 (responseError "Invalid oid")
       | Some oid =>
           with_rlock env (LfsKey oid)
             (size ⟵ LocalStorage_Size env Root oid ifErr internalServerError env;
              _ ← call env (SetHeader "Content-Type" "application/octet-stream");
              _ ← call env (SetHeader "Content-Length" (FormatInt size));
              _ ← call env (WriteHeader 200);
              _ ← attempt (LocalStorage_Download env Root oid);
              mret tt)
       end).

Definition localStoragePath (oid : string) : string := PathJoin [viper "LFS_OBJECTS_DIR"; oid].

Definition calculateMerkleRoot (filePath : string) : Prog bytes :=
  file ← wrapM ("failed to open file: " +:+ filePath) (call_res env (OpenFile filePath));
  _ ← wrapM ("failed to get file stat: " +:+ filePath) (call_res env (FileStat filePath));
  _ ← wrapM ("failed to create files.File from file: " +:+ filePath)
        (call_res env (NewReaderPathFile filePath));
  wrapM ("failed to compute merkle root for file: " +:+ filePath)
    (lift (ComputeMerkleRoot sha256 file)).

(** The part of the upload that holds the lock of the object. [address] is the value
    that [Authenticate] left in the context of the request. *)
Definition store_and_propose (address : option string) (repoId : Z) (oid : string) : Prog unit :=
  on_error (LocalStorage_Upload env Root oid)
    (fun e => if decide (e = ErrInvalidOID) then responseJSON env 400 (responseError (Error e))
              else internalServerError env)
    (fun size =>
       let filePath := localStoragePath oid in
       cid ⟵ ipfs_PinFile env filePath ifErr internalServerError env;
       rootHash ⟵ calculateMerkleRoot filePath ifErr internalServerError env;
       known ← attempt (LFSObjectByRepositoryIdAndOid env repoId oid);
       match known with
       | Ok _ => call env (WriteHeader 200)
       | Er _ =>
           match address with
           | None => gopanic "interface conversion: interface {} is nil, not string"
           | Some user =>
               _ ⟵ ProposeLFSObjectUpdate env gc user repoId oid cid rootHash size false
                 ifErr internalServerError env;
               _ ⟵ PollForUpdate env fuel (CheckProposeLFSObjectUpdate env repoId oid user)
                 ifErr internalServerError env;
               call env (WriteHeader 200)
           end
       end).

Definition ServeUploadHandler (address : option string) (r : HttpRequest) : Prog unit :=
  on_error (lift (ParseRepositoryIdfromURI (r_Path r)))
    (fun e => responseJSON env 400 (responseError (Error e)))
    (fun repoId =>
       match oid_of_path (r_Path r) with
       | None => responseJSON env 400 (responseError "Invalid oid")
       | Some oid =>
           repo ⟵ Repository_ env repoId ifErr internalServerError env;
           storageUsed ⟵ UserQuota env (rp_OwnerId repo) ifErr internalServerError env;
           storageParams ⟵ StorageParams env ifErr internalServerError env;
           let store := with_lock env (LfsKey oid) (store_and_propose address repoId oid) in
           if decide (Amount (StoragePricePerGb storageParams) = 0) then store else
           costInfo ⟵ lift (CalculateStorageCost storageUsed
                               (u64 (storageUsed + u64 (r_ContentLength r))) storageParams)
             ifErr internalServerError env;
           if decide (Amount (StorageCharge costInfo) = 0) then store else
           balance ⟵ CosmosBankBalance env (rp_OwnerId repo) (Denom (StorageCharge costInfo))
             ifErr internalServerError env;
           if decide (Amount balance < Amount (StorageCharge costInfo))
           then responseJSON env 402 (responseError "insufficient balance for storage charge")
           else store
       end).

Definition ServeVerifyHandler : Prog unit :=
  on_error (call_res env DecodeVerifyRequest)
    (fun e => responseJSON env 400 (responseError (Error e)))
    (fun '(oid, size) =>
       if negb (ValidOID oid) then responseJSON env 400 (responseError "Invalid oid") else
       with_rlock env (LfsKey oid)
         (stored ⟵ LocalStorage_Size env Root oid
            ifErr responseJSON env 404 (responseError "Object does not exist");
          if decide (stored <> size) then responseJSON env 400 (responseError "Object size mismatch")
          else call env (WriteHeader 200))).

(** [Authenticate(h)]: [h] runs with the address of a client that may push. *)
Definition Authenticate (h : option string -> HttpRequest -> Prog unit) (r : HttpRequest) : Prog unit :=
  let '(username, password) := DecodeBasic (r_Header r) in
  if decide (password = "") then responseJSON env 401 (responseError "Credentials needed") else
  a ⟵ ValidateBasicAuth env r username password ifErr call env (WriteHeader 401);
  if negb (fst a) then call env (WriteHeader 401) else h (Some (snd a)) r.

Definition VerifyOID (h : HttpRequest -> Prog unit) (r : HttpRequest) : Prog unit :=
  match oid_of_path (r_Path r) with
  | None => responseJSON env 400 (responseError "Invalid oid")
  | Some oid => if negb (ValidOID oid) then responseJSON env 400 (responseError "Invalid oid") else h r
  end.
End Basic.

(** * route/lfs/batch.go *)
Record batchAction := mkBatchAction { ba_Href : string; ba_Header : list (string * string) }.
Record batchError := mkBatchError { be_Code : Z; be_Message : string }.

(** [nil] pointers are [None]. *)
Record batchActions := mkBatchActions {
  bs_Download : option batchAction; bs_Upload : option batchAction;
  bs_Verify : option batchAction; bs_Error : option batchError
}.
Record batchObject := mkBatchObject { bo_Oid : string; bo_Size : Z; bo_Actions : batchActions }.

#[export] Instance batchObject_eq_dec : EqDecision batchObject.
Proof.
  assert (EqDecision batchAction) by solve_decision.
  assert (EqDecision batchError) by solve_decision.
  assert (EqDecision batchActions) by solve_decision.
  solve_decision.
Defined.

(** The struct tags, with [omitempty]. *)
Definition action_json (a : batchAction) : json :=
  JObj (("href", JStr (ba_Href a)) ::
        match ba_Header a with
        | [] => []
        | header => [("header", JObj (map (fun kv => (kv.1, JStr kv.2)) header))]
        end).
Definition field {A} (name : string) (f : A -> json) (x : option A) : list (string * json) :=
  match x with Some a => [(name, f a)] | None => [] end.
Definition actions_json (a : batchActions) : json :=
  JObj (field "download" action_json (bs_Download a) ++ field "upload" action_json (bs_Upload a) ++
        field "verify" action_json (bs_Verify a) ++
        field "error" (fun e => JObj [("code", JNum (be_Code e)); ("message", JStr (be_Message e))])
          (bs_Error a))%list.
Definition object_json (o : batchObject) : json :=
  JObj [("oid", JStr (bo_Oid o)); ("size", JNum (bo_Size o)); ("actions", actions_json (bo_Actions o))].
Definition batchResponse (objects : list batchObject) : json :=
  JObj [("transfer", JStr "basic"); ("objects", JArr (map object_json objects))].

Definition only_error (code : Z) (message : string) : batchActions :=
  mkBatchActions None None None (Some (mkBatchError code message)).

(** The body of the loop of an upload request. *)
Definition upload_object (baseHref : string) (obj : string * Z) : batchObject :=
  let '(oid, size) := obj in
  mkBatchObject oid size
    (if ValidOID oid
     then mkBatchActions None
            (Some (mkBatchAction (baseHref +:+ "/" +:+ oid) [("Content-Type", "application/octet-stream")]))
            (Some (mkBatchAction (baseHref +:+ "/verify") [])) None
     else only_error 422 "Object has invalid oid").

(** The body of the second loop of a download request. *)
Definition download_object (baseHref : string) (storedSet : gmap string Z) (obj : string * Z) : batchObject :=
  let '(oid, size) := obj in
  let stored := default 0 (storedSet !! oid) in
  mkBatchObject oid size
    (if decide (stored <> 0)
     then if decide (stored <> size) then only_error 422 "Object size mismatch"
          else mkBatchActions (Some (mkBatchAction (baseHref +:+ "/" +:+ oid) [])) None None None
     else only_error 404 "Object does not exist").

Section Batch.
Context (env : Env) (viper : string -> string) `{Offchain}.

(** The first loop of a download request: the sizes of the objects that are stored. *)
Definition stored_sizes (objects : list (string * Z)) : Prog (gmap string Z) :=
  foldM (fun storedSet '(oid, _) =>
           r ← attempt (LocalStorage_Size env (viper "LFS_OBJECTS_DIR") oid);
           let size := match r with Ok size => size | Er _ => 0 end in
           mret (if decide (size <> 0) then <[oid := size]> storedSet else storedSet))
    objects ∅.

Definition serve_batch (r : HttpRequest) (repoId : Z) (operation : string)
    (requested : list (string * Z)) : Prog unit :=
  let scheme := if r_TLS r then "https" else "http" in
  let baseHref := scheme +:+ "://" +:+ r_Host r +:+ "/" +:+ FormatUint repoId +:+
                    ".git/info/lfs/objects/basic" in
  if decide (operation = "upload") then
    responseJSON env 200 (batchResponse (map (upload_object baseHref) requested))
  else if decide (operation = "download") then
    storedSet ← stored_sizes requested;
    responseJSON env 200 (batchResponse (map (download_object baseHref storedSet) requested))
  else responseJSON env 400 (responseError "Operation not recognized").

Definition ServeBatchHandler (r : HttpRequest) : Prog unit :=
  on_error (lift (ParseRepositoryIdfromURI (r_Path r)))
    (fun e => responseJSON env 400 (responseError (Error e)))
    (fun repoId =>
       on_error (call_res env DecodeBatchRequest)
         (fun e => responseJSON env 400 (responseError (Error e)))
         (fun '(operation, requested) =>
            if decide (operation = "upload") then
              let '(username, password) := DecodeBasic (r_Header r) in
              if decide (password = "") then responseJSON env 401 (responseError "Credentials needed") else
              a ⟵ ValidateBasicAuth env r username password ifErr call env (WriteHeader 401);
              if negb (fst a) then call env (WriteHeader 401)
              else serve_batch r repoId operation requested
            else serve_batch r repoId operation requested)).

(** * route/lfs/locks.go

    The lock API answers as if every lock were granted. *)
(** [LockedAt] is a time, sent as text. *)
Definition dummy_lock (id path now : string) : json :=
  JObj [("id", JStr id); ("path", JStr path); ("locked_at", JStr now);
        ("owner", JObj [("name", JStr "user")])].

Definition bad_request (text : string) : Prog unit := call env (HttpError text 400).

(** What the four handlers share: the repository of the path, then the body. *)
Definition lock_request {A} (r : HttpRequest) (body : Prog A) (answer : A -> Prog unit) : Prog unit :=
  on_error (lift (ParseRepositoryIdfromURI (r_Path r)))
    (fun _ => bad_request "Invalid repository ID")
    (fun _ => on_error body (fun _ => bad_request "Invalid request body") answer).

Definition ServeCreateLockHandler (r : HttpRequest) : Prog unit :=
  lock_request r (call_res env DecodeLockRequest) (fun path =>
    now ← call env TimeNow;
    _ ← call env (SetHeader "Content-Type" contentType);
    _ ← call env (WriteHeader 201);
    _ ← call env (EncodeJson (JObj [("lock", dummy_lock "dummy-lock-id" path now)]));
    mret tt).

(** [Locks] is an empty slice, which [omitempty] leaves out. *)
Definition ServeListLocksHandler (r : HttpRequest) : Prog unit :=
  lock_request r (mret tt) (fun _ =>
    _ ← call env (SetHeader "Content-Type" contentType);
    _ ← call env (EncodeJson (JObj []));
    mret tt).

Definition ServeUnlockHandler (r : HttpRequest) : Prog unit :=
  lock_request r (call_res env DecodeUnlockRequest) (fun _ =>
    now ← call env TimeNow;
    _ ← call env (SetHeader "Content-Type" contentType);
    _ ← call env (EncodeJson (JObj [("lock", dummy_lock "dummy-lock-id" "/dummy/path" now)]));
    mret tt).

Definition ServeVerifyLocksHandler (r : HttpRequest) : Prog unit :=
  lock_request r (call_res env DecodeVerifyLocksRequest) (fun _ =>
    _ ← call env (SetHeader "Content-Type" contentType);
    _ ← call env (EncodeJson (JObj [("ours", JArr []); ("theirs", JArr [])]));
    mret tt).
End Batch.

#[local] Close Scope string_scope.

(** * Lemmas *)

(** The sizes the first loop of a download request collects, for a disk that does not
    change meanwhile. *)
Section Stored.
Context (env : Env) (viper : string -> string) (sizes : string -> option Z).
Context (disk : forall h oid, env _ h (Stat (storagePath (viper "LFS_OBJECTS_DIR"%string) oid)) =
                         match sizes oid with Some n => Exists n | None => NotExist end).

Definition stored_size (oid : string) : Z := default 0 (sizes oid).

Lemma LocalStorage_Size_run oid h :
  exists t, attempt (LocalStorage_Size env (viper "LFS_OBJECTS_DIR"%string) oid) h =
    (Val match sizes oid with Some n => Ok n | None => Er ErrObjectNotExist end, t).
Proof.
  unfold attempt, LocalStorage_Size, call. rewrite run_bind. cbv beta iota zeta. rewrite disk.
  destruct (sizes oid); simpl; eauto.
Qed.

Lemma stored_sizes_run requested h :
  exists (stored : gmap string Z) t, stored_sizes env viper requested h = (Val stored, t) /\
    forall oid, oid ∈ requested.*1 -> default 0 (stored !! oid) = stored_size oid.
Proof.
  unfold stored_sizes.
  assert (Hgen : forall acc : gmap string Z, (forall oid n, acc !! oid = Some n -> n = stored_size oid) ->
    exists (stored : gmap string Z) t, foldM (fun storedSet '(oid, _) =>
           r ← attempt (LocalStorage_Size env (viper "LFS_OBJECTS_DIR"%string) oid);
           let size := match r with Ok size => size | Er _ => 0 end in
           mret (if decide (size <> 0) then <[oid := size]> storedSet else storedSet))
      requested acc h = (Val stored, t) /\
      (forall oid n, stored !! oid = Some n -> n = stored_size oid) /\
      (forall oid, is_Some (acc !! oid) \/ oid ∈ requested.*1 /\ stored_size oid <> 0 -> is_Some (stored !! oid))).
  { revert h. induction requested as [|[oid size] requested IH]; intros h acc Hacc; simpl.
    { exists acc, h. split; [done|]. split; [done|]. intros oid [?|[Hn _]]; [done|]. by apply not_elem_of_nil in Hn. }
    rewrite run_bind, run_bind. destruct (LocalStorage_Size_run oid h) as [t ->].
    set (n := match _ with Ok size => size | Er _ => 0 end).
    assert (Hn : n = stored_size oid) by (subst n; unfold stored_size; by destruct (sizes oid)).
    cbn [mret GoM_ret]. destruct (IH t (if decide (n <> 0) then <[oid:=n]> acc else acc)) as (st & t' & E & H1 & H2).
    { intros oid' n'. case_decide; [|apply Hacc]. intros [[<- <-]|[? ?]]%lookup_insert_Some; auto. }
    exists st, t'. split; [exact E|]. split; [done|]. intros oid' Ho. apply H2.
    destruct (decide (oid' = oid)) as [->|Hne].
    - destruct (decide (n <> 0)) as [Hz|Hz]; [left; by rewrite lookup_insert_eq|].
      destruct Ho as [?|[? ?]]; [by left|]. lia.
    - destruct Ho as [Ho|[Ho Hz]].
      + left. case_decide; [by rewrite lookup_insert_ne|done].
      + right. split; [set_solver|done]. }
  destruct (Hgen ∅) as (stored & t & E & H1 & H2); [done|].
  exists stored, t. split; [done|]. intros oid Ho.
  destruct (stored !! oid) as [n|] eqn:El; simpl; [by apply H1|].
  destruct (decide (stored_size oid = 0)) as [->|Hz]; [done|].
  destruct (H2 oid) as [n Hn]; [auto|congruence].
Qed.
End Stored.

(** * Properties *)

(** What a trace does to the file of an object: an [os.Create] that answers no error makes
    it empty, an [io.Copy] into it that answers no error completes it, and only an
    [os.Remove] that answers no error removes it. *)
Inductive ObjectFile := NoFile | PartFile | WholeFile.
Definition object_step (p : string) (s : ObjectFile) (o : Obs) : ObjectFile :=
  match o with
  | @Did _ c a =>
      match c in Call A return A -> ObjectFile with
      | Create q => fun r => if decide (q = p) then if is_ok r then PartFile else s else s
      | CopyInto q => fun r => if decide (q = p) then if is_ok r then WholeFile else PartFile else s
      | Remove q => fun r => if decide (q = p) then if is_ok r then NoFile else s else s
      | _ => fun _ => s
      end a
  end.
Definition object_file (p : string) (s : ObjectFile) (t : Trace) : ObjectFile := fold_left (object_step p) t s.

Definition created (p : string) (o : Obs) : bool :=
  match o with
  | @Did _ c a =>
      match c in Call A return A -> bool with
      | Create q => fun r => bool_decide (q = p) && is_ok r
      | _ => fun _ => false
      end a
  end.

(** The calls of an upload to [p]. *)
Definition upload_call (p : string) (o : Obs) : Prop :=
  match o with
  | @Did _ c _ =>
      match c with
      | Create q | CopyInto q | Remove q => q = p
      | MkdirAll d => d = Dir p
      | _ => False
      end
  end.

(** C37: storing an object is all or nothing, as far as the disk lets it. An object id that
    is not 64 hexadecimal digits touches nothing. Otherwise the upload makes the directory
    of the object's file (which stays) and writes no other file than that one, and whatever
    was there before: when the upload returns, the whole object is there; when it fails,
    removing the file was its last step, and the file is gone if [os.Remove] did it. An
    error of [os.Remove] is ignored: only then is something left, which is a part of the
    object, or, if the file could not be created, what was there before. The upload never
    panics. *)
Theorem Upload_all_or_nothing (env : Env) Root oid h s :
  let p := storagePath Root oid in
  let '(o, h') := LocalStorage_Upload env Root oid h in
  if ValidOID oid
  then exists t, h' = h ++ t /\ Forall (upload_call p) t /\
    match o with
    | Val _ => object_file p s t = WholeFile
    | Fail _ => exists r, list.last t = Some (Did (Remove p) r) /\
        object_file p s t =
          if is_ok r then NoFile else if existsb (created p) t then PartFile else s
    | Panic _ => False
    end
  else o = Fail ErrInvalidOID /\ h' = h.
Proof.
  intros p. unfold LocalStorage_Upload. destruct (ValidOID oid); [|done].
  cbv iota beta delta [negb]. fold p.
  unfold on_error, wrapM, call_res, call, mbind, GoM_bind, lift, of_res, fail, mret, GoM_ret. cbv beta iota zeta.
  assert (Hb : bool_decide (p = p) = true) by by rewrite bool_decide_eq_true.
  destruct (env _ h (MkdirAll (Dir p))) as [[]|e]; cbv beta iota zeta;
    [destruct (env _ _ (Create p)) as [[]|e]; cbv beta iota zeta;
      [destruct (env _ _ (CopyInto p)) as [n|e]; cbv beta iota zeta|]|];
    rewrite <- ?app_assoc; (eexists; split; [reflexivity|]; split; [by repeat constructor|]).
  all: try (eexists; split; [reflexivity|]).
  all: unfold object_file; cbn [fold_left app object_step existsb created]; rewrite ?Hb, ?decide_True by done.
  all: cbn [is_ok orb andb]; try done.
  all: by destruct (is_ok _).
Qed.

(** What a download request is answered for one object. *)
Definition download_answer (baseHref : string) (sizes : string -> option Z) (obj : string * Z) : batchObject :=
  let '(oid, size) := obj in
  mkBatchObject oid size
    match sizes oid with
    | Some n =>
        if decide (n = 0) then only_error 404 "Object does not exist"
        else if decide (n = size)
        then mkBatchActions (Some (mkBatchAction (baseHref +:+ "/" +:+ oid)%string [])) None None None
        else only_error 422 "Object size mismatch"
    | None => only_error 404 "Object does not exist"
    end.

(** The batch API answers a download request object by object, in the order of the
    request: with a link when the object is stored with the size that is asked for, with
    422 when its size is another one, and with 404 when it is not stored -- or is stored and
    empty. Duplicates in the request are answered alike. *)
Theorem serve_batch_download (env : Env) viper sizes r repoId requested h :
  (forall h oid, env _ h (Stat (storagePath (viper "LFS_OBJECTS_DIR"%string) oid)) =
     match sizes oid with Some n => Exists n | None => NotExist end) ->
  exists h1, snd (serve_batch env viper r repoId "download" requested h) =
    snd (responseJSON env 200 (batchResponse (map (download_answer
      ((if r_TLS r then "https" else "http") +:+ "://" +:+ r_Host r +:+ "/" +:+ FormatUint repoId +:+
         ".git/info/lfs/objects/basic")%string sizes) requested)) h1).
Proof.
  intros disk. unfold serve_batch. rewrite decide_False, decide_True by done.
  destruct (stored_sizes_run env viper sizes disk requested h) as (stored & h1 & E & Hs).
  cbv zeta. rewrite (run_bind_val _ _ _ _ _ E). exists h1. do 3 f_equal.
  apply map_ext_in. intros [oid size] Hin. unfold download_object, download_answer.
  rewrite Hs by (apply list_elem_of_fmap; exists (oid, size); by rewrite list_elem_of_In).
  unfold stored_size. destruct (sizes oid) as [n|]; simpl; [|done].
  destruct (decide (n = 0)) as [->|Hz]; [done|]. rewrite decide_True by done.
  destruct (decide (n = size)) as [->|Hne]; [by rewrite decide_False by auto|by rewrite decide_True].
Qed.

#[local] Open Scope string_scope.

Definition demo_lfs_request : HttpRequest :=
  mkHttpRequest "POST" "/7.git/info/lfs/objects/batch" "/7.git/info/lfs/objects/batch" (fun _ => "") []
    0 true "host".

(** A disk where every object is five bytes long. *)
Definition flat_disk : Env := fun A h c =>
  match c in Call A return A with
  | Stat _ => Exists 5
  | c => quiet c
  end.

Lemma serve_batch_download_witness :
  exists h1, snd (serve_batch flat_disk no_config demo_lfs_request 7 "download" [("aa", 5); ("bb", 6)]%Z []) =
    snd (responseJSON flat_disk 200 (batchResponse (map (download_answer
      "https://host/7.git/info/lfs/objects/basic" (fun _ => Some 5)%Z) [("aa", 5); ("bb", 6)]%Z)) h1).
Proof.
  apply (serve_batch_download flat_disk no_config (fun _ => Some 5)%Z demo_lfs_request 7
           [("aa", 5); ("bb", 6)]%Z []). done.
Defined.

(** A download request looks outside of the directory of the objects: the object ids it
    names are not checked. *)
Example batch_stats_outside :
  Did (Stat "/etc/passwd") NotExist ∈
    snd (serve_batch (fun A h c => quiet c) (fun _ => "/data/lfs") demo_lfs_request 7 "download"
           [("../../etc/passwd", 0%Z)] []).
Proof. vm_compute. set_solver. Qed.
#[local] Close Scope string_scope.
