(* ===== verification/GitHttp.v ===== *)
(** The smart HTTP protocol of git (internal/app/git_http.go, helpers.go) and the loose
    objects endpoint (internal/app/objects.go).

    A push runs [git receive-pack] on the cached repository and then offers the new
    packfile to the chain; when anything goes wrong the cached repository is removed, so
    that the next request starts again from the state of the chain.

    Closing files, pipes and bodies is left out, except for the standard input of the
    subprocess, whose end the subprocess waits for. *)

From S2P Require Import Prelude GoInt GoStrings GoPath StorageFee Merkle World ChainClient Cache PinHandlers Auth.

#[local] Open Scope string_scope.

(** * utils.Config and the request (utils/server.go, internal/app/types.go) *)
Record HookScripts := mkHookScripts { PreReceive : string; Update : string; PostReceive : string }.
Record ServerConfig := mkServerConfig {
  cf_Dir : string; cf_GitPath : string; cf_AutoCreate : bool; cf_AutoHooks : bool;
  cf_Hooks : option HookScripts; cf_Auth : bool
}.
Record Request := mkRequest {
  q_Http : HttpRequest; q_RepoName : string; q_RepoPath : string; q_Address : string
}.

(** * helpers.go *)

(** [%04x] *)
Definition hex_char (d : nat) : ascii := nth d (String.list_ascii_of_string "0123456789abcdef") "0"%char.
Fixpoint hex_go (fuel n : nat) (acc : string) : string :=
  match fuel with
  | O => acc
  | S fuel => let acc := String (hex_char (n mod 16)) acc in
              if decide (n < 16)%nat then acc else hex_go fuel (n / 16) acc
  end.
Definition pad4 (s : string) : string := stake (4 - slen s) "0000" +:+ s.
Definition format_04x (n : nat) : string := pad4 (hex_go (S n) n "").

Definition pkt_line (s : string) : string := format_04x (slen s + 4) +:+ s.
Definition subCommand (rpc : string) : string := TrimPrefix rpc "git-".

(** [regexp.MustCompile(`//+`).ReplaceAllString(input, "/")] *)
Fixpoint dedup_slashes (s : string) : string :=
  match s with
  | String "/" (String "/" _ as s') => dedup_slashes s'
  | String c s' => String c (dedup_slashes s')
  | "" => ""
  end.

Definition getNamespaceAndRepo (input : string) : string * string :=
  if decide (input = "" \/ input = "/") then ("", "") else
  let input := TrimPrefix (dedup_slashes input) "/" in
  let blocks := Split input "/" in
  let num := length blocks in
  if decide (num < 2)%nat then ("", default "" (blocks !! 0%nat))
  else (Join (take (num - 1) blocks) "/", default "" (blocks !! (num - 1)%nat)).

Section GitHttp.
Context (env : Env) (viper : string -> string) (fuel : nat) (gc : GitopiaProxy) (cfg : ServerConfig).
Context (sha256 : bytes -> bytes) `{MerkleTree} `{SdkMath}.

Definition packLine (s : string) : Prog unit := call_res env (ResponseWrite (pkt_line s)).
Definition packFlush : Prog unit := call_res env (ResponseWrite "0000").
Definition fail500 : Prog unit := call env (HttpError "Internal server error" 500).

(** * GetInfoRefs *)
Definition GetInfoRefs (r : Request) : Prog unit :=
  let rpc := r_Query (q_Http r) "service" in
  let server_error := call env (HttpError "Internal Server Error" 500) in
  _ ← call env (SetHeader "Content-Type" ("application/x-" +:+ rpc +:+ "-advertisement"));
  _ ← call env (SetHeader "Cache-Control" "no-cache");
  if decide (rpc <> "git-upload-pack" /\ rpc <> "git-receive-pack")
  then call env (HttpError "Not Found" 404) else
  repoID ⟵ lift (ParseRepositoryIdfromURI (r_Path (q_Http r))) ifErr server_error;
  with_lock env (RepoKey repoID)
    (_ ⟵ Server_CacheRepository env viper fuel (cf_Dir cfg) repoID ifErr server_error;
     let args := [cf_GitPath cfg; subCommand rpc; "--stateless-rpc"; "--advertise-refs"; q_RepoPath r] in
     _ ⟵ GitCommand env args ifErr server_error;
     _ ⟵ call_res env (Start "" args) ifErr server_error;
     deferring (CleanUpProcessGroup env true)
       (_ ⟵ packLine ("# service=" +:+ rpc +:+ String nl "") ifErr mret tt;
        _ ⟵ packFlush ifErr mret tt;
        _ ⟵ call_res env CopyToResponse ifErr mret tt;
        _ ← attempt (call_res env Wait);
        mret tt)).

(** * The packfile of a repository (utils/git.go): the last one of the walk. *)
Definition GetPackfileName (repoPath : string) : Prog string :=
  w ← call env (Walk (PathJoin [repoPath; "objects"; "pack"]));
  match snd w with
  | Some e => fail e
  | None =>
      let packfileName :=
        fold_left (fun name x => if negb (we_IsDir x) && HasSuffix (Base (we_Path x)) ".pack"
                                 then we_Path x else name) (fst w) "" in
      if decide (packfileName = "") then fail (ErrNew "No .pack file found") else mret packfileName
  end.

(** [os.Stat] where any error is returned. *)
Definition file_size (path : string) : Prog Z :=
  st ← call env (Stat path);
  match st with
  | Exists size => mret size
  | NotExist => fail (ErrNew ("stat " +:+ path +:+ ": no such file or directory"))
  | StatError e => fail e
  end.

(** * handleGitReceivePack *)

(** [cleanupRepoDir(); return err]: an error of the removal is logged. *)
Definition cleanup_fail {A} (repoPath : string) (e : error) : Prog A :=
  _ ← call env (RemoveAll repoPath); fail e.
Definition or_cleanup {A} (repoPath msg : string) (m : Prog A) : Prog A :=
  on_error m (fun e => cleanup_fail repoPath (ErrWrap msg e)) mret.

(** No proposal of this user is pending. *)
Definition no_pending_proposal (r : Request) (repoID : Z) : Prog unit :=
  pending ← attempt (call_res env (QPackfileUpdateProposal repoID (q_Address r)));
  match pending with
  | Ok _ => cleanup_fail (q_RepoPath r)
              (ErrNew "there is already a pending packfile update proposal for this repository")
  | Er e => if Contains (Error e) "packfile update proposal not found" then mret tt
            else cleanup_fail (q_RepoPath r) (ErrWrap "error checking for pending proposals" e)
  end.

(** The owner can pay for the storage that the push adds. *)
Definition check_charge (r : Request) (owner : string) (storageUsed storageDelta : Z)
    (params : Params) : Prog unit :=
  if decide (Amount (StoragePricePerGb params) = 0) then mret tt else
  costInfo ← or_cleanup (q_RepoPath r) "failed to calculate storage cost"
               (lift (CalculateStorageCost storageUsed (u64 (storageUsed + u64 storageDelta)) params));
  if decide (Amount (StorageCharge costInfo) = 0) then mret tt else
  balance ← or_cleanup (q_RepoPath r) "failed to get user balance"
              (call_res env (QBankBalance owner (Denom (StorageCharge costInfo))));
  if decide (balance < Amount (StorageCharge costInfo))
  then cleanup_fail (q_RepoPath r) (ErrNew "insufficient balance for storage charge")
  else mret tt.

(** Pin the packfile, and hash it as IPFS serves it. *)
Definition pin_and_hash (r : Request) (packfileName : string) : Prog (string * bytes) :=
  cid ← or_cleanup (q_RepoPath r) "failed to pin packfile to IPFS cluster" (ipfs_PinFile env packfileName);
  _ ← or_cleanup (q_RepoPath r) "failed to create IPFS API" (call_res env NewIpfsApi);
  _ ← or_cleanup (q_RepoPath r) "failed to create path" (call_res env (NewIpfsPath ("/ipfs/" +:+ cid)));
  f ← or_cleanup (q_RepoPath r) "failed to get packfile from IPFS" (call_res env (UnixfsGet cid));
  match f with
  | None => cleanup_fail (q_RepoPath r) (ErrNew "invalid packfile format")
  | Some file =>
      rootHash ← or_cleanup (q_RepoPath r) "failed to compute packfile merkle root"
                   (lift (ComputeMerkleRoot sha256 file));
      mret (cid, rootHash)
  end.

(** Wait until the proposal is on the chain. *)
Definition confirm_proposal (r : Request) (repoID : Z) : Prog unit :=
  on_error (PollForUpdate env fuel (CheckProposePackfileUpdate env repoID (q_Address r)))
    (fun e => cleanup_fail (q_RepoPath r)
       (if errors_Is e DeadlineExceeded then ErrNew "timeout waiting for packfile update proposal"
        else ErrWrap "failed to verify packfile update proposal" e))
    mret.

(** The size and the cid of the packfile on the chain; an error counts as none. *)
Definition old_packfile (packfile : res Packfile) : Z * string :=
  match packfile with Ok pk => (i64 (pk_Size pk), pk_Cid pk) | Er _ => (0, "") end.

Definition handleGitReceivePack (r : Request) (repoID : Z) : Prog unit :=
  let p := q_RepoPath r in
  _ ← no_pending_proposal r repoID;
  _ ← or_cleanup p "failed to run git gc" (call_res env (Run p [cf_GitPath cfg; "gc"]));
  packfileName ← or_cleanup p "failed to get packfile name" (GetPackfileName p);
  packfileSize ← or_cleanup p "failed to get packfile info" (file_size packfileName);
  repo ← or_cleanup p "failed to get repository" (call_res env (QRepository repoID));
  packfile ← attempt (call_res env (QRepositoryPackfile repoID));
  let '(currentSize, previousCid) := old_packfile packfile in
  let storageDelta := i64 (packfileSize - currentSize) in
  storageUsed ← or_cleanup p "failed to get user quota" (call_res env (QUserQuota (rp_OwnerId repo)));
  params ← or_cleanup p "failed to get storage params" (call_res env QStorageParams);
  _ ← check_charge r (rp_OwnerId repo) storageUsed storageDelta params;
  '(cid, rootHash) ← pin_and_hash r packfileName;
  _ ← or_cleanup p "failed to update repository packfile"
        (ProposePackfileUpdate env gc (q_Address r) repoID (Base packfileName) cid rootHash
           packfileSize previousCid "" false);
  confirm_proposal r repoID.

(** * PostRPC *)
Definition run_rpc (service : string) (r : Request) (repoID : Z) : Prog unit :=
  let args := [cf_GitPath cfg; subCommand service; "--stateless-rpc"; q_RepoPath r] in
  _ ⟵ GitCommand env args ifErr fail500;
  _ ⟵ call_res env StdinPipe ifErr fail500;
  _ ⟵ call_res env (Start "" args) ifErr fail500;
  deferring (CleanUpProcessGroup env true)
    (_ ⟵ call_res env CopyToStdin ifErr fail500;
     _ ← call env CloseStdin;
     _ ← call env (SetHeader "Content-Type" ("application/x-" +:+ service +:+ "-result"));
     _ ← call env (SetHeader "Cache-Control" "no-cache");
     _ ⟵ call_res env CopyToResponse ifErr mret tt;
     _ ⟵ call_res env Wait ifErr mret tt;
     if decide (service = "git-receive-pack")
     then (_ ⟵ handleGitReceivePack r repoID ifErr fail500; mret tt)
     else mret tt).

Definition PostRPC (service : string) (r : Request) : Prog unit :=
  let serve :=
    repoID ⟵ lift (ParseRepositoryIdfromURI (r_Path (q_Http r))) ifErr fail500;
    with_lock env (RepoKey repoID)
      (_ ⟵ Server_CacheRepository env viper fuel (cf_Dir cfg) repoID ifErr fail500;
       run_rpc service r repoID) in
  if decide (header_get (r_Header (q_Http r)) "Content-Encoding" = "gzip")
  then (_ ⟵ call_res env GzipReader ifErr fail500; serve)
  else serve.

(** * ObjectsHandler (objects.go): [GET /objects/{repository}/{hash}] *)
Definition ObjectsHandler (r : HttpRequest) : Prog unit :=
  if decide (r_Method r <> "GET") then mret tt else
  let forbidden := call env (HttpError "Forbidden" 403) in
  match Split (r_Path r) "/" with
  | [_; _; repositoryId; objectHash] =>
      repoId ⟵ lift (of_res (ParseUint repositoryId)) ifErr forbidden;
      with_rlock env (RepoKey repoId)
        (_ ⟵ Server_CacheRepository env viper fuel (cf_Dir cfg) repoId
           ifErr call env (HttpError "Internal Server Error" 500);
         _ ⟵ call_res env (PlainOpen (PathJoin [cf_Dir cfg; FormatUint repoId +:+ ".git"]))
           ifErr call env (HttpError "Not Found" 404);
         on_error (call_res env (EncodedObject objectHash))
           (fun e => call env (HttpError (Error e) 404))
           (fun '(ty, size) =>
              _ ← call env (SetHeader "Content-Type" "application/octet-stream");
              _ ← call env (SetHeader "Access-Control-Allow-Origin" "*");
              on_error
                (_ ← call_res env ObjectReader;
                 _ ← call_res env (ObjectWriteHeader ty size);
                 call_res env CopyToResponse)
                (fun e => call env (HttpError (Error e) 500))
                mret))
  | _ => forbidden
  end.
End GitHttp.

#[local] Close Scope string_scope.

(** * A push either reaches the chain or leaves no cached repository *)
Section Push.
Context (env : Env) (fuel : nat) (gc : GitopiaProxy) (cfg : ServerConfig).
Context (sha256 : bytes -> bytes) `{MerkleTree} `{SdkMath}.

(** When [m] fails, the last thing it did was to remove the directory [p]. *)
Definition cleans (p : string) {A} (m : Prog A) : Prop :=
  forall h, match m h with
            | (Fail _, h') => exists r, list.last h' = Some (Did (RemoveAll p) r)
            | _ => True
            end.

Lemma cleans_bind p {A B} (m : Prog A) (f : A -> Prog B) :
  cleans p m -> (forall a, cleans p (f a)) -> cleans p (mbind f m).
Proof.
  intros Hm Hf h. rewrite run_bind. specialize (Hm h). destruct (m h) as [[a|e|q] h1]; [apply Hf|done..].
Qed.

Lemma cleans_ret p {A} (a : A) : cleans p (mret a).
Proof. done. Qed.

Lemma cleans_fail p {A} e : cleans p (cleanup_fail (A := A) env p e).
Proof. intros h. simpl. eexists. apply list.last_snoc. Qed.

Lemma cleans_on_error p {A B} (m : Prog A) bad (k : A -> Prog B) :
  (forall e, cleans p (bad e)) -> (forall a, cleans p (k a)) -> cleans p (on_error m bad k).
Proof. intros Hb Hk h. unfold on_error. destruct (m h) as [[a|e|q] h1]; [apply Hk|apply Hb|done]. Qed.

Lemma cleans_or_cleanup p {A} msg (m : Prog A) : cleans p (or_cleanup env p msg m).
Proof. apply cleans_on_error; intros ?; [apply cleans_fail|apply cleans_ret]. Qed.

Lemma cleans_attempt p {A} (m : Prog A) : cleans p (attempt m).
Proof. intros h. unfold attempt. by destruct (m h) as [[a|e|q] h1]. Qed.

Ltac clean_step :=
  repeat first
    [ progress intros
    | apply cleans_or_cleanup | apply cleans_fail | apply cleans_attempt | apply cleans_ret
    | apply cleans_bind
    | match goal with
      | |- cleans _ (match ?x with _ => _ end) => destruct x
      | |- cleans _ (if ?x then _ else _) => destruct x
      end ].

Lemma handleGitReceivePack_cleans r id :
  cleans (q_RepoPath r) (handleGitReceivePack env fuel gc cfg sha256 r id).
Proof.
  unfold handleGitReceivePack, no_pending_proposal, check_charge, pin_and_hash, confirm_proposal.
  clean_step. apply cleans_on_error; clean_step.
Qed.

(** What a push that went through has left in the trace: the packfile [size] bytes long
    was pinned, hashed as IPFS serves it, and proposed on behalf of the user; the owner
    can pay; and the last thing that happened is that the chain showed the proposal. *)
Definition affordable (owner : string) (used delta : Z) (params : Params) (h : Trace) : Prop :=
  Amount (StoragePricePerGb params) = 0 \/
  exists info, CalculateStorageCost used (u64 (used + u64 delta)) params = Val info /\
    (Amount (StorageCharge info) = 0 \/
     exists balance, Did (QBankBalance owner (Denom (StorageCharge info))) (Ok balance) ∈ h /\
       Amount (StorageCharge info) <= balance).

Record pushed (r : Request) (repoID : Z) (path cid : string) (packfile : res Packfile)
    (size : Z) (rootHash : bytes) (h : Trace) : Prop := mkPushed {
  pushed_stat : Did (Stat path) (Exists size) ∈ h;
  pushed_old : Did (QRepositoryPackfile repoID) packfile ∈ h;
  pushed_charge : exists repo used params,
    Did (QRepository repoID) (Ok repo) ∈ h /\ Did (QUserQuota (rp_OwnerId repo)) (Ok used) ∈ h /\
    Did QStorageParams (Ok params) ∈ h /\
    affordable (rp_OwnerId repo) used (i64 (size - fst (old_packfile packfile))) params h;
  pushed_pin : Did (ClusterPin cid (Base path)) (Ok tt) ∈ h;
  pushed_hash : exists file, Did (UnixfsGet cid) (Ok (Some file)) ∈ h /\
    ComputeMerkleRoot sha256 file = Val rootHash;
  pushed_msg : Did (AddToBatch (MsgProposeRepositoryPackfileUpdate (ClientAddress gc) (q_Address r)
                      repoID (Base path) cid rootHash (u64 size) (snd (old_packfile packfile)) ""%string false))
                   (Ok tt) ∈ h
}.

Lemma lasting_pushed r id path cid packfile size rootHash :
  lasting (pushed r id path cid packfile size rootHash).
Proof.
  intros h t [Hst Hold (repo & used & params & ? & ? & ? & Ha) Hpin (file & ? & ?) Hmsg].
  split; [set_solver|set_solver| |set_solver| |set_solver].
  - exists repo, used, params. repeat split; [set_solver..|].
    destruct Ha as [?|(info & ? & [?|(b & ? & ?)])]; [by left|right; exists info; auto..].
    split; [done|]. right. exists b. set_solver.
  - exists file. set_solver.
Qed.

Lemma ends_or_cleanup p {A} msg (m : Prog A) h Q : ends m h Q -> ends (or_cleanup env p msg m) h Q.
Proof. intros Hm. apply ends_on_error; [|done]. eapply ends_mono; [exact Hm|]. intros a h' HQ. by apply ends_ret. Qed.

(** Each query whose error cleans up adds its answer to the trace. *)
Lemma ends_cleanup_call p {A} msg (c : Call (res A)) h (Q : A -> Trace -> Prop) :
  (forall a, Q a (h ++ [Did c (Ok a)])) -> ends (or_cleanup env p msg (call_res env c)) h Q.
Proof. intros HQ. apply ends_or_cleanup, ends_call_res. intros a _. apply HQ. Qed.

Lemma check_charge_ends r owner used delta params h (Q : Trace -> Prop) :
  (forall t, affordable owner used delta params (h ++ t) -> Q (h ++ t)) ->
  ends (check_charge env r owner used delta params) h (fun _ h' => Q h').
Proof.
  intros HQ. unfold check_charge.
  assert (H0' : affordable owner used delta params h -> Q h).
  { specialize (HQ []). by rewrite app_nil_r in HQ. }
  case_decide as Hz; [by apply ends_ret, H0'; left|].
  apply ends_bind, ends_or_cleanup, ends_lift. intros info Hi.
  case_decide as Hz2; [apply ends_ret, H0'; right; eauto|].
  apply ends_bind, ends_cleanup_call. intros balance. case_decide as Hb; [done|].
  apply ends_ret, HQ. right. exists info. split; [done|]. right. exists balance. split; [set_solver|lia].
Qed.

Lemma pin_and_hash_ends r path h (Q : string * bytes -> Trace -> Prop) :
  (forall cid rootHash t file, Did (ClusterPin cid (Base path)) (Ok tt) ∈ t ->
     Did (UnixfsGet cid) (Ok (Some file)) ∈ t -> ComputeMerkleRoot sha256 file = Val rootHash ->
     Q (cid, rootHash) (h ++ t)) ->
  ends (pin_and_hash env sha256 r path) h Q.
Proof.
  intros HQ. unfold pin_and_hash, ipfs_PinFile.
  apply ends_bind, ends_or_cleanup, ends_bind, ends_call. intros cid _.
  apply ends_bind, ends_wrapM, ends_call_res. intros [] _. apply ends_ret.
  apply ends_bind, ends_cleanup_call. intros []. apply ends_bind, ends_cleanup_call. intros [].
  apply ends_bind, ends_cleanup_call. intros [file|]; [|done].
  apply ends_bind, ends_or_cleanup, ends_lift. intros rootHash Hr. apply ends_ret.
  rewrite <- !app_assoc. refine (HQ _ _ _ file _ _ Hr); set_solver.
Qed.

Lemma confirm_ends r repoID F h :
  lasting F -> F h ->
  ends (confirm_proposal env fuel r repoID) h
    (fun _ h' => F h' /\ exists c, c <> ""%string /\
       list.last h' = Some (Did (QPackfileUpdateProposal repoID (q_Address r)) (Ok c))).
Proof.
  intros HF Hh. unfold confirm_proposal. apply ends_on_error; [|done]. intros [] h' Hp. apply ends_ret.
  split.
  - pose proof (PollForUpdate_preserves env F fuel (CheckProposePackfileUpdate env repoID (q_Address r))) as HP.
    specialize (HP (lasting_keeps F _ HF) (or_missing_preserves _ _ _ _ _ (lasting_keeps F _ HF)) h Hh).
    by rewrite Hp in HP.
  - apply PollForUpdate_success in Hp as [h0 (c & Hc%bool_decide_eq_true_1 & ->)%or_missing_yes].
    exists c. by rewrite list.last_snoc.
Qed.

Lemma handleGitReceivePack_ends r id h :
  ends (handleGitReceivePack env fuel gc cfg sha256 r id) h
    (fun _ h' => (exists path cid packfile size rootHash, pushed r id path cid packfile size rootHash h') /\
       exists c, c <> ""%string /\
         list.last h' = Some (Did (QPackfileUpdateProposal id (q_Address r)) (Ok c))).
Proof.
  unfold handleGitReceivePack. apply ends_skip. intros _ h1.
  apply ends_bind, ends_cleanup_call. intros [].
  apply ends_skip. intros path h2. unfold file_size.
  apply ends_bind, ends_or_cleanup, ends_bind, ends_call. intros [size| |] _; [|done|done]. apply ends_ret.
  apply ends_bind, ends_cleanup_call. intros repo.
  apply ends_bind, ends_attempt_call. intros pk _.
  destruct (old_packfile pk) as [current old] eqn:Eold.
  apply ends_bind, ends_cleanup_call. intros used. apply ends_bind, ends_cleanup_call. intros params.
  apply ends_bind, check_charge_ends. intros t Hpaid.
  apply ends_bind, pin_and_hash_ends. intros cid rootHash t' file Hpin Hget Hroot.
  apply ends_bind, ends_cleanup_call. intros [].
  eapply ends_mono; [apply (confirm_ends _ _ (pushed r id path cid pk size rootHash))|].
  - apply lasting_pushed.
  - split; rewrite ?Eold; [set_solver|set_solver| |set_solver| |set_solver].
    + exists repo, used, params. repeat split; [set_solver..|].
      destruct Hpaid as [?|(info & ? & [?|(b & ? & ?)])]; [by left|right; exists info; auto..].
      split; [done|]. right. exists b. set_solver.
    + exists file. set_solver.
  - intros [] h' [Hp Hc]. eauto 10.
Qed.
End Push.

(** * Properties *)

(** C8: a push is all or nothing. When the handling of a push fails, removing the cached
    repository is the last thing it did (the code ignores an error of [os.RemoveAll]), so
    that the next request starts from the state of the chain. When it returns, the packfile was pinned and hashed as IPFS serves it, the
    owner can pay for the storage it adds, its update was proposed on behalf of the user who
    pushed, and the chain has shown that proposal. *)
Theorem push_all_or_nothing (env : Env) fuel gc cfg sha256 `{MerkleTree} `{SdkMath} r repoID h :
  match handleGitReceivePack env fuel gc cfg sha256 r repoID h with
  | (Val _, h') =>
      (exists path cid packfile size rootHash, pushed gc sha256 r repoID path cid packfile size rootHash h') /\
      exists c, c <> ""%string /\
        list.last h' = Some (Did (QPackfileUpdateProposal repoID (q_Address r)) (Ok c))
  | (Fail _, h') => exists a, list.last h' = Some (Did (RemoveAll (q_RepoPath r)) a)
  | (Panic _, _) => True
  end.
Proof.
  pose proof (handleGitReceivePack_ends env fuel gc cfg sha256 r repoID h) as He.
  pose proof (handleGitReceivePack_cleans env fuel gc cfg sha256 r repoID h) as Hc.
  destruct (handleGitReceivePack _ _ _ _ _ _ _ _) as [[u|e|p] h'] eqn:E; [by apply (He u h')|done|done].
Qed.
