(* ===== verification/Server.v ===== *)
(** The HTTP server (internal/app/server.go, initRepo of helpers.go, SetupInDir of
    utils/server.go): how a request finds its handler, and who gets through to the
    handlers that write. *)

From S2P Require Import Prelude GoInt GoStrings GoPath StorageFee Merkle World ChainClient Cache PinHandlers Auth Lfs GitHttp.

#[local] Open Scope string_scope.

(** * Routes *)
Inductive GitHandler := InfoRefs | Rpc (rpc : string).
Record Service := mkService { sv_Method : string; sv_Suffix : string; sv_Handler : GitHandler }.

Inductive LfsHandler := LfsBatch | LfsDownload | LfsUpload | LfsVerify
  | LfsCreateLock | LfsListLocks | LfsVerifyLocks | LfsUnlock.
Record LfsService := mkLfsService { ls_Method : string; ls_Suffix : string; ls_Handler : LfsHandler }.

Definition Services : list Service :=
  [mkService "GET" "/info/refs" InfoRefs;
   mkService "POST" "/git-upload-pack" (Rpc "git-upload-pack");
   mkService "POST" "/git-receive-pack" (Rpc "git-receive-pack")].

Definition LfsServices : list LfsService :=
  [mkLfsService "POST" "/objects/batch" LfsBatch;
   mkLfsService "GET" "/objects/basic" LfsDownload;
   mkLfsService "PUT" "/objects/basic" LfsUpload;
   mkLfsService "POST" "/objects/basic/verify" LfsVerify;
   mkLfsService "POST" "/locks" LfsCreateLock;
   mkLfsService "GET" "/locks" LfsListLocks;
   mkLfsService "POST" "/locks/verify" LfsVerifyLocks;
   mkLfsService "POST" "/locks/*/unlock" LfsUnlock].

(** The service and the path without its suffix ([strings.Replace] takes out the first
    occurrence). *)
Fixpoint find_service (services : list Service) (r : HttpRequest) : option (Service * string) :=
  match services with
  | [] => None
  | svc :: services =>
      if decide (sv_Method svc = r_Method r /\ HasSuffix (r_Path r) (sv_Suffix svc) = true)
      then Some (svc, ReplaceOnce (r_Path r) (sv_Suffix svc) "")
      else find_service services r
  end.
Definition findService : HttpRequest -> option (Service * string) := find_service Services.

(** The suffix may be followed by a slash and 64 more bytes. *)
Definition lfs_matches (r : HttpRequest) (l : LfsService) : bool :=
  String.eqb (ls_Method l) (r_Method r) &&
  (HasSuffix (r_Path r) (ls_Suffix l) ||
   Nat.ltb 65 (slen (r_Path r)) &&
     HasSuffix (stake (slen (r_Path r) - 65) (r_Path r)) (ls_Suffix l)).
Fixpoint find_lfs (services : list LfsService) (r : HttpRequest) : option LfsService :=
  match services with
  | [] => None
  | l :: services => if lfs_matches r l then Some l else find_lfs services r
  end.

(** utils/server.go: the key of an ssh server, and the path of git that [New] fills in. *)
Definition KeyPath (KeyDir : string) : string := PathJoin [KeyDir; "gitkit.rsa"].
Definition New_config (cfg : ServerConfig) : ServerConfig :=
  if decide (cf_GitPath cfg = "")
  then mkServerConfig (cf_Dir cfg) "git" (cf_AutoCreate cfg) (cf_AutoHooks cfg) (cf_Hooks cfg) (cf_Auth cfg)
  else cfg.

Section Server.
Context (env : Env) (viper : string -> string) (fuel : nat) (gc : GitopiaProxy) (cfg : ServerConfig).
Context (sha256 : bytes -> bytes) `{MerkleTree} `{SdkMath} `{Offchain}.
(** The order in which Go ranges over the map of the scripts. *)
Context (range : list (string * string) -> list (string * string)).
(** [s.AuthFunc], which [New] sets to the function of Auth.v. *)
Context (auth : option (string -> HttpRequest -> Prog (bool * string))).

Definition lfs_handler (l : LfsHandler) (r : HttpRequest) : Prog unit :=
  match l with
  | LfsBatch => ServeBatchHandler env viper r
  | LfsDownload => ServeDownloadHandler env viper r
  | LfsUpload => Authenticate env (ServeUploadHandler env viper fuel gc sha256) r
  | LfsVerify => ServeVerifyHandler env viper
  | LfsCreateLock => Authenticate env (fun _ => ServeCreateLockHandler env) r
  | LfsListLocks => ServeListLocksHandler env r
  | LfsVerifyLocks => ServeVerifyLocksHandler env r
  | LfsUnlock => Authenticate env (fun _ => ServeUnlockHandler env) r
  end.

Definition git_handler (g : GitHandler) (req : Request) : Prog unit :=
  match g with
  | InfoRefs => GetInfoRefs env viper fuel cfg req
  | Rpc rpc => PostRPC env viper fuel gc cfg sha256 rpc req
  end.

(** ** utils/server.go: hook scripts *)
Definition SetupInDir (hooks : HookScripts) (path : string) : Prog unit :=
  let basePath := PathJoin [path; "hooks"] in
  let scripts := range [("pre-receive", PreReceive hooks); ("update", Update hooks);
                        ("post-receive", PostReceive hooks)] in
  files ← attempt (call_res env (ReadDir basePath));
  _ ← match files with
      | Ok files => forM_ files (fun file => call_res env (Remove (PathJoin [basePath; de_Name file])))
      | Er _ => mret tt
      end;
  forM_ scripts (fun '(name, script) =>
    when (bool_decide (script <> "")) (call_res env (WriteFile (PathJoin [basePath; name]) script))).

(** The hooks of all repositories; [New] does not call it. *)
Definition setupHooks (hooks : HookScripts) : Prog unit :=
  files ← call_res env (ReadDir (cf_Dir cfg));
  forM_ files (fun file =>
    when (de_IsDir file) (SetupInDir hooks (PathJoin [cf_Dir cfg; de_Name file]))).

(** [Config.Setup]: any error of Stat is taken for a directory that is not there. *)
Definition Config_Setup : Prog unit :=
  st ← call env (Stat (cf_Dir cfg));
  match st with
  | Exists _ => mret tt
  | _ => call_res env (Mkdir (cf_Dir cfg))
  end.

Definition initRepo (name : string) : Prog unit :=
  let fullPath := PathJoin [cf_Dir cfg; name] in
  _ ← call_res env (Run "" [cf_GitPath cfg; "init"; "--bare"; fullPath]);
  match cf_Hooks cfg with
  | Some hooks => when (cf_AutoHooks cfg) (SetupInDir hooks fullPath)
  | None => mret tt
  end.

Definition repoExists (p : string) : Prog bool := file_exists env (PathJoin [p; "objects"]).

(** ** ServeHTTP *)

(** The request goes to its handler once the repository is there. *)
Definition dispatch (g : GitHandler) (req : Request) : Prog unit :=
  there ← repoExists (q_RepoPath req);
  _ ← when (negb there && cf_AutoCreate cfg) (_ ← attempt (initRepo (q_RepoName req)); mret tt);
  there ← repoExists (q_RepoPath req);
  if negb there then call env (HttpError "404 page not found" 404) else git_handler g req.

(** The password of the basic authentication is the token. *)
Definition authenticated (r : HttpRequest) (k : string -> Prog unit) : Prog unit :=
  let unauthorized := call env (WriteHeader 401) in
  match auth with
  | None => unauthorized
  | Some auth =>
      if decide (header_get (r_Header r) "Authorization" = "")
      then _ ← call env (SetHeader "WWW-Authenticate" ("Basic realm=" +:+ dquote +:+ dquote)); unauthorized
      else
        let '(_, token) := DecodeBasic (r_Header r) in
        if decide (token = "") then unauthorized else
        a ⟵ auth token r ifErr unauthorized;
        if negb (fst a) then unauthorized else k (snd a)
  end.

(** The condition on which a request has to be authenticated looks at the request URI,
    which still has the query. *)
Definition needs_auth (r : HttpRequest) : bool :=
  cf_Auth cfg && String.eqb (r_Method r) "POST" && HasSuffix (r_RequestURI r) "git-receive-pack".

Definition ServeHTTP (r : HttpRequest) : Prog unit :=
  match findService r with
  | None =>
      match find_lfs LfsServices r with
      | Some l => lfs_handler (ls_Handler l) r
      | None => call env (HttpError "Forbidden" 403)
      end
  | Some (svc, repoURLPath) =>
      let '(repoNamespace, repoName) := getNamespaceAndRepo repoURLPath in
      if decide (repoName = "") then call env (WriteHeader 400) else
      let req := mkRequest r (PathJoin [repoNamespace; repoName])
                   (PathJoin [cf_Dir cfg; repoNamespace; repoName]) in
      if needs_auth r
      then authenticated r (fun address => dispatch (sv_Handler svc) (req address))
      else dispatch (sv_Handler svc) (req "")
  end.
End Server.

#[local] Close Scope string_scope.

(** * Only authorised clients write *)

(** The calls that change the chain, the IPFS cluster or, through a push, a repository. *)
Definition is_receive_pack (args : list string) : bool :=
  match args with [_; sub; _; _] => bool_decide (sub = "receive-pack"%string) | _ => false end.
Definition writes {A} (c : Call A) : bool :=
  match c with
  | AddToBatch _ | ClusterAdd _ | ClusterPin _ _ | RemoveAll _ => true
  | Start _ args => is_receive_pack args
  | _ => false
  end.
Definition no_writes : CallSet := fun A c => negb (writes c).

(** A message is sent on behalf of the client, about the repository of the path. *)
Definition on_behalf (r : HttpRequest) (address : string) {A} (c : Call A) : Prop :=
  match c with
  | AddToBatch (MsgProposeRepositoryPackfileUpdate _ user id _ _ _ _ _ _ _)
  | AddToBatch (MsgProposeLFSObjectUpdate _ user id _ _ _ _ _) =>
      user = address /\ ParseRepositoryIdfromURI (r_Path r) = Val id
  | AddToBatch _ => False
  | _ => True
  end.

Section Writes.
Context (env : Env) (viper : string -> string) (fuel : nat) (gc : GitopiaProxy) (cfg : ServerConfig).
Context (sha256 : bytes -> bytes) `{MerkleTree} `{SdkMath} `{Offchain}.
Context (range : list (string * string) -> list (string * string)) (r : HttpRequest).

Definition token_of (r : HttpRequest) : string := snd (DecodeBasic (r_Header r)).

(** Every write comes after the chain's word that the client may push. *)
Definition write_ok (h : Trace) (o : Obs) : Prop :=
  match o with
  | @Did _ c _ => writes c = true ->
      exists address, authorised (token_of r) (r_Path r) address h /\ on_behalf r address c
  end.
Abbreviation all_ok := (Guarded write_ok).
Abbreviation all_ok_for address :=
  (fun h => Guarded write_ok h /\ authorised (token_of r) (r_Path r) address h).

Lemma keeps_all_ok {A} (c : Call A) : no_writes A c = true -> keeps all_ok c.
Proof.
  intros Hc%negb_true_iff h a HG. apply Guarded_snoc. split; [done|]. unfold write_ok. by rewrite Hc.
Qed.

Lemma keeps_all_ok_for address {A} (c : Call A) :
  no_writes A c = true \/ on_behalf r address c -> keeps (all_ok_for address) c.
Proof.
  intros Hc. apply Guarded_keeps; [apply lasting_authorised|]. intros h a Ha. unfold write_ok.
  intros Hw. exists address. split; [done|]. unfold no_writes in Hc. rewrite Hw in Hc. by destruct Hc.
Qed.

Lemma quiet_keeps_for address B (c : Call B) : no_writes B c = true -> keeps (all_ok_for address) c.
Proof. intros Hc. apply keeps_all_ok_for. by left. Qed.

(** ** Programs without writes *)
Lemma cache_no_writes B (c : Call B) : cache_call B c = true -> no_writes B c = true.
Proof.
  destruct c; try done. unfold no_writes. simpl. destruct args as [|a [|b [|c [|d [|]]]]]; try done.
  simpl. rewrite bool_decide_eq_true. by intros [-> | ->].
Qed.

Lemma only_cache {A} (m : Prog A) : only cache_call m -> only no_writes m.
Proof. intros Hm I HI. apply Hm. intros B c Hc. by apply HI, cache_no_writes. Qed.

Lemma Server_CacheRepository_nw dir id :
  only no_writes (Server_CacheRepository env viper fuel dir id).
Proof. apply only_cache. auto with go. Qed.

Lemma file_exists_nw p : only no_writes (file_exists env p).
Proof. unfold file_exists. only_calls. Qed.

Lemma GitCommand_nw args : only no_writes (GitCommand env args).
Proof. unfold GitCommand. only_calls. Qed.

Lemma CleanUpProcessGroup_nw b : only no_writes (CleanUpProcessGroup env b).
Proof. unfold CleanUpProcessGroup. only_calls. Qed.

Lemma HavePushPermission_nw id address : only no_writes (HavePushPermission env id address).
Proof. unfold HavePushPermission. only_calls. Qed.
#[local] Hint Resolve Server_CacheRepository_nw file_exists_nw GitCommand_nw CleanUpProcessGroup_nw
  HavePushPermission_nw : go.

Lemma AuthFunc_nw token r' : only no_writes (AuthFunc env token r').
Proof. unfold AuthFunc. only_calls. Qed.

Lemma ValidateBasicAuth_nw r' user password : only no_writes (ValidateBasicAuth env r' user password).
Proof. unfold ValidateBasicAuth. only_calls. Qed.

Lemma responseJSON_nw status v : only no_writes (responseJSON env status v).
Proof. unfold responseJSON. only_calls. Qed.

Lemma LocalStorage_Size_nw root oid : only no_writes (LocalStorage_Size env root oid).
Proof. unfold LocalStorage_Size. intros I HI. only_step HI. Qed.

Lemma LocalStorage_Download_nw root oid : only no_writes (LocalStorage_Download env root oid).
Proof. unfold LocalStorage_Download. only_calls. Qed.
#[local] Hint Resolve AuthFunc_nw ValidateBasicAuth_nw responseJSON_nw LocalStorage_Size_nw
  LocalStorage_Download_nw : go.

Lemma ServeBatchHandler_nw r' : only no_writes (ServeBatchHandler env viper r').
Proof. unfold ServeBatchHandler, serve_batch, stored_sizes. only_calls. Qed.

Lemma ServeDownloadHandler_nw r' : only no_writes (ServeDownloadHandler env viper r').
Proof. unfold ServeDownloadHandler, with_rlock, internalServerError. only_calls. Qed.

Lemma ServeVerifyHandler_nw : only no_writes (ServeVerifyHandler env viper).
Proof. unfold ServeVerifyHandler, with_rlock. only_calls. Qed.

Lemma lock_handlers_nw r' :
  only no_writes (ServeCreateLockHandler env r') /\ only no_writes (ServeListLocksHandler env r') /\
  only no_writes (ServeUnlockHandler env r') /\ only no_writes (ServeVerifyLocksHandler env r').
Proof.
  unfold ServeCreateLockHandler, ServeListLocksHandler, ServeUnlockHandler, ServeVerifyLocksHandler,
    lock_request, bad_request. repeat split; only_calls.
Qed.

Lemma GetInfoRefs_nw req : only no_writes (GetInfoRefs env viper fuel cfg req).
Proof. unfold GetInfoRefs, with_lock, packLine, packFlush. only_calls. Qed.

Lemma fetch_nw req : only no_writes (PostRPC env viper fuel gc cfg sha256 "git-upload-pack" req).
Proof. unfold PostRPC, run_rpc, with_lock, fail500. intros I HI. only_step HI; done. Qed.
#[local] Hint Resolve ServeBatchHandler_nw ServeDownloadHandler_nw ServeVerifyHandler_nw GetInfoRefs_nw
  fetch_nw : go.

Lemma initRepo_nw name : only no_writes (initRepo env cfg range name).
Proof. unfold initRepo, SetupInDir. only_calls. Qed.
#[local] Hint Resolve initRepo_nw : go.

(** ** A push and an upload, on behalf of an authorised client *)
Lemma poll_quiet I {A} (c : Call (res A)) missing f :
  (forall B (c : Call B), no_writes B c = true -> keeps I c) -> writes c = false ->
  preserves I (PollForUpdate env fuel (or_missing missing f (query env c))).
Proof.
  intros HI Hc. apply PollForUpdate_preserves; [by apply HI|]. apply or_missing_preserves, HI.
  unfold no_writes. by rewrite Hc.
Qed.

Ltac write_step HI :=
  only_step HI; try (apply preserves_call_res || apply preserves_call; apply keeps_all_ok_for; right; cbn; by auto).

Lemma handleGitReceivePack_ok req address id :
  q_Address req = address -> ParseRepositoryIdfromURI (r_Path r) = Val id ->
  preserves (all_ok_for address) (handleGitReceivePack env fuel gc cfg sha256 req id).
Proof.
  intros Ha Hid. pose proof (quiet_keeps_for address) as HI.
  assert (HP : preserves (all_ok_for address)
                 (PollForUpdate env fuel (CheckProposePackfileUpdate env id (q_Address req))))
    by by apply poll_quiet.
  unfold handleGitReceivePack, no_pending_proposal, check_charge, pin_and_hash, confirm_proposal,
    or_cleanup, cleanup_fail, GetPackfileName, file_size, ipfs_PinFile, ProposePackfileUpdate.
  write_step HI.
Qed.

Lemma push_ok req address :
  q_Http req = r -> q_Address req = address ->
  preserves (all_ok_for address) (PostRPC env viper fuel gc cfg sha256 "git-receive-pack" req).
Proof.
  intros Hr Ha. pose proof (quiet_keeps_for address) as HI. unfold PostRPC. rewrite Hr. cbv zeta.
  assert (Hs : preserves (all_ok_for address)
    (repoID ⟵ lift (ParseRepositoryIdfromURI (r_Path r)) ifErr fail500 env;
     with_lock env (RepoKey repoID)
       (_ ⟵ Server_CacheRepository env viper fuel (cf_Dir cfg) repoID ifErr fail500 env;
        run_rpc env fuel gc cfg sha256 "git-receive-pack" req repoID))).
  { apply preserves_on_error_lift; [by intros _; apply preserves_call, HI|]. intros id Hid.
    pose proof (handleGitReceivePack_ok req address id Ha Hid) as Hh.
    unfold run_rpc, with_lock, fail500. write_step HI. }
  unfold fail500 in *. write_step HI.
Qed.

Lemma upload_ok address :
  preserves (all_ok_for address) (ServeUploadHandler env viper fuel gc sha256 (Some address) r).
Proof.
  pose proof (quiet_keeps_for address) as HI. unfold ServeUploadHandler.
  apply preserves_on_error_lift; [intros e; only_step HI|]. intros id Hid.
  assert (Hs : forall oid, preserves (all_ok_for address)
                 (with_lock env (LfsKey oid) (store_and_propose env viper fuel gc sha256 (Some address) id oid))).
  { intros oid. unfold with_lock, store_and_propose, LocalStorage_Upload, internalServerError, ipfs_PinFile,
      calculateMerkleRoot, LFSObjectByRepositoryIdAndOid, query, ProposeLFSObjectUpdate. cbv iota.
    assert (HP : preserves (all_ok_for address)
                   (PollForUpdate env fuel (CheckProposeLFSObjectUpdate env id oid address)))
      by by apply poll_quiet.
    write_step HI. }
  unfold Repository_, UserQuota, StorageParams, CosmosBankBalance, query, internalServerError. cbv zeta.
  destruct (oid_of_path (r_Path r)) as [oid|]; [|only_step HI]. specialize (Hs oid). revert Hs.
  generalize (with_lock env (LfsKey oid) (store_and_propose env viper fuel gc sha256 (Some address) id oid)).
  intros store Hs. write_step HI.
Qed.

(** ** The gates *)
Lemma dispatch_ok I g req :
  (forall B (c : Call B), no_writes B c = true -> keeps I c) ->
  preserves I (git_handler env viper fuel gc cfg sha256 g req) ->
  preserves I (dispatch env viper fuel gc cfg sha256 range g req).
Proof. intros HI Hg. unfold dispatch, repoExists. only_step HI. Qed.

Lemma quiet_handler_ok I g req :
  (forall B (c : Call B), no_writes B c = true -> keeps I c) ->
  g = InfoRefs \/ g = Rpc "git-upload-pack" ->
  preserves I (git_handler env viper fuel gc cfg sha256 g req).
Proof. intros HI [-> | ->]; simpl; eapply only_preserves; [auto with go|exact HI|auto with go|exact HI]. Qed.

Lemma gate_ok {A} (m : Prog (bool * A)) (address : A -> string) bad (k : A -> Prog unit) :
  preserves all_ok m ->
  (forall h, ends m h (fun a h' => authorised (token_of r) (r_Path r) (address a.2) h')) ->
  preserves all_ok bad ->
  (forall a, preserves (all_ok_for (address a)) (k a)) ->
  preserves all_ok (on_error m (fun _ => bad) (fun a => if negb a.1 then bad else k a.2)).
Proof.
  intros Hm He Hb Hk. eapply preserves_on_error_ends; [done|intros h _; apply He|by intros _|].
  intros [[] a] h HG Ha; simpl; [|by apply Hb]. by destruct (Hk a h (conj HG Ha)).
Qed.

Lemma authenticated_ok (k : string -> Prog unit) :
  (forall address, preserves (all_ok_for address) (k address)) ->
  preserves all_ok (authenticated env (Some (AuthFunc env)) r k).
Proof.
  intros Hk. pose proof (@keeps_all_ok) as HI. unfold authenticated.
  destruct (decide _); [only_step HI|]. pose proof (eq_refl : snd (DecodeBasic (r_Header r)) = token_of r) as Ht.
  destruct (DecodeBasic (r_Header r)) as [user token]. simpl in Ht. subst token.
  destruct (decide _); [only_step HI|].
  apply (gate_ok _ (fun a => a)); [eapply only_preserves; [auto with go|exact HI]| |only_step HI|done].
  intros h. apply AuthFunc_ends.
Qed.

Lemma Authenticate_ok (f : option string -> HttpRequest -> Prog unit) :
  (forall address, preserves (all_ok_for address) (f (Some address) r)) ->
  preserves all_ok (Authenticate env f r).
Proof.
  intros Hf. pose proof (@keeps_all_ok) as HI. unfold Authenticate.
  pose proof (eq_refl : snd (DecodeBasic (r_Header r)) = token_of r) as Ht.
  destruct (DecodeBasic (r_Header r)) as [user token]. simpl in Ht. subst token.
  destruct (decide _); [only_step HI|].
  apply (gate_ok _ (fun a => a) _ (fun a => f (Some a) r));
    [eapply only_preserves; [auto with go|exact HI]| |only_step HI|done].
  intros h. apply ValidateBasicAuth_ends.
Qed.

Lemma lfs_handler_ok l : preserves all_ok (lfs_handler env viper fuel gc sha256 l r).
Proof.
  pose proof (@keeps_all_ok) as HI. destruct (lock_handlers_nw r) as (H1' & H2' & H3' & H4').
  destruct l; simpl;
    try (apply Authenticate_ok; intros address; first [apply upload_ok
           | eapply only_preserves; [eassumption|apply quiet_keeps_for]]);
    (eapply only_preserves; [solve [eassumption|auto with go]|exact HI]).
Qed.

(** The services a request can reach. *)
Lemma findService_cases svc path :
  findService r = Some (svc, path) ->
  sv_Handler svc = InfoRefs \/ sv_Handler svc = Rpc "git-upload-pack" \/
  sv_Handler svc = Rpc "git-receive-pack" /\ r_Method r = "POST"%string /\
    HasSuffix (r_Path r) "/git-receive-pack" = true.
Proof.
  unfold findService, Services. cbn [find_service sv_Method sv_Suffix].
  repeat (case_decide; [intros [= <- <-]; naive_solver|]). done.
Qed.

Lemma ServeHTTP_ok :
  cf_Auth cfg = true ->
  (HasSuffix (r_Path r) "/git-receive-pack" = true -> HasSuffix (r_RequestURI r) "git-receive-pack" = true) ->
  preserves all_ok (ServeHTTP env viper fuel gc cfg sha256 range (Some (AuthFunc env)) r).
Proof.
  intros Hauth Huri. pose proof (@keeps_all_ok) as HI. unfold ServeHTTP.
  destruct (findService r) as [[svc path]|] eqn:Ef.
  2: { destruct (find_lfs LfsServices r); [apply lfs_handler_ok|only_step HI]. }
  destruct (getNamespaceAndRepo path) as [namespace name]. destruct (decide _); [only_step HI|].
  apply findService_cases in Ef. destruct (needs_auth cfg r) eqn:Ha.
  - apply authenticated_ok. intros address. apply dispatch_ok; [apply quiet_keeps_for|].
    destruct Ef as [Hs|[Hs|(Hs & _ & _)]]; [apply quiet_handler_ok; [apply quiet_keeps_for|auto]..|].
    rewrite Hs. by apply push_ok.
  - destruct Ef as [Hs|[Hs|(Hs & Hm & Hp)]];
      [apply dispatch_ok; [exact HI|]; apply quiet_handler_ok; [exact HI|auto]..|].
    unfold needs_auth in Ha. by rewrite Hauth, Hm, (Huri Hp) in Ha.
Qed.
End Writes.

(** * Properties *)


#[local] Open Scope string_scope.

(** Repository 7 belongs to [dao_repo]'s DAO, whose member [bob] pushes: the chain shows
    the proposal once it was sent. *)
Definition is_proposal (o : Obs) : bool :=
  match o with @Did _ c _ => match c with AddToBatch _ => true | _ => false end end.
Definition is_push (o : Obs) : bool :=
  match o with @Did _ c _ => match c with Start _ args => is_receive_pack args | _ => false end end.
Definition server_env : Env := fun A h c =>
  match c in Call A return A with
  | QRepository _ => Ok dao_repo
  | QDaoMemberAll _ => Ok ["bob"]
  | QRepositoryPackfile _ => Er (ErrNew "packfile not found")
  | Stat _ => Exists 10
  | Walk _ => ([mkWalkEntry "/repos/7.git/objects/pack/pack-1.pack" false 10], None)
  | QStorageParams => Ok (mkParams 100 (mkCoin "ulore" 0))
  | UnixfsGet _ => Ok (Some (well_formed_file [1; 2; 3]%Z))
  | QPackfileUpdateProposal _ _ =>
      if existsb is_proposal h then Ok "cid" else Er (ErrNew "packfile update proposal not found")
  | c => quiet c
  end.
Definition demo_config : ServerConfig := mkServerConfig "/repos" "git" true true None true.
Definition push_request (uri : string) (header : list (string * list string)) : HttpRequest :=
  mkHttpRequest "POST" "/7.git/git-receive-pack" uri (fun _ => "") header 0 false "host".
Definition serve (r : HttpRequest) : outcome unit * Trace :=
  @ServeHTTP server_env no_config 5 (mkGitopiaProxy "provider") demo_config (fun b => b) list_tree scaled_dec
    demo_offchain (fun l => l) (Some (@AuthFunc server_env demo_offchain)) r [].

(** [eDpib2I=] is [x:bob]. *)
Definition bobs_push : HttpRequest :=
  push_request "/7.git/git-receive-pack" [("Authorization", ["Basic eDpib2I="])].


(** A query in the URL of a push turns the authentication off. The route looks at the
    path and the gate at the request URI: a push whose request URI does not end in
    [git-receive-pack] is dispatched as it is, on behalf of nobody, whatever its header. *)
Theorem query_bypasses_auth (env : Env) viper fuel gc cfg sha256 `{MerkleTree} `{SdkMath} `{Offchain}
    range auth r namespace name h :
  r_Method r = "POST" ->
  HasSuffix (r_Path r) "/git-receive-pack" = true ->
  HasSuffix (r_RequestURI r) "git-receive-pack" = false ->
  getNamespaceAndRepo (ReplaceOnce (r_Path r) "/git-receive-pack" "") = (namespace, name) -> name <> "" ->
  ServeHTTP env viper fuel gc cfg sha256 range auth r h =
    dispatch env viper fuel gc cfg sha256 range (Rpc "git-receive-pack")
      (mkRequest r (PathJoin [namespace; name]) (PathJoin [cf_Dir cfg; namespace; name]) "") h.
Proof.
  intros Hm Hp Hu Hn Hne. unfold ServeHTTP, findService, Services.
  cbn [find_service sv_Method sv_Suffix sv_Handler]. rewrite Hm.
  destruct (decide ("GET" = "POST" /\ _)) as [[? _]|_]; [done|].
  destruct (decide ("POST" = "POST" /\ HasSuffix _ "/git-upload-pack" = true)) as [[_ Hq]|_].
  { apply HasSuffix_inv in Hp as [p Hp]. rewrite Hp, HasSuffix_app_le in Hq by (vm_compute; lia). done. }
  rewrite decide_True by done. rewrite Hn, decide_False by done.
  unfold needs_auth. by rewrite Hu, andb_false_r.
Qed.

Lemma query_bypasses_auth_witness :
  let r := push_request "/7.git/git-receive-pack?x" [] in
  serve r = dispatch server_env no_config 5 (mkGitopiaProxy "provider") demo_config (fun b => b) (fun l => l)
              (Rpc "git-receive-pack") (mkRequest r "7.git" "/repos/7.git" "") [] /\
  existsb is_push (snd (serve r)) = true.
Proof.
  intros r. split; [|vm_compute; reflexivity].
  apply (@query_bypasses_auth server_env no_config 5 (mkGitopiaProxy "provider") demo_config (fun b => b)
           list_tree scaled_dec demo_offchain (fun l => l)
           (Some (@AuthFunc server_env demo_offchain)) r "" "7.git" []); done.
Defined.
#[local] Close Scope string_scope.

(** ** Routes *)
Lemma stake_sub n s : exists t, s = stake n s +:+ t.
Proof. exists (sdrop n s). by rewrite stake_sdrop. Qed.

(** No unlock request reaches its handler. The suffix of the unlock route is compared
    literally, with its star: for a path without a star (as that of a real lock id) the
    service found, if any, is another one. *)
Theorem unlock_unreachable r l :
  has_char "*" (r_Path r) = false -> find_lfs LfsServices r = Some l -> ls_Handler l <> LfsUnlock.
Proof.
  intros Hs Hl Hu.
  assert (Hno : forall p, has_char "*" p = false -> HasSuffix p "/locks/*/unlock" = false).
  { intros p Hp. apply not_true_is_false. intros [q ->]%HasSuffix_inv.
    rewrite has_char_app, orb_false_iff in Hp. by destruct Hp. }
  assert (Hm : lfs_matches r (mkLfsService "POST" "/locks/*/unlock" LfsUnlock) = false).
  { unfold lfs_matches. simpl ls_Suffix. rewrite (Hno _ Hs), Hno; [by rewrite !andb_false_r|].
    destruct (stake_sub (slen (r_Path r) - 65) (r_Path r)) as [t Ht].
    rewrite Ht, has_char_app, orb_false_iff in Hs. by destruct Hs. }
  unfold LfsServices in Hl. cbn [find_lfs] in Hl.
  repeat (match goal with H : context [if lfs_matches ?r ?x then _ else _] |- _ =>
            destruct (lfs_matches r x) eqn:?; [injection H as <-; simpl in Hu; congruence|] end).
  done.
Qed.

Lemma unlock_unreachable_witness :
  let r := mkHttpRequest "POST" "/7.git/info/lfs/locks/verify" "" (fun _ => ""%string) [] 0 false "h" in
  find_lfs LfsServices r = Some (mkLfsService "POST" "/locks/verify" LfsVerifyLocks) /\
  ls_Handler (mkLfsService "POST" "/locks/verify" LfsVerifyLocks) <> LfsUnlock /\
  find_lfs LfsServices (mkHttpRequest "POST" "/7.git/info/lfs/locks/dummy-lock-id/unlock" ""
                          (fun _ => ""%string) [] 0 false "h") = None.
Proof.
  intros r. split; [reflexivity|]. split; [|reflexivity].
  apply (unlock_unreachable r); reflexivity.
Defined.
