(* ===== verification/Challenge.v ===== *)
(** Answering storage challenges (handler/challenge.go): the chain asks for one chunk of
    a stored file, and the provider answers with the hash of the chunk and its Merkle
    proof. *)

From S2P Require Import Prelude GoInt GoStrings Merkle World ChainClient Events PinHandlers.

#[local] Open Scope string_scope.

Section Challenge.
Context (env : Env) (gc : GitopiaProxy) (sha256 : bytes -> bytes) {M : MerkleTree}.

(** The cid of the content that is challenged. *)
Definition challenged_cid (challenge : Challenge) : Prog string :=
  match ch_Type challenge with
  | CHALLENGE_TYPE_PACKFILE =>
      packfile ← wrapM "failed to get packfile from Gitopia" (Packfile_ env (ch_ContentId challenge));
      mret (pk_Cid packfile)
  | CHALLENGE_TYPE_RELEASE_ASSET =>
      release ← wrapM "failed to get release asset from Gitopia" (ReleaseAsset env (ch_ContentId challenge));
      mret (ra_Cid release)
  | CHALLENGE_TYPE_LFS_OBJECT =>
      lfsObject ← wrapM "failed to get lfs object from Gitopia" (LFSObject_ env (ch_ContentId challenge));
      mret (cl_Cid lfsObject)
  | CHALLENGE_TYPE_OTHER => fail (ErrNew "invalid challenge type")
  end.

(** [h.gc.SubmitChallenge]: a missed deadline is only logged. *)
Definition submit (event : ChallengeEvent) (chunkHash : bytes) (proof : Proof_) : Prog unit :=
  on_error (SubmitChallenge env gc (ce_ChallengeId event) chunkHash (ProofHashes proof) (ProofIndex proof))
    (fun e => if Contains (Error e) "challenge deadline exceeded" then mret tt
              else fail (ErrWrap "failed to submit challenge response" e))
    mret.

Definition Challenge_Process (event : ChallengeEvent) : Prog unit :=
  challenge ← wrapM "failed to get challenge" (Challenge_ env (ce_ChallengeId event));
  _ ← wrapM "failed to create IPFS API" (call_res env NewIpfsApi);
  cid ← challenged_cid challenge;
  _ ← wrapM "failed to create path" (call_res env (NewIpfsPath ("/ipfs/" +:+ cid)));
  f ← wrapM "failed to get packfile from IPFS" (call_res env (UnixfsGet cid));
  match f with
  | None => fail (ErrNew "invalid content format")
  | Some file =>
      '(proof, root, chunkHash) ← wrapM "failed to generate proofs"
                                    (lift (GenerateProof sha256 file (ch_ChunkIndex challenge)));
      if decide (root <> ch_RootHash challenge) then fail (ErrNew "root hash mismatch")
      else submit event chunkHash proof
  end.

Definition Challenge_Handle `{Json} `{GitopiaKeys} : string -> Prog unit :=
  handle_buffer UnmarshalChallengeEvent Challenge_Process.
End Challenge.
#[local] Close Scope string_scope.

(** * Lemmas *)
Section Answer.
Context (env : Env) (gc : GitopiaProxy) (sha256 : bytes -> bytes) {M : MerkleTree} {L : MerkleTreeLaws M}.

(** A message to the chain answers challenge [id] with a proof for its root. *)
Definition answer_ok (id : Z) (h : Trace) (o : Obs) : Prop :=
  match o with
  | @Did _ c _ =>
      match c with
      | AddToBatch msg => exists challenge chunkHash proof,
          Did (QChallenge id) (Ok challenge) ∈ h /\
          msg = MsgSubmitChallengeResponse (ClientAddress gc) id chunkHash (ProofHashes proof)
                  (ProofIndex proof) /\
          VerifyProof chunkHash (Some proof) (ch_RootHash challenge) = Ok true
      | _ => True
      end
  end.

Lemma challenged_cid_guards id challenge P :
  lasting P -> guards (answer_ok id) P (challenged_cid env challenge) (fun _ => P).
Proof.
  intros HP. unfold challenged_cid, Packfile_, ReleaseAsset, LFSObject_, query.
  destruct (ch_Type challenge); [..|apply guards_fail];
    (eapply guards_bind; [apply guards_wrapM, guards_wrapM, guards_call_res; [done|done]|]; intros a;
     apply guards_ret; tauto).
Qed.

Lemma submit_guards event chunkHash proof (P : Trace -> Prop) :
  (forall h, P h -> exists challenge, Did (QChallenge (ce_ChallengeId event)) (Ok challenge) ∈ h /\
     VerifyProof chunkHash (Some proof) (ch_RootHash challenge) = Ok true) ->
  guards (answer_ok (ce_ChallengeId event)) P (submit env gc event chunkHash proof) (fun _ _ => True).
Proof.
  intros HP h HG Hh. split; [|done]. unfold submit, on_error, SubmitChallenge, call_res, call.
  rewrite run_bind. cbv beta iota zeta.
  assert (Hs : Guarded (answer_ok (ce_ChallengeId event))
    (h ++ [Did (AddToBatch (MsgSubmitChallengeResponse (ClientAddress gc) (ce_ChallengeId event) chunkHash
       (ProofHashes proof) (ProofIndex proof))) (env _ h (AddToBatch (MsgSubmitChallengeResponse
       (ClientAddress gc) (ce_ChallengeId event) chunkHash (ProofHashes proof) (ProofIndex proof))))])).
  { apply Guarded_snoc. split; [done|]. destruct (HP h Hh) as (challenge & ? & ?). exists challenge, chunkHash, proof. auto. }
  destruct (env _ h _) as [[]|e]; [done|]. cbn. by destruct (Contains _ _).
Qed.

Lemma Challenge_Process_guards event :
  guards (answer_ok (ce_ChallengeId event)) (fun _ => True) (Challenge_Process env gc sha256 event)
    (fun _ _ => True).
Proof.
  unfold Challenge_Process, Challenge_, query.
  eapply guards_bind; [apply guards_wrapM, guards_wrapM, guards_call_res; [done|done]|]. intros challenge. cbv beta.
  set (P := fun h : Trace => True /\ Did (QChallenge (ce_ChallengeId event)) (Ok challenge) ∈ h).
  assert (HP : lasting P) by (intros h t [_ ?]; split; [done|set_solver]).
  eapply guards_bind; [apply guards_wrapM, (guards_call_res _ _ P); [done|done]|]. intros ?.
  eapply guards_conseq; [|by intros ? [Hh _]; exact Hh|by intros ? ? Hq; exact Hq].
  eapply guards_bind; [by apply challenged_cid_guards|]. intros cid. cbv beta.
  eapply guards_bind; [apply guards_wrapM, (guards_call_res _ _ P); [done|done]|]. intros ?.
  eapply guards_conseq; [|by intros ? [Hh _]; exact Hh|by intros ? ? Hq; exact Hq].
  eapply guards_bind; [apply guards_wrapM, (guards_call_res _ _ P); [done|done]|].
  intros [file|]; [|apply guards_fail].
  eapply guards_conseq; [|by intros ? [Hh _]; exact Hh|by intros ? ? Hq; exact Hq].
  eapply guards_bind; [apply guards_wrapM, guards_lift|]. intros [[proof root] chunkHash].
  destruct (decide (root <> ch_RootHash challenge)) as [Hr|Hr]; [apply guards_fail|].
  apply submit_guards. intros h [[_ Hc] Hg]. exists challenge. split; [done|].
  apply dec_stable in Hr as <-. by apply (GenerateProof_sound _ _ _ _ _ _ Hg).
Qed.
End Answer.

(** * Properties *)

(** C17: a challenge is only answered with a proof that verifies. Whatever the environment
    answers, the only message sent while an event is processed is a response to its
    challenge, and its chunk hash and proof verify against the root hash that the chain
    gave for that challenge. *)
Theorem challenge_response_verifies (env : Env) gc sha256 {M : MerkleTree} {L : MerkleTreeLaws M} event :
  Guarded (answer_ok gc (ce_ChallengeId event)) (snd (Challenge_Process env gc sha256 event [])).
Proof. by apply (Challenge_Process_guards env gc sha256 event []); [apply Guarded_nil|]. Qed.

(** A challenge about a file that is stored is answered. Let the chain tell the
    challenge, IPFS serve the whole file of the challenged cid, the root of the challenge be
    that of the file, and the chunk be one of the file's: then processing the event ends
    with the response -- the hash of that very chunk and a proof that verifies -- in the
    queue of messages. *)
Theorem challenge_answered (env : Env) gc sha256 {M : MerkleTree} {L : MerkleTreeLaws M} event challenge
    cid data i chunk h :
  (forall h, env _ h (QChallenge (ce_ChallengeId event)) = Ok challenge) ->
  (forall h, env _ h NewIpfsApi = Ok tt) ->
  (forall h, fst (challenged_cid env challenge h) = Val cid) ->
  (forall h, env _ h (NewIpfsPath ("/ipfs/" +:+ cid)%string) = Ok tt) ->
  (forall h, env _ h (UnixfsGet cid) = Ok (Some (well_formed_file data))) ->
  (forall h msg, env _ h (AddToBatch msg) = Ok tt) ->
  ch_ChunkIndex challenge = Z.of_nat i -> chunks_of DefaultChunkSize data !! i = Some chunk ->
  Z.of_nat (length data) + DefaultChunkSize <= 2 ^ 63 ->
  ComputeMerkleRoot sha256 (well_formed_file data) = Val (ch_RootHash challenge) ->
  exists proof h', Challenge_Process env gc sha256 event h = (Val tt, h') /\
    list.last h' = Some (Did (AddToBatch (MsgSubmitChallengeResponse (ClientAddress gc)
      (ce_ChallengeId event) (sha256 chunk) (ProofHashes proof) (ProofIndex proof))) (Ok tt)) /\
    VerifyProof (sha256 chunk) (Some proof) (ch_RootHash challenge) = Ok true.
Proof.
  intros Hq Ha Hc Hp Hg Hm Hi Hch Hb Hr.
  destruct (GenerateProof_complete sha256 data i chunk Hch Hb) as (proof & root & Hgen & Hroot & Hv).
  assert (root = ch_RootHash challenge) as -> by congruence. exists proof.
  unfold Challenge_Process, Challenge_, query, wrapM, call_res, call.
  rewrite run_bind, run_bind. cbv beta iota zeta. rewrite Hq. cbn [of_res lift].
  rewrite run_bind, run_bind. cbv beta iota zeta. rewrite Ha. cbn [of_res lift].
  rewrite run_bind. match goal with |- context [challenged_cid env challenge ?h1] => specialize (Hc h1);
    destruct (challenged_cid env challenge h1) as [o h2] end. simpl in Hc. subst o.
  rewrite run_bind, run_bind. cbv beta iota zeta. rewrite Hp. cbn [of_res lift].
  rewrite run_bind, run_bind. cbv beta iota zeta. rewrite Hg. cbn [of_res lift].
  rewrite run_bind. unfold lift. rewrite Hi, Hgen, decide_False by auto.
  unfold submit, on_error, SubmitChallenge, call_res, call. rewrite run_bind. cbv beta iota zeta.
  rewrite Hm. eexists. split; [done|]. by rewrite list.last_snoc.
Qed.

#[local] Open Scope string_scope.
Definition challenge_env : Env := fun A h c =>
  match c in Call A return A with
  | QChallenge _ => Ok (mkChallenge CHALLENGE_TYPE_PACKFILE 3 0 [7; 8; 9]%Z)
  | QPackfile _ => Ok (mkPackfile "p.pack" "cid" 3)
  | UnixfsGet _ => Ok (Some (well_formed_file [7; 8; 9]%Z))
  | c => quiet c
  end.

Lemma challenge_answered_witness :
  exists (proof : @Proof_ list_tree) h',
    Challenge_Process challenge_env (mkGitopiaProxy "provider") (fun b => b) (mkChallengeEvent 1 "provider") []
      = (Val tt, h') /\
    list.last h' = Some (Did (AddToBatch (MsgSubmitChallengeResponse "provider" 1 [7; 8; 9]%Z
      (ProofHashes proof) (ProofIndex proof))) (Ok tt)) /\
    VerifyProof [7; 8; 9]%Z (Some proof) [7; 8; 9]%Z = Ok true.
Proof.
  apply (challenge_answered challenge_env (mkGitopiaProxy "provider") (fun b => b) (mkChallengeEvent 1 "provider")
    (mkChallenge CHALLENGE_TYPE_PACKFILE 3 0 [7; 8; 9]%Z) "cid" [7; 8; 9]%Z 0 [7; 8; 9]%Z []); try done.
Defined.

Definition responds (o : Obs) : bool :=
  match o with @Did _ c _ => match c with AddToBatch _ => true | _ => false end end.

Lemma challenge_response_verifies_witness :
  let h := snd (Challenge_Process challenge_env (mkGitopiaProxy "provider") (fun b => b)
                  (mkChallengeEvent 1 "provider") []) in
  Guarded (answer_ok (M := list_tree) (mkGitopiaProxy "provider") 1) h /\ existsb responds h = true.
Proof.
  split; [|vm_compute; reflexivity].
  apply (challenge_response_verifies challenge_env (mkGitopiaProxy "provider") (fun b => b) (M := list_tree)
    (L := list_tree_laws) (mkChallengeEvent 1 "provider")).
Defined.
#[local] Close Scope string_scope.
