(* ===== verification/Release.v ===== *)
(** Release events (handler/release.go): a release that is created, updated or deleted
    makes the provider pin the attachments and propose to the chain how the release's
    assets change. *)

From S2P Require Import Prelude GoInt GoStrings Merkle World ChainClient Events PinHandlers.

#[local] Open Scope string_scope.

Section Release.
Context (env : Env) (viper : string -> string) (fuel : nat) (gc : GitopiaProxy).
Context (sha256 : bytes -> bytes) {M : MerkleTree}.
(** The order in which Go ranges over the map of the existing assets. *)
Context (range : list (string * ChainReleaseAsset) -> list (string * ChainReleaseAsset)).

Definition attachment_path (attachment : Attachment) : string :=
  viper "ATTACHMENT_DIR" +:+ "/" +:+ at_Sha attachment.

Definition Release_calculateMerkleRoot (attachment : Attachment) : Prog bytes :=
  let filePath := attachment_path attachment in
  let name := at_Name attachment in
  file ← wrapM ("failed to open attachment file: " +:+ name) (call_res env (OpenFile filePath));
  _ ← wrapM ("failed to get file stat: " +:+ name) (call_res env (FileStat filePath));
  _ ← wrapM ("failed to create files.File from attachment file: " +:+ name)
        (call_res env (NewReaderPathFile filePath));
  wrapM ("failed to compute merkle root for attachment: " +:+ name)
    (lift (ComputeMerkleRoot sha256 file)).

(** Pin an attachment and hash it; a failure is logged and leaves the attachment out. *)
Definition pin_attachment (attachment : Attachment) : Prog (option (string * bytes)) :=
  cid ⟵ ipfs_PinFile env (attachment_path attachment) ifErr mret None;
  rootHash ⟵ Release_calculateMerkleRoot attachment ifErr mret None;
  mret (Some (cid, rootHash)).

Definition asset_update (attachment : Attachment) (cid : string) (rootHash : bytes)
    (oldSha256 oldCid : string) : AssetUpdate :=
  mkAssetUpdate (at_Name attachment) cid rootHash (u64 (at_Size attachment)) (at_Sha attachment)
    oldSha256 oldCid false.
Definition asset_deletion (asset : ChainReleaseAsset) : AssetUpdate :=
  mkAssetUpdate (ra_Name asset) "" [] 0 "" (ra_Sha256 asset) (ra_Cid asset) true.

(** The loop of a creation. *)
Definition created (updates : list AssetUpdate) (attachment : Attachment) : Prog (list AssetUpdate) :=
  p ← pin_attachment attachment;
  mret (match p with
        | None => updates
        | Some (cid, rootHash) => updates ++ [asset_update attachment cid rootHash "" ""]
        end)%list.

(** The loops of an update: what is gone, then what is new or changed. *)
Definition deleted (attachments : list Attachment) (updates : list AssetUpdate)
    (existing : string * ChainReleaseAsset) : list AssetUpdate :=
  if existsb (fun attachment => String.eqb (fst existing) (at_Name attachment)) attachments
  then updates else (updates ++ [asset_deletion (snd existing)])%list.

Definition changed (existingAssets : gmap string ChainReleaseAsset) (updates : list AssetUpdate)
    (attachment : Attachment) : Prog (list AssetUpdate) :=
  let existing := existingAssets !! at_Name attachment in
  if match existing with Some asset => String.eqb (ra_Sha256 asset) (at_Sha attachment) | None => false end
  then mret updates
  else
    p ← pin_attachment attachment;
    mret (match p with
          | None => updates
          | Some (newCid, rootHash) =>
              match existing with
              | None => updates ++ [asset_update attachment newCid rootHash "" ""]
              | Some asset =>
                  if decide (newCid <> ra_Cid asset)
                  then updates ++ [asset_update attachment newCid rootHash (ra_Sha256 asset) (ra_Cid asset)]
                  else updates
              end
          end)%list.

(** Propose the updates and wait for the proposal; failures are logged. *)
Definition propose (event : ReleaseEvent) (updates : list AssetUpdate) : Prog unit :=
  when (bool_decide (0 < length updates)%nat)
    (_ ⟵ ProposeReleaseAssetsUpdate env gc (rl_Creator event) (rl_RepositoryId event) (rl_Tag event) updates
       ifErr mret tt;
     _ ← attempt (PollForUpdate env fuel
           (CheckProposeReleaseAssetsUpdate env (rl_RepositoryId event) (rl_Tag event) (rl_Creator event)));
     mret tt).

(** The assets by name; of two with one name the later one counts. *)
Definition assets_by_name (assets : list ChainReleaseAsset) : gmap string ChainReleaseAsset :=
  fold_left (fun m asset => <[ra_Name asset := asset]> m) assets ∅.

Definition existing_assets (event : ReleaseEvent) (eventType : string) :
    Prog (gmap string ChainReleaseAsset) :=
  if decide (eventType = EventUpdateReleaseType \/ eventType = EventDeleteReleaseType) then
    on_error (RepositoryReleaseAssets env (rl_RepositoryId event) (rl_Tag event))
      (fun e => if Contains (Error e) "release asset not found" then mret ∅
                else fail (ErrWrap "error querying release assets" e))
      (fun assets => mret (assets_by_name assets))
  else mret ∅.

Definition create_release (event : ReleaseEvent) : Prog unit :=
  updates ← foldM created (rl_Attachments event) [];
  propose event updates.

Definition update_release (event : ReleaseEvent) (existingAssets : gmap string ChainReleaseAsset) : Prog unit :=
  let gone := fold_left (deleted (rl_Attachments event)) (range (map_to_list existingAssets)) [] in
  updates ← foldM (changed existingAssets) (rl_Attachments event) gone;
  propose event updates.

(** A deletion of the release deletes every asset. *)
Definition delete_release (event : ReleaseEvent) (existingAssets : gmap string ChainReleaseAsset) : Prog unit :=
  propose event (map (fun existing => asset_deletion (snd existing)) (range (map_to_list existingAssets))).

Definition Release_Process (event : ReleaseEvent) (eventType : string) : Prog unit :=
  if negb (CheckProvider gc (rl_Provider event)) then mret tt else
  existingAssets ← existing_assets event eventType;
  if decide (eventType = EventCreateReleaseType \/ eventType = EventDaoCreateReleaseType)
  then create_release event
  else if decide (eventType = EventUpdateReleaseType) then update_release event existingAssets
  else if decide (eventType = EventDeleteReleaseType) then delete_release event existingAssets
  else mret tt.
End Release.

(** * Specification

    What a release holds is a map from names to digest and cid. An update of an asset
    states what it replaces, and applies only to a release that holds just that. *)
Abbreviation Ledger := (gmap string (string * string)).

Definition old_matches (u : AssetUpdate) (held : option (string * string)) : bool :=
  bool_decide (held = Some (au_OldSha256 u, au_OldCid u) \/
               held = None /\ au_OldSha256 u = "" /\ au_OldCid u = "").

Definition apply_update (m : Ledger) (u : AssetUpdate) : option Ledger :=
  if old_matches u (m !! au_Name u)
  then Some (if au_Delete u then delete (au_Name u) m
             else <[au_Name u := (au_Sha256 u, au_Cid u)]> m)
  else None.

Fixpoint apply_updates (m : Ledger) (us : list AssetUpdate) : option Ledger :=
  match us with
  | [] => Some m
  | u :: us => m' ← apply_update m u; apply_updates m' us
  end.

Definition ledger_of (assets : gmap string ChainReleaseAsset) : Ledger :=
  (fun asset => (ra_Sha256 asset, ra_Cid asset)) <$> assets.

(** The digests a release should hold. *)
Definition wanted (attachments : list Attachment) : gmap string string :=
  list_to_map (map (fun a => (at_Name a, at_Sha a)) attachments).

(** The updates the server sent to the chain for a release. *)
Definition proposed (o : Obs) : option (list AssetUpdate) :=
  match o with
  | @Did _ c _ => match c with
                  | AddToBatch (MsgProposeReleaseAssetsUpdate _ _ _ _ us) => Some us
                  | _ => None
                  end
  end.
Definition proposals (h : Trace) : list (list AssetUpdate) := omap proposed h.

#[local] Close Scope string_scope.

(** * Lemmas *)
Lemma apply_updates_app m us vs :
  apply_updates m (us ++ vs) = (m' ← apply_updates m us; apply_updates m' vs).
Proof. revert m. induction us as [|u us IH]; intros m; simpl; [done|]. destruct (apply_update m u); [apply IH|done]. Qed.

Lemma asset_deletion_applies (m : Ledger) n asset :
  ra_Name asset = n -> m !! n = Some (ra_Sha256 asset, ra_Cid asset) ->
  apply_update m (asset_deletion asset) = Some (delete n m).
Proof.
  intros <- Hm. unfold apply_update, old_matches. simpl. rewrite Hm.
  rewrite bool_decide_eq_true_2; [done|by left].
Qed.

(** Every asset is kept under its name. *)
Definition named (assets : gmap string ChainReleaseAsset) : Prop :=
  map_Forall (fun n asset => ra_Name asset = n) assets.

Lemma assets_by_name_named assets : named (assets_by_name assets).
Proof.
  unfold assets_by_name. assert (H : named ∅) by (intros ? ?; by rewrite lookup_empty). revert H.
  generalize (∅ : gmap string ChainReleaseAsset).
  induction assets as [|a assets IH]; intros m Hm; simpl; [done|].
  apply IH. apply map_Forall_insert_2; [done|exact Hm].
Qed.

(** The first loop of an update deletes what is no longer attached. *)
Lemma deleted_applies attachments (kept : gmap string ChainReleaseAsset) l updates m0 m :
  named kept -> NoDup l.*1 -> (forall n a, (n, a) ∈ l -> kept !! n = Some a) ->
  apply_updates m0 updates = Some m -> (forall n, n ∈ l.*1 -> m !! n = ledger_of kept !! n) ->
  exists m', apply_updates m0 (fold_left (deleted attachments) l updates) = Some m' /\
    forall n, m' !! n = (if decide (n ∈ l.*1 /\ n ∉ map at_Name attachments) then None else m !! n).
Proof.
  intros Hn. revert updates m. induction l as [|[n a] l IH]; intros updates m Hnd Hl Hm Hk.
  { exists m. split; [done|]. intros k. rewrite decide_False; [done|]. set_solver. }
  cbn [fst snd fmap list_fmap] in *. apply list.NoDup_cons in Hnd as [Hnl Hnd]. cbn [fold_left].
  assert (Hka : kept !! n = Some a) by (apply Hl; set_solver).
  assert (Hmn : m !! n = Some (ra_Sha256 a, ra_Cid a)).
  { rewrite Hk by set_solver. unfold ledger_of. by rewrite lookup_fmap, Hka. }
  assert (Hfound : existsb (fun at_ => String.eqb n (at_Name at_)) attachments = true <->
                   n ∈ map at_Name attachments).
  { rewrite existsb_exists, list_elem_of_fmap. setoid_rewrite <- list_elem_of_In. setoid_rewrite String.eqb_eq.
    naive_solver. }
  unfold deleted at 2. cbn [fst snd].
  destruct (existsb _ attachments) eqn:Ef.
  - destruct (IH updates m) as (m' & Ha & Hm'); [done|set_solver|done|set_solver|].
    exists m'. split; [done|]. intros k. rewrite Hm'.
    destruct (decide (k = n)) as [->|]; [rewrite !decide_False; [done|naive_solver..]|].
    apply decide_ext. set_solver.
  - destruct (IH (updates ++ [asset_deletion a])%list (delete n m)) as (m' & Ha & Hm'); [done|set_solver| |..].
    + rewrite apply_updates_app, Hm. cbn. by rewrite (asset_deletion_applies m n a (Hn n a Hka) Hmn).
    + intros k Hin. rewrite lookup_delete_ne by (intros ->; done). apply Hk. set_solver.
    + exists m'. split; [done|]. intros k. rewrite Hm'.
      destruct (decide (k = n)) as [->|Hne].
      * rewrite decide_False by naive_solver. rewrite (decide_True (P := _ /\ _)); [apply lookup_delete_eq|].
        split; [set_solver|]. rewrite <- Hfound. congruence.
      * rewrite lookup_delete_ne by done. apply decide_ext. set_solver.
Qed.

Section Refinement.
Context (env : Env) (viper : string -> string) (fuel : nat) (gc : GitopiaProxy).
Context (sha256 : bytes -> bytes) {M : MerkleTree}.
Context (range : list (string * ChainReleaseAsset) -> list (string * ChainReleaseAsset)).
Context (range_perm : forall l, range l ≡ₚ l).

(** Only a proposal to update a release counts. *)
Definition silent {A} (c : Call A) : Prop := forall a, proposed (Did c a) = None.

Lemma proposals_snoc h o : proposals (h ++ [o]) = proposals h ++ from_option (fun us => [us]) [] (proposed o).
Proof. unfold proposals. rewrite omap_app. simpl. by destruct (proposed o). Qed.

Lemma silent_keeps us {A} (c : Call A) : silent c -> keeps (fun h => proposals h = us) c.
Proof. intros Hc h a <-. rewrite proposals_snoc, Hc. simpl. by rewrite app_nil_r. Qed.

Lemma pin_attachment_silent us attachment :
  preserves (fun h => proposals h = us) (pin_attachment env viper sha256 attachment).
Proof.
  unfold pin_attachment, ipfs_PinFile, Release_calculateMerkleRoot.
  preserve; first [apply preserves_call|apply preserves_call_res]; by apply silent_keeps.
Qed.

(** An attachment that can be pinned and hashed, and whose content is not stored yet
    under its name. *)
Definition pinnable (kept : gmap string ChainReleaseAsset) (attachment : Attachment) : Prop :=
  forall h, exists cid rootHash h',
    pin_attachment env viper sha256 attachment h = (Val (Some (cid, rootHash)), h') /\
    forall asset, kept !! at_Name attachment = Some asset -> cid <> ra_Cid asset.

Definition unchanged (kept : gmap string ChainReleaseAsset) (attachment : Attachment) : Prop :=
  exists asset, kept !! at_Name attachment = Some asset /\ ra_Sha256 asset = at_Sha attachment.

(** One round of the second loop. *)
Lemma changed_step kept (m : Ledger) m0 updates attachment h :
  unchanged kept attachment \/ pinnable kept attachment ->
  apply_updates m0 updates = Some m ->
  m !! at_Name attachment = ledger_of kept !! at_Name attachment ->
  exists us h' m', changed env viper sha256 kept updates attachment h = (Val us, h') /\
    proposals h' = proposals h /\ apply_updates m0 us = Some m' /\
    (forall n, n <> at_Name attachment -> m' !! n = m !! n) /\
    fst <$> m' !! at_Name attachment = Some (at_Sha attachment).
Proof.
  intros Hor Hm Hk. unfold changed. unfold ledger_of in Hk. rewrite lookup_fmap in Hk.
  destruct (kept !! at_Name attachment) as [asset|] eqn:Ek; simpl in Hk.
  - destruct (String.eqb_spec (ra_Sha256 asset) (at_Sha attachment)) as [He|Hne].
    { exists updates, h, m. split_and!; [done..|]. by rewrite Hk, <- He. }
    destruct Hor as [(? & ? & ?)|Hp]; [naive_solver|].
    destruct (Hp h) as (cid & root & h' & Hrun & Hcid).
    pose proof (pin_attachment_silent (proposals h) attachment h eq_refl) as Hs. rewrite Hrun in Hs.
    rewrite run_bind, Hrun. rewrite decide_True by (by apply Hcid).
    eexists _, h', _. split_and!; [reflexivity|done| | |].
    + rewrite apply_updates_app, Hm. cbn. unfold apply_update, old_matches. cbn. rewrite Hk.
      rewrite bool_decide_eq_true_2 by (by left). reflexivity.
    + intros n Hn. by rewrite lookup_insert_ne.
    + by rewrite lookup_insert_eq.
  - destruct Hor as [(? & ? & ?)|Hp]; [naive_solver|].
    destruct (Hp h) as (cid & root & h' & Hrun & Hcid).
    pose proof (pin_attachment_silent (proposals h) attachment h eq_refl) as Hs. rewrite Hrun in Hs.
    rewrite run_bind, Hrun.
    eexists _, h', _. split_and!; [reflexivity|done| | |].
    + rewrite apply_updates_app, Hm. cbn. unfold apply_update, old_matches. cbn. rewrite Hk.
      rewrite bool_decide_eq_true_2 by (by right). reflexivity.
    + intros n Hn. by rewrite lookup_insert_ne.
    + by rewrite lookup_insert_eq.
Qed.

Lemma wanted_cons attachment attachments :
  wanted (attachment :: attachments) = <[at_Name attachment := at_Sha attachment]> (wanted attachments).
Proof. done. Qed.

(** The second loop brings every attachment into the release. *)
Lemma changed_applies kept attachments (m : Ledger) m0 updates h :
  NoDup (map at_Name attachments) ->
  (forall a, a ∈ attachments -> unchanged kept a \/ pinnable kept a) ->
  apply_updates m0 updates = Some m ->
  (forall a, a ∈ attachments -> m !! at_Name a = ledger_of kept !! at_Name a) ->
  exists us h' m', foldM (changed env viper sha256 kept) attachments updates h = (Val us, h') /\
    proposals h' = proposals h /\ apply_updates m0 us = Some m' /\
    fst <$> m' = wanted attachments ∪ (fst <$> m).
Proof.
  revert updates m h. induction attachments as [|a attachments IH]; intros updates m h Hnd Hor Hm Hk.
  { exists updates, h, m. split_and!; [done..|].
    symmetry. apply (left_id_L ∅ (∪)). }
  cbn [map] in Hnd. apply list.NoDup_cons in Hnd as [Ha Hnd].
  destruct (changed_step kept m m0 updates a h) as (us & h1 & m1 & Hrun & Hs & Hm1 & Hne & Heq);
    [apply Hor; set_solver|done|apply Hk; set_solver|].
  destruct (IH us m1 h1) as (us' & h2 & m2 & Hrun2 & Hs2 & Hm2 & Hu); [done|set_solver|done| |].
  { intros b Hb. rewrite Hne; [apply Hk; set_solver|]. intros Hab. apply Ha. rewrite <- Hab.
    by apply list_elem_of_fmap_2. }
  exists us', h2, m2. split_and!; [|congruence|done|].
  - cbn [foldM]. rewrite run_bind, Hrun. exact Hrun2.
  - rewrite Hu, wanted_cons. apply map_eq. intros n.
    rewrite !lookup_union, !lookup_fmap. destruct (decide (n = at_Name a)) as [->|Hn].
    + rewrite lookup_insert_eq, Heq.
      assert (wanted attachments !! at_Name a = None) as ->; [|by destruct (m !! _)].
      unfold wanted. apply not_elem_of_list_to_map_1. intros Hin. apply Ha. revert Hin.
      rewrite !list_elem_of_fmap. intros (p & -> & Hp). apply list_elem_of_fmap in Hp as (b & -> & Hb).
      by exists b.
    + by rewrite lookup_insert_ne, Hne.
Qed.

(** A creation is an update of a release that holds nothing. *)
Lemma created_changed attachments updates h :
  foldM (created env viper sha256) attachments updates h = foldM (changed env viper sha256 ∅) attachments updates h.
Proof.
  revert updates h. induction attachments as [|a attachments IH]; intros updates h; [done|]. cbn [foldM].
  assert (created env viper sha256 updates a = changed env viper sha256 ∅ updates a) as ->.
  { unfold changed. by rewrite lookup_empty. }
  rewrite !run_bind. destruct (changed _ _ _ _ _ _ _) as [[|?|?] ?]; [apply IH|done..].
Qed.

(** A proposal that is not empty is sent once, and nothing else is. *)
Lemma propose_proposals event updates h :
  proposals (snd (propose env fuel gc event updates h)) =
  proposals h ++ (if decide (updates = []) then [] else [updates]).
Proof.
  unfold propose. destruct updates as [|u us]; [by rewrite app_nil_r|].
  rewrite bool_decide_eq_true_2 by (simpl; lia). rewrite decide_False by done. cbn [when].
  set (h1 := h ++ [Did (AddToBatch (MsgProposeReleaseAssetsUpdate (ClientAddress gc) (rl_Creator event)
    (rl_RepositoryId event) (rl_Tag event) (u :: us)))
    (env _ h (AddToBatch (MsgProposeReleaseAssetsUpdate (ClientAddress gc) (rl_Creator event)
    (rl_RepositoryId event) (rl_Tag event) (u :: us))))]).
  assert (H1 : proposals h1 = proposals h ++ [u :: us]) by apply proposals_snoc.
  assert (Hc : preserves (fun h => proposals h = proposals h1)
    (_ ← attempt (PollForUpdate env fuel (CheckProposeReleaseAssetsUpdate env (rl_RepositoryId event)
       (rl_Tag event) (rl_Creator event))); mret tt)).
  { apply preserves_bind; [|intros ?; apply preserves_ret]. apply preserves_attempt, PollForUpdate_preserves.
    - by apply silent_keeps.
    - by apply or_missing_preserves, silent_keeps. }
  specialize (Hc h1 eq_refl). rewrite <- H1.
  unfold on_error, ProposeReleaseAssetsUpdate, call_res. rewrite run_bind. unfold call. cbv beta zeta iota.
  fold h1. unfold lift. destruct (env _ h _); [exact Hc|reflexivity].
Qed.

Lemma gone_applies attachments kept :
  named kept ->
  exists m, apply_updates (ledger_of kept)
      (fold_left (deleted attachments) (range (map_to_list kept)) []) = Some m /\
    forall n, m !! n = (if decide (n ∈ map at_Name attachments) then ledger_of kept !! n else None).
Proof using range_perm.
  intros Hn.
  assert (Hin : forall n a, (n, a) ∈ range (map_to_list kept) <-> kept !! n = Some a).
  { intros n a. rewrite (range_perm (map_to_list kept)). apply elem_of_map_to_list. }
  destruct (deleted_applies attachments kept (range (map_to_list kept)) [] (ledger_of kept) (ledger_of kept))
    as (m & Hm & Hl); [done| |apply Hin|done|done|].
  { rewrite (range_perm (map_to_list kept)). apply NoDup_fst_map_to_list. }
  exists m. split; [done|]. intros n. rewrite Hl.
  destruct (decide (n ∈ map at_Name attachments)) as [Ha|Ha]; [apply decide_False; naive_solver|].
  case_decide as Hd; [done|]. unfold ledger_of. rewrite lookup_fmap.
  destruct (kept !! n) as [a|] eqn:E; [|done]. exfalso. apply Hd. split; [|done].
  apply list_elem_of_fmap. exists (n, a). by rewrite Hin.
Qed.

Lemma all_deleted updates l :
  (updates ++ map (fun existing => asset_deletion (snd existing)) l) = fold_left (deleted []) l updates.
Proof.
  revert updates. induction l as [|p l IH]; intros updates; simpl; [apply app_nil_r|].
  rewrite <- IH. unfold deleted. simpl. by rewrite <- app_assoc.
Qed.

Lemma wanted_only attachments (m : Ledger) :
  (forall n, n ∉ map at_Name attachments -> m !! n = None) ->
  wanted attachments ∪ (fst <$> m) = wanted attachments.
Proof.
  intros Hm. apply map_eq. intros n. rewrite lookup_union, lookup_fmap.
  destruct (decide (n ∈ map at_Name attachments)) as [Hin|Hin].
  - assert (is_Some (wanted attachments !! n)) as [sha ->]; [|by destruct (m !! n)].
    apply list_elem_of_fmap in Hin as (a & -> & Ha). unfold wanted.
    clear Hm. induction attachments as [|b bs IH]; [set_solver|]. cbn.
    destruct (decide (at_Name b = at_Name a)) as [->|Hne]; [rewrite lookup_insert_eq; by eexists|].
    rewrite lookup_insert_ne by done. apply IH. set_solver.
  - rewrite Hm by done. by destruct (wanted attachments !! n).
Qed.

(** What the provider knows about the release when it handles an event, and what the
    release should hold afterwards. *)
Definition before (eventType : string) (assets : list ChainReleaseAsset) : gmap string ChainReleaseAsset :=
  if decide (eventType = EventUpdateReleaseType \/ eventType = EventDeleteReleaseType)
  then assets_by_name assets else ∅.
Definition after (event : ReleaseEvent) (eventType : string) : list Attachment :=
  if decide (eventType = EventDeleteReleaseType) then [] else rl_Attachments event.

Lemma existing_assets_before event eventType assets h :
  env _ h (QRepositoryReleaseAssets (rl_RepositoryId event) (rl_Tag event)) = Ok assets ->
  exists h', existing_assets env event eventType h = (Val (before eventType assets), h') /\
    proposals h' = proposals h.
Proof.
  intros Hq. unfold existing_assets, before. case_decide; [|by exists h].
  unfold on_error. unfold RepositoryReleaseAssets. rewrite (query_ok _ _ _ _ Hq).
  eexists. split; [reflexivity|]. rewrite proposals_snoc. apply app_nil_r.
Qed.

Lemma nothing_gone attachments updates :
  fold_left (deleted attachments) (range (map_to_list ∅)) updates = updates.
Proof using range_perm.
  assert (range (map_to_list ∅) = []) as ->; [|done].
  apply Permutation_nil. symmetry. rewrite (range_perm _). by rewrite map_to_list_empty.
Qed.

(** The two phases together. *)
Lemma updates_reach kept attachments h :
  named kept -> NoDup (map at_Name attachments) ->
  (forall a, a ∈ attachments -> unchanged kept a \/ pinnable kept a) ->
  exists us h' m,
    foldM (changed env viper sha256 kept) attachments
      (fold_left (deleted attachments) (range (map_to_list kept)) []) h = (Val us, h') /\
    proposals h' = proposals h /\ apply_updates (ledger_of kept) us = Some m /\
    fst <$> m = wanted attachments.
Proof using range_perm.
  intros Hn Hnd Hor. destruct (gone_applies attachments kept Hn) as (m & Hm & Hl).
  destruct (changed_applies kept attachments m _ _ h Hnd Hor Hm) as (us & h' & m' & Hrun & Hs & Hm' & Hu).
  { intros a Ha. rewrite Hl. apply decide_True. by apply list_elem_of_fmap_2. }
  exists us, h', m'. split_and!; [done..|]. rewrite Hu. apply wanted_only.
  intros n Hin. rewrite Hl. by apply decide_False.
Qed.

(** The branch of an event type. *)
Ltac pick_event :=
  first [ rewrite decide_True by (first [reflexivity | by left | by right])
        | rewrite decide_False by (let E := fresh in intros E; repeat destruct E as [E|E]; discriminate E) ].

(** C9: whichever event a release goes through - created, updated or deleted - the
    provider sends the chain one proposal (none when nothing has to change) whose
    updates apply, one after the other, to what the release holds, each stating just the
    digest and cid it replaces; after them the release holds exactly the attachments of
    the event with their digests (nothing, for a deletion). This is for attachments with
    distinct names that either are stored already or can be pinned and hashed and get
    another cid than the stored one. *)
Theorem Release_Process_refines event eventType assets h :
  CheckProvider gc (rl_Provider event) = true ->
  eventType ∈ [EventCreateReleaseType; EventDaoCreateReleaseType; EventUpdateReleaseType; EventDeleteReleaseType] ->
  env _ h (QRepositoryReleaseAssets (rl_RepositoryId event) (rl_Tag event)) = Ok assets ->
  NoDup (map at_Name (rl_Attachments event)) ->
  (forall a, a ∈ after event eventType ->
     unchanged (before eventType assets) a \/ pinnable (before eventType assets) a) ->
  exists updates m,
    proposals (snd (Release_Process env viper fuel gc sha256 range event eventType h)) =
      proposals h ++ (if decide (updates = []) then [] else [updates]) /\
    apply_updates (ledger_of (before eventType assets)) updates = Some m /\
    fst <$> m = wanted (after event eventType).
Proof using range_perm.
  intros Hc Hty Hq Hnd Hor. unfold Release_Process, create_release, update_release, delete_release. rewrite Hc. cbn [negb].
  destruct (existing_assets_before event eventType assets h Hq) as (h1 & Hex & Hs1).
  assert (Hb : named (before eventType assets)).
  { unfold before. case_decide; [apply assets_by_name_named|]. intros ? ?. by rewrite lookup_empty. }
  assert (Hnd' : NoDup (map at_Name (after event eventType))).
  { unfold after. case_decide; [constructor|done]. }
  destruct (updates_reach _ _ h1 Hb Hnd' Hor) as (us & h2 & m & Hrun & Hs2 & Hm & Hw).
  exists us, m. split; [|done]. rewrite run_bind, Hex. revert Hrun. unfold after.
  assert (Hgo : forall p : Prog (list AssetUpdate), p h1 = (Val us, h2) ->
    proposals (snd ((updates ← p; propose env fuel gc event updates) h1)) =
    proposals h ++ (if decide (us = []) then [] else [us])).
  { intros p Hp. by rewrite run_bind, Hp, propose_proposals, Hs2, Hs1. }
  apply list_elem_of_In in Hty. repeat destruct Hty as [<-|Hty]; [..|done];
    repeat pick_event.
  - rewrite (eq_refl : before EventCreateReleaseType _ = ∅), nothing_gone. intros Hrun.
    apply Hgo. rewrite created_changed. exact Hrun.
  - rewrite (eq_refl : before EventDaoCreateReleaseType _ = ∅), nothing_gone. intros Hrun.
    apply Hgo. rewrite created_changed. exact Hrun.
  - intros Hrun. by apply Hgo.
  - intros [= Hus Hh]. pose proof (all_deleted [] (range (map_to_list (before EventDeleteReleaseType assets)))) as Hd.
    rewrite Hus in Hd. simpl in Hd. rewrite Hd, propose_proposals. by rewrite <- Hs1, Hh.
Qed.
End Refinement.

#[local] Open Scope string_scope.
Definition release_env : Env := fun A h c =>
  match c in Call A return A with
  | QRepositoryReleaseAssets _ _ =>
      Ok [mkChainReleaseAsset "notes" "c1" "s1" 1; mkChainReleaseAsset "logo" "c2" "s2" 1]
  | ClusterAdd path => "cid:" +:+ path
  | OpenFile _ => Ok (well_formed_file [1; 2; 3]%Z)
  | c => quiet c
  end.
Definition release_event : ReleaseEvent :=
  mkReleaseEvent "user" 1 "user" "v1" [mkAttachment "notes" "s3" 3; mkAttachment "tool" "s4" 3] "provider".

Lemma Release_Process_refines_witness :
  exists updates m,
    proposals (snd (Release_Process release_env (fun _ => "/var/attachments") 1 (mkGitopiaProxy "provider")
      (fun b => b) (fun l => l) release_event EventUpdateReleaseType [])) =
      ([] ++ (if decide (updates = []) then [] else [updates]))%list /\
    apply_updates (ledger_of (before EventUpdateReleaseType
      [mkChainReleaseAsset "notes" "c1" "s1" 1; mkChainReleaseAsset "logo" "c2" "s2" 1])) updates = Some m /\
    fst <$> m = wanted (after release_event EventUpdateReleaseType).
Proof.
  apply (Release_Process_refines release_env (fun _ => "/var/attachments") 1 (mkGitopiaProxy "provider")
    (fun b => b) (fun l => l)).
  - done.
  - reflexivity.
  - set_solver.
  - reflexivity.
  - apply (bool_decide_unpack _). vm_compute. exact I.
  - intros a Ha. right. intros h. apply list_elem_of_In in Ha. repeat destruct Ha as [<-|Ha]; [..|done];
      (eexists _, _, _; split; [reflexivity|]); vm_compute; intros asset [= <-]; discriminate.
Defined.
#[local] Close Scope string_scope.
