(* ===== verification/Merge.v ===== *)
(** Merging pull requests (handler/mergePullRequest.go, the temporary repositories and
    the merge commands of utils/pull.go, GetFullCommitSha of utils/git.go). *)

From S2P Require Import Prelude GoInt GoStrings GoPath StorageFee Merkle World ChainClient Cache Events PinHandlers GitHttp.

#[local] Open Scope string_scope.

(** * utils/pull.go *)
Definition BranchPrefix := "refs/heads/".

Definition MergeStyleMerge := "merge".
Definition MergeStyleRebase := "rebase".
Definition MergeStyleRebaseMerge := "rebase-merge".
Definition MergeStyleSquash := "squash".
Definition MergeStyleManuallyMerged := "manually-merged".
Definition MergeStyleRebaseUpdate := "rebase-update-only".

(** [\[head id:head branch -> base id:base branch\]]. *)
Definition branches (pr : PullRequest) : string :=
  "[" +:+ FormatUint (pr_HeadRepositoryId pr) +:+ ":" +:+ pr_HeadBranch pr +:+ " -> " +:+
  FormatUint (pr_BaseRepositoryId pr) +:+ ":" +:+ pr_BaseBranch pr +:+ "]".

(** [%v\n%s] *)
Definition error_output (e : error) (out : string) : string := Error e +:+ String nl out.

Section Quarantine.
Context (env : Env) (viper : string -> string).

Definition addCacheRepo (staging cache : string) : Prog unit :=
  let p := PathJoin [staging; ".git"; "objects"; "info"; "alternates"] in
  _ ← call_res env (OpenAppend p);
  call_res env (AppendLine p (PathJoin [cache; "objects"])).

(** [os.RemoveAll(tmpBasePath); return "", err]. *)
Definition or_discard {A} (tmpBasePath : string) (err : error -> error) (m : Prog A) : Prog A :=
  on_error m (fun e => _ ← call env (RemoveAll tmpBasePath); fail (err e)) mret.

(** A command in the temporary repository, with [cmd.Output()]. *)
Definition quarantine_git (tmpBasePath what : string) (args : list string) : Prog unit :=
  '(out, err) ← call env (OutputIn tmpBasePath [] args);
  match err with
  | None => mret tt
  | Some e =>
      _ ← call env (RemoveAll tmpBasePath);
      fail (ErrNew (what +:+ ": " +:+ error_output e out))
  end.

(** Both repositories in the temporary one: the base branch as [base], the head branch as
    [tracking]. *)
Definition fill_quarantine (tmp : string) (baseRepositoryID headRepositoryID : Z)
    (baseBranch headBranch : string) : Prog unit :=
  let gitDir := viper "GIT_REPOS_DIR" in
  let baseRepoPath := PathJoin [gitDir; FormatUint baseRepositoryID +:+ ".git"] in
  let headRepoPath := PathJoin [gitDir; FormatUint headRepositoryID +:+ ".git"] in
  _ ← or_discard tmp id (call_res env (PlainInit tmp));
  let remoteRepoName := "head_repo" in
  let baseBranchName := "base" in
  _ ← or_discard tmp (fun e => ErrNew ("unable to add base repository to temporary repo [" +:+ baseRepoPath
          +:+ " -> tmpBasePath]: " +:+ Error e))
        (addCacheRepo tmp baseRepoPath);
  _ ← quarantine_git tmp ("unable to add base repository as origin [" +:+ baseRepoPath +:+ " -> tmpBasePath]")
        ["git"; "remote"; "add"; "-t"; baseBranch; "-m"; baseBranch; "origin"; baseRepoPath];
  _ ← quarantine_git tmp ("unable to fetch origin base branch [" +:+ baseRepoPath +:+ ":" +:+ baseBranch
          +:+ " -> base, original_base in tmpBasePath]")
        ["git"; "fetch"; "origin"; "--no-tags"; "--"; baseBranch +:+ ":" +:+ baseBranchName;
         baseBranch +:+ ":original_" +:+ baseBranchName];
  _ ← quarantine_git tmp "unable to set HEAD as base branch [tmpBasePath]"
        ["git"; "symbolic-ref"; "HEAD"; BranchPrefix +:+ baseBranchName];
  _ ← or_discard tmp (fun e => ErrNew ("unable to head base repository to temporary repo [" +:+ headRepoPath
          +:+ " -> tmpBasePath]: " +:+ Error e))
        (addCacheRepo tmp headRepoPath);
  _ ← quarantine_git tmp ("unable to add head repository as head_repo [" +:+ headRepoPath +:+ " -> tmpBasePath]")
        ["git"; "remote"; "add"; remoteRepoName; headRepoPath];
  quarantine_git tmp ("unable to fetch head_repo head branch [" +:+ headRepoPath +:+ ":" +:+ headBranch
          +:+ " -> tracking in tmpBasePath]")
        ["git"; "fetch"; "--no-tags"; remoteRepoName; BranchPrefix +:+ headBranch +:+ ":tracking"].

Definition CreateQuarantineRepo (baseRepositoryID headRepositoryID : Z) (baseBranch headBranch : string) :
    Prog string :=
  tmp ← call_res env MkdirTemp;
  _ ← fill_quarantine tmp baseRepositoryID headRepositoryID baseBranch headBranch;
  mret tmp.

Definition fill_read_only (tmp : string) (baseRepositoryID headRepositoryID : Z) : Prog unit :=
  let gitDir := viper "GIT_REPOS_DIR" in
  let baseRepoPath := PathJoin [gitDir; FormatUint baseRepositoryID +:+ ".git"] in
  let headRepoPath := PathJoin [gitDir; FormatUint headRepositoryID +:+ ".git"] in
  _ ← or_discard tmp id (call_res env (PlainInit tmp));
  _ ← or_discard tmp (fun e => ErrNew ("unable to add base repository to temporary repo [" +:+ baseRepoPath
          +:+ " -> tmpBasePath]: " +:+ Error e))
        (addCacheRepo tmp baseRepoPath);
  or_discard tmp (fun e => ErrNew ("unable to head base repository to temporary repo [" +:+ headRepoPath
          +:+ " -> tmpBasePath]: " +:+ Error e))
    (addCacheRepo tmp headRepoPath).

(** Without a temporary directory the process ends: [log.Fatal], which runs no deferred
    function. The model panics, and so runs those of the callers. *)
Definition CreateReadOnlyQuarantineRepo (baseRepositoryID headRepositoryID : Z) : Prog string :=
  tmp ⟵ call_res env MkdirTemp ifErr gopanic "log.Fatal";
  _ ← fill_read_only tmp baseRepositoryID headRepositoryID;
  mret tmp.

(** [git commit], with [vars] added to its environment. *)
Definition CommitAndSignNoAuthor (pr : PullRequest) (message signArg quarantineRepoPath : string)
    (vars : list string) : Prog unit :=
  let args := if decide (signArg = "") then ["git"; "commit"; "-m"; message]
              else ["git"; "commit"; signArg; "-m"; message] in
  '(out, err) ← call env (OutputIn quarantineRepoPath vars args);
  match err with
  | None => mret tt
  | Some e => fail (ErrNew ("git commit " +:+ branches pr +:+ ": " +:+ error_output e out))
  end.

Definition RunMergeCommand (pr : PullRequest) (vars args : list string) (quarantineRepoPath : string) :
    Prog unit :=
  '(out, err) ← call env (CombinedOutputIn quarantineRepoPath vars args);
  match err with
  | None => mret tt
  | Some e =>
      conflict ← file_exists env (PathJoin [quarantineRepoPath; ".git"; "MERGE_HEAD"]);
      let kind := if (conflict : bool) then "MergeConflict "
                  else if Contains out "refusing to merge unrelated histories"
                  then "MergeUnrelatedHistories " else "git merge " in
      fail (ErrNew (kind +:+ branches pr +:+ ": " +:+ error_output e out))
  end.

(** utils/git.go *)
Definition GetFullCommitSha (repoPath shortID : string) : Prog string :=
  out ← call_res env (Output repoPath ["git"; "rev-parse"; shortID]);
  mret (TrimSpace out).
End Quarantine.

(** * handler/mergePullRequest.go *)
Section Merge.
Context (env : Env) (viper : string -> string) (fuel : nat) (gc : GitopiaProxy).
Context (sha256 : bytes -> bytes) `{MerkleTree} `{SdkMath}.

(** A git command that is killed after five minutes; the environment gets [vars] in
    addition. A killed command answers with an error. *)
Definition runGitCommandWithTimeout (dir : string) (vars args : list string) : Prog unit :=
  '(out, err) ← call env (CombinedOutputIn dir vars args);
  match err with
  | None => mret tt
  | Some e => fail (ErrNew (Error e +:+ ": " +:+ out))
  end.

Definition prepareGitEnv (creator : string) : Prog (list string) :=
  commitTimeStr ← call env TimeNow;
  mret ["GIT_AUTHOR_NAME=" +:+ creator; "GIT_AUTHOR_EMAIL=<>"; "GIT_AUTHOR_DATE=" +:+ commitTimeStr;
        "GIT_COMMITTER_NAME=" +:+ creator; "GIT_COMMITTER_EMAIL=<>"; "GIT_COMMITTER_DATE=" +:+ commitTimeStr].

Definition prepareRepositories (pr : PullRequest) (cacheDir : string) : Prog unit :=
  _ ← wrapM "error caching head repository"
        (CacheRepository env viper fuel (pr_HeadRepositoryId pr) cacheDir);
  when (bool_decide (pr_BaseRepositoryId pr <> pr_HeadRepositoryId pr))
    (wrapM "error caching base repository"
       (CacheRepository env viper fuel (pr_BaseRepositoryId pr) cacheDir)).

Definition performMergeStyle (pr : PullRequest) (quarantineRepoPath : string) (vars : list string)
    (message : string) : Prog unit :=
  _ ← wrapM "merge error"
        (RunMergeCommand env pr vars ["git"; "merge"; "--no-ff"; "--no-commit"; "tracking"] quarantineRepoPath);
  wrapM "merge commit error" (CommitAndSignNoAuthor env pr message "" quarantineRepoPath vars).

Definition performRebaseStyle (pr : PullRequest) (quarantineRepoPath : string) : Prog unit :=
  let git args := runGitCommandWithTimeout quarantineRepoPath [] ("git" :: args) in
  _ ← wrapM "git checkout error" (git ["checkout"; "-b"; "staging"; "tracking"]);
  _ ← on_error (git ["rebase"; "base"])
        (fun e => conflict ← file_exists env (PathJoin [quarantineRepoPath; ".git"; "REBASE_HEAD"]);
                  fail (ErrWrap (if (conflict : bool) then "rebase conflict error" else "rebase error") e))
        mret;
  _ ← wrapM "git checkout error" (git ["checkout"; "base"]);
  wrapM "git merge error"
    (RunMergeCommand env pr [] ["git"; "merge"; "--ff-only"; "staging"] quarantineRepoPath).

Definition performSquashStyle (pr : PullRequest) (quarantineRepoPath : string) (vars : list string)
    (message : string) : Prog unit :=
  _ ← wrapM "git merge --squash error"
        (RunMergeCommand env pr [] ["git"; "merge"; "--squash"; "tracking"] quarantineRepoPath);
  runGitCommandWithTimeout quarantineRepoPath vars
    ["git"; "commit"; "--author='" +:+ pr_Creator pr +:+ " <<>>'"; "-m"; message].

Definition performMerge (mergeStyle : string) (pr : PullRequest) (quarantineRepoPath : string)
    (vars : list string) (message : string) : Prog unit :=
  if decide (mergeStyle = MergeStyleMerge) then performMergeStyle pr quarantineRepoPath vars message
  else if decide (mergeStyle = MergeStyleRebase) then performRebaseStyle pr quarantineRepoPath
  else if decide (mergeStyle = MergeStyleSquash) then performSquashStyle pr quarantineRepoPath vars message
  else fail (ErrNew ("invalid merge style: " +:+ mergeStyle)).

Definition push_args (mergeStyle : string) (pr : PullRequest) : list string :=
  if decide (mergeStyle = MergeStyleRebaseUpdate)
  then ["git"; "push"; "-f"; "head_repo"; "staging:refs/heads/" +:+ pr_HeadBranch pr]
  else ["git"; "push"; "origin"; "base:refs/heads/" +:+ pr_BaseBranch pr].
Definition pushChanges (pr : PullRequest) (quarantineRepoPath : string) (vars : list string)
    (mergeStyle : string) : Prog unit :=
  runGitCommandWithTimeout quarantineRepoPath vars (push_args mergeStyle pr).

(** The pin and the query run at the same time, and the error of the first one to fail
    is returned; module [Ipfs] below has the two goroutines and their channels. Their
    calls do not touch the same thing, so that the order of the trace is the order in
    which they end; what the other one still does after a failure is left out. *)
Definition handleIPFSOperations (packfileName : string) (repositoryId : Z) : Prog string :=
  pin_first ← call env FirstFirst;
  if (pin_first : bool) then
    cid ← ipfs_PinFile env packfileName;
    _ ← RepositoryPackfile env repositoryId;
    mret cid
  else
    _ ← RepositoryPackfile env repositoryId;
    ipfs_PinFile env packfileName.

(** Can the owner pay? If not, the cached repository is removed so that the merge is
    forgotten. *)
Definition charge_or_rollback (baseRepoPath owner : string) (storageUsed storageDelta : Z)
    (params : Params) : Prog bool :=
  if decide (Amount (StoragePricePerGb params) = 0) then mret true else
  costInfo ← wrapM "failed to calculate storage cost"
               (lift (CalculateStorageCost storageUsed (u64 (storageUsed + u64 storageDelta)) params));
  if decide (Amount (StorageCharge costInfo) = 0) then mret true else
  balance ← wrapM "failed to get user balance"
              (CosmosBankBalance env owner (Denom (StorageCharge costInfo)));
  if decide (Amount balance < Amount (StorageCharge costInfo))
  then _ ← wrapM "failed to rollback local repository cache" (call_res env (RemoveAll baseRepoPath));
       mret false
  else mret true.

(** Pin the packfile of the base repository, hash it as IPFS serves it, and propose the
    update. *)
Definition publish (pr : PullRequest) (packfileName : string) (packfileSize : Z)
    (previousCid mergeCommitSha user : string) : Prog unit :=
  let id := pr_BaseRepositoryId pr in
  cid ← wrapM "IPFS operations error" (handleIPFSOperations packfileName id);
  _ ← wrapM "create IPFS API error" (call_res env NewIpfsApi);
  _ ← wrapM "create path error" (call_res env (NewIpfsPath ("/ipfs/" +:+ cid)));
  f ← wrapM "get packfile from IPFS error" (call_res env (UnixfsGet cid));
  match f with
  | None => fail (ErrNew "invalid packfile format")
  | Some file =>
      rootHash ← wrapM "compute packfile merkle root error" (lift (ComputeMerkleRoot sha256 file));
      _ ← wrapM "update repository packfile error"
            (ProposePackfileUpdate env gc user id (Base packfileName) cid rootHash packfileSize
               previousCid mergeCommitSha false);
      wrapM "failed to verify packfile update"
        (PollForUpdate env fuel (CheckProposePackfileUpdate env id user))
  end.

Definition handlePostMergeOperations (pr : PullRequest) (cacheDir mergeCommitSha user : string) : Prog unit :=
  let id := pr_BaseRepositoryId pr in
  let baseRepoPath := PathJoin [cacheDir; FormatUint id +:+ ".git"] in
  _ ← wrapM "git gc error" (runGitCommandWithTimeout baseRepoPath [] ["git"; "gc"]);
  packfileName ← wrapM "get packfile name error" (GetPackfileName env baseRepoPath);
  packfileSize ← wrapM "get packfile size error" (file_size env packfileName);
  repo ← wrapM "failed to get repository" (Repository_ env id);
  packfile ← attempt (RepositoryPackfile env id);
  let '(currentSize, previousCid) := old_packfile packfile in
  let storageDelta := i64 (packfileSize - currentSize) in
  storageUsed ← wrapM "failed to get user quota" (UserQuota env (rp_OwnerId repo));
  params ← wrapM "failed to get storage params" (StorageParams env);
  paid ← charge_or_rollback baseRepoPath (rp_OwnerId repo) storageUsed storageDelta params;
  when paid (publish pr packfileName packfileSize previousCid mergeCommitSha user).

(** What happens in the temporary repository and after it. *)
Definition merge_in (pr : PullRequest) (quarantineRepoPath cacheDir creator message : string) : Prog unit :=
  _ ← wrapM "git read-tree error"
        (runGitCommandWithTimeout quarantineRepoPath [] ["git"; "read-tree"; "HEAD"]);
  vars ← prepareGitEnv creator;
  _ ← wrapM "merge operation error" (performMerge MergeStyleMerge pr quarantineRepoPath vars message);
  mergeCommitSha ← wrapM "merge commit sha error" (GetFullCommitSha env quarantineRepoPath "base");
  _ ← wrapM "push changes error" (pushChanges pr quarantineRepoPath vars MergeStyleMerge);
  wrapM "post-merge operations error" (handlePostMergeOperations pr cacheDir mergeCommitSha creator).

(** The part of Process that holds the locks. *)
Definition merge_locked (pr : PullRequest) (creator : string) : Prog unit :=
  let cacheDir := viper "GIT_REPOS_DIR" in
  _ ← wrapM "repository preparation error" (prepareRepositories pr cacheDir);
  headRepositoryName ← wrapM "repository name query error" (RepositoryName env (pr_HeadRepositoryId pr));
  let message := "Merge pull request #" +:+ FormatUint (pr_Iid pr) +:+ " from " +:+ headRepositoryName
                 +:+ "/" +:+ pr_HeadBranch pr in
  quarantineRepoPath ← wrapM "create quarantine repo error"
    (CreateQuarantineRepo env viper (pr_BaseRepositoryId pr) (pr_HeadRepositoryId pr)
       (pr_BaseBranch pr) (pr_HeadBranch pr));
  deferring (_ ← call env (RemoveAll quarantineRepoPath); mret tt)
    (merge_in pr quarantineRepoPath cacheDir creator message).

(** The repositories in the order in which they are locked; the deferred unlocks run the
    other way round. *)
Definition lock_order (pr : PullRequest) : list Z :=
  pr_BaseRepositoryId pr ::
  (if decide (pr_BaseRepositoryId pr <> pr_HeadRepositoryId pr) then [pr_HeadRepositoryId pr] else []).
Fixpoint with_locks {A} (ids : list Z) (body : Prog A) : Prog A :=
  match ids with
  | [] => body
  | id :: ids => with_lock env (RepoKey id) (with_locks ids body)
  end.

Definition Merge_Process (event : InvokeMergePullRequestEvent) : Prog unit :=
  if negb (CheckProvider gc (im_Provider event)) then mret tt else
  pr ← wrapM "pull request query error" (PullRequest_ env (im_RepositoryId event) (im_PullRequestIid event));
  with_locks (lock_order pr) (merge_locked pr (im_Creator event)).
End Merge.
#[local] Close Scope string_scope.

(** * Nothing is left behind *)

(** The temporary directories that were made and that [os.RemoveAll] was not called for
    since. The code ignores an error of that call, and so does this set: a directory that
    could not be removed is not in it. *)
Definition dir_step (open : list string) (o : Obs) : list string :=
  match o with
  | @Did _ c a =>
      match c in Call A return A -> list string with
      | MkdirTemp => fun r => match r with Ok p => p :: open | Er _ => open end
      | RemoveAll p => fun _ => filter (fun q => q <> p) open
      | _ => fun _ => open
      end a
  end.
Definition temp_dirs (h : Trace) : list string := fold_left dir_step h [].
Arguments temp_dirs : simpl never.

Definition within (D : list string) (h : Trace) : Prop := temp_dirs h ⊆ D.

Lemma temp_dirs_snoc h o : temp_dirs (h ++ [o]) = dir_step (temp_dirs h) o.
Proof. unfold temp_dirs. by rewrite fold_left_app. Qed.

Definition makes_dir {A} (c : Call A) : bool := match c with MkdirTemp => true | _ => false end.

Lemma keeps_within D {A} (c : Call A) : makes_dir c = false -> keeps (within D) c.
Proof.
  intros Hc h a Hh. unfold within in *. rewrite temp_dirs_snoc. destruct c; try done; simpl.
  intros q [? ?]%list_elem_of_filter. auto.
Qed.

Lemma within_removed p D h r : within (p :: D) h -> within D (h ++ [Did (RemoveAll p) r]).
Proof.
  unfold within. intros Hh q. rewrite temp_dirs_snoc. simpl.
  intros [? Hq]%list_elem_of_filter. apply Hh in Hq. set_solver.
Qed.

Create HintDb tidy discriminated.

(** Reduce that no temporary directory is made to the parts. *)
Ltac within_step :=
  repeat first
    [ progress intros
    | solve [auto with tidy]
    | apply preserves_call, keeps_within; reflexivity
    | apply preserves_call_res, keeps_within; reflexivity
    | apply preserves_ret | apply preserves_fail | apply preserves_lift
    | apply preserves_attempt | apply preserves_wrapM | apply preserves_when
    | apply preserves_bind | apply preserves_on_error
    | match goal with
      | |- preserves _ (match ?x with _ => _ end) => destruct x
      | |- preserves _ (if ?x then _ else _) => destruct x
      end ].

Section Clean.
Context (env : Env) (viper : string -> string) (fuel : nat) (gc : GitopiaProxy).
Context (sha256 : bytes -> bytes) `{MerkleTree} `{SdkMath}.

Lemma CacheRepository_within D id dir : preserves (within D) (CacheRepository env viper fuel id dir).
Proof. apply CacheRepository_calls. intros B c Hc. apply keeps_within. by destruct c. Qed.

Lemma Poll_within D {A} (c : Call (res A)) missing f :
  makes_dir c = false ->
  preserves (within D) (PollForUpdate env fuel (or_missing missing f (query env c))).
Proof.
  intros Hc. apply PollForUpdate_preserves; [by apply keeps_within|].
  by apply or_missing_preserves, keeps_within.
Qed.

Lemma CheckProposal_within D id user :
  preserves (within D) (PollForUpdate env fuel (CheckProposePackfileUpdate env id user)).
Proof. by apply Poll_within. Qed.
#[local] Hint Resolve CacheRepository_within CheckProposal_within : tidy.

(** A step that may fail inside the temporary directory [p]: it is still there if the
    step returns, and it is removed if it fails. *)
Definition discards (p : string) {A} (m : Prog A) : Prop :=
  forall D h, within (p :: D) h ->
    match m h with
    | (Val _, h') => within (p :: D) h'
    | (Fail _, h') => within D h'
    | (Panic _, _) => False
    end.

Lemma discards_ret p {A} (a : A) : discards p (mret a).
Proof. by intros D h Hh. Qed.

Lemma discards_bind p {A B} (m : Prog A) (f : A -> Prog B) :
  discards p m -> (forall a, discards p (f a)) -> discards p (m ≫= f).
Proof.
  intros Hm Hf D h Hh. specialize (Hm D h Hh). rewrite run_bind.
  destruct (m h) as [[a|e|q] h1]; [by apply Hf|done..].
Qed.

Lemma discards_or_discard p {A} err (m : Prog A) :
  (forall D, preserves (within D) m) -> safe m -> discards p (or_discard env p err m).
Proof.
  intros Hp Hs D h Hh. specialize (Hp (p :: D) h Hh). specialize (Hs h). unfold or_discard, on_error.
  destruct (m h) as [[a|e|q] h1]; [done| |done]. by apply within_removed.
Qed.

Lemma discards_git p what args : discards p (quarantine_git env p what args).
Proof.
  intros D h Hh. unfold quarantine_git, call. rewrite run_bind. cbv beta iota zeta.
  pose proof (keeps_within (p :: D) (OutputIn p [] args) eq_refl h (env _ h (OutputIn p [] args)) Hh) as H1.
  destruct (env _ h _) as [out [e|]]; [|exact H1]. by apply within_removed.
Qed.

Lemma addCacheRepo_quiet p q D : preserves (within D) (addCacheRepo env p q).
Proof. unfold addCacheRepo. within_step. Qed.
Lemma addCacheRepo_safe p q : safe (addCacheRepo env p q).
Proof. unfold addCacheRepo. safe_step. Qed.

Lemma fill_quarantine_discards p base head bb hb :
  discards p (fill_quarantine env viper p base head bb hb).
Proof.
  unfold fill_quarantine.
  repeat first [ apply discards_git | apply discards_or_discard | apply discards_bind; [|intros ?] ];
    first [intros D; apply addCacheRepo_quiet | apply addCacheRepo_safe | solve [intros D; within_step] | safe_step].
Qed.

(** The temporary directory exists just when its path is returned. *)
Lemma CreateQuarantineRepo_within base head bb hb D h :
  within D h ->
  match CreateQuarantineRepo env viper base head bb hb h with
  | (Val p, h') => within (p :: D) h'
  | (Fail _, h') => within D h'
  | (Panic _, _) => False
  end.
Proof.
  intros Hh. unfold CreateQuarantineRepo, call_res, call. rewrite !run_bind. cbv beta iota zeta.
  assert (H1 : dir_step (temp_dirs h) (Did MkdirTemp (env _ h MkdirTemp)) ⊆
    match env _ h MkdirTemp with Ok p => p :: D | Er _ => D end).
  { simpl. unfold within in Hh. destruct (env _ h MkdirTemp); set_solver. }
  rewrite <- temp_dirs_snoc in H1. revert H1.
  generalize (h ++ [Did MkdirTemp (env _ h MkdirTemp)]). intros h1 H1.
  destruct (env _ h MkdirTemp) as [p|e]; cbn [of_res lift]; [|exact H1].
  rewrite run_bind. pose proof (fill_quarantine_discards p base head bb hb D h1 H1) as Hd.
  destruct (fill_quarantine _ _ _ _ _ _ _ h1) as [[[]|e|q] h2]; done.
Qed.

(** [m] does not leave a directory that was not there. *)
Definition tidy {A} (m : Prog A) : Prop := forall D, preserves (within D) m.

Lemma merge_in_tidy pr q dir creator message :
  tidy (merge_in env fuel gc sha256 pr q dir creator message).
Proof.
  intros D. unfold merge_in, prepareGitEnv, performMerge, performMergeStyle, RunMergeCommand,
    CommitAndSignNoAuthor, GetFullCommitSha, pushChanges, handlePostMergeOperations, publish,
    handleIPFSOperations, ipfs_PinFile, charge_or_rollback, GetPackfileName, file_size,
    Repository_, RepositoryPackfile, UserQuota, StorageParams, CosmosBankBalance, query,
    ProposePackfileUpdate.
  within_step.
Qed.

(** [defer os.RemoveAll(q)] *)
Lemma deferring_removal q D (m : Prog unit) h :
  preserves (within (q :: D)) m -> within (q :: D) h ->
  within D (snd (deferring (_ ← call env (RemoveAll q); mret tt) m h)).
Proof.
  intros Hm Hh. specialize (Hm h Hh). unfold deferring. destruct (m h) as [o h1]. by apply within_removed.
Qed.

Lemma merge_locked_tidy pr creator : tidy (merge_locked env viper fuel gc sha256 pr creator).
Proof.
  intros D. unfold merge_locked, prepareRepositories, RepositoryName, query.
  apply preserves_bind; [within_step|intros _]. apply preserves_bind; [within_step|intros name].
  intros h Hh. rewrite run_bind. unfold wrapM.
  pose proof (CreateQuarantineRepo_within (pr_BaseRepositoryId pr) (pr_HeadRepositoryId pr)
    (pr_BaseBranch pr) (pr_HeadBranch pr) D h Hh) as Hq.
  destruct (CreateQuarantineRepo _ _ _ _ _ _ h) as [[q|e|p] h1]; [|done..].
  by apply deferring_removal, Hq; apply merge_in_tidy.
Qed.

Lemma with_lock_tidy {A} k (body : Prog A) : tidy body -> tidy (with_lock env k body).
Proof.
  intros Hb D. apply preserves_bind; [by apply preserves_call, keeps_within|]. intros _.
  apply preserves_deferring; [by apply preserves_call, keeps_within|apply Hb].
Qed.

Lemma with_locks_tidy {A} ids (body : Prog A) : tidy body -> tidy (with_locks env ids body).
Proof. intros Hb. induction ids as [|id ids IH]; [done|]. by apply with_lock_tidy. Qed.
Lemma with_locks_balanced {A} ids (body : Prog A) : balanced body -> balanced (with_locks env ids body).
Proof. intros Hb. induction ids as [|id ids IH]; [done|]. by apply with_lock_balanced. Qed.

Lemma Merge_Process_tidy event : tidy (Merge_Process env viper fuel gc sha256 event).
Proof.
  intros D. unfold Merge_Process, PullRequest_, query. destruct (negb _); [apply preserves_ret|].
  apply preserves_bind; [within_step|]. intros pr. apply with_locks_tidy, merge_locked_tidy.
Qed.

Lemma GetPackfileName_balanced path : balanced (GetPackfileName env path).
Proof. unfold GetPackfileName. cbv zeta. balance. Qed.

Lemma charge_or_rollback_balanced path owner used delta params :
  balanced (charge_or_rollback env path owner used delta params).
Proof. unfold charge_or_rollback, CosmosBankBalance. balance. Qed.

Lemma CheckProposal_balanced id user :
  balanced (PollForUpdate env fuel (CheckProposePackfileUpdate env id user)).
Proof.
  apply balanced_preserves. intros k n.
  by apply PollForUpdate_preserves, or_missing_preserves; apply keeps_held.
Qed.
#[local] Hint Resolve GetPackfileName_balanced charge_or_rollback_balanced CheckProposal_balanced : go.

Lemma publish_balanced pr path size old sha user :
  balanced (publish env fuel gc sha256 pr path size old sha user).
Proof.
  unfold publish, handleIPFSOperations, ipfs_PinFile, RepositoryPackfile, query, ProposePackfileUpdate.
  balance.
Qed.
#[local] Hint Resolve publish_balanced : go.

Lemma balanced_bind {A B} (m : Prog A) (f : A -> Prog B) :
  balanced m -> (forall a, balanced (f a)) -> balanced (m ≫= f).
Proof.
  intros Hm Hf h k. rewrite run_bind. specialize (Hm h k).
  destruct (m h) as [[a|e|q] h1]; [rewrite (Hf a)|..]; done.
Qed.
Lemma balanced_ret {A} (a : A) : balanced (mret a : Prog A).
Proof. done. Qed.
Lemma or_discard_balanced {A} p err (m : Prog A) : balanced m -> balanced (or_discard env p err m).
Proof. intros Hm. unfold or_discard. balance. Qed.
Lemma quarantine_git_balanced p what args : balanced (quarantine_git env p what args).
Proof. unfold quarantine_git. balance. Qed.
Lemma addCacheRepo_balanced p q : balanced (addCacheRepo env p q).
Proof. unfold addCacheRepo. balance. Qed.
Lemma runGit_balanced dir vars args : balanced (runGitCommandWithTimeout env dir vars args).
Proof. unfold runGitCommandWithTimeout. balance. Qed.
Lemma performMergeStyle_balanced pr q vars message : balanced (performMergeStyle env pr q vars message).
Proof. unfold performMergeStyle, RunMergeCommand, CommitAndSignNoAuthor. balance. Qed.
Lemma performMerge_balanced pr q vars message :
  balanced (performMerge env MergeStyleMerge pr q vars message).
Proof. unfold performMerge. rewrite decide_True by done. apply performMergeStyle_balanced. Qed.
#[local] Hint Resolve performMerge_balanced or_discard_balanced quarantine_git_balanced addCacheRepo_balanced runGit_balanced
  performMergeStyle_balanced : go.
Lemma CreateQuarantineRepo_balanced base head bb hb : balanced (CreateQuarantineRepo env viper base head bb hb).
Proof.
  unfold CreateQuarantineRepo, fill_quarantine.
  repeat first [ apply quarantine_git_balanced | apply or_discard_balanced | apply addCacheRepo_balanced
               | apply balanced_call_res; reflexivity | apply balanced_ret | apply balanced_bind; [|intros ?] ].
Qed.
Lemma handlePostMergeOperations_balanced pr dir sha user :
  balanced (handlePostMergeOperations env fuel gc sha256 pr dir sha user).
Proof. unfold handlePostMergeOperations, Repository_, RepositoryPackfile, UserQuota, StorageParams, query, file_size. balance. Qed.
#[local] Hint Resolve CreateQuarantineRepo_balanced handlePostMergeOperations_balanced : go.
Lemma merge_in_balanced pr q dir creator message :
  balanced (merge_in env fuel gc sha256 pr q dir creator message).
Proof. unfold merge_in, prepareGitEnv, GetFullCommitSha, pushChanges. balance. Qed.
#[local] Hint Resolve merge_in_balanced : go.

Lemma merge_locked_balanced pr creator : balanced (merge_locked env viper fuel gc sha256 pr creator).
Proof. unfold merge_locked, prepareRepositories, RepositoryName, query. balance. Qed.
#[local] Hint Resolve merge_locked_balanced : go.

Lemma Merge_Process_balanced event : balanced (Merge_Process env viper fuel gc sha256 event).
Proof.
  unfold Merge_Process, PullRequest_, query. destruct (negb _); [balance|].
  apply balanced_preserves. intros k n. apply preserves_bind; [balance_step k n|]. intros pr. revert k n.
  apply balanced_preserves, with_locks_balanced. auto with go.
Qed.
End Clean.

(** * What is proposed was merged *)
Section Proposed.
Context (env : Env) (viper : string -> string) (fuel : nat) (gc : GitopiaProxy).
Context (sha256 : bytes -> bytes) `{MerkleTree} `{SdkMath}.

Definition sends {A} (c : Call A) : bool := match c with AddToBatch _ => true | _ => false end.
Definition sends_nothing : CallSet := fun A c => negb (sends c).

(** A message is allowed only if [G] allows it. *)
Definition messages (G : Trace -> Msg -> Prop) (h : Trace) (o : Obs) : Prop :=
  match o with
  | @Did _ c _ => match c with AddToBatch msg => G h msg | _ => True end
  end.

Lemma sends_nothing_allowed G h {A} (c : Call A) a : sends_nothing A c = true -> messages G h (Did c a).
Proof. destruct c; intros Hc; first [exact I | discriminate Hc]. Qed.

(** A step that sends nothing, and what it leaves in the trace when it returns. *)
Lemma guards_step (G : Trace -> Msg -> Prop) {A} (P : Trace -> Prop) (m : Prog A) (F : A -> Trace -> Prop) :
  only sends_nothing m -> lasting P -> (forall h, ends m h F) ->
  guards (messages G) P m (fun a h => P h /\ F a h).
Proof.
  intros Hm HP HF h HG Hh.
  assert (Hk : (fun h => Guarded (messages G) h /\ P h) (snd (m h))).
  { apply Hm; [|done]. intros B c Hc. apply Guarded_keeps; [done|]. intros h' a _. by apply sends_nothing_allowed. }
  split; [apply Hk|]. intros a h' E. split; [rewrite E in Hk; apply Hk|by apply (HF h)].
Qed.

Lemma guards_deferring (G : Trace -> Msg -> Prop) {A} (P : Trace -> Prop) (d : Prog unit) (m : Prog A) Q :
  only sends_nothing d -> guards (messages G) P m Q ->
  guards (messages G) P (deferring d m) (fun _ _ => True).
Proof.
  intros Hd Hm h HG Hh. destruct (Hm h HG Hh) as [H1 _]. split; [|done]. unfold deferring.
  destruct (m h) as [o h1]. assert (Hk : preserves (Guarded (messages G)) d).
  { apply Hd. intros B c Hc h2 a HG2. apply Guarded_snoc. split; [done|].
    by apply sends_nothing_allowed. }
  specialize (Hk h1 H1). by destruct (d h1).
Qed.

Lemma guards_with_lock G {A} P k (body : Prog A) Q :
  lasting P -> guards (messages G) P body Q -> guards (messages G) P (with_lock env k body) (fun _ _ => True).
Proof.
  intros HP Hb. eapply guards_bind; [apply (guards_step _ P (call env (Lock k)) (fun _ _ => True))|].
  - by apply only_call.
  - done.
  - done.
  - intros ?. eapply guards_conseq; [eapply guards_deferring; [by apply only_call|exact Hb]|tauto|done].
Qed.

(** What a merge of pull request [pr] left in the trace before its update is proposed:
    the merge and its commit in a temporary repository [q], the id [sha] of the commit,
    the push to the base branch; the size of the packfile at [path], the old packfile,
    and the answers that show that the owner can pay. *)
Record merged_in (pr : PullRequest) (q sha : string) (h : Trace) : Prop := mkMergedIn {
  m_merge : exists vars out, Did (CombinedOutputIn q vars
    ["git"; "merge"; "--no-ff"; "--no-commit"; "tracking"]%string) (out, None) ∈ h;
  m_commit : exists vars msg out, Did (OutputIn q vars ["git"; "commit"; "-m"; msg]%string) (out, None) ∈ h;
  m_sha : exists out, Did (Output q ["git"; "rev-parse"; "base"]%string) (Ok out) ∈ h /\ sha = TrimSpace out;
  m_push : exists vars out, Did (CombinedOutputIn q vars (push_args MergeStyleMerge pr)) (out, None) ∈ h
}.

Record payable (pr : PullRequest) (path : string) (size : Z) (old : string) (h : Trace) : Prop := mkPayable {
  m_stat : Did (Stat path) (Exists size) ∈ h;
  m_charge : exists packfile repo used params,
    Did (QRepositoryPackfile (pr_BaseRepositoryId pr)) packfile ∈ h /\ old = snd (old_packfile packfile) /\
    Did (QRepository (pr_BaseRepositoryId pr)) (Ok repo) ∈ h /\
    Did (QUserQuota (rp_OwnerId repo)) (Ok used) ∈ h /\ Did QStorageParams (Ok params) ∈ h /\
    affordable (rp_OwnerId repo) used (i64 (size - fst (old_packfile packfile))) params h
}.

Lemma lasting_affordable owner used delta params : lasting (affordable owner used delta params).
Proof.
  intros h t [?|(info & ? & [?|(b & ? & ?)])]; [by left|right; exists info; auto..].
  split; [done|]. right. exists b. set_solver.
Qed.

Lemma lasting_merged_in pr q sha : lasting (merged_in pr q sha).
Proof.
  intros h t [(v1 & o1 & ?) (v2 & m & o2 & ?) (o3 & ? & ?) (v4 & o4 & ?)].
  split; repeat eexists; try done; apply elem_of_app; left; eassumption.
Qed.

Lemma lasting_payable pr path size old : lasting (payable pr path size old).
Proof.
  intros h t [? (pk & repo & used & params & ? & ? & ? & ? & ? & ?)].
  split; [set_solver|]. exists pk, repo, used, params. split_and!; [set_solver|done|set_solver..|].
  by apply lasting_affordable.
Qed.

(** Whatever the environment answers, a proposal of a merge follows all of it. *)
Definition asked (event : InvokeMergePullRequestEvent) (pr : PullRequest) (h : Trace) : Prop :=
  exists repo, Did (QRepository (im_RepositoryId event)) (Ok repo) ∈ h /\
    Did (QPullRequest (rp_OwnerId repo) (rp_Name repo) (im_PullRequestIid event)) (Ok pr) ∈ h.

Definition proposal_ok (event : InvokeMergePullRequestEvent) (h : Trace) (msg : Msg) : Prop :=
  exists pr q sha path size old cid file rootHash,
    msg = MsgProposeRepositoryPackfileUpdate (ClientAddress gc) (im_Creator event) (pr_BaseRepositoryId pr)
            (Base path) cid rootHash (u64 size) old sha false /\
    asked event pr h /\ merged_in pr q sha h /\ payable pr path size old h /\
    Did (ClusterPin cid (Base path)) (Ok tt) ∈ h /\
    Did (UnixfsGet cid) (Ok (Some file)) ∈ h /\ ComputeMerkleRoot sha256 file = Val rootHash.

Lemma lasting_asked event pr : lasting (asked event pr).
Proof. intros h t (repo & ? & ?). exists repo. set_solver. Qed.



Ltac lasts :=
  repeat first
    [ assumption | simple apply lasting_and | simple apply lasting_ex; intros ? | simple apply lasting_imp
    | simple apply lasting_asked | simple apply lasting_merged_in | simple apply lasting_payable
    | simple apply lasting_affordable | simple apply lasting_elem | simple apply lasting_pure ].

(** *** What the steps leave *)
Lemma runGit_ends dir vars args h :
  ends (runGitCommandWithTimeout env dir vars args) h
    (fun _ h' => exists out, Did (CombinedOutputIn dir vars args) (out, None) ∈ h').
Proof.
  unfold runGitCommandWithTimeout. apply ends_bind, ends_call. intros [out [e|]] _; [done|].
  apply ends_ret. exists out. set_solver.
Qed.

Definition merge_made (q : string) (h : Trace) : Prop :=
  (exists vars out, Did (CombinedOutputIn q vars
     ["git"; "merge"; "--no-ff"; "--no-commit"; "tracking"]%string) (out, None) ∈ h) /\
  exists vars msg out, Did (OutputIn q vars ["git"; "commit"; "-m"; msg]%string) (out, None) ∈ h.

Lemma performMerge_ends pr q vars message h :
  ends (performMerge env MergeStyleMerge pr q vars message) h (fun _ => merge_made q).
Proof.
  unfold performMerge, performMergeStyle, RunMergeCommand, CommitAndSignNoAuthor.
  rewrite decide_True by done. apply ends_bind, ends_wrapM, ends_bind, ends_call.
  intros [out [e|]] _; [done|]. apply ends_ret, ends_wrapM, ends_bind, ends_call.
  intros [out' [e|]] _; [done|]. apply ends_ret. split.
  - exists vars, out. set_solver.
  - exists vars, message, out'. set_solver.
Qed.

Lemma GetFullCommitSha_ends q h :
  ends (GetFullCommitSha env q "base") h
    (fun sha h' => exists out, Did (Output q ["git"; "rev-parse"; "base"]%string) (Ok out) ∈ h' /\ sha = TrimSpace out).
Proof.
  unfold GetFullCommitSha. apply ends_bind, ends_call_res. intros out _. apply ends_ret. exists out. set_solver.
Qed.

Lemma handleIPFSOperations_ends path id h :
  ends (handleIPFSOperations env path id) h (fun cid h' => Did (ClusterPin cid (Base path)) (Ok tt) ∈ h').
Proof.
  unfold handleIPFSOperations, ipfs_PinFile, RepositoryPackfile, query.
  apply ends_bind, ends_call. intros [] _.
  - apply ends_bind, ends_bind, ends_call. intros cid _. apply ends_bind, ends_wrapM, ends_call_res.
    intros [] _. apply ends_ret, ends_bind, ends_wrapM, ends_call_res. intros pk _. apply ends_ret. set_solver.
  - apply ends_bind, ends_wrapM, ends_call_res. intros pk _. apply ends_bind, ends_call. intros cid _.
    apply ends_bind, ends_wrapM, ends_call_res. intros [] _. apply ends_ret. set_solver.
Qed.

Lemma charge_or_rollback_ends path owner used delta params h :
  ends (charge_or_rollback env path owner used delta params) h
    (fun paid h' => paid = true -> affordable owner used delta params h').
Proof.
  unfold charge_or_rollback, CosmosBankBalance. case_decide as Hz; [by apply ends_ret; left|].
  apply ends_bind, ends_wrapM, ends_lift. intros info Hi.
  case_decide as Hz2; [apply ends_ret; intros _; right; eauto|].
  apply ends_bind, ends_wrapM, ends_bind, ends_call_res. intros amount _. apply ends_ret. cbn [Amount].
  case_decide as Hb.
  - apply ends_bind, ends_wrapM, ends_call_res. intros [] _. by apply ends_ret.
  - apply ends_ret. intros _. right. exists info. split; [done|]. right. exists amount. split; [set_solver|lia].
Qed.

Create HintDb sends discriminated.

Lemma file_exists_sends p : only sends_nothing (file_exists env p).
Proof. unfold file_exists. only_calls. Qed.
Lemma call_sends {A} (c : Call A) : sends_nothing A c = true -> only sends_nothing (call env c).
Proof. apply only_call. Qed.
Lemma call_res_sends {A} (c : Call (res A)) : sends_nothing _ c = true -> only sends_nothing (call_res env c).
Proof. apply only_call_res. Qed.
Lemma runGit_sends dir vars args : only sends_nothing (runGitCommandWithTimeout env dir vars args).
Proof. unfold runGitCommandWithTimeout. only_calls. Qed.
Lemma prepareGitEnv_sends creator : only sends_nothing (prepareGitEnv env creator).
Proof. unfold prepareGitEnv. only_calls. Qed.
Lemma performMerge_sends pr q vars message :
  only sends_nothing (performMerge env MergeStyleMerge pr q vars message).
Proof.
  unfold performMerge, performMergeStyle, RunMergeCommand, CommitAndSignNoAuthor, file_exists.
  rewrite decide_True by done. only_calls.
Qed.
Lemma GetFullCommitSha_sends q name : only sends_nothing (GetFullCommitSha env q name).
Proof. unfold GetFullCommitSha. only_calls. Qed.
Lemma GetPackfileName_sends path : only sends_nothing (GetPackfileName env path).
Proof. unfold GetPackfileName. cbv zeta. only_calls. Qed.
Lemma file_size_sends path : only sends_nothing (file_size env path).
Proof. unfold file_size. only_calls. Qed.
Lemma query_sends {A} (c : Call (res A)) : sends_nothing _ c = true -> only sends_nothing (query env c).
Proof. intros Hc I HI. unfold query. by apply preserves_wrapM, preserves_call_res, HI. Qed.
Lemma lift_sends {A} (o : outcome A) : only sends_nothing (lift o).
Proof. only_calls. Qed.
Lemma attempt_sends {A} (m : Prog A) : only sends_nothing m -> only sends_nothing (attempt m).
Proof. intros Hm I HI. by apply preserves_attempt, Hm. Qed.
Lemma bind_sends {A B} (m : Prog A) (f : A -> Prog B) :
  only sends_nothing m -> (forall a, only sends_nothing (f a)) -> only sends_nothing (m ≫= f).
Proof. intros Hm Hf I HI. apply preserves_bind; [by apply Hm|]. intros a. by apply Hf. Qed.
Lemma ret_sends {A} (a : A) : only sends_nothing (mret a : Prog A).
Proof. only_calls. Qed.
Lemma charge_or_rollback_sends path owner used delta params :
  only sends_nothing (charge_or_rollback env path owner used delta params).
Proof. unfold charge_or_rollback, CosmosBankBalance. only_calls. Qed.
Lemma handleIPFSOperations_sends path id : only sends_nothing (handleIPFSOperations env path id).
Proof. unfold handleIPFSOperations, ipfs_PinFile, RepositoryPackfile, query. only_calls. Qed.
Lemma prepareRepositories_sends pr dir : only sends_nothing (prepareRepositories env viper fuel pr dir).
Proof.
  intros I HI. assert (Hc : forall id, preserves I (CacheRepository env viper fuel id dir)).
  { intros id. apply CacheRepository_calls. intros B c Hc. apply HI. by destruct c. }
  apply preserves_bind; [apply preserves_wrapM, Hc|intros _]. apply preserves_when, preserves_wrapM, Hc.
Qed.
Lemma CreateQuarantineRepo_sends base head bb hb :
  only sends_nothing (CreateQuarantineRepo env viper base head bb hb).
Proof. unfold CreateQuarantineRepo, fill_quarantine, or_discard, quarantine_git, addCacheRepo. only_calls. Qed.
Lemma check_sends id user :
  only sends_nothing (PollForUpdate env fuel (CheckProposePackfileUpdate env id user)).
Proof. intros I HI. by apply PollForUpdate_preserves, or_missing_preserves; apply HI. Qed.
#[local] Hint Resolve call_sends call_res_sends runGit_sends prepareGitEnv_sends performMerge_sends
  GetFullCommitSha_sends GetPackfileName_sends file_size_sends query_sends lift_sends attempt_sends
  charge_or_rollback_sends handleIPFSOperations_sends prepareRepositories_sends
  CreateQuarantineRepo_sends check_sends : sends.

(** Walk through a sequence of steps that send nothing; [F] is what the first of them
    leaves. *)
Ltac step F :=
  eapply guards_bind;
    [try apply guards_wrapM; apply (guards_step _ _ _ F); [auto with sends|unfold merge_made; lasts|]
    |cbv beta].
Ltac skip := step (fun (_ : unit) (_ : Trace) => True); [intros; apply ends_any|]; intros ?.

(** The last step sends the proposal, and polls. *)
Lemma propose_guards event pr (P : Trace -> Prop) path cid rootHash size old sha :
  (forall h, P h -> proposal_ok event h (MsgProposeRepositoryPackfileUpdate (ClientAddress gc)
     (im_Creator event) (pr_BaseRepositoryId pr) (Base path) cid rootHash (u64 size) old sha false)) ->
  lasting P ->
  guards (messages (proposal_ok event)) P
    (_ ← wrapM "update repository packfile error"
            (ProposePackfileUpdate env gc (im_Creator event) (pr_BaseRepositoryId pr) (Base path) cid
               rootHash size old sha false);
     wrapM "failed to verify packfile update"
       (PollForUpdate env fuel
          (CheckProposePackfileUpdate env (pr_BaseRepositoryId pr) (im_Creator event))))
    (fun _ _ => True).
Proof.
  intros HG HP. eapply guards_bind; [apply guards_wrapM, guards_call_res; [done|intros h r Hh; by apply HG]|].
  intros ?. eapply guards_conseq; [apply guards_wrapM, (guards_step _ (fun _ => True) _ (fun _ _ => True))|done|done].
  - auto with sends.
  - lasts.
  - intros. apply ends_any.
Qed.

Lemma publish_guards event pr (P : Trace -> Prop) q sha path size old :
  (forall h, P h -> asked event pr h /\ merged_in pr q sha h /\ payable pr path size old h) -> lasting P ->
  guards (messages (proposal_ok event)) P
    (publish env fuel gc sha256 pr path size old sha (im_Creator event)) (fun _ _ => True).
Proof.
  intros HP HL. unfold publish.
  step (fun (cid : string) (h : Trace) => Did (ClusterPin cid (Base path)) (Ok tt) ∈ h);
    [intros; apply handleIPFSOperations_ends|]. intros cid.
  skip. skip.
  step (fun f (h : Trace) => Did (UnixfsGet cid) (Ok f) ∈ h);
    [intros; apply ends_call_res; set_solver|]. intros [file|]; [|apply guards_fail].
  step (fun rootHash (_ : Trace) => ComputeMerkleRoot sha256 file = Val rootHash);
    [intros; by apply ends_lift|]. intros rootHash.
  apply propose_guards; [|lasts].
  intros h (((((Hp & Hpin) & _) & _) & Hget) & Hroot). destruct (HP h Hp) as (? & ? & ?).
  exists pr, q, sha, path, size, old, cid, file, rootHash. auto 10.
Qed.

Lemma handlePostMergeOperations_guards event pr (P : Trace -> Prop) q sha dir :
  (forall h, P h -> asked event pr h /\ merged_in pr q sha h) -> lasting P ->
  guards (messages (proposal_ok event)) P
    (handlePostMergeOperations env fuel gc sha256 pr dir sha (im_Creator event)) (fun _ _ => True).
Proof.
  intros HP HL. unfold handlePostMergeOperations, Repository_, RepositoryPackfile, UserQuota, StorageParams.
  skip. step (fun (_ : string) (_ : Trace) => True); [intros; apply ends_any|]. intros path.
  step (fun size (h : Trace) => Did (Stat path) (Exists size) ∈ h).
  { intros h. unfold file_size. apply ends_bind, ends_call. intros [size| |] _; [|done|done].
    apply ends_ret. set_solver. }
  intros size.
  step (fun repo (h : Trace) => Did (QRepository (pr_BaseRepositoryId pr)) (Ok repo) ∈ h);
    [intros; apply ends_wrapM, ends_call_res; set_solver|]. intros repo.
  step (fun packfile (h : Trace) => exists r, Did (QRepositoryPackfile (pr_BaseRepositoryId pr)) r ∈ h /\
          old_packfile packfile = old_packfile r).
  { intros h x h'. unfold attempt, query, wrapM, call_res, call. rewrite run_bind. cbn.
    destruct (env _ h _) as [pk|e] eqn:E; intros [= <- <-]; eexists; (split; [apply elem_of_app; right; by left|done]). }
  intros packfile. destruct (old_packfile packfile) as [current old] eqn:Eold.
  step (fun used (h : Trace) => Did (QUserQuota (rp_OwnerId repo)) (Ok used) ∈ h);
    [intros; apply ends_wrapM, ends_call_res; set_solver|]. intros used.
  step (fun params (h : Trace) => Did QStorageParams (Ok params) ∈ h);
    [intros; apply ends_wrapM, ends_call_res; set_solver|]. intros params.
  step (fun paid (h : Trace) => paid = true ->
          affordable (rp_OwnerId repo) used (i64 (size - current)) params h).
    { intros h. apply charge_or_rollback_ends. }
  intros [|]; [|apply guards_ret; done].
  cbn [when]. apply (publish_guards event pr _ q).
  2: lasts.
  intros h ((((((((Hp & _) & _) & Hst) & Hrepo) & (r & Hpk & Hold)) & Hused) & Hparams) & Hpaid).
  destruct (HP h Hp) as [? ?]. split_and!; [done..|]. split; [done|].
  exists r, repo, used, params. rewrite <- Hold. auto 10.
Qed.

Lemma merge_in_guards event pr (P : Trace -> Prop) q dir message :
  (forall h, P h -> asked event pr h) -> lasting P ->
  guards (messages (proposal_ok event)) P
    (merge_in env fuel gc sha256 pr q dir (im_Creator event) message) (fun _ _ => True).
Proof.
  intros HP HL. unfold merge_in, pushChanges.
  skip. step (fun (_ : list string) (_ : Trace) => True); [intros; apply ends_any|]. intros vars.
  step (fun (_ : unit) h => merge_made q h); [intros; apply performMerge_ends|]. intros ?.
  step (fun sha (h : Trace) => exists out, Did (Output q ["git"; "rev-parse"; "base"]%string) (Ok out) ∈ h /\
          sha = TrimSpace out); [intros; apply GetFullCommitSha_ends|]. intros sha.
  step (fun (_ : unit) (h : Trace) => exists out,
          Did (CombinedOutputIn q vars (push_args MergeStyleMerge pr)) (out, None) ∈ h);
    [intros; apply runGit_ends|]. intros ?.
  apply guards_wrapM, (handlePostMergeOperations_guards event pr _ q); [|unfold merge_made; lasts].
  intros h (((((Hp & _) & _) & [Hm Hc]) & Hsha) & (out & Hpush)). split; [by apply HP|].
  split; [done|done|done|]. by exists vars, out.
Qed.

Lemma merge_locked_guards event pr (P : Trace -> Prop) :
  (forall h, P h -> asked event pr h) -> lasting P ->
  guards (messages (proposal_ok event)) P
    (merge_locked env viper fuel gc sha256 pr (im_Creator event)) (fun _ _ => True).
Proof.
  intros HP HL. unfold merge_locked, RepositoryName.
  skip. eapply guards_bind; [apply guards_wrapM, (guards_step _ _ _ (fun _ _ => True))|cbv beta].
  { apply bind_sends; [auto with sends|]. intros ?. apply ret_sends. }
  { lasts. }
  { intros; apply ends_any. }
  intros name.
  step (fun (_ : string) (_ : Trace) => True); [intros; apply ends_any|]. intros q.
  eapply guards_deferring; [apply bind_sends; [auto with sends|intros ?; apply ret_sends]|].
  apply merge_in_guards; [|lasts]. intros h Hh. apply HP. tauto.
Qed.

Lemma guards_with_locks G {A} P ids (body : Prog A) Q :
  lasting P -> (forall a h, Q a h) -> guards (messages G) P body Q ->
  guards (messages G) P (with_locks env ids body) Q.
Proof.
  intros HP HQ Hb. induction ids as [|id ids IH]; [done|].
  eapply guards_conseq; [apply (guards_with_lock _ P _ _ Q); [done|exact IH]|done|auto].
Qed.

Lemma Merge_Process_guards event :
  guards (messages (proposal_ok event)) (fun _ => True)
    (Merge_Process env viper fuel gc sha256 event) (fun _ _ => True).
Proof.
  unfold Merge_Process, PullRequest_. destruct (negb _); [by apply guards_ret|].
  eapply guards_bind; [apply guards_wrapM, (guards_step _ _ _ (asked event))|cbv beta].
  { apply bind_sends; [auto with sends|]. intros ?. auto with sends. }
  { lasts. }
  { intros h. apply ends_bind, ends_wrapM, ends_call_res. intros repo _. apply ends_wrapM, ends_call_res.
    intros pr _. exists repo. set_solver. }
  intros pr. assert (HL : lasting (fun h => True /\ asked event pr h)) by lasts.
  apply guards_with_locks with (Q := fun _ _ => True); [done|done|].
  apply merge_locked_guards; [by intros h [_ ?]|done].
Qed.
End Proposed.

(** * Properties *)

(** C21: a merge leaves nothing behind. However the processing of a merge ends - with a
    result, an error or a panic, and whatever the commands and the chain answer - every
    lock it took is released and [os.RemoveAll] was called for every temporary repository
    it made (the code does not look at what that call answers). *)
Theorem merge_leaves_nothing (env : Env) viper fuel gc sha256 `{MerkleTree} `{SdkMath} event h :
  (forall k, held k (snd (Merge_Process env viper fuel gc sha256 event h)) = held k h) /\
  temp_dirs (snd (Merge_Process env viper fuel gc sha256 event h)) ⊆ temp_dirs h.
Proof.
  split; [apply Merge_Process_balanced|].
  exact (Merge_Process_tidy env viper fuel gc sha256 event (temp_dirs h) h (fun _ Hx => Hx)).
Qed.

(** C10: only what was merged is proposed. Whatever the environment answers, the processing
    of a merge sends no message but an update of the packfile of the base repository, on
    behalf of the creator of the event, and not before the head branch was merged and
    committed in a temporary repository, the commit was pushed to the base branch, the
    owner was found able to pay for the added storage, and the packfile was pinned; the
    message names the merge commit, the pinned cid, and the Merkle root of the file that
    IPFS serves for it. (That the merge was of the branch [tracking] in the temporary
    repository is what its command says; how CreateQuarantineRepo fills that branch is
    [fill_quarantine], not part of the statement.) *)
Theorem merge_proposes_merged (env : Env) viper fuel gc sha256 `{MerkleTree} `{SdkMath} event :
  Guarded (messages (proposal_ok gc sha256 event)) (snd (Merge_Process env viper fuel gc sha256 event [])).
Proof. by apply (Merge_Process_guards env viper fuel gc sha256 event []); [apply Guarded_nil|]. Qed.

(** A merge from a fork, in an environment where everything works. *)
#[local] Open Scope string_scope.
Definition merge_env : Env := fun A h c =>
  match c in Call A return A with
  | QRepository _ => Ok demo_repo
  | QRepositoryPackfile _ => Ok (mkPackfile "old.pack" "old" 2)
  | QPullRequest _ _ _ => Ok (mkPullRequest 7 "fred" 2 "topic" 1 "main" "")
  | QStorageParams => Ok demo_params
  | Walk _ => ([mkWalkEntry "/r/1.git/objects/pack/new.pack" false 3], None)
  | Stat _ => Exists 3
  | Output _ _ => Ok ("abc" +:+ String nl "")
  | ClusterAdd _ => "cid"
  | UnixfsGet _ => Ok (Some (well_formed_file [1; 2; 3]%Z))
  | QPackfileUpdateProposal _ _ => Ok "cid"
  | c => quiet c
  end.

Definition messages_of (h : Trace) : list Msg :=
  omap (fun o => match o with @Did _ c _ => match c with AddToBatch m => Some m | _ => None end end) h.
Definition run_merge (env : Env) : outcome unit * Trace :=
  @Merge_Process env (fun _ => "/r") 5 (mkGitopiaProxy "provider") (fun b => b) list_tree scaled_dec
    (mkInvokeMergePullRequestEvent "fred" 1 7 "provider") [].

Example merge_goes_through :
  fst (run_merge merge_env) = Val tt /\
  messages_of (snd (run_merge merge_env)) =
    [MsgProposeRepositoryPackfileUpdate "provider" "fred" 1 "new.pack" "cid" [1; 2; 3]%Z 3 "old" "abc" false].
Proof. vm_compute. auto. Qed.

(** An owner who cannot pay: the cached repository is removed, and Process returns nil as
    if the merge had gone through. *)
Definition poor_env : Env := fun A h c =>
  match c in Call A return A with
  | QUserQuota _ => Ok (2 ^ 40)%Z
  | Stat _ => Exists (2 ^ 33)
  | c => merge_env _ h c
  end.
Example merge_not_paid :
  fst (run_merge poor_env) = Val tt /\ messages_of (snd (run_merge poor_env)) = [] /\
  Did (RemoveAll "/r/1.git") (Ok tt) ∈ snd (run_merge poor_env).
Proof.
  split; [vm_compute; reflexivity|]. split; [vm_compute; reflexivity|].
  apply list_elem_of_In. vm_compute. tauto.
Qed.
#[local] Close Scope string_scope.
