(* ===== verification/MergeRaces.v ===== *)
(** What runs at the same time in handler/mergePullRequest.go: the two goroutines of
    handleIPFSOperations with their channels (module [Ipfs]), and merges that are
    processed by different workers and wait for each other's locks (module [Order]). *)

From S2P Require Import Prelude World Merge.

(** * handleIPFSOperations *)
Module Ipfs.
Section Ipfs.
(** What the pin and the query answer. *)
Context (pinned : res string) (answered : res unit).

(** The first goroutine: before its first send, between its two sends, at its end. *)
Inductive pinner := Pinning | CidSent | PinDone.
(** The caller: it has received [n] errors that were nil, or it has returned. *)
Inductive caller := Receiving (n : nat) | Returned (r : res string).

Record Race := mkRace {
  pin : pinner; queried : bool;
  errChan : list (option error);   (* capacity 2 *)
  cidChan : list string;           (* capacity 1 *)
  main : caller
}.
Definition initial : Race := mkRace Pinning false [] [] (Receiving 0).

Definition err_of {A} (r : res A) : option error := match r with Ok _ => None | Er e => Some e end.

Inductive race_step : Race -> Race -> Prop :=
| pin_fails e q es cs m : pinned = Er e -> (length es < 2)%nat ->
    race_step (mkRace Pinning q es cs m) (mkRace PinDone q (es ++ [Some e]) cs m)
| pin_sends_cid c q es cs m : pinned = Ok c -> (length cs < 1)%nat ->
    race_step (mkRace Pinning q es cs m) (mkRace CidSent q es (cs ++ [c]) m)
| pin_sends_nil q es cs m : (length es < 2)%nat ->
    race_step (mkRace CidSent q es cs m) (mkRace PinDone q (es ++ [None]) cs m)
| query_sends p es cs m : (length es < 2)%nat ->
    race_step (mkRace p false es cs m) (mkRace p true (es ++ [err_of answered]) cs m)
| receive_nil p q es cs n : (n < 2)%nat ->
    race_step (mkRace p q (None :: es) cs (Receiving n)) (mkRace p q es cs (Receiving (S n)))
| receive_error p q e es cs n : (n < 2)%nat ->
    race_step (mkRace p q (Some e :: es) cs (Receiving n)) (mkRace p q es cs (Returned (Er e)))
| receive_cid p q es c cs :
    race_step (mkRace p q es (c :: cs) (Receiving 2)) (mkRace p q es cs (Returned (Ok c))).

(** The two goroutines one after the other, which is how [Merge.handleIPFSOperations]
    runs them. *)
Definition serial (pin_first : bool) : res string :=
  match pinned, answered with
  | Ok c, Ok _ => Ok c
  | Er e, Ok _ => Er e
  | Ok _, Er e => Er e
  | Er e, Er e' => Er (if pin_first then e else e')
  end.

Definition over (s : Race) : Prop := pin s = PinDone /\ queried s = true /\ exists r, main s = Returned r.

(** The messages of [errChan] in the order in which they were sent: [true] is the one of
    the pin. *)
Definition msg (from_pin : bool) : option error := if from_pin then err_of pinned else err_of answered.

Definition sent_ok (order : list bool) (s : Race) : Prop :=
  order ∈ [[]; [true]; [false]; [true; false]; [false; true]] /\
  (true ∈ order <-> pin s = PinDone) /\ (false ∈ order <-> queried s = true).

Definition cid_ok (s : Race) : Prop :=
  match pinned with
  | Er _ => cidChan s = [] /\ pin s <> CidSent
  | Ok c => cidChan s = (match pin s, main s with
                         | Pinning, _ => []
                         | _, Returned (Ok _) => []
                         | _, _ => [c]
                         end)
  end.

Definition main_ok (order : list bool) (s : Race) : Prop :=
  match main s with
  | Receiving n =>
      (n <= length order)%nat /\ errChan s = map msg (drop n order) /\
      Forall (fun b => msg b = None) (take n order)
  | Returned r =>
      (exists b, r = serial b) /\ (S (length (errChan s)) <= length order)%nat /\
      (is_ok r = true -> pin s = PinDone)
  end.

Definition inv (s : Race) : Prop := exists order, sent_ok order s /\ cid_ok s /\ main_ok order s.

Lemma race_inv_initial : inv initial.
Proof.
  exists []. split; [|split].
  - split; [set_solver|]. split; split; intros H; try done; by apply not_elem_of_nil in H.
  - unfold cid_ok. by destruct pinned.
  - done.
Qed.

(** A message is sent at the end of the order. *)
Lemma order_snoc order b :
  order ∈ [[]; [true]; [false]; [true; false]; [false; true]] -> b ∉ order ->
  order ++ [b] ∈ [[]; [true]; [false]; [true; false]; [false; true]] /\ (length order < 2)%nat.
Proof.
  intros Ho Hb. apply list_elem_of_In in Ho. simpl in Ho.
  destruct Ho as [<-|[<-|[<-|[<-|[<-|[]]]]]], b; simpl; (split; [|lia]) || (exfalso; apply Hb; set_solver);
    simpl; set_solver.
Qed.

Lemma main_ok_send order b p q cs p' q' cs' es m :
  main_ok order (mkRace p q es cs m) -> (p = PinDone -> p' = PinDone) ->
  main_ok (order ++ [b]) (mkRace p' q' (es ++ [msg b]) cs' m).
Proof.
  unfold main_ok. cbn [main errChan pin]. intros Hm Hp. destruct m as [n|r].
  - destruct Hm as (Hn & -> & Hf). rewrite length_app. split; [lia|].
    rewrite drop_app_le, take_app_le by lia. by rewrite map_app.
  - destruct Hm as (Hr & Hl & Hok). rewrite !length_app. simpl. split_and!; [done|lia|auto].
Qed.

Lemma sent_by order s : sent_ok order s -> (pin s <> PinDone -> true ∉ order) /\ (queried s = false -> false ∉ order).
Proof. intros (_ & [Ht _] & [Hf _]). split; [auto|]. intros Hq Hin. rewrite (Hf Hin) in Hq. done. Qed.

(** The next message that is received. *)
Lemma next_msg order n e es :
  e :: es = map msg (drop n order) ->
  exists b, order !! n = Some b /\ msg b = e /\ es = map msg (drop (S n) order) /\ (n < length order)%nat.
Proof.
  intros Hd. destruct (drop n order) as [|b bs] eqn:Eb; [done|]. injection Hd as -> ->.
  assert (Hb : order !! n = Some b) by (by rewrite <- (Nat.add_0_r n), <- lookup_drop, Eb).
  exists b. split_and!; [done|done| |by apply lookup_lt_Some in Hb].
  by rewrite (drop_S _ _ _ Hb) in Eb; injection Eb as <-.
Qed.

(** Two messages: both were sent. *)
Lemma order_full order :
  order ∈ [[]; [true]; [false]; [true; false]; [false; true]] -> (2 <= length order)%nat ->
  true ∈ order /\ false ∈ order /\ length order = 2%nat.
Proof.
  intros Ho%list_elem_of_In. simpl in Ho.
  destruct Ho as [<-|[<-|[<-|[<-|[<-|[]]]]]]; simpl; intros; try lia; set_solver.
Qed.

Lemma msg_none b : msg b = None -> if b then exists c, pinned = Ok c else exists u, answered = Ok u.
Proof. unfold msg, err_of. destruct b; [destruct pinned|destruct answered]; naive_solver. Qed.

Lemma step_keeps s s' : race_step s s' -> inv s -> inv s'.
Proof.
  intros Hs (order & Ho & Hc & Hm). pose proof (sent_by _ _ Ho) as [Hnt Hnf].
  destruct Hs as [e q es cs m Hp Hl|c q es cs m Hp Hl|q es cs m Hl|p es cs m Hl|p q es cs n Hn|p q e es cs n Hn|p q es c cs];
    cbn [pin queried] in Hnt, Hnf.
  - (* the pin failed *)
    exists (order ++ [true]). destruct (order_snoc order true) as [Ho' _]; [apply Ho|auto|].
    split; [|split].
    + destruct Ho as (_ & _ & Hf). split; [done|]. cbn [pin queried] in *. set_solver.
    + unfold cid_ok in *. rewrite Hp in *. naive_solver.
    + replace (Some e) with (msg true) by (simpl; by rewrite Hp). by eapply main_ok_send.
  - (* the cid is sent *)
    exists order. split; [|split].
    + destruct Ho as (? & Ht & Hf). split; [done|]. cbn [pin queried] in *. naive_solver.
    + unfold cid_ok in *. rewrite Hp in *. cbn [cidChan pin main] in *. subst cs. simpl.
      destruct m as [n|[?|?]]; try done. exfalso. unfold main_ok in Hm. naive_solver.
    + unfold main_ok in *. cbn [main errChan pin] in *. destruct m as [n|r]; naive_solver.
  - (* the pin worked *)
    exists (order ++ [true]). destruct (order_snoc order true) as [Ho' _]; [apply Ho|auto|].
    assert (Hp : exists c, pinned = Ok c) by (unfold cid_ok in Hc; destruct pinned; naive_solver).
    destruct Hp as [c Hp]. split; [|split].
    + destruct Ho as (_ & _ & Hf). split; [done|]. cbn [pin queried] in *. set_solver.
    + unfold cid_ok in *. rewrite Hp in *. done.
    + replace None with (msg true) by (simpl; by rewrite Hp). by eapply main_ok_send.
  - (* the query *)
    exists (order ++ [false]). destruct (order_snoc order false) as [Ho' _]; [apply Ho|auto|].
    split; [|split].
    + destruct Ho as (_ & Ht & _). split; [done|]. cbn [pin queried] in *. set_solver.
    + unfold cid_ok in *. done.
    + change (err_of answered) with (msg false). by eapply main_ok_send.
  - (* a nil error *)
    destruct Hm as (Hn' & He & Hf). cbn [errChan main] in *.
    destruct (next_msg _ _ _ _ He) as (b & Hb & Hmb & -> & Hlt).
    exists order. split; [done|split; [done|]]. unfold main_ok. cbn [errChan main]. split_and!; [lia|done|].
    rewrite (take_S_r _ _ _ Hb). apply Forall_app. auto.
  - (* an error *)
    destruct Hm as (Hn' & He & Hf). cbn [errChan main] in *.
    destruct (next_msg _ _ _ _ He) as (b & Hb & Hmb & -> & Hlt).
    exists order. split; [done|split].
    + unfold cid_ok in *. cbn [cidChan pin main] in *. destruct pinned; [|done]. by destruct p.
    + unfold main_ok. cbn [errChan main]. split_and!; [|rewrite length_map, length_drop; lia|done].
      exists b. unfold serial. unfold msg, err_of in Hmb.
      destruct b, pinned, answered; naive_solver.
  - (* the cid *)
    destruct Hm as (Hn' & He & Hf). cbn [errChan main] in *.
    destruct (order_full order) as (Ht & Hfa & Hlen); [apply Ho|done|].
    rewrite take_ge in Hf by lia. rewrite Forall_forall in Hf.
    setoid_rewrite <- list_elem_of_In in Hf.
    destruct (msg_none true (Hf _ Ht)) as [c' Hp]. destruct (msg_none false (Hf _ Hfa)) as [u Ha].
    destruct Ho as (Ho & Hpd & Hq). cbn [pin queried] in *. apply Hpd in Ht as ->.
    unfold cid_ok in Hc. rewrite Hp in Hc. cbn in Hc. injection Hc as -> ->.
    exists order. split; [by split|split].
    + unfold cid_ok. by rewrite Hp.
    + unfold main_ok. cbn [errChan main]. split_and!; [|rewrite He, length_map, length_drop; lia|done].
      exists true. unfold serial. by rewrite Hp, Ha.
Qed.

Lemma race_inv s : rtc race_step initial s -> inv s.
Proof.
  intros Hr. pose proof race_inv_initial as H0. induction Hr as [|s1 s2 s3 Hs _ IH]; [done|].
  by apply IH, (step_keeps s1).
Qed.

(** Nobody waits for ever: as long as it is not over, someone can go on. *)
Lemma inv_progress s : inv s -> over s \/ exists s', race_step s s'.
Proof.
  intros (order & Ho & Hc & Hm). pose proof (sent_by _ _ Ho) as [Hnt Hnf].
  assert (Hlt : forall b, b ∉ order -> (length (errChan s) < 2)%nat).
  { intros b Hb. destruct Ho as [Ho _]. destruct (order_snoc order b Ho Hb) as [_ Hl].
    unfold main_ok in Hm. destruct (main s); [|lia]. destruct Hm as (? & -> & _).
    rewrite length_map, length_drop. lia. }
  destruct s as [p q es cs m]. cbn [pin queried errChan] in *.
  destruct p; [right|right|].
  - destruct pinned as [c|e] eqn:Hp.
    + unfold cid_ok in Hc. rewrite Hp in Hc. cbn in Hc. subst cs. eexists. apply (pin_sends_cid c); [done|simpl; lia].
    + eexists. apply (pin_fails e); [done|]. by apply (Hlt true), Hnt.
  - eexists. apply pin_sends_nil. by apply (Hlt true), Hnt.
  - destruct q; [|right; eexists; apply query_sends; apply (Hlt false); auto].
    destruct m as [n|r]; [right|left; split_and!; eauto].
    destruct Ho as (Ho & [_ Ht] & [_ Hf]). specialize (Ht eq_refl). specialize (Hf eq_refl).
    destruct Hm as (Hn & He & Hall). cbn [errChan main] in *.
    assert (Hlen : length order = 2%nat).
    { apply list_elem_of_In in Ho. simpl in Ho.
      destruct Ho as [<-|[<-|[<-|[<-|[<-|[]]]]]]; simpl; try done; exfalso; set_solver. }
    destruct (decide (n = 2%nat)) as [->|Hne].
    + rewrite take_ge in Hall by lia. rewrite Forall_forall in Hall.
      setoid_rewrite <- list_elem_of_In in Hall.
      destruct (msg_none true (Hall _ Ht)) as [c Hp]. unfold cid_ok in Hc. rewrite Hp in Hc. cbn in Hc. subst cs.
      eexists. apply receive_cid.
    + destruct es as [|[e|] es].
      { apply (f_equal length) in He. rewrite length_map, length_drop in He. simpl in He. lia. }
      * eexists. apply receive_error. lia.
      * eexists. apply receive_nil. lia.
Qed.

(** Every step brings the end nearer. *)
Definition distance (s : Race) : nat :=
  (match pin s with Pinning => 5 | CidSent => 2 | PinDone => 0 end) + (if queried s then 0 else 2) +
  length (errChan s) + length (cidChan s) + (match main s with Receiving n => 3 - n | Returned _ => 0 end).

Lemma step_distance s s' : race_step s s' -> (distance s' < distance s)%nat.
Proof. destruct 1; unfold distance; cbn [pin queried errChan cidChan main]; rewrite ?length_app; simpl; lia. Qed.

Lemma nsteps_distance n s s' : nsteps race_step n s s' -> (n + distance s' <= distance s)%nat.
Proof. induction 1 as [|n s1 s2 s3 Hs _ IH]; [lia|]. apply step_distance in Hs. lia. Qed.

(** Both serial results can come out. *)
Lemma pin_error_first e : pinned = Er e -> exists s, rtc race_step initial s /\ main s = Returned (Er e).
Proof.
  intros Hp. eexists. split.
  - eapply rtc_l; [apply (pin_fails e); [done|simpl; lia]|]. eapply rtc_l; [apply receive_error; lia|apply rtc_refl].
  - done.
Qed.

Lemma query_error_first e : answered = Er e -> exists s, rtc race_step initial s /\ main s = Returned (Er e).
Proof.
  intros Ha. eexists. split.
  - eapply rtc_l; [apply query_sends; simpl; lia|]. rewrite Ha. eapply rtc_l; [apply receive_error; lia|apply rtc_refl].
  - done.
Qed.

Lemma both_work c u : pinned = Ok c -> answered = Ok u -> exists s, rtc race_step initial s /\ main s = Returned (Ok c).
Proof.
  intros Hp Ha. eexists. split.
  - eapply rtc_l; [apply (pin_sends_cid c); [done|simpl; lia]|].
    eapply rtc_l; [apply pin_sends_nil; simpl; lia|].
    eapply rtc_l; [apply query_sends; simpl; lia|]. rewrite Ha.
    eapply rtc_l; [apply receive_nil; lia|]. eapply rtc_l; [apply receive_nil; lia|].
    eapply rtc_l; [apply receive_cid|apply rtc_refl].
  - done.
Qed.

Lemma serial_reachable b : exists s, rtc race_step initial s /\ main s = Returned (serial b).
Proof.
  unfold serial. destruct pinned as [c|e] eqn:Hp, answered as [u|e'] eqn:Ha.
  - by apply (both_work c u).
  - by apply query_error_first.
  - by apply pin_error_first.
  - destruct b; [by apply pin_error_first|by apply query_error_first].
Qed.
End Ipfs.
End Ipfs.

(** * The locks of merges that run at the same time *)
Module Order.
Section Order.
Context (merges : list PullRequest).

(** A merge holds some repositories and has others to lock; when it has none left it
    works, and then releases all. *)
Inductive stage := Taking (held todo : list Z) | Over.

Definition start : list stage := map (fun pr => Taking [] (lock_order pr)) merges.

Definition holds (k : Z) (st : stage) : Prop :=
  match st with Taking held _ => k ∈ held | Over => False end.

(** LockRepository takes a lock that nobody holds. *)
Inductive order_step : list stage -> list stage -> Prop :=
| step_lock i held k todo ss :
    ss !! i = Some (Taking held (k :: todo)) -> Forall (fun st => ~ holds k st) ss ->
    order_step ss (<[i := Taking (held ++ [k]) todo]> ss)
| step_finish i held ss :
    ss !! i = Some (Taking held []) -> order_step ss (<[i := Over]> ss).

Definition finished (ss : list stage) : Prop := Forall (fun st => st = Over) ss.

(** Each merge goes through its repositories in their order. *)
Definition in_order (pr : PullRequest) (st : stage) : Prop :=
  match st with Taking held todo => held ++ todo = lock_order pr | Over => True end.

Lemma start_in_order : Forall2 in_order merges start.
Proof. unfold start. induction merges as [|pr prs IH]; simpl; by constructor. Qed.

Lemma step_in_order ss ss' : order_step ss ss' -> Forall2 in_order merges ss -> Forall2 in_order merges ss'.
Proof.
  intros Hs Ho. destruct Hs as [i held k todo ss Hi _|i held ss Hi].
  - destruct (Forall2_lookup_r _ _ _ _ _ Ho Hi) as (pr & Hpr & Hst).
    rewrite <- (list_insert_id merges i pr Hpr). apply Forall2_insert; [done|].
    simpl in *. by rewrite <- app_assoc.
  - destruct (Forall2_lookup_r _ _ _ _ _ Ho Hi) as (pr & Hpr & Hst).
    rewrite <- (list_insert_id merges i pr Hpr). by apply Forall2_insert.
Qed.

Lemma reachable_in_order ss : rtc order_step start ss -> Forall2 in_order merges ss.
Proof.
  intros Hr. pose proof start_in_order as H0. induction Hr as [|s1 s2 s3 Hs _ IH]; [done|].
  by apply IH, (step_in_order s1).
Qed.

(** [rank] orders the repositories so that every merge locks upwards. *)
Definition upwards (rank : Z -> nat) : Prop :=
  forall pr, pr ∈ merges -> pr_BaseRepositoryId pr <> pr_HeadRepositoryId pr ->
    (rank (pr_BaseRepositoryId pr) < rank (pr_HeadRepositoryId pr))%nat.

Lemma holder_waits_higher rank pr k held' todo' :
  upwards rank -> pr ∈ merges -> in_order pr (Taking held' todo') -> k ∈ held' ->
  todo' = [] \/ exists k' rest, todo' = k' :: rest /\ (rank k < rank k')%nat.
Proof.
  intros Hup Hpr Ho Hk. destruct todo' as [|k2 rest]; [by left|right]. exists k2, rest. split; [done|].
  simpl in Ho. unfold lock_order in Ho. destruct held' as [|b held']; [set_solver|].
  injection Ho as -> Ho. case_decide as Hne.
  - destruct held' as [|x held']; simpl in Ho; [|by destruct held'].
    injection Ho as -> _. apply list_elem_of_singleton in Hk as ->. by apply Hup.
  - by destruct held'.
Qed.

(** Is somebody holding [k]? *)
Lemma free_or_held k ss : Forall (fun st => ~ holds k st) ss \/ exists j st, ss !! j = Some st /\ holds k st.
Proof.
  induction ss as [|st ss [IH|(j & st' & Hj & Hh)]]; [by left| |].
  - assert (Hd : holds k st \/ ~ holds k st).
    { destruct st as [held todo|]; simpl; [|right; intros []]. destruct (decide (k ∈ held)); auto. }
    destruct Hd as [Hd|Hd]; [right; by exists 0%nat, st|left; by constructor].
  - right. by exists (S j), st'.
Qed.

(** A chain of waiting merges goes up, so it ends at one that can go on. *)
Lemma waiting_can_step rank bound ss n i held k todo :
  upwards rank -> Forall2 in_order merges ss ->
  (forall pr k, pr ∈ merges -> k ∈ lock_order pr -> (rank k <= bound)%nat) ->
  ss !! i = Some (Taking held (k :: todo)) -> (bound - rank k <= n)%nat -> exists ss', order_step ss ss'.
Proof.
  intros Hup Ho Hb. revert i held k todo. induction n as [|n IH]; intros i held k todo Hi Hn;
    (destruct (free_or_held k ss) as [Hf|(j & st & Hj & Hh)]; [eexists; by eapply step_lock|]);
    (destruct st as [held' todo'|]; [|done]);
    destruct (Forall2_lookup_r _ _ _ _ _ Ho Hj) as (pr & Hpr & Hst); apply list_elem_of_lookup_2 in Hpr;
    destruct (holder_waits_higher rank pr k held' todo' Hup Hpr Hst Hh) as [->|(k' & rest & -> & Hlt)];
    try (eexists; by eapply step_finish);
    (assert (Hk' : (rank k' <= bound)%nat) by (apply (Hb pr); [done|]; simpl in Hst; rewrite <- Hst; set_solver)).
  - lia.
  - eapply (IH j held' k' rest); [done|lia].
Qed.

Lemma bounded (rank : Z -> nat) (ks : list Z) : exists bound, forall k, k ∈ ks -> (rank k <= bound)%nat.
Proof.
  induction ks as [|k ks [bound IH]]; [exists 0%nat; set_solver|].
  exists (Nat.max (rank k) bound). intros k' [->|Hk]%elem_of_cons; [lia|]. specialize (IH k' Hk). lia.
Qed.

Lemma upwards_progress rank ss :
  upwards rank -> rtc order_step start ss -> finished ss \/ exists ss', order_step ss ss'.
Proof.
  intros Hup Hr. apply reachable_in_order in Hr as Ho.
  destruct (bounded rank (concat (map lock_order merges))) as [bound Hb].
  assert (Hb' : forall pr k, pr ∈ merges -> k ∈ lock_order pr -> (rank k <= bound)%nat).
  { intros pr k Hpr Hk. apply Hb, list_elem_of_In, in_concat. exists (lock_order pr). split.
    - apply in_map. by apply list_elem_of_In.
    - by apply list_elem_of_In. }
  assert (Hc : finished ss \/ exists i held todo, ss !! i = Some (Taking held todo)).
  { clear. induction ss as [|[held todo|] ss [IH|(i & held' & todo' & Hi)]].
    - left. constructor.
    - right. by exists 0%nat, held, todo.
    - right. by exists 0%nat, held, todo.
    - left. by constructor.
    - right. by exists (S i), held', todo'. }
  destruct Hc as [Hf|(i & held & [|k todo] & Hi)]; [by left|right; eexists; by eapply step_finish|right].
  by eapply (waiting_can_step rank bound ss (bound - rank k)).
Qed.
End Order.

Definition pull (base head : Z) : PullRequest := mkPullRequest 1 "user" head "topic" base "main" "".

(** Two merges in opposite directions, after each has locked its base. *)
Definition stuck (a b : Z) : list stage := [Taking [a] [b]; Taking [b] [a]].

Lemma opposite_start a b : a <> b -> start [pull a b; pull b a] = [Taking [] [a; b]; Taking [] [b; a]].
Proof. intros Hne. unfold start, lock_order. simpl. by rewrite !decide_True by auto. Qed.

Lemma opposite_reaches a b : a <> b -> rtc order_step (start [pull a b; pull b a]) (stuck a b).
Proof.
  intros Hne. rewrite opposite_start by done.
  eapply rtc_l; [apply (step_lock 0 [] a [b]); [done|]|].
  { repeat constructor; simpl; set_solver. }
  eapply rtc_l; [apply (step_lock 1 [] b [a]); [done|]|apply rtc_refl].
  repeat constructor; simpl; set_solver.
Qed.

Lemma stuck_stays a b ss : ~ order_step (stuck a b) ss.
Proof.
  intros Hs. unfold stuck in Hs. inversion Hs as [i held k todo ss' Hi Hf E|i held ss' Hi E]; subst.
  - destruct i as [|[|[]]]; simplify_eq/=; inversion Hf as [|? ? H1 Hf2]; inversion Hf2 as [|? ? H2 ?]; subst;
      simpl in *; set_solver.
  - by destruct i as [|[|[]]].
Qed.
End Order.

(** * Properties *)

(** C38: the concurrent pin and query behave like one after the other. Whatever they
    answer, every run of the two goroutines and the caller that is over returned what the
    serial order of one of them gives, and both orders can happen; nobody blocks on a
    channel for ever, and every run is over after at most ten steps. *)
Theorem handleIPFSOperations_serial pinned answered :
  (forall b, exists s, rtc (Ipfs.race_step pinned answered) Ipfs.initial s /\
     Ipfs.main s = Ipfs.Returned (Ipfs.serial pinned answered b)) /\
  (forall s, rtc (Ipfs.race_step pinned answered) Ipfs.initial s ->
     (forall r, Ipfs.main s = Ipfs.Returned r -> exists b, r = Ipfs.serial pinned answered b) /\
     (Ipfs.over s \/ exists s', Ipfs.race_step pinned answered s s')) /\
  (forall n s, nsteps (Ipfs.race_step pinned answered) n Ipfs.initial s -> (n <= 10)%nat).
Proof.
  split; [apply Ipfs.serial_reachable|split].
  - intros s Hr. apply Ipfs.race_inv in Hr. split; [|by apply Ipfs.inv_progress].
    destruct Hr as (order & _ & _ & Hm). unfold Ipfs.main_ok in Hm. intros r Hmain. rewrite Hmain in Hm. apply Hm.
  - intros n s Hn. apply (Ipfs.nsteps_distance pinned answered) in Hn. change (Ipfs.distance Ipfs.initial) with 10%nat in Hn. lia.
Qed.

(** C39: merges can wait for each other for ever. A merge locks the repository of the base
    branch first and then that of the head branch: for any two repositories, merging a
    pull request from each into the other reaches a state where both hold one repository
    and wait for the other one, and no step is possible. If the repositories can be ranked
    so that every pull request leads from a higher to a lower one (as from a fork to its
    parent), then whatever was done, either every merge is over or one of them can go on. *)
Theorem merge_lock_order :
  (forall a b, a <> b -> exists ss, rtc Order.order_step (Order.start [Order.pull a b; Order.pull b a]) ss /\
     ~ Order.finished ss /\ forall ss', ~ Order.order_step ss ss') /\
  (forall merges rank ss, Order.upwards merges rank -> rtc Order.order_step (Order.start merges) ss ->
     Order.finished ss \/ exists ss', Order.order_step ss ss').
Proof.
  split.
  - intros a b Hne. exists (Order.stuck a b). split_and!; [by apply Order.opposite_reaches| |apply Order.stuck_stays].
    intros Hf. by inversion Hf.
  - intros merges rank ss. apply Order.upwards_progress.
Qed.
