(* ===== verification/RepoHandlers.v ===== *)
(** The handlers that show a repository (internal/app/handler/content.go, raw_file.go,
    commits.go, commit_diff.go, with utils/content.go, git.go and commits.go): a file or a
    directory at a commit, a raw file of a branch, the history and the differences.

    A handler that names a repository takes its read lock, brings the repository into
    the cache and opens it with go-git. Listings of directories and of differences are those
    of Pagination; the pages of a history, which git serves, are here. *)

From S2P Require Import Prelude GoInt GoStrings GoPath Base64 Pagination StorageFee Merkle World ChainClient Cache Auth.

#[local] Open Scope string_scope.

(** * Responses *)

(** [http.StatusText] of the codes in use. *)
Definition StatusText (code : Z) : string :=
  if decide (code = 400) then "Bad Request" else if decide (code = 403) then "Forbidden"
  else if decide (code = 404) then "Not Found" else if decide (code = 500) then "Internal Server Error"
  else "".

(** The struct tags; [omitempty] leaves out zero values. *)
Definition omit_str (name v : string) : list (string * json) :=
  if decide (v = "") then [] else [(name, JStr v)].
Definition omit_num (name : string) (n : Z) : list (string * json) :=
  if decide (n = 0) then [] else [(name, JNum n)].
Definition omit_arr (name : string) (xs : list json) : list (string * json) :=
  match xs with [] => [] | _ => [(name, JArr xs)] end.
Definition omit_ptr {A} (name : string) (f : A -> json) (x : option A) : list (string * json) :=
  match x with Some a => [(name, f a)] | None => [] end.
(** A nil slice is [null]. *)
Definition str_slice (xs : list string) : json :=
  match xs with [] => JNull | _ => JArr (map JStr xs) end.

Definition string_of_bytes (bs : list Z) : string :=
  String.string_of_list_ascii (map (fun b => Ascii.ascii_of_nat (Z.to_nat b)) bs).

(** utils/pagination.go *)
Definition page_json (p : PageResponse) : json :=
  JObj (omit_str "next_key" (base64_encode (string_of_bytes (key_bytes (NextKey p)))) ++
        omit_num "total" (Total p))%list.

(** utils/commits.go *)
Definition person_json (p : Person) : json :=
  JObj [("name", JStr (p_Name p)); ("email", JStr (p_Email p)); ("date", JStr (p_Date p))].
Definition commit_json (c : Commit) : json :=
  JObj [("id", JStr (cm_Id c)); ("title", JStr (cm_Title c)); ("author", person_json (cm_Author c));
        ("committer", person_json (cm_Committer c)); ("created_at", JNum (cm_CreatedAt c));
        ("message", JStr (cm_Message c)); ("tree", JStr (cm_Tree c)); ("parent_ids", str_slice (cm_ParentIds c))].
Definition commits_response (commits : list Commit) (p : option PageResponse) : json :=
  JObj (omit_arr "commits" (map commit_json commits) ++ omit_ptr "pagination" page_json p)%list.

(** utils/content.go: a [Content] with its [LastCommit]. *)
Definition content_json (x : Content * option Commit) : json :=
  let '(c, lastCommit) := x in
  JObj ([("name", JStr (c_Name c)); ("path", JStr (c_Path c)); ("sha", JStr (c_Sha c)); ("type", JStr (c_Type c))] ++
        omit_num "size" (c_Size c) ++ omit_str "content" (c_Content c) ++ omit_str "encoding" (c_Encoding c) ++
        omit_ptr "last_commit" commit_json lastCommit)%list.
Definition content_response (contents : list (Content * option Commit)) (p : option PageResponse) : json :=
  JObj (omit_arr "content" (map content_json contents) ++ omit_ptr "pagination" page_json p)%list.

(** utils/diff.go *)
Definition stat_json (addition deletion : Z) : json :=
  JObj [("addition", JNum addition); ("deletion", JNum deletion)].
Definition diff_json (d : Diff) : json :=
  JObj [("file_name", JStr (d_FileName d)); ("stat", stat_json (d_Addition d) (d_Deletion d));
        ("patch", JStr (d_Patch d)); ("type", str_slice (d_Type d)); ("file_size", JNum (d_FileSize d))].
Definition diff_response (diffs : list Diff) (p : option PageResponse) : json :=
  JObj (omit_arr "diff" (map diff_json diffs) ++ omit_ptr "pagination" page_json p)%list.
Definition stat_response (stats : list Pagination.FileStat) (changes : list Change) : json :=
  JObj [("stat", stat_json (u64 (sum_int (map st_Addition stats))) (u64 (sum_int (map st_Deletion stats))));
        ("files_changed", JNum (Z.of_nat (length changes)));
        ("file_names", str_slice (map st_Name stats))].

Section Handlers.
Context (env : Env) (viper : string -> string) (fuel : nat).

(** [http.Error(w, http.StatusText(code), code)]. *)
Definition http_status (code : Z) : Prog unit := call env (HttpError (StatusText code) code).

(** [if err != nil { http.Error(w, err.Error(), code); return }]. *)
Definition or_http {A} (code : Z) (m : Prog A) (k : A -> Prog unit) : Prog unit :=
  on_error m (fun e => call env (HttpError (Error e) code)) k.
#[local] Notation "x ⟵ m 'orHttp' code ; k" := (or_http code m (fun x => k))
  (at level 20, m at level 100, code at level 100, k at level 200, right associativity).

(** A listing of Pagination, with the results that its callback collected. *)
Definition collected {C A} (m : GoM (list C) A) : Prog (res A * list C) := fun h =>
  match m [] with
  | (Val a, cs) => (Val (Ok a, cs), h)
  | (Fail e, cs) => (Val (Er e, cs), h)
  | (Panic p, _) => (Panic p, h)
  end.

Definition json_headers : Prog unit :=
  _ ← call env (SetHeader "Content-Type" "application/json");
  call env (SetHeader "Access-Control-Allow-Origin" "*").

(** An error of [Write] is dropped. *)
Definition write_json (v : json) : Prog unit := _ ← call env (WriteJson v); mret tt.

Definition repo_path (id : Z) : string := PathJoin [viper "GIT_REPOS_DIR"; FormatUint id +:+ ".git"].

(** What the handlers have in common: the read lock, the cache, the repository. *)
Definition in_cached_repo (id : Z) (k : Prog unit) : Prog unit :=
  with_rlock env (RepoKey id)
    (_ ⟵ CacheRepository env viper fuel id (viper "GIT_REPOS_DIR") orHttp 500;
     _ ⟵ call_res env (PlainOpen (repo_path id)) ifErr http_status 404;
     k).

(** ** content.go *)

(** utils/git.go *)
Definition LastCommitForPath (repoPath revision path : string) : Prog string :=
  out ← call_res env (Output repoPath
    (["git"; "log"; "--pretty=%H"; "--max-count=1"; revision] ++
     (if decide (path = "") then [] else ["--"; path]))%list);
  mret (TrimSpace out).

(** utils/content.go. The error of [ReadAll] is not looked at. *)
Definition GrabFileContent (size : Z) (treeEntry : TreeEntry) (pathPrefix : string) (noRestriction : bool) :
    Prog Content :=
  let content encodedData encoding :=
    mkContent (te_Name treeEntry) (if decide (pathPrefix = "") then te_Name treeEntry else pathPrefix)
      (te_Hash treeEntry) (ContentType_String BLOB) size encodedData encoding in
  if bool_decide (size < 1000000) || noRestriction then
    _ ← call_res env (BlobReader (te_Hash treeEntry));
    '(data, _) ← call env ReadAll;
    mret (content (base64_encode data) "base64")
  else mret (content "" "").

(** [splits\[low:high\]] of the lines of a text. *)
Definition line_range (text : string) (from to : Z) : outcome string :=
  let splits := Split text (String nl "") in
  let to := if decide (Z.of_nat (length splits) < to) then Z.of_nat (length splits) else to in
  let low := u64 (from - 1) in
  let high := u64 (to - 1) in
  if decide (low <= high <= Z.of_nat (length splits))
  then Val (Join (take (Z.to_nat (high - low)) (drop (Z.to_nat low) splits)) (String nl ""))
  else Panic "slice bounds out of range".

(** The lines [From] to [To] of the content. *)
Definition in_range (body : ContentRequestBody) (fc : Content) : outcome Content :=
  if decide (cb_From body <> 0 /\ cb_To body <> 0) then
    match base64_decode (c_Content fc) with
    | None => Fail (ErrNew "illegal base64 data")
    | Some decodedFc =>
        rangeFc ← line_range decodedFc (cb_From body) (cb_To body);
        Val (mkContent (c_Name fc) (c_Path fc) (c_Sha fc) (c_Type fc) (Z.of_nat (slen rangeFc))
               (base64_encode rangeFc) (c_Encoding fc))
    end
  else Val fc.

(** The last commit of each entry, if the request asks for it. *)
Fixpoint with_last_commits (repoPath : string) (body : ContentRequestBody) (contents : list Content)
    (done : list (Content * option Commit)) (k : list (Content * option Commit) -> Prog unit) : Prog unit :=
  match contents with
  | [] => k done
  | c :: contents =>
      if negb (cb_IncludeLastCommit body)
      then with_last_commits repoPath body contents (done ++ [(c, None)])%list k
      else
        pathCommitId ⟵ LastCommitForPath repoPath (cb_RefId body) (c_Path c) orHttp 400;
        pathCommitObject ⟵ call_res env (GetCommit pathCommitId) orHttp 404;
        with_last_commits repoPath body contents
          (done ++ [(c, Some (GrabCommit pathCommitObject))])%list k
  end.

Definition file_content (body : ContentRequestBody) (repoPath : string) (treeEntry : TreeEntry) : Prog unit :=
  size ⟵ call_res env (GetBlob (te_Hash treeEntry)) orHttp 404;
  fc ⟵ GrabFileContent size treeEntry (cb_Path body) (cb_NoRestriction body) orHttp 404;
  fc ⟵ lift (in_range body fc) orHttp 500;
  with_last_commits repoPath body [fc] [] (fun fileContent =>
    write_json (content_response fileContent None)).

(** Directories first. *)
Definition trees_first (contents : list (Content * option Commit)) : list (Content * option Commit) :=
  (filter (fun c => c_Type c.1 = ContentType_String TREE) contents ++
   filter (fun c => c_Type c.1 <> ContentType_String TREE) contents)%list.

Definition tree_content (body : ContentRequestBody) (repoPath : string) (tree : list TreeEntry) : Prog unit :=
  '(page, treeContents) ← collected (PaginateTreeContentResponse tree (cb_Pagination body) 100 (cb_Path body) collect);
  match page with
  | Er e => call env (HttpError (Error e) 400)
  | Ok pageRes =>
      with_last_commits repoPath body treeContents [] (fun treeContents =>
        write_json (content_response (trees_first treeContents) (Some pageRes)))
  end.

Definition content_at (body : ContentRequestBody) (repoPath : string) : Prog unit :=
  if decide (cb_RefId body = "") then http_status 400 else
  commit ⟵ call_res env (GetCommit (cb_RefId body)) orHttp 404;
  tree ⟵ call_res env (GetTree (co_Tree commit)) orHttp 404;
  _ ← json_headers;
  if decide (cb_Path body = "") then tree_content body repoPath tree else
  treeEntry ⟵ call_res env (FindEntry (co_Tree commit) (cb_Path body)) orHttp 404;
  if te_IsFile treeEntry then file_content body repoPath treeEntry else
  tree ⟵ call_res env (GetTree (te_Hash treeEntry)) orHttp 404;
  tree_content body repoPath tree.

Definition ContentHandler (r : HttpRequest) : Prog unit :=
  if decide (r_Method r <> "POST") then mret tt else
  body ⟵ call_res env DecodeContentRequest ifErr http_status 400;
  if decide (cb_To body < cb_From body) then http_status 400 else
  if decide (length (Split (r_Path r) "/") <> 2)%nat then http_status 403 else
  in_cached_repo (cb_RepositoryID body) (content_at body (repo_path (cb_RepositoryID body))).

(** ** raw_file.go *)
Definition getBranch (id repoName branchName : string) : Prog Branch :=
  call_res env (QRepositoryBranch id repoName branchName).

Definition branchExists (id repoName branchName : string) : Prog bool :=
  r ← attempt (getBranch id repoName branchName); mret (is_ok r).

Fixpoint branch_loop (id repoName branchName : string) (parts : list string) : Prog (string * string) :=
  match parts with
  | [] => mret ("", "")
  | part :: parts =>
      let branchName := TrimPrefix (branchName +:+ "/" +:+ part) "/" in
      found ← branchExists id repoName branchName;
      if (found : bool) then mret (branchName, Join parts "/")
      else branch_loop id repoName branchName parts
  end.
Definition getBranchNameAndTreePathFromPath (id repoName : string) (parts : list string) : Prog (string * string) :=
  branch_loop id repoName "" parts.

(** The file [treePath] of the branch. *)
Definition raw_file (sha treePath : string) : Prog unit :=
  commit ⟵ call_res env (GetCommit sha) orHttp 404;
  _ ⟵ call_res env (GetTree (co_Tree commit)) orHttp 404;
  treeEntry ⟵ call_res env (FindEntry (co_Tree commit) treePath) orHttp 404;
  if te_IsFile treeEntry then
    _ ⟵ call_res env (GetBlob (te_Hash treeEntry)) orHttp 404;
    _ ⟵ call_res env (BlobReader (te_Hash treeEntry)) orHttp 500;
    '(b, err) ← call env ReadAll;
    match err with
    | Some e => call env (HttpError (Error e) 500)
    | None => _ ← call env (ResponseWrite b); mret tt
    end
  else http_status 400.

(** The path is [/raw/{id}/{repository}/{branch}/{path}]. *)
Definition GetRawFileHandler (r : HttpRequest) : Prog unit :=
  if decide (r_Method r <> "GET") then mret tt else
  _ ⟵ call_res env GrpcDial orHttp 500;
  let blocks := Split (r_Path r) "/" in
  id ← lift (index blocks 2);
  repoName ← lift (index blocks 3);
  '(branchName, treePath) ← getBranchNameAndTreePathFromPath id repoName (drop 4 blocks);
  if decide (branchName = "" \/ treePath = "") then http_status 404 else
  branch ⟵ getBranch id repoName branchName orHttp 500;
  in_cached_repo (br_RepositoryId branch) (raw_file (br_Sha branch) treePath).

(** ** commits.go *)

(** The commands of utils/git.go run in the repository. *)
Definition git_in (repoPath : string) (args : list string) : Prog string :=
  call_res env (Output repoPath ("git" :: args)).

Definition CountCommits (repoPath revision path : string) : Prog string :=
  out ← git_in repoPath
    (["rev-list"; "--count"; revision] ++ (if decide (path = "") then [] else ["--"; path]))%list;
  mret (TrimSpace out).

Definition history_args (revision path : string) (offset limit : Z) : list string :=
  (["log"; "--pretty=%H"; "--max-count=" +:+ FormatInt limit; "--skip=" +:+ FormatInt offset; revision] ++
   (if decide (path = "") then [] else ["--"; path]))%list.

Definition CommitHistory (repoPath revision path : string) (offset limit : Z) : Prog (list string) :=
  out ← git_in repoPath (history_args revision path offset limit);
  mret (map TrimSpace (ScanLines out)).

(** The commits that were shown before an error stay collected: the callback appends to
    [commits]. *)
Fixpoint show_hashes (hashes : list string) (commits : list Commit) : Prog (option error * list Commit) :=
  match hashes with
  | [] => mret (None, commits)
  | hash :: hashes =>
      on_error (call_res env (GetCommit hash)) (fun e => mret (Some e, commits))
        (fun commitObj => show_hashes hashes (commits ++ [GrabCommit commitObj])%list)
  end.

Definition history_page (repoPath : string) (body : CommitsRequestBody) (count start limit : Z)
    (countTotal : bool) : Prog (res PageResponse * list Commit) :=
  let shown := u64 (start + limit) in
  on_error (CommitHistory repoPath (mb_InitCommitId body) (mb_Path body) (i64 start) (i64 limit))
    (fun e => mret (Er e, []))
    (fun commitHashes =>
       '(err, commits) ← show_hashes commitHashes [];
       mret (match err with
             | Some e => Er e
             | None => Ok (mkPageResponse (if decide (shown < count) then Some (UInt64ToBytes shown) else None)
                             (if countTotal then count else 0))
             end, commits)).

(** utils/commits.go, with the commits that its callback collected. *)
Definition PaginateCommitHistoryResponse (repoPath : string) (body : CommitsRequestBody)
    (defaultLimit : Z) : Prog (res PageResponse * list Commit) :=
  let req := default zero_PageRequest (mb_Pagination body) in
  if bool_decide (0 < Offset req) && bool_decide (is_Some (Key req)) then mret (Er err_both, []) else
  let limit := if decide (Limit req = 0) then defaultLimit else Limit req in
  on_error (CountCommits repoPath (mb_InitCommitId body) (mb_Path body)) (fun e => mret (Er e, []))
    (fun totalCommits =>
       match ParseUint totalCommits with
       | Er e => mret (Er e, [])
       | Ok count =>
           if decide (key_bytes (Key req) <> []) then
             start ← lift (BytesToUInt64 (key_bytes (Key req)));
             history_page repoPath body count start limit (CountTotal req)
           else history_page repoPath body count (Offset req) limit (CountTotal req)
       end).

(** The path of the request is there at the commit it starts from. *)
Definition path_exists (body : CommitsRequestBody) (k : Prog unit) : Prog unit :=
  if decide (mb_Path body = "") then k else
  commit ⟵ call_res env (GetCommit (mb_InitCommitId body)) orHttp 404;
  _ ⟵ call_res env (GetTree (co_Tree commit)) orHttp 404;
  _ ⟵ call_res env (FindEntry (co_Tree commit) (mb_Path body)) orHttp 404;
  k.

(** After an error of the listing the handler goes on. *)
Definition list_commits (body : CommitsRequestBody) (repoPath : string) : Prog unit :=
  _ ← json_headers;
  path_exists body
    ('(page, commits) ← PaginateCommitHistoryResponse repoPath body 100;
     pageRes ← match page with
               | Ok p => mret (Some p)
               | Er e => _ ← call env (HttpError (Error e) 400); mret None
               end;
     write_json (commits_response commits pageRes)).

(** One commit, by the path [/commits/{sha}]: neither locked nor cached. *)
Definition one_commit (id : Z) (sha : string) : Prog unit :=
  _ ⟵ call_res env (PlainOpen (repo_path id)) ifErr http_status 404;
  commitObject ⟵ call_res env (GetCommit sha) orHttp 404;
  _ ← json_headers;
  write_json (commit_json (GrabCommit commitObject)).

Definition CommitsHandler (r : HttpRequest) : Prog unit :=
  if decide (r_Method r <> "POST") then mret tt else
  body ⟵ call_res env DecodeCommitsRequest ifErr http_status 400;
  match Split (r_Path r) "/" with
  | [_; _; sha] => one_commit (mb_RepositoryID body) sha
  | [_; _] =>
      if decide (mb_InitCommitId body = "") then http_status 400 else
      in_cached_repo (mb_RepositoryID body) (list_commits body (repo_path (mb_RepositoryID body)))
  | _ => http_status 403
  end.

(** ** commit_diff.go *)

(** What commit_diff.go and pr/diff.go share, from the changes on. A page that fails is
    reported, and the response is written nevertheless. *)
Definition show_changes (changes : list Change) (onlyStat : bool) (page : option PageRequest) : Prog unit :=
  _ ← json_headers;
  if onlyStat then
    stats ⟵ call_res env (PatchStats changes) ifErr call env (WriteHeader 400);
    write_json (stat_response stats changes)
  else
    '(p, diffs) ← collected (PaginateDiffResponse changes page 10 collect);
    pageRes ← match p with
              | Ok p => mret (Some p)
              | Er e => _ ← call env (HttpError (Error e) 400); mret None
              end;
    write_json (diff_response diffs pageRes).

(** The tree to compare with: that of the named commit, or else of the first parent, or
    else none. *)
Definition previous_tree (body : DiffRequestBody) (previousCommit : option CommitObj)
    (k : option string -> Prog unit) : Prog unit :=
  match previousCommit with
  | Some c => _ ⟵ call_res env (GetTree (co_Tree c)) orHttp 404; k (Some (co_Tree c))
  | None =>
      parent ⟵ call_res env (CommitParent (db_CommitSha body)) ifErr k None;
      _ ⟵ call_res env (GetTree (co_Tree parent)) orHttp 404;
      k (Some (co_Tree parent))
  end.

Definition diff_at (body : DiffRequestBody) : Prog unit :=
  if decide (db_CommitSha body = "") then http_status 400 else
  let diff previousCommit :=
    commit ⟵ call_res env (GetCommit (db_CommitSha body)) orHttp 404;
    previous_tree body previousCommit (fun previousTree =>
      _ ⟵ call_res env (GetTree (co_Tree commit)) orHttp 404;
      changes ⟵ call_res env (DiffTrees previousTree (co_Tree commit)) ifErr call env (WriteHeader 400);
      show_changes changes (db_OnlyStat body) (db_Pagination body)) in
  if decide (db_PreviousCommitSha body = "") then diff None else
  previousCommit ⟵ call_res env (GetCommit (db_PreviousCommitSha body)) orHttp 404;
  diff (Some previousCommit).

Definition CommitDiffHandler (r : HttpRequest) : Prog unit :=
  if decide (r_Method r <> "POST") then mret tt else
  body ⟵ call_res env DecodeDiffRequest ifErr http_status 400;
  in_cached_repo (db_RepositoryID body) (diff_at body).
End Handlers.

#[local] Close Scope string_scope.

(** * Answering

    How often a response was written: a status, a body, or an error. *)
Definition is_answer {A} (c : Call A) : bool :=
  match c with
  | HttpError _ _ | HttpErrorJson _ _ | WriteJson _ | ResponseWrite _ | EncodeJson _ | WriteHeader _
  | CopyToResponse => true
  | _ => false
  end.
Definition answer_step (o : Obs) : nat := match o with @Did _ c _ => if is_answer c then 1 else 0 end.
Definition answered (h : Trace) : nat := sum_list_with answer_step h.

(** [m] answers once, or panics without having answered: then the server closes the
    connection. *)
Definition responds (m : Prog unit) : Prop := forall h,
  match m h with
  | (Val _, h') => answered h' = S (answered h)
  | (Fail _, _) => False
  | (Panic _, h') => answered h' = answered h
  end.
Definition silent {A} (m : Prog A) : Prop := forall n, preserves (fun h => answered h = n) m.
Definition never_fails {A} (m : Prog A) : Prop := forall h, match m h with (Fail _, _) => False | _ => True end.

Lemma answered_snoc h o : answered (h ++ [o]) = (answered h + answer_step o)%nat.
Proof. unfold answered. rewrite sum_list_with_app. simpl. lia. Qed.

Lemma keeps_answered n {A} (c : Call A) : is_answer c = false -> keeps (fun h => answered h = n) c.
Proof. intros Hc h a <-. rewrite answered_snoc. simpl. rewrite Hc. lia. Qed.

Lemma only_silent (ok : CallSet) {A} (m : Prog A) :
  only ok m -> (forall B (c : Call B), ok B c = true -> is_answer c = false) -> silent m.
Proof. intros Hm Hok n. apply Hm. intros B c Hc. by apply keeps_answered, Hok. Qed.

Lemma never_fails_bind {A B} (m : Prog A) (k : A -> Prog B) :
  never_fails m -> (forall a, never_fails (k a)) -> never_fails (m ≫= k).
Proof.
  intros Hm Hk h. specialize (Hm h). rewrite run_bind. destruct (m h) as [[a|e|p] h1]; [apply Hk|done..].
Qed.

Lemma never_fails_attempt {A} (m : Prog A) : never_fails (attempt m).
Proof. intros h. unfold attempt. by destruct (m h) as [[a|e|p] h1]. Qed.

Section Answering.
Context (env : Env) (viper : string -> string) (fuel : nat).

Lemma responds_call (c : Call unit) : is_answer c = true -> responds (call env c).
Proof. intros Hc h. unfold call. rewrite answered_snoc. simpl. rewrite Hc. lia. Qed.

Lemma responds_call_then {A} (c : Call A) : is_answer c = true -> responds (_ ← call env c; mret tt).
Proof. intros Hc h. rewrite run_bind. unfold call. cbn. rewrite answered_snoc. simpl. rewrite Hc. lia. Qed.

Lemma responds_bind {A} (m : Prog A) k :
  silent m -> never_fails m -> (forall a, responds (k a)) -> responds (m ≫= k).
Proof.
  intros Hs Hf Hk h. specialize (Hs _ h eq_refl). specialize (Hf h). rewrite run_bind.
  destruct (m h) as [[a|e|p] h1]; [|done|exact Hs].
  specialize (Hk a h1). simpl in Hs. by rewrite Hs in Hk.
Qed.

Lemma responds_on_error {A} (m : Prog A) bad k :
  silent m -> (forall e, responds (bad e)) -> (forall a, responds (k a)) -> responds (on_error m bad k).
Proof.
  intros Hs Hb Hk h. specialize (Hs _ h eq_refl). unfold on_error.
  destruct (m h) as [[a|e|p] h1]; simpl in Hs; [specialize (Hk a h1)|specialize (Hb e h1)|exact Hs];
    by rewrite Hs in *.
Qed.

Lemma responds_or_http {A} code (m : Prog A) k :
  silent m -> (forall a, responds (k a)) -> responds (or_http env code m k).
Proof. intros Hs Hk. apply responds_on_error; [done| |done]. intros e. by apply responds_call. Qed.

Lemma responds_locked (c d : Call unit) m :
  is_answer c = false -> is_answer d = false -> responds m ->
  responds (_ ← call env c; deferring (call env d) m).
Proof.
  intros Hc Hd Hm. apply responds_bind; [intros n; by apply preserves_call, keeps_answered|by intros h|].
  intros ? h. specialize (Hm h). unfold deferring. destruct (m h) as [[?|?|?] h1]; [|done|];
    unfold call; rewrite answered_snoc; simpl; rewrite Hd; lia.
Qed.

Lemma silent_call {A} (c : Call A) : is_answer c = false -> silent (call env c).
Proof. intros Hc n. by apply preserves_call, keeps_answered. Qed.
Lemma silent_call_res {A} (c : Call (res A)) : is_answer c = false -> silent (call_res env c).
Proof. intros Hc n. by apply preserves_call_res, keeps_answered. Qed.

Lemma CacheRepository_silent id dir : silent (CacheRepository env viper fuel id dir).
Proof. eapply only_silent; [apply CacheRepository_calls|]. by intros B []. Qed.

Lemma responds_status code : responds (http_status env code).
Proof. by apply responds_call. Qed.

Lemma responds_write v : responds (write_json env v).
Proof. by apply responds_call_then. Qed.

Lemma responds_in_cached_repo id k : responds k -> responds (in_cached_repo env viper fuel id k).
Proof.
  intros Hk. apply responds_locked; [done..|]. apply responds_or_http; [apply CacheRepository_silent|].
  intros ?. apply responds_on_error; [by apply silent_call_res|intros; apply responds_status|done].
Qed.
End Answering.

Create HintDb answer discriminated.
#[export] Hint Resolve responds_status responds_write silent_call silent_call_res : answer.

(** Reduce that a handler answers to that of its parts. *)
Ltac silently :=
  let n := fresh "n" in intros n;
  repeat first
    [ progress intros
    | apply preserves_call, keeps_answered; reflexivity
    | apply preserves_call_res, keeps_answered; reflexivity
    | apply preserves_ret | apply preserves_fail | apply preserves_lift
    | apply preserves_bind | apply preserves_on_error | apply preserves_attempt
    | match goal with
      | |- preserves _ (match ?x with _ => _ end) => destruct x
      | |- preserves _ (if ?x then _ else _) => destruct x
      end ].
Ltac respond :=
  repeat first
    [ progress intros
    | solve [auto with answer]
    | simple apply responds_call_then; reflexivity
    | simple apply responds_call; reflexivity
    | simple apply responds_in_cached_repo
    | simple apply responds_or_http
    | simple apply responds_on_error
    | simple apply responds_bind
    | match goal with
      | |- responds (match ?x with _ => _ end) => destruct x
      | |- responds (if ?x then _ else _) => destruct x
      | |- silent _ => silently
      | |- never_fails _ => by intros ?
      end ].

Section Handlers_answer.
Context (env : Env) (viper : string -> string) (fuel : nat).

Lemma silent_collected {C A} (m : GoM (list C) A) : silent (collected m).
Proof. intros n h Hh. unfold collected. by destruct (m []) as [[a|e|p] cs]. Qed.
Lemma never_fails_collected {C A} (m : GoM (list C) A) : never_fails (collected m).
Proof. intros h. unfold collected. by destruct (m []) as [[a|e|p] cs]. Qed.
Lemma silent_headers : silent (json_headers env).
Proof. unfold json_headers. silently. Qed.
Lemma never_fails_headers : never_fails (json_headers env).
Proof. by intros h. Qed.
#[local] Hint Resolve silent_collected never_fails_collected silent_headers never_fails_headers : answer.

Lemma responds_with_last_commits repoPath body contents acc k :
  (forall cs, responds (k cs)) -> responds (with_last_commits env repoPath body contents acc k).
Proof.
  intros Hk. revert acc. induction contents as [|c contents IH]; intros acc; simpl; [done|].
  destruct (negb _); [done|]. unfold LastCommitForPath. respond.
Qed.

Lemma responds_content_at body repoPath : responds (content_at env body repoPath).
Proof.
  unfold content_at.
  assert (Ht : forall tree, responds (tree_content env body repoPath tree)).
  { intros tree. unfold tree_content. respond. apply responds_with_last_commits. respond. }
  assert (Hf : forall e, responds (file_content env body repoPath e)).
  { intros e. unfold file_content, GrabFileContent. respond. apply responds_with_last_commits. respond. }
  respond; auto.
Qed.

Lemma ContentHandler_responds r : r_Method r = "POST"%string -> responds (ContentHandler env viper fuel r).
Proof.
  intros Hr. unfold ContentHandler. rewrite Hr. rewrite decide_False by congruence.
  respond. apply responds_content_at.
Qed.

Lemma branchExists_quiet id name branch :
  silent (branchExists env id name branch) /\ never_fails (branchExists env id name branch).
Proof.
  unfold branchExists, getBranch. split; [silently|].
  apply never_fails_bind; [apply never_fails_attempt|]. intros b h. exact I.
Qed.

Lemma branch_loop_quiet id name branch parts :
  silent (branch_loop env id name branch parts) /\ never_fails (branch_loop env id name branch parts).
Proof.
  revert branch. induction parts as [|part parts IH]; intros branch; simpl; [split; [silently|done]|].
  set (b := TrimPrefix _ _). destruct (IH b) as [IH1 IH2], (branchExists_quiet id name b) as [B1 B2]. split.
  - intros n. apply preserves_bind; [apply B1|]. intros []; [apply preserves_ret|apply IH1].
  - apply never_fails_bind; [done|]. intros []; [by intros h|done].
Qed.

Lemma GetRawFileHandler_responds r : r_Method r = "GET"%string -> responds (GetRawFileHandler env viper fuel r).
Proof.
  intros Hr. unfold GetRawFileHandler. rewrite Hr. rewrite decide_False by congruence.
  assert (Hf : forall sha p, responds (raw_file env sha p)).
  { intros. unfold raw_file. respond. }
  assert (Hi : forall i, never_fails (lift (index (Split (r_Path r) "/") i) : Prog string)).
  { intros i h. unfold lift, index. by destruct (_ !! i). }
  unfold getBranchNameAndTreePathFromPath, getBranch. respond; auto.
  - by destruct (branch_loop_quiet a0 a1 "" (drop 4 (Split (r_Path r) "/"))).
  - by destruct (branch_loop_quiet a0 a1 "" (drop 4 (Split (r_Path r) "/"))).
Qed.
End Handlers_answer.

(** * The pages of a history *)

(** The documented behaviour of [git rev-list --count] and of [git log] with [--max-count]
    and [--skip] on the commits [history] of a revision (that touch [path], if it is not
    empty): the number of commits, and a part of them, one hash per line. *)
Definition git_history (env : Env) (repoPath revision path : string) (history : list string) : Prop :=
  let files := if decide (path = "") then [] else ["--"; path] in
  (forall h, env _ h (Output repoPath (["git"; "rev-list"; "--count"; revision] ++ files)%list) =
     Ok (FormatUint (Z.of_nat (length history)) +:+ String nl "")) /\
  (forall h n m, 0 <= n < 2 ^ 63 -> 0 <= m < 2 ^ 63 ->
     env _ h (Output repoPath (["git"; "log"; "--pretty=%H"; "--max-count=" +:+ FormatUint m;
                                "--skip=" +:+ FormatUint n; revision] ++ files)%list) =
     Ok (unlines (take (Z.to_nat m) (drop (Z.to_nat n) history)))).

Section History.
Context (env : Env) (repoPath revision path : string) (history : list string) (obj : string -> CommitObj).
Context (Hgit : git_history env repoPath revision path history).
Context (Hhashes : Forall (fun sha => no_space sha = true) history).
Context (Hobj : forall h sha, sha ∈ history -> env _ h (GetCommit sha) = Ok (obj sha)).
Context (Hlen : Z.of_nat (length history) < 2 ^ 63).

Definition show (shas : list string) : list Commit := map (fun sha => GrabCommit (obj sha)) shas.

Lemma CountCommits_run h :
  fst (CountCommits env repoPath revision path h) = Val (FormatUint (Z.of_nat (length history))).
Proof using Hgit.
  destruct Hgit as [Hc _]. unfold CountCommits, git_in, call_res, call. rewrite !run_bind. cbv beta iota zeta.
  specialize (Hc h). cbn [app] in Hc. cbn [app]. rewrite Hc. cbn [of_res lift]. by rewrite TrimSpace_line by auto with go.
Qed.

Lemma CommitHistory_run n m h :
  0 <= n < 2 ^ 63 -> 0 <= m < 2 ^ 63 ->
  fst (CommitHistory env repoPath revision path n m h) = Val (take (Z.to_nat m) (drop (Z.to_nat n) history)).
Proof using Hgit Hhashes.
  intros Hn Hm. destruct Hgit as [_ Hl]. unfold CommitHistory, git_in, history_args, call_res, call.
  rewrite !run_bind. cbv beta iota zeta. specialize (Hl h n m Hn Hm). unfold FormatInt.
  rewrite !decide_False by lia. cbn [app] in Hl. cbn [app]. rewrite Hl. cbn [of_res lift mret GoM_ret fst].
  by rewrite map_TrimSpace_hashes by (by apply Forall_take, Forall_drop).
Qed.

Lemma show_hashes_run shas cs h :
  shas ⊆ history -> fst (show_hashes env shas cs h) = Val (None, cs ++ show shas).
Proof using Hobj.
  revert cs h. induction shas as [|sha shas IH]; intros cs h Hsub; [by rewrite app_nil_r|].
  cbn [show_hashes]. unfold on_error, call_res, call. rewrite !run_bind. cbv beta iota zeta.
  rewrite Hobj by (apply Hsub; left). cbn [of_res lift]. rewrite IH by (intros x Hx; apply Hsub; by right).
  by rewrite <- app_assoc.
Qed.

(** The page from [start] on. *)
Definition page_from (start limit : Z) (countTotal : bool) : res PageResponse * list Commit :=
  let n := Z.of_nat (length history) in
  (Ok (mkPageResponse (if decide (start + limit < n) then Some (UInt64ToBytes (start + limit)) else None)
         (if countTotal then n else 0)),
   show (take (Z.to_nat limit) (drop (Z.to_nat start) history))).

Lemma history_page_run body start limit ct h :
  mb_InitCommitId body = revision -> mb_Path body = path -> 0 <= start < 2 ^ 63 -> 0 <= limit < 2 ^ 63 ->
  fst (history_page env repoPath body (Z.of_nat (length history)) start limit ct h) = Val (page_from start limit ct).
Proof using Hgit Hhashes Hobj.
  intros Hr Hp Hs Hl. unfold history_page, on_error. rewrite !i64_id by (unfold is_i64; lia). rewrite Hr, Hp.
  pose proof (CommitHistory_run start limit h Hs Hl) as Hc.
  destruct (CommitHistory _ _ _ _ _ _ h) as [o h1]. simpl in Hc. subst o. rewrite run_bind.
  pose proof (show_hashes_run (take (Z.to_nat limit) (drop (Z.to_nat start) history)) [] h1) as Hsh.
  destruct (show_hashes _ _ _ h1) as [o h2]. simpl in Hsh. rewrite Hsh.
  - rewrite u64_id by (unfold is_u64; lia). done.
  - intros sha (i & Hi & _)%elem_of_take. rewrite lookup_drop in Hi. by apply (list_elem_of_lookup_2 _ _ _ Hi).
Qed.

(** Where a request wants its page to start: at its key, or else at its offset. *)
Definition asks_for (req : PageRequest) (start : Z) : Prop :=
  match Key req with
  | None => start = Offset req
  | Some k => Offset req = 0 /\ k = UInt64ToBytes start
  end.

Lemma PaginateCommitHistory_run body dflt req start h :
  mb_InitCommitId body = revision -> mb_Path body = path -> mb_Pagination body = Some req ->
  asks_for req start -> 0 <= start < 2 ^ 63 -> 0 < Limit req < 2 ^ 63 ->
  fst (PaginateCommitHistoryResponse env repoPath body dflt h) = Val (page_from start (Limit req) (CountTotal req)).
Proof using Hgit Hhashes Hobj Hlen.
  intros Hr Hp Hreq Ha Hs Hl. unfold PaginateCommitHistoryResponse. rewrite Hreq. cbn [default from_option id].
  assert (Hboth : bool_decide (0 < Offset req) && bool_decide (is_Some (Key req)) = false).
  { unfold asks_for in Ha. destruct (Key req) as [k|]; [|apply andb_false_intro2, bool_decide_eq_false_2; by intros []].
    apply andb_false_intro1, bool_decide_eq_false_2. lia. }
  rewrite Hboth, (decide_False (P := Limit req = 0)) by lia. unfold on_error. rewrite Hr, Hp.
  pose proof (CountCommits_run h) as Hc. destruct (CountCommits _ _ _ _ h) as [o h1]. simpl in Hc. subst o.
  rewrite ParseUint_FormatUint by (unfold is_u64; lia). unfold asks_for in Ha.
  destruct (Key req) as [k|]; [destruct Ha as [_ ->]|subst start].
  - rewrite decide_True by apply key_bytes_UInt64. unfold key_bytes.
    rewrite BytesToUInt64_UInt64ToBytes by (unfold is_u64; lia). rewrite run_lift_bind. apply history_page_run; done || lia.
  - rewrite decide_False by (intros Hk; by apply Hk). apply history_page_run; done || lia.
Qed.
End History.

(** A client that asks for the commits of a revision page by page: it sends back the next
    key of each answer until there is none. *)
Fixpoint read_history (env : Env) (repoPath : string) (request : PageRequest -> CommitsRequestBody) (dflt : Z)
    (fuel : nat) (req : PageRequest) (got : list Commit) : Prog (list Commit) :=
  match fuel with
  | O => fail (ErrNew "more pages")
  | S fuel =>
      '(page, commits) ← PaginateCommitHistoryResponse env repoPath (request req) dflt;
      match page with
      | Er e => fail e
      | Ok page =>
          match NextKey page with
          | None => mret (got ++ commits)%list
          | Some key =>
              read_history env repoPath request dflt fuel
                (mkPageRequest (Some key) 0 (Limit req) (CountTotal req) (Reverse req)) (got ++ commits)%list
          end
      end
  end.

(** C27: the pages of a history are the history. Over a repository whose history does not
    change while it is read, and with git as documented, a client that asks for a first
    page by offset or by key, and then sends back the key of each answer, receives every
    commit from its starting point on (all that touch the path of its request, if it has
    one), each once and in the order of git, and is told to stop: [length / limit + 1]
    requests are enough. *)
Theorem history_walk_complete (env : Env) repoPath revision path history obj dflt id fuel req start h :
  git_history env repoPath revision path history ->
  Forall (fun sha => no_space sha = true) history ->
  (forall h sha, sha ∈ history -> env _ h (GetCommit sha) = Ok (obj sha)) ->
  Z.of_nat (length history) < 2 ^ 63 ->
  asks_for req start -> 0 <= start < 2 ^ 63 -> 0 < Limit req < 2 ^ 63 ->
  Z.of_nat (length history) <= start + Limit req * Z.of_nat fuel -> (0 < fuel)%nat ->
  fst (read_history env repoPath (fun req => mkCommitsRequestBody id revision path (Some req)) dflt fuel req [] h) =
    Val (map (fun sha => GrabCommit (obj sha)) (drop (Z.to_nat start) history)).
Proof.
  intros Hgit Hhashes Hobj Hlen Ha Hs Hl Hf Hpos. rewrite <- (app_nil_l (map _ _)).
  generalize (@nil Commit) as got. revert req start h Ha Hs Hl Hf.
  induction fuel as [|fuel IH]; intros req start h Ha Hs Hl Hf got; [lia|].
  cbn [read_history]. rewrite run_bind.
  set (body := mkCommitsRequestBody id revision path (Some req)).
  pose proof (PaginateCommitHistory_run env repoPath revision path history obj Hgit Hhashes Hobj Hlen body dflt req
                start h eq_refl eq_refl eq_refl Ha Hs Hl) as Hp.
  destruct (PaginateCommitHistoryResponse _ _ _ _ h) as [o h1]. simpl in Hp. subst o.
  unfold page_from. cbn [NextKey]. case_decide as Hmore.
  - destruct fuel as [|fuel]; [lia|]. rewrite (IH ltac:(lia) _ (start + Limit req)) by (done || simpl; lia).
    rewrite <- app_assoc. do 2 f_equal. unfold show. rewrite <- map_app.
    replace (Z.to_nat (start + Limit req)) with (Z.to_nat start + Z.to_nat (Limit req))%nat by lia.
    by rewrite <- drop_drop, take_drop.
  - cbn [mret GoM_ret fst]. do 2 f_equal. unfold show. f_equal. apply take_ge. rewrite length_drop. lia.
Qed.

(** Repository 7 with three commits. *)
Definition demo_commit : CommitObj :=
  mkCommitObj "c1" [] "init" (mkSignature "a" "a@x" "t" 1) (mkSignature "a" "a@x" "t" 1) "t1".
Definition three_commits : list string := ["c1"; "c2"; "c3"].
Definition history_env : Env := fun A h c =>
  match c in Call A return A with
  | Output _ [_; _; _; mc; sk; _] =>
      match ParseUint (TrimPrefix mc "--max-count="), ParseUint (TrimPrefix sk "--skip=") with
      | Ok m, Ok n => Ok (unlines (take (Z.to_nat m) (drop (Z.to_nat n) three_commits)))
      | _, _ => Er (ErrNew "usage")
      end
  | Output _ _ => Ok ("3" +:+ String nl "")
  | GetCommit sha => Ok (mkCommitObj sha [] "init" (mkSignature "a" "a@x" "t" 1) (mkSignature "a" "a@x" "t" 1) "t1")
  | c => quiet c
  end.

Lemma history_walk_complete_witness :
  let obj sha := mkCommitObj sha [] "init" (mkSignature "a" "a@x" "t" 1) (mkSignature "a" "a@x" "t" 1) "t1" in
  fst (read_history history_env "/r/7.git" (fun req => mkCommitsRequestBody 7 "main" "" (Some req)) 100 2
         (mkPageRequest None 0 2 false false) [] []) =
    Val (map (fun sha => GrabCommit (obj sha)) three_commits).
Proof.
  intros obj. apply (history_walk_complete history_env "/r/7.git" "main" "" three_commits obj 100 7 2
    (mkPageRequest None 0 2 false false) 0 []); try done; try lia; try (simpl; lia).
  - split; [done|]. intros h n m Hn Hm. cbn [app history_env]. rewrite !TrimPrefix_app.
    by rewrite !ParseUint_FormatUint by (unfold is_u64; lia).
  - repeat constructor.
Defined.

Example history_by_key :
  fst (PaginateCommitHistoryResponse history_env "/r/7.git"
         (mkCommitsRequestBody 7 "main" "" (Some (mkPageRequest None 0 2 true false))) 100 [])
  = Val (Ok (mkPageResponse (Some (UInt64ToBytes 2)) 3),
         map (fun sha => GrabCommit (mkCommitObj sha [] "init" (mkSignature "a" "a@x" "t" 1) (mkSignature "a" "a@x" "t" 1) "t1"))
           ["c1"; "c2"]).
Proof. vm_compute. reflexivity. Qed.

(** * Branch names with slashes *)
(** A text that does not start with a slash. *)
Definition relative (s : string) : Prop := s <> ""%string /\ HasPrefix s "/" = false.

Lemma relative_app s t : relative s -> relative (s +:+ t).
Proof. intros [Hs Hp]. destruct s as [|c s]; [done|]. split; [done|].
  unfold HasPrefix in *. cbn [String.prefix String.append] in *. destruct (ascii_dec _ _); [by destruct s|done].
Qed.

Section Branches.
Context (env : Env) (id repoName : string) (found : string -> bool).
Context (Hfound : forall h b, is_ok (env _ h (QRepositoryBranch id repoName b)) = found b).

Lemma branchExists_steady b h : fst (branchExists env id repoName b h) = Val (found b).
Proof using Hfound.
  unfold branchExists, getBranch, attempt, call_res, call. rewrite !run_bind. cbv beta iota zeta.
  rewrite <- (Hfound h b). by destruct (env _ h _).
Qed.

(** The first of the prefixes with [n], [n + 1], ... parts that is a branch, with the
    rest of the path. *)
Definition first_branch (parts : list string) (n : nat) : string * string :=
  match list_find (fun n => found (Join (take n parts) "/") = true) (seq n (length parts - (n - 1))) with
  | Some (_, n) => (Join (take n parts) "/", Join (drop n parts) "/")
  | None => ("", "")
  end%string.

Lemma branch_loop_spec pre parts h :
  pre <> [] -> relative (Join pre "/") ->
  fst (branch_loop env id repoName (Join pre "/") parts h) = Val (first_branch (pre ++ parts) (S (length pre))).
Proof using Hfound.
  revert pre h. induction parts as [|part parts IH]; intros pre h Hne Hr; unfold first_branch.
  { rewrite app_nil_r. replace (_ - _)%nat with 0%nat by lia. done. }
  cbn [branch_loop]. set (b := TrimPrefix _ _).
  assert (Hb : b = Join (pre ++ [part]) "/").
  { unfold b, TrimPrefix. rewrite Join_snoc by done.
    by destruct (relative_app _ ("/" +:+ part) Hr) as [_ ->]. }
  rewrite run_bind. pose proof (branchExists_steady b h) as Hs.
  destruct (branchExists _ _ _ b h) as [o h1]. simpl in Hs. subst o.
  assert (Hlen : (length (pre ++ part :: parts) - (S (length pre) - 1) = S (length parts))%nat).
  { rewrite length_app. simpl. lia. }
  rewrite Hlen. cbn [seq list_find].
  assert (Hsplit : take (S (length pre)) (pre ++ part :: parts) = pre ++ [part] /\
                   drop (S (length pre)) (pre ++ part :: parts) = parts).
  { replace (S (length pre)) with (length (pre ++ [part])) by (rewrite length_app; simpl; lia).
    change (part :: parts) with ([part] ++ parts). rewrite (app_assoc pre [part] parts).
    by rewrite take_app_length, drop_app_length. }
  destruct Hsplit as [Htake Hdrop].
  rewrite Htake, <- Hb. destruct (decide (found b = true)) as [Hf|Hf].
  - rewrite Hf. cbv beta iota zeta. by rewrite Htake, Hdrop, <- Hb.
  - destruct (found b); [done|]. rewrite Hb, IH.
    + unfold first_branch. rewrite <- app_assoc. cbn [app].
      replace (length (pre ++ [part])) with (S (length pre)) by (rewrite length_app; simpl; lia).
      replace (length (pre ++ part :: parts) - (S (S (length pre)) - 1))%nat with (length parts)
        by (rewrite length_app; simpl; lia).
      by destruct (list_find _ _) as [[]|].
    + by destruct pre.
    + rewrite Join_snoc by done. by apply relative_app.
Qed.

(** The branch of a raw file is the shortest one. With a chain that answers, the
    branch of a path [part/...] is the shortest prefix of its parts that names a branch,
    and the file is named by the remaining parts; without such a prefix both are empty. *)
Theorem shortest_branch part parts h :
  relative part ->
  fst (getBranchNameAndTreePathFromPath env id repoName (part :: parts) h) = Val (first_branch (part :: parts) 1).
Proof using Hfound.
  intros Hr. unfold getBranchNameAndTreePathFromPath. cbn [branch_loop].
  change ("" +:+ "/" +:+ part)%string with ("/" +:+ part)%string. rewrite TrimPrefix_app, run_bind.
  pose proof (branchExists_steady part h) as Hs.
  destruct (branchExists _ _ _ part h) as [o h1]. simpl in Hs. subst o.
  unfold first_branch. change (length (part :: parts) - (1 - 1))%nat with (S (length parts)).
  cbn [seq list_find take Join]. rewrite take_0. cbn [Join].
  destruct (decide (found part = true)) as [Hf|Hf]; [by rewrite Hf|].
  destruct (found part); [done|].
  pose proof (branch_loop_spec [part] parts h1 ltac:(done) Hr) as HL. cbn [Join] in HL. rewrite HL.
  unfold first_branch. cbn [app length]. replace (S (length parts) - (2 - 1))%nat with (length parts) by lia.
  by destruct (list_find _ _) as [[]|].
Qed.
End Branches.

(** Repository [alice/r] with the branches [main] and [dev/x]. *)
Definition branch_env : Env := fun A h c =>
  match c in Call A return A with
  | QRepositoryBranch _ _ b =>
      if decide (b = "main" \/ b = "dev/x")%string then Ok (mkBranch b "c1" false 7) else Er (ErrNew "not found")
  | c => quiet c
  end.

Lemma shortest_branch_witness :
  fst (getBranchNameAndTreePathFromPath branch_env "alice" "r" ["dev"; "x"; "src"; "a.go"] []) =
    Val (first_branch (fun b => bool_decide (b = "main" \/ b = "dev/x")) ["dev"; "x"; "src"; "a.go"] 1).
Proof.
  apply (shortest_branch branch_env "alice" "r" (fun b => bool_decide (b = "main" \/ b = "dev/x"))).
  - intros h b. cbn [branch_env]. case_decide as Hb; [by rewrite bool_decide_eq_true_2|by rewrite bool_decide_eq_false_2].
  - by split.
Defined.

Example dev_x_branch :
  fst (getBranchNameAndTreePathFromPath branch_env "alice" "r" ["dev"; "x"; "src"; "a.go"] []) =
    Val ("dev/x", "src/a.go").
Proof. reflexivity. Qed.

(** * Ranges of lines *)

(** The lines of a text from [from] on and before [to], counted from one. *)
Definition lines_before (text : string) (from to : Z) : string :=
  let lines := Split text (String nl EmptyString) in
  Join (take (Z.to_nat (to `min` Z.of_nat (length lines) - from)) (drop (Z.to_nat (from - 1)) lines)) (String nl EmptyString).

Definition line_count (text : string) : Z := Z.of_nat (length (Split text (String nl EmptyString))).

Lemma line_range_spec text from to :
  0 < from -> 0 < to -> is_u64 from -> is_u64 to -> line_count text < 2 ^ 63 ->
  line_range text from to =
    if decide (from <= to `min` line_count text) then Val (lines_before text from to)
    else Panic "slice bounds out of range".
Proof.
  intros Hf Ht Huf Hut Hn. unfold is_u64 in Huf, Hut. unfold line_range, lines_before, line_count in *.
  set (lines := Split _ _) in *. set (n := Z.of_nat (length lines)) in *.
  assert (Hto : (if decide (n < to) then n else to) = to `min` n) by (case_decide; lia). rewrite Hto. clear Hto.
  assert (Hpos : 1 <= n).
  { unfold n, lines. pose proof (split_go_ne (String nl EmptyString) text 0) as Hne. unfold Split.
    destruct (split_go _ _ _); simpl; [done|lia]. }
  rewrite !u64_id by (unfold is_u64; lia).
  repeat case_decide; try lia; [|done].
  replace (_ `min` n - 1 - (from - 1)) with (to `min` n - from) by lia. done.
Qed.

(** The text that a request is shown of a file: a file of a million bytes or more is not
    read unless the request lifts the restriction. *)
Definition reads_file (body : ContentRequestBody) (size : Z) : bool :=
  bool_decide (size < 1000000) || cb_NoRestriction body.
Definition shown_text (body : ContentRequestBody) (size : Z) (data : string) : string :=
  if reads_file body size then data else "".

(** The last commit is asked for, and git and the object store have it. *)
Definition last_commit_is (env : Env) (body : ContentRequestBody) (repoPath out : string) (obj : CommitObj) : Prop :=
  cb_IncludeLastCommit body = true ->
  (forall h, env _ h (Output repoPath ["git"; "log"; "--pretty=%H"; "--max-count=1"; cb_RefId body; "--"; cb_Path body])
     = Ok out) /\ forall h, env _ h (GetCommit (TrimSpace out)) = Ok obj.

(** The run ends with the content [text], of [n] bytes, as its answer. *)
Definition answers_content (body : ContentRequestBody) (entry : TreeEntry) (size : Z) (obj : CommitObj)
    (run : outcome unit * Trace) (text : string) (n : Z) : Prop :=
  fst run = Val tt /\
  exists written, list.last (snd run) = Some (Did (WriteJson (content_response
    [(mkContent (te_Name entry) (cb_Path body) (te_Hash entry) "BLOB" n (base64_encode text)
        (if reads_file body size then "base64" else ""),
      if cb_IncludeLastCommit body then Some (GrabCommit obj) else None)] None)) written).

Lemma shown_content env body repoPath entry size out obj text n h :
  cb_Path body <> "" -> last_commit_is env body repoPath out obj ->
  answers_content body entry size obj
    (with_last_commits env repoPath body [mkContent (te_Name entry) (cb_Path body) (te_Hash entry) "BLOB" n
        (base64_encode text) (if reads_file body size then "base64" else "")] []
      (fun fileContent => write_json env (content_response fileContent None)) h) text n.
Proof.
  intros Hpath Hlast. unfold answers_content, with_last_commits, write_json, call.
  destruct (cb_IncludeLastCommit body) eqn:E; cbn [negb].
  - destruct (Hlast E) as [Hout Hobj]. unfold or_http, on_error, LastCommitForPath, call_res, call.
    cbn [c_Path]. rewrite (decide_False (P := cb_Path body = "")) by done.
    rewrite !run_bind. cbv beta iota zeta. cbn [app]. rewrite Hout. cbn [of_res lift mret GoM_ret].
    rewrite !run_bind. cbv beta iota zeta. rewrite Hobj. cbn [of_res lift]. rewrite run_bind. cbn.
    split; [done|]. eexists. by rewrite list.last_snoc.
  - rewrite run_bind. cbn. split; [done|]. eexists. by rewrite list.last_snoc.
Qed.


(** A file of three lines. *)
Definition three_lines : string :=
  ("one" +:+ String nl ("two" +:+ String nl "three"))%string.
Definition file_env : Env := fun A h c =>
  match c in Call A return A with
  | GetBlob _ => Ok 13 | ReadAll => (three_lines, None) | c => quiet c
  end.
Definition range_request (from to : Z) : ContentRequestBody :=
  mkContentRequestBody 7 "c1" "a.txt" false from to None false.


Example first_to_third : lines_before three_lines 1 3 = ("one" +:+ String nl "two")%string.
Proof. reflexivity. Qed.
Example first_to_first : lines_before three_lines 1 1 = ""%string.
Proof. reflexivity. Qed.
Example beyond_the_end :
  fst (file_content file_env (range_request 9 9) "/r/7.git" (mkTreeEntry "a.txt" "b1" true) [])
  = Panic "slice bounds out of range".
Proof. vm_compute. reflexivity. Qed.

(** * Answers after an error

    commits.go and the diffs lack a [return] after the error of a listing: where git
    cannot count the commits, an error and a listing are both written. *)
Theorem list_commits_answers_twice (env : Env) body repoPath h :
  (forall h args, exists e, env _ h (Output repoPath args) = Er e) ->
  mb_Path body = ""%string -> (forall p, mb_Pagination body = Some p -> Key p = None) ->
  let run := list_commits env body repoPath h in
  fst run = Val tt /\ answered (snd run) = S (S (answered h)).
Proof.
  intros Hgit Hpath Hkey. unfold list_commits, path_exists, json_headers. rewrite Hpath.
  rewrite decide_True by done. unfold call. rewrite !run_bind. cbv beta iota zeta.
  set (h1 := (h ++ _) ++ _). rewrite ?run_bind.
  assert (Hp : exists e h2, PaginateCommitHistoryResponse env repoPath body 100 h1 = (Val (Er e, []), h2) /\
                 answered h2 = answered h1).
  { unfold PaginateCommitHistoryResponse.
    assert (Hk : Key (default zero_PageRequest (mb_Pagination body)) = None).
    { destruct (mb_Pagination body) as [p|] eqn:E; [by apply Hkey|done]. }
    rewrite Hk. rewrite (bool_decide_eq_false_2 (is_Some None)) by by intros []. rewrite andb_false_r.
    unfold on_error, CountCommits, git_in, call_res, call. rewrite !run_bind. cbv beta iota zeta.
    match goal with |- context[env _ h1 (Output repoPath ?a)] => destruct (Hgit h1 a) as [e He] end.
    rewrite He. eexists e, _. split; [done|]. rewrite answered_snoc. simpl. lia. }
  destruct Hp as (e & h2 & -> & Hh2). cbv beta iota zeta. unfold write_json, call. rewrite !run_bind.
  cbv beta iota zeta. split; [done|]. unfold mret, GoM_ret. rewrite run_bind. cbn [snd].
  rewrite !answered_snoc, Hh2.
  unfold h1. rewrite !answered_snoc. simpl. lia.
Qed.

(** * Locks *)
Section Handlers_balanced.
Context (env : Env) (viper : string -> string) (fuel : nat).

Lemma collected_balanced {C A} (m : GoM (list C) A) : balanced (collected m).
Proof. intros h k. unfold collected. by destruct (m []) as [[a|e|p] cs]. Qed.
Lemma in_cached_repo_balanced id k : balanced k -> balanced (in_cached_repo env viper fuel id k).
Proof.
  intros Hk. apply with_rlock_balanced. unfold or_http, http_status. balance; auto.
Qed.
#[local] Hint Resolve collected_balanced in_cached_repo_balanced : go.

Lemma with_last_commits_balanced repoPath body contents acc k :
  (forall cs, balanced (k cs)) -> balanced (with_last_commits env repoPath body contents acc k).
Proof.
  intros Hk. revert acc. induction contents as [|c contents IH]; intros acc; simpl; [done|].
  unfold or_http, LastCommitForPath. balance; auto.
  all: apply balanced_preserves; auto.
Qed.

Lemma content_at_balanced body repoPath : balanced (content_at env body repoPath).
Proof.
  assert (Ht : forall tree, balanced (tree_content env body repoPath tree)).
  { intros tree. unfold tree_content, write_json. balance.
    apply balanced_preserves, with_last_commits_balanced. intros cs. balance. }
  assert (Hf : forall e, balanced (file_content env body repoPath e)).
  { intros e. unfold file_content, GrabFileContent, or_http, write_json. balance.
    apply balanced_preserves, with_last_commits_balanced. intros cs. balance. }
  unfold content_at, or_http, http_status, json_headers. balance.
Qed.

Lemma ContentHandler_balanced r : balanced (ContentHandler env viper fuel r).
Proof.
  pose proof content_at_balanced. unfold ContentHandler, http_status. balance.
Qed.

Lemma branch_loop_balanced id name b parts : balanced (branch_loop env id name b parts).
Proof.
  revert b. induction parts as [|part parts IH]; intros b; simpl; [balance|].
  specialize (IH (TrimPrefix (b +:+ "/" +:+ part)%string "/")). unfold branchExists, getBranch. balance.
Qed.
#[local] Hint Resolve branch_loop_balanced : go.

Lemma GetRawFileHandler_balanced r : balanced (GetRawFileHandler env viper fuel r).
Proof.
  assert (Hf : forall sha p, balanced (raw_file env sha p)).
  { intros. unfold raw_file, or_http, http_status. balance. }
  unfold GetRawFileHandler, getBranchNameAndTreePathFromPath, getBranch, or_http, http_status. balance.
Qed.

Lemma show_hashes_balanced hashes cs : balanced (show_hashes env hashes cs).
Proof.
  revert cs. induction hashes as [|x hashes IH]; intros cs; simpl; [balance|].
  balance.
Qed.
Lemma history_page_balanced repoPath body count start limit b :
  balanced (history_page env repoPath body count start limit b).
Proof. pose proof show_hashes_balanced. unfold history_page, CommitHistory, git_in. balance. Qed.
#[local] Hint Resolve history_page_balanced : go.

Lemma CommitsHandler_balanced r : balanced (CommitsHandler env viper fuel r).
Proof.
  assert (Hp : forall p b l, balanced (PaginateCommitHistoryResponse env p b l)).
  { intros. unfold PaginateCommitHistoryResponse, CountCommits, git_in. balance. }
  assert (Hl : forall b p, balanced (list_commits env b p)).
  { intros. unfold list_commits, path_exists, or_http, json_headers, write_json. balance. }
  assert (Ho : forall id sha, balanced (one_commit env viper id sha)).
  { intros. unfold one_commit, or_http, json_headers, write_json, http_status. balance. }
  unfold CommitsHandler, http_status. balance.
Qed.

Lemma show_changes_balanced changes b p : balanced (show_changes env changes b p).
Proof. unfold show_changes, json_headers, write_json. balance. Qed.
#[local] Hint Resolve show_changes_balanced : go.

Lemma CommitDiffHandler_balanced r : balanced (CommitDiffHandler env viper fuel r).
Proof.
  assert (Hp : forall body c k, (forall t, balanced (k t)) -> balanced (previous_tree env body c k)).
  { intros body c k Hk. unfold previous_tree, or_http. balance; auto. all: by apply balanced_preserves. }
  assert (Hd : forall body, balanced (diff_at env body)).
  { intros body. unfold diff_at, or_http, http_status. balance.
    all: apply balanced_preserves, Hp; intros t; unfold or_http; balance. }
  unfold CommitDiffHandler, http_status. balance.
Qed.
End Handlers_balanced.

#[export] Hint Resolve in_cached_repo_balanced show_changes_balanced ContentHandler_balanced
  GetRawFileHandler_balanced CommitsHandler_balanced CommitDiffHandler_balanced : go.

(** * What a reader may do

    The calls that change what others see: messages to the chain, pins, requests to the
    external providers, removals of files, the table of uploads. Removals of directories
    ([RemoveAll]) are looked at one by one: a reader may remove what it made. *)
Definition mutates {A} (c : Call A) : bool :=
  match c with
  | AddToBatch _ | ClusterAdd _ | ClusterPin _ _ | ClusterUnpin _ | ProviderPin _ _ _ | ProviderUnpin _ _
  | ClientDo _ _ _ | PutObject _ _ _ | DeleteObject _ _
  | Remove _ | PendingPut _ _ | PendingDelete _ => true
  | _ => false
  end.
Definition change (o : Obs) : bool := match o with @Did _ c _ => mutates c end.
Definition changes (h : Trace) : list Obs := filter (fun o => change o = true) h.

Lemma keeps_changes l {A} (c : Call A) : mutates c = false -> keeps (fun h => changes h = l) c.
Proof.
  intros Hc h a <-. unfold changes. rewrite list.filter_app, list.filter_cons_False; [apply app_nil_r|].
  simpl. by rewrite Hc.
Qed.

(** Neither changes nor directories made or removed. *)
Definition reader_call : CallSet := fun A c =>
  negb (mutates c) && match c with MkdirTemp | RemoveAll _ => false | _ => true end.

Lemma only_weaken (ok ok' : CallSet) {A} (m : Prog A) :
  only ok m -> (forall B (c : Call B), ok B c = true -> ok' B c = true) -> only ok' m.
Proof. intros Hm Hok I HI. apply Hm. auto. Qed.

Section Readers.
Context (env : Env) (viper : string -> string) (fuel : nat).

Lemma CacheRepository_reads id dir : only reader_call (CacheRepository env viper fuel id dir).
Proof. eapply only_weaken; [apply CacheRepository_calls|]. by intros B []. Qed.
#[local] Hint Resolve CacheRepository_reads : go.

Lemma collected_reads {C A} (m : GoM (list C) A) : only reader_call (collected m).
Proof. intros I HI h Hh. unfold collected. by destruct (m []) as [[a|e|p] cs]. Qed.
Lemma in_cached_repo_reads id k : only reader_call k -> only reader_call (in_cached_repo env viper fuel id k).
Proof. intros Hk. unfold in_cached_repo, with_rlock, or_http, http_status. only_calls. by apply Hk. Qed.
#[local] Hint Resolve collected_reads in_cached_repo_reads : go.

Lemma with_last_commits_reads repoPath body contents acc k :
  (forall cs, only reader_call (k cs)) -> only reader_call (with_last_commits env repoPath body contents acc k).
Proof.
  intros Hk. revert acc. induction contents as [|c contents IH]; intros acc; simpl; [done|].
  unfold or_http, LastCommitForPath. only_calls; by apply IH.
Qed.

Lemma content_at_reads body repoPath : only reader_call (content_at env body repoPath).
Proof.
  assert (Ht : forall tree, only reader_call (tree_content env body repoPath tree)).
  { intros tree. unfold tree_content, write_json. only_calls.
    apply with_last_commits_reads; [|done]. intros cs. only_calls. }
  assert (Hf : forall e, only reader_call (file_content env body repoPath e)).
  { intros e. unfold file_content, GrabFileContent, or_http, write_json. only_calls.
    all: apply with_last_commits_reads; [|done]; intros cs; only_calls. }
  unfold content_at, or_http, http_status, json_headers. only_calls.
Qed.
#[local] Hint Resolve content_at_reads : go.

Lemma ContentHandler_reads r : only reader_call (ContentHandler env viper fuel r).
Proof. unfold ContentHandler, http_status. only_calls. Qed.

Lemma branch_loop_reads id name b parts : only reader_call (branch_loop env id name b parts).
Proof.
  revert b. induction parts as [|part parts IH]; intros b; simpl; [only_calls|].
  unfold branchExists, getBranch. only_calls.
Qed.
#[local] Hint Resolve branch_loop_reads : go.

Lemma GetRawFileHandler_reads r : only reader_call (GetRawFileHandler env viper fuel r).
Proof.
  assert (Hf : forall sha p, only reader_call (raw_file env sha p)).
  { intros. unfold raw_file, or_http, http_status. only_calls. }
  unfold GetRawFileHandler, getBranchNameAndTreePathFromPath, getBranch, or_http, http_status. only_calls.
Qed.

Lemma show_hashes_reads hashes cs : only reader_call (show_hashes env hashes cs).
Proof. revert cs. induction hashes as [|x hashes IH]; intros cs; simpl; only_calls. Qed.
#[local] Hint Resolve show_hashes_reads : go.
Lemma history_page_reads repoPath body count start limit b :
  only reader_call (history_page env repoPath body count start limit b).
Proof. unfold history_page, CommitHistory, git_in. only_calls. Qed.
#[local] Hint Resolve history_page_reads : go.

Lemma CommitsHandler_reads r : only reader_call (CommitsHandler env viper fuel r).
Proof.
  assert (Hp : forall p b l, only reader_call (PaginateCommitHistoryResponse env p b l)).
  { intros. unfold PaginateCommitHistoryResponse, CountCommits, git_in. only_calls. }
  assert (Hl : forall b p, only reader_call (list_commits env b p)).
  { intros. unfold list_commits, path_exists, or_http, json_headers, write_json. only_calls. }
  assert (Ho : forall id sha, only reader_call (one_commit env viper id sha)).
  { intros. unfold one_commit, or_http, json_headers, write_json, http_status. only_calls. }
  unfold CommitsHandler, http_status. only_calls.
Qed.

Lemma show_changes_reads cs b p : only reader_call (show_changes env cs b p).
Proof. unfold show_changes, json_headers, write_json. only_calls. Qed.
#[local] Hint Resolve show_changes_reads : go.

Lemma CommitDiffHandler_reads r : only reader_call (CommitDiffHandler env viper fuel r).
Proof.
  assert (Hp : forall body c k, (forall t, only reader_call (k t)) -> only reader_call (previous_tree env body c k)).
  { intros body c k Hk. unfold previous_tree, or_http. only_calls; by apply Hk. }
  assert (Hd : forall body, only reader_call (diff_at env body)).
  { intros body. unfold diff_at, or_http, http_status. only_calls.
    all: apply Hp; [|done]; intros t; unfold or_http; only_calls. }
  unfold CommitDiffHandler, http_status. only_calls.
Qed.
End Readers.

#[export] Hint Resolve CacheRepository_reads collected_reads in_cached_repo_reads show_changes_reads
  ContentHandler_reads GetRawFileHandler_reads CommitsHandler_reads CommitDiffHandler_reads : go.
