(* ===== verification/PullHandlers.v ===== *)
(** The handlers that show a pull request (internal/app/handler/pr): whether it can be
    merged, its commits and its differences. They work in a temporary repository that
    borrows the objects of the base and the head repository (Merge), and remove it. Where
    the temporary directory of the differences cannot be made, Go ends the process
    ([log.Fatal], without running deferred functions); the model panics, and so runs them. *)

From S2P Require Import Prelude GoInt GoStrings GoPath Pagination StorageFee Merkle World ChainClient Cache Auth Merge RepoHandlers.

#[local] Open Scope string_scope.

Section PullHandlers.
Context (env : Env) (viper : string -> string) (fuel : nat).
#[local] Notation "x ⟵ m 'orHttp' code ; k" := (or_http env code m (fun x => k))
  (at level 20, m at level 100, code at level 100, k at level 200, right associativity).

(** The repositories of the request are read-locked and cached, the head repository only
    if it is another one. *)
Definition in_cached_repos (base head : Z) (k : Prog unit) : Prog unit :=
  let cacheDir := viper "GIT_REPOS_DIR" in
  with_rlock env (RepoKey base)
    (_ ⟵ CacheRepository env viper fuel base cacheDir orHttp 500;
     if decide (head = base) then k else
     with_rlock env (RepoKey head)
       (_ ⟵ CacheRepository env viper fuel head cacheDir orHttp 500; k)).

(** [defer os.RemoveAll(path)]. *)
Definition removing {A} (path : string) (m : Prog A) : Prog A :=
  deferring (_ ← call env (RemoveAll path); mret tt) m.

(** ** check.go *)
Definition check_response (mergeable : bool) (error : string) : json :=
  JObj [("data", JObj [("is_mergeable", JBool mergeable)]); ("error", JStr error)].
Definition check_error (error : string) (code : Z) : Prog unit :=
  call env (HttpErrorJson (check_response false error) code).

(** The ends of the pull request, as [RunMergeCommand] names them. *)
Definition pr_of (body : PullRequestMergePostBody) : PullRequest :=
  mkPullRequest 0 "" (pm_HeadRepositoryID body) (pm_HeadBranch body) (pm_BaseRepositoryID body)
    (pm_BaseBranch body) "".

Definition check_in (body : PullRequestMergePostBody) (quarantineRepoPath : string) : Prog unit :=
  '(out, err) ← call env (OutputIn quarantineRepoPath [] ["git"; "read-tree"; "HEAD"]);
  match err with
  | Some e => check_error ("Unable to read base branch in to the index: " +:+ Error e +:+ String nl "" +:+
                             out +:+ String nl "") 500
  | None =>
      commitTimeStr ← call env TimeNow;
      let vars := ["GIT_AUTHOR_NAME=" +:+ pm_UserName body; "GIT_AUTHOR_EMAIL=" +:+ pm_UserEmail body;
                   "GIT_AUTHOR_DATE=" +:+ commitTimeStr; "GIT_COMMITTER_NAME=" +:+ pm_UserName body;
                   "GIT_COMMITTER_EMAIL=" +:+ pm_UserEmail body; "GIT_COMMITTER_DATE=" +:+ commitTimeStr] in
      on_error (RunMergeCommand env (pr_of body) vars
                  ["git"; "merge"; "--no-ff"; "--no-commit"; "tracking"] quarantineRepoPath)
        (fun e => check_error (Error e) 500)
        (fun _ => _ ← call env (EncodeJson (check_response true "")); mret tt)
  end.

Definition PullRequestCheckHandler (r : HttpRequest) : Prog unit :=
  if decide (r_Method r <> "POST") then mret tt else
  body ⟵ call_res env DecodePullCheckRequest ifErr check_error (StatusText 400) 400;
  in_cached_repos (pm_BaseRepositoryID body) (pm_HeadRepositoryID body)
    (quarantineRepoPath ⟵ CreateQuarantineRepo env viper (pm_BaseRepositoryID body) (pm_HeadRepositoryID body)
                             (pm_BaseBranch body) (pm_HeadBranch body)
       ifErr check_error (StatusText 500) 500;
     removing quarantineRepoPath (check_in body quarantineRepoPath)).

(** ** commits.go *)
Definition rev_list (body : PullRequestCommitsPostBody) : list string :=
  if decide (pc_BaseCommitSha body = "")
  then ["git"; "rev-list"; "head_repo/" +:+ pc_HeadBranch body; "^origin/" +:+ pc_BaseBranch body]
  else ["git"; "rev-list"; pc_HeadCommitSha body; "^" +:+ pc_BaseCommitSha body].

Definition commits_in (body : PullRequestCommitsPostBody) (quarantineRepoPath : string) : Prog unit :=
  out ⟵ call_res env (Output quarantineRepoPath (rev_list body)) ifErr http_status env 500;
  let logs := TrimSpace out in
  _ ← call env (EncodeJson (JArr (if decide (logs = "") then []
                                  else map JStr (Split logs (String nl "")))));
  mret tt.

Definition PullRequestCommitsHandler (r : HttpRequest) : Prog unit :=
  if decide (r_Method r <> "POST") then mret tt else
  body ⟵ call_res env DecodePullCommitsRequest ifErr http_status env 400;
  in_cached_repos (pc_BaseRepositoryID body) (pc_HeadRepositoryID body)
    (quarantineRepoPath ⟵ CreateQuarantineRepo env viper (pc_BaseRepositoryID body) (pc_HeadRepositoryID body)
                             (pc_BaseBranch body) (pc_HeadBranch body)
       ifErr http_status env 500;
     removing quarantineRepoPath (commits_in body quarantineRepoPath)).

(** ** diff.go *)

(** The merge base is looked up with the line break that git prints after it. *)
Definition pull_diff_in (body : PullDiffRequestBody) (qpath : string) : Prog unit :=
  mergeBase ⟵ call_res env (Output "" ["git"; "-C"; qpath; "merge-base"; "--";
                                       pd_HeadCommitSha body; pd_BaseCommitSha body])
    ifErr http_status env 500;
  if decide (mergeBase = "") then http_status env 500 else
  _ ⟵ call_res env (PlainOpen qpath) ifErr http_status env 404;
  headCommit ⟵ call_res env (GetCommit (pd_HeadCommitSha body)) orHttp 404;
  baseCommit ⟵ call_res env (GetCommit mergeBase) orHttp 404;
  _ ⟵ call_res env (GetTree (co_Tree headCommit)) orHttp 404;
  _ ⟵ call_res env (GetTree (co_Tree baseCommit)) orHttp 404;
  changes ⟵ call_res env (DiffTrees (Some (co_Tree baseCommit)) (co_Tree headCommit))
    ifErr call env (WriteHeader 400);
  show_changes env changes (pd_OnlyStat body) (pd_Pagination body).

Definition PullDiffHandler (r : HttpRequest) : Prog unit :=
  if decide (r_Method r <> "POST") then mret tt else
  body ⟵ call_res env DecodePullDiffRequest ifErr http_status env 400;
  if decide (pd_HeadCommitSha body = "" \/ pd_BaseCommitSha body = "") then http_status env 400 else
  in_cached_repos (pd_BaseRepositoryID body) (pd_HeadRepositoryID body)
    (qpath ⟵ CreateReadOnlyQuarantineRepo env viper (pd_BaseRepositoryID body) (pd_HeadRepositoryID body)
       ifErr http_status env 400;
     removing qpath (pull_diff_in body qpath)).
End PullHandlers.

#[local] Close Scope string_scope.

(** * Nothing is left behind *)
Section Clean.
Context (env : Env) (viper : string -> string) (fuel : nat).

(** Neither messages nor pins nor removals of files. *)
Definition changeless {A} (m : Prog A) : Prop := forall l, preserves (fun h => changes h = l) m.

Lemma reads_changeless {A} (m : Prog A) : only reader_call m -> changeless m.
Proof.
  intros Hm l. apply Hm. intros B c Hc. apply keeps_changes. apply andb_prop in Hc as [Hc _].
  by destruct (mutates c).
Qed.

Lemma reads_tidy {A} (m : Prog A) : only reader_call m -> tidy m.
Proof.
  intros Hm D. apply Hm. intros B c Hc. apply keeps_within. apply andb_prop in Hc as [_ Hc].
  by destruct c.
Qed.

(** What the quarantine of a handler needs of the function that makes it. *)
Definition makes_quarantine (m : Prog string) : Prop := forall D h,
  within D h -> match m h with (Val p, h') => within (p :: D) h' | (_, h') => within D h' end.

Lemma CreateQuarantineRepo_makes base head bb hb :
  makes_quarantine (CreateQuarantineRepo env viper base head bb hb).
Proof.
  intros D h Hh. pose proof (CreateQuarantineRepo_within env viper base head bb hb D h Hh) as H.
  by destruct (CreateQuarantineRepo _ _ _ _ _ _ h) as [[p|e|s] h1].
Qed.

Lemma fill_read_only_discards p base head : discards p (fill_read_only env viper p base head).
Proof.
  unfold fill_read_only.
  repeat first [ simple apply discards_or_discard | simple apply discards_bind; [|intros ?] ];
    first [intros D; apply addCacheRepo_quiet | apply addCacheRepo_safe | solve [intros D; within_step] | safe_step].
Qed.

Lemma CreateReadOnlyQuarantineRepo_makes base head :
  makes_quarantine (CreateReadOnlyQuarantineRepo env viper base head).
Proof.
  intros D h Hh. unfold CreateReadOnlyQuarantineRepo, on_error, call_res, call.
  rewrite run_bind. cbv beta iota zeta. set (r := env _ h MkdirTemp).
  assert (H1 : within (match r with Ok p => p :: D | Er _ => D end) (h ++ [Did MkdirTemp r])).
  { unfold within in *. rewrite temp_dirs_snoc. simpl. destruct r; set_solver. }
  revert H1. generalize (h ++ [Did MkdirTemp r]). intros h1 H1.
  destruct r as [p|e]; cbn [of_res lift]; [|exact H1]. rewrite run_bind.
  pose proof (fill_read_only_discards p base head D h1 H1) as Hd.
  by destruct (fill_read_only _ _ _ _ _ h1) as [[[]|e|q] h2].
Qed.

(** [q, err := create(); if err != nil { bad; return }; defer os.RemoveAll(q); body]. *)
Lemma quarantined_tidy create (bad : Prog unit) (body : string -> Prog unit) :
  makes_quarantine create -> tidy bad -> (forall q, tidy (body q)) ->
  tidy (q ⟵ create ifErr bad; removing env q (body q)).
Proof.
  intros Hc Hb Hbody D h Hh. unfold on_error. specialize (Hc D h Hh).
  destruct (create h) as [[q|e|s] h1]; simpl; [|by apply Hb|done].
  apply deferring_removal; [apply Hbody|done].
Qed.

Lemma with_rlock_tidy {A} k (body : Prog A) : tidy body -> tidy (with_rlock env k body).
Proof.
  intros Hb D. apply preserves_bind; [by apply preserves_call, keeps_within|]. intros _.
  apply preserves_deferring; [by apply preserves_call, keeps_within|apply Hb].
Qed.

Lemma in_cached_repos_tidy base head k : tidy k -> tidy (in_cached_repos env viper fuel base head k).
Proof.
  intros Hk. pose proof (CacheRepository_within env viper fuel) as Hc.
  apply with_rlock_tidy. intros D. apply preserves_on_error; [apply Hc|intros; by apply preserves_call, keeps_within|].
  intros _. case_decide; [apply Hk|]. revert D. apply with_rlock_tidy. intros D.
  apply preserves_on_error; [apply Hc|intros; by apply preserves_call, keeps_within|]. intros _. apply Hk.
Qed.

Lemma check_in_tidy body q : tidy (check_in env body q).
Proof. intros D. unfold check_in, check_error, RunMergeCommand, file_exists. within_step. Qed.
Lemma commits_in_tidy body q : tidy (commits_in env body q).
Proof. intros D. unfold commits_in, http_status. within_step. Qed.
Lemma pull_diff_in_reads body q : only reader_call (pull_diff_in env body q).
Proof. unfold pull_diff_in, or_http, http_status. only_calls. Qed.

Lemma PullRequestCheckHandler_tidy r : tidy (PullRequestCheckHandler env viper fuel r).
Proof.
  unfold PullRequestCheckHandler. case_decide; [intros D; apply preserves_ret|].
  intros D. apply preserves_on_error; [within_step|intros; within_step|]. intros body. revert D.
  apply in_cached_repos_tidy, quarantined_tidy; [apply CreateQuarantineRepo_makes|intros D; within_step|].
  apply check_in_tidy.
Qed.
Lemma PullRequestCommitsHandler_tidy r : tidy (PullRequestCommitsHandler env viper fuel r).
Proof.
  unfold PullRequestCommitsHandler. case_decide; [intros D; apply preserves_ret|].
  intros D. apply preserves_on_error; [within_step|intros; within_step|]. intros body. revert D.
  apply in_cached_repos_tidy, quarantined_tidy; [apply CreateQuarantineRepo_makes|intros D; within_step|].
  apply commits_in_tidy.
Qed.
Lemma PullDiffHandler_tidy r : tidy (PullDiffHandler env viper fuel r).
Proof.
  unfold PullDiffHandler. case_decide; [intros D; apply preserves_ret|].
  intros D. apply preserves_on_error; [within_step|intros; within_step|]. intros body.
  case_decide; [within_step|]. revert D.
  apply in_cached_repos_tidy, quarantined_tidy; [apply CreateReadOnlyQuarantineRepo_makes|intros D; within_step|].
  intros q. apply reads_tidy, pull_diff_in_reads.
Qed.
End Clean.

Section Readers.
Context (env : Env) (viper : string -> string) (fuel : nat).

(** No changes; temporary directories may be made. *)
Definition pull_call : CallSet := fun A c => negb (mutates c).

Lemma pull_changeless {A} (m : Prog A) : only pull_call m -> changeless m.
Proof.
  intros Hm l. apply Hm. intros B c Hc. apply keeps_changes. unfold pull_call in Hc. by destruct (mutates c).
Qed.

Lemma CacheRepository_pulls id dir : only pull_call (CacheRepository env viper fuel id dir).
Proof. eapply only_weaken; [apply CacheRepository_calls|]. by intros B []. Qed.
#[local] Hint Resolve CacheRepository_pulls : go.

Lemma quarantine_git_pulls q what args : only pull_call (quarantine_git env q what args).
Proof. unfold quarantine_git. only_calls. Qed.
Lemma or_discard_pulls {A} q err (m : Prog A) : only pull_call m -> only pull_call (or_discard env q err m).
Proof. intros Hm. unfold or_discard. only_calls. by apply Hm. Qed.
Lemma addCacheRepo_pulls q p : only pull_call (addCacheRepo env q p).
Proof. unfold addCacheRepo. only_calls. Qed.
Lemma call_res_pulls {A} (c : Call (res A)) : mutates c = false -> only pull_call (call_res env c).
Proof. intros Hc. apply only_call_res. unfold pull_call. by rewrite Hc. Qed.
#[local] Hint Resolve quarantine_git_pulls or_discard_pulls addCacheRepo_pulls call_res_pulls : go.

Lemma CreateQuarantineRepo_pulls base head bb hb : only pull_call (CreateQuarantineRepo env viper base head bb hb).
Proof. unfold CreateQuarantineRepo, fill_quarantine. cbv zeta. only_calls. Qed.
Lemma CreateReadOnlyQuarantineRepo_pulls base head : only pull_call (CreateReadOnlyQuarantineRepo env viper base head).
Proof. unfold CreateReadOnlyQuarantineRepo, fill_read_only, gopanic. cbv zeta. only_calls. Qed.
#[local] Hint Resolve CreateQuarantineRepo_pulls CreateReadOnlyQuarantineRepo_pulls : go.

Lemma pull_diff_in_pulls body q : only pull_call (pull_diff_in env body q).
Proof. eapply only_weaken; [apply pull_diff_in_reads|]. intros B c [Hc _]%andb_prop. exact Hc. Qed.
#[local] Hint Resolve pull_diff_in_pulls : go.

Lemma PullRequestCheckHandler_pulls r : only pull_call (PullRequestCheckHandler env viper fuel r).
Proof.
  unfold PullRequestCheckHandler, in_cached_repos, with_rlock, or_http, removing,
    check_in, check_error, RunMergeCommand, file_exists. only_calls.
Qed.
Lemma PullRequestCommitsHandler_pulls r : only pull_call (PullRequestCommitsHandler env viper fuel r).
Proof.
  unfold PullRequestCommitsHandler, in_cached_repos, with_rlock, or_http, removing,
    commits_in, http_status. only_calls.
Qed.
Lemma PullDiffHandler_pulls r : only pull_call (PullDiffHandler env viper fuel r).
Proof.
  unfold PullDiffHandler, in_cached_repos, with_rlock, or_http, removing, http_status.
  only_calls.
Qed.

(** ** Directories

    A directory is removed where the same run made it as a temporary one. *)
Definition own_removal (t : Trace) (o : Obs) : Prop :=
  match o with
  | @Did _ c _ => match c with RemoveAll p => Did MkdirTemp (Ok p) ∈ t | _ => True end
  end.

(** Since [h0], only own directories were removed, and those of [M] were made. *)
Definition own_since (h0 : Trace) (M : list string) (h : Trace) : Prop :=
  exists t, h = h0 ++ t /\ Guarded own_removal t /\ forall p, p ∈ M -> Did MkdirTemp (Ok p) ∈ t.
Definition owns {A} (m : Prog A) : Prop := forall h0, preserves (own_since h0 []) m.

Lemma own_since_snoc h0 M h A (c : Call A) a :
  (forall t, (forall p, p ∈ M -> Did MkdirTemp (Ok p) ∈ t) -> own_removal t (Did c a)) ->
  own_since h0 M h -> own_since h0 M (h ++ [Did c a]).
Proof.
  intros Hc (t & -> & HG & HM). exists (t ++ [Did c a]). split; [by rewrite app_assoc|].
  split; [apply Guarded_snoc; auto|]. intros p Hp. apply elem_of_app. auto.
Qed.

Lemma own_since_weaken h0 M N h : N ⊆ M -> own_since h0 M h -> own_since h0 N h.
Proof. intros HN (t & Ht & HG & HM). exists t. auto. Qed.

(** The calls of a program that works in the directory [q]. *)
Definition inside (q : string) {A} (c : Call A) : Prop :=
  match c with RemoveAll p => p = q | _ => True end.

Lemma keeps_inside h0 M q {A} (c : Call A) : q ∈ M -> inside q c -> keeps (own_since h0 M) c.
Proof. intros Hq Hc h a. apply own_since_snoc. intros t Ht. destruct c; simpl in *; try done. subst. auto. Qed.

Lemma reads_own h0 M {A} (m : Prog A) : only reader_call m -> preserves (own_since h0 M) m.
Proof.
  intros Hm. apply Hm. intros B c [_ Hc]%andb_prop h a. apply own_since_snoc. by destruct c.
Qed.

Lemma fill_quarantine_inside h0 M q base head bb hb :
  q ∈ M -> preserves (own_since h0 M) (fill_quarantine env viper q base head bb hb).
Proof.
  intros Hq. pose proof (fun B (c : Call B) => keeps_inside h0 M q c Hq) as HI.
  unfold fill_quarantine, or_discard, quarantine_git, addCacheRepo. only_step HI.
Qed.
Lemma fill_read_only_inside h0 M q base head :
  q ∈ M -> preserves (own_since h0 M) (fill_read_only env viper q base head).
Proof.
  intros Hq. pose proof (fun B (c : Call B) => keeps_inside h0 M q c Hq) as HI.
  unfold fill_read_only, or_discard, addCacheRepo. only_step HI.
Qed.

(** A new temporary directory that [fill] works in. *)
Definition makes_own (create : Prog string) : Prop := forall h0 M h, own_since h0 M h ->
  match create h with (Val q, h') => own_since h0 (q :: M) h' | (_, h') => own_since h0 M h' end.

Lemma own_since_made h0 M h r :
  own_since h0 M h ->
  own_since h0 (match r with Ok q => q :: M | Er _ => M end) (h ++ [Did MkdirTemp r]).
Proof.
  intros (t & -> & HG & HM). exists (t ++ [Did MkdirTemp r]). split; [by rewrite app_assoc|].
  split; [by apply Guarded_snoc|]. intros p Hp. apply elem_of_app.
  destruct r; [apply elem_of_cons in Hp as [->|Hp]|]; [right; by left|left; auto..].
Qed.

Lemma CreateQuarantineRepo_own base head bb hb : makes_own (CreateQuarantineRepo env viper base head bb hb).
Proof.
  intros h0 M h Hh. unfold CreateQuarantineRepo, call_res, call. rewrite !run_bind. cbv beta iota zeta.
  set (r := env _ h MkdirTemp). apply (own_since_made _ _ _ r) in Hh. revert Hh.
  generalize (h ++ [Did MkdirTemp r]). intros h1 H1.
  destruct r as [q|e]; cbn [of_res lift]; [|exact H1]. rewrite run_bind.
  pose proof (fill_quarantine_inside h0 (q :: M) q base head bb hb ltac:(by left) h1 H1) as H2.
  destruct (fill_quarantine _ _ _ _ _ _ _ h1) as [[[]|e|p] h2]; [exact H2|..];
    (eapply own_since_weaken, H2; set_solver).
Qed.

Lemma CreateReadOnlyQuarantineRepo_own base head : makes_own (CreateReadOnlyQuarantineRepo env viper base head).
Proof.
  intros h0 M h Hh. unfold CreateReadOnlyQuarantineRepo, on_error, call_res, call. rewrite run_bind.
  cbv beta iota zeta.
  set (r := env _ h MkdirTemp). apply (own_since_made _ _ _ r) in Hh. revert Hh.
  generalize (h ++ [Did MkdirTemp r]). intros h1 H1.
  destruct r as [q|e]; cbn [of_res lift]; [|exact H1]. rewrite run_bind.
  pose proof (fill_read_only_inside h0 (q :: M) q base head ltac:(by left) h1 H1) as H2.
  destruct (fill_read_only _ _ _ _ _ h1) as [[[]|e|p] h2]; [exact H2|..];
    (eapply own_since_weaken, H2; set_solver).
Qed.

(** [q, err := create(); if err != nil { bad; return }; defer os.RemoveAll(q); body]. *)
Lemma quarantined_owns create (bad : Prog unit) (body : string -> Prog unit) :
  makes_own create -> owns bad -> (forall q h0, preserves (own_since h0 [q]) (body q)) ->
  owns (q ⟵ create ifErr bad; removing env q (body q)).
Proof.
  intros Hc Hb Hbody h0 h Hh. unfold on_error. specialize (Hc h0 [] h Hh).
  destruct (create h) as [[q|e|s] h1]; cbn [snd] in *; [|by apply Hb|exact Hc].
  eapply own_since_weaken; [apply list_subseteq_nil|].
  refine (preserves_deferring (own_since h0 [q]) _ _ _ (Hbody q h0) h1 Hc).
  apply preserves_bind; [|intros; apply preserves_ret]. apply preserves_call, (keeps_inside _ _ q); [by left|done].
Qed.

(** The rest of a handler removes no directory. *)
Definition removes_dir {A} (c : Call A) : bool := match c with RemoveAll _ => true | _ => false end.
Lemma keeps_own h0 M {A} (c : Call A) : removes_dir c = false -> keeps (own_since h0 M) c.
Proof. intros Hc h a. apply own_since_snoc. by destruct c. Qed.

Lemma with_rlock_owns {A} k (body : Prog A) : owns body -> owns (with_rlock env k body).
Proof.
  intros Hb h0. apply preserves_bind; [by apply preserves_call, keeps_own|]. intros _.
  apply preserves_deferring; [by apply preserves_call, keeps_own|apply Hb].
Qed.

Lemma in_cached_repos_owns base head k : owns k -> owns (in_cached_repos env viper fuel base head k).
Proof.
  intros Hk. pose proof (fun id dir h0 => reads_own h0 [] _ (CacheRepository_reads env viper fuel id dir)) as Hc.
  apply with_rlock_owns. intros h0. apply preserves_on_error; [apply Hc|intros; by apply preserves_call, keeps_own|].
  intros _. case_decide; [apply Hk|]. revert h0. apply with_rlock_owns. intros h0.
  apply preserves_on_error; [apply Hc|intros; by apply preserves_call, keeps_own|]. intros _. apply Hk.
Qed.

Lemma check_in_own body q h0 M : preserves (own_since h0 M) (check_in env body q).
Proof. pose proof (@keeps_own h0 M) as HI. unfold check_in, check_error, RunMergeCommand, file_exists. only_step HI. Qed.
Lemma commits_in_own body q h0 M : preserves (own_since h0 M) (commits_in env body q).
Proof. pose proof (@keeps_own h0 M) as HI. unfold commits_in, http_status. only_step HI. Qed.
Lemma check_error_own e c h0 M : preserves (own_since h0 M) (check_error env e c).
Proof. by apply preserves_call, keeps_own. Qed.

Lemma PullRequestCheckHandler_owns r : owns (PullRequestCheckHandler env viper fuel r).
Proof.
  unfold PullRequestCheckHandler. case_decide; [intros h0; apply preserves_ret|].
  intros h0. apply preserves_on_error; [by apply preserves_call_res, keeps_own|intros; apply check_error_own|].
  intros body. revert h0. apply in_cached_repos_owns, quarantined_owns;
    [apply CreateQuarantineRepo_own|intros h0; apply check_error_own|intros; apply check_in_own].
Qed.
Lemma PullRequestCommitsHandler_owns r : owns (PullRequestCommitsHandler env viper fuel r).
Proof.
  unfold PullRequestCommitsHandler, http_status. case_decide; [intros h0; apply preserves_ret|].
  intros h0. apply preserves_on_error; [by apply preserves_call_res, keeps_own|intros; by apply preserves_call, keeps_own|].
  intros body. revert h0. apply in_cached_repos_owns, quarantined_owns;
    [apply CreateQuarantineRepo_own|intros h0; by apply preserves_call, keeps_own|intros; apply commits_in_own].
Qed.
Lemma PullDiffHandler_owns r : owns (PullDiffHandler env viper fuel r).
Proof.
  unfold PullDiffHandler, http_status. case_decide; [intros h0; apply preserves_ret|].
  intros h0. apply preserves_on_error; [by apply preserves_call_res, keeps_own|intros; by apply preserves_call, keeps_own|].
  intros body. case_decide; [by apply preserves_call, keeps_own|]. revert h0. apply in_cached_repos_owns, quarantined_owns;
    [apply CreateReadOnlyQuarantineRepo_own|intros h0; by apply preserves_call, keeps_own|].
  intros q h0. apply reads_own, pull_diff_in_reads.
Qed.

Lemma owns_since {A} (m : Prog A) h :
  owns m -> exists t, snd (m h) = h ++ t /\ Guarded own_removal t.
Proof.
  intros Hm. destruct (Hm h h) as (t & Ht & HG & _); [|eauto].
  exists []. rewrite app_nil_r. split; [done|]. split; [apply Guarded_nil|]. intros p Hp. by apply elem_of_nil in Hp.
Qed.

(** ** Locks *)
Lemma balanced_on_error {A B} (m : Prog A) bad (k : A -> Prog B) :
  balanced m -> (forall e, balanced (bad e)) -> (forall a, balanced (k a)) -> balanced (on_error m bad k).
Proof. intros Hm Hb Hk. balance. all: apply balanced_preserves; auto. Qed.

Lemma in_cached_repos_balanced base head k :
  balanced k -> balanced (in_cached_repos env viper fuel base head k).
Proof.
  intros Hk. apply with_rlock_balanced. unfold or_http.
  pose proof (with_rlock_balanced env (RepoKey head) (on_error (CacheRepository env viper fuel head (viper "GIT_REPOS_DIR"))
    (fun e => call env (HttpError (Error e) 500)) (fun _ => k))) as Hh.
  assert (balanced (on_error (CacheRepository env viper fuel head (viper "GIT_REPOS_DIR"))
    (fun e => call env (HttpError (Error e) 500)) (fun _ => k))) by balance.
  specialize (Hh H). balance.
Qed.

Lemma CreateReadOnlyQuarantineRepo_balanced base head :
  balanced (CreateReadOnlyQuarantineRepo env viper base head).
Proof.
  apply balanced_on_error; [by apply balanced_call_res|by intros e h k|]. intros tmp. unfold fill_read_only.
  repeat first [ apply or_discard_balanced | apply addCacheRepo_balanced | apply balanced_call_res; reflexivity
               | apply balanced_ret | apply balanced_bind; [|intros ?] ].
Qed.
#[local] Hint Resolve in_cached_repos_balanced CreateQuarantineRepo_balanced
  CreateReadOnlyQuarantineRepo_balanced : go.

Lemma pull_handlers_balanced r :
  balanced (PullRequestCheckHandler env viper fuel r) /\
  balanced (PullRequestCommitsHandler env viper fuel r) /\ balanced (PullDiffHandler env viper fuel r).
Proof.
  assert (Hc : forall body q, balanced (removing env q (check_in env body q))).
  { intros. unfold removing, check_in, check_error, RunMergeCommand, file_exists. balance. }
  assert (Hm : forall body q, balanced (removing env q (commits_in env body q))).
  { intros. unfold removing, commits_in, http_status. balance. }
  assert (Hd : forall body q, balanced (removing env q (pull_diff_in env body q))).
  { intros. unfold removing, pull_diff_in, or_http, http_status. balance. }
  assert (He : forall e c, balanced (check_error env e c)) by (intros; unfold check_error; balance).
  assert (Hs : forall c, balanced (http_status env c)) by (intros; unfold http_status; balance).
  assert (Hq : forall (create : Prog string) (bad : Prog unit) (body : string -> Prog unit), balanced create ->
            balanced bad -> (forall q, balanced (removing env q (body q))) ->
            balanced (q ⟵ create ifErr bad; removing env q (body q))) by (intros; balance).
  unfold PullRequestCheckHandler, PullRequestCommitsHandler, PullDiffHandler.
  repeat split; case_decide; try apply balanced_ret; apply balanced_on_error; auto with go;
    try (by apply balanced_call_res); intros body; try case_decide; auto;
    apply in_cached_repos_balanced, Hq; auto with go.
Qed.
End Readers.

(** * Answers *)
Section Answers.
Context (env : Env) (viper : string -> string) (fuel : nat).

(** Everything but answers. *)
Definition mute_call : CallSet := fun A c => negb (is_answer c).

Lemma mute_silent {A} (m : Prog A) : only mute_call m -> silent m.
Proof. intros Hm. eapply only_silent; [exact Hm|]. intros B c Hc. unfold mute_call in Hc. by destruct (is_answer c). Qed.

Lemma quarantine_git_mute q what args : only mute_call (quarantine_git env q what args).
Proof. unfold quarantine_git. only_calls. Qed.
Lemma or_discard_mute {A} q err (m : Prog A) : only mute_call m -> only mute_call (or_discard env q err m).
Proof. intros Hm. unfold or_discard. only_calls. by apply Hm. Qed.
Lemma addCacheRepo_mute q p : only mute_call (addCacheRepo env q p).
Proof. unfold addCacheRepo. only_calls. Qed.
Lemma call_res_mute {A} (c : Call (res A)) : is_answer c = false -> only mute_call (call_res env c).
Proof. intros Hc. apply only_call_res. unfold mute_call. by rewrite Hc. Qed.
#[local] Hint Resolve quarantine_git_mute or_discard_mute addCacheRepo_mute call_res_mute : go.

Lemma CreateQuarantineRepo_silent base head bb hb : silent (CreateQuarantineRepo env viper base head bb hb).
Proof. apply mute_silent. unfold CreateQuarantineRepo, fill_quarantine. cbv zeta. only_calls. Qed.

Lemma responds_removing q m : responds m -> responds (removing env q m).
Proof.
  intros Hm h. specialize (Hm h). unfold removing, deferring. destruct (m h) as [[?|?|?] h1]; [|done|];
    rewrite run_bind; unfold call; cbn; rewrite answered_snoc; simpl; lia.
Qed.

Lemma responds_in_cached_repos base head k : responds k -> responds (in_cached_repos env viper fuel base head k).
Proof.
  intros Hk. apply responds_locked; [done..|]. apply responds_or_http; [apply CacheRepository_silent|].
  intros ?. case_decide; [done|]. apply responds_locked; [done..|].
  by apply responds_or_http; [apply CacheRepository_silent|intros ?].
Qed.

Lemma responds_check_error e c : responds (check_error env e c).
Proof. by apply responds_call. Qed.
#[local] Hint Resolve responds_check_error : answer.

Lemma check_in_responds body q : responds (check_in env body q).
Proof.
  unfold check_in, RunMergeCommand, file_exists. respond.
Qed.

Lemma commits_in_responds body q : responds (commits_in env body q).
Proof. unfold commits_in. respond. Qed.

Lemma quarantined_responds body base head bb hb bad :
  responds bad -> (forall q, responds (body q)) ->
  responds (q ⟵ CreateQuarantineRepo env viper base head bb hb ifErr bad; removing env q (body q)).
Proof.
  intros Hb Hq. apply responds_on_error; [apply CreateQuarantineRepo_silent|done|].
  intros q. by apply responds_removing.
Qed.

Lemma PullRequestCheckHandler_responds r :
  r_Method r = "POST"%string -> responds (PullRequestCheckHandler env viper fuel r).
Proof.
  intros Hr. unfold PullRequestCheckHandler. rewrite Hr, decide_False by congruence.
  respond. apply responds_in_cached_repos, quarantined_responds; [auto with answer|]. apply check_in_responds.
Qed.

Lemma PullRequestCommitsHandler_responds r :
  r_Method r = "POST"%string -> responds (PullRequestCommitsHandler env viper fuel r).
Proof.
  intros Hr. unfold PullRequestCommitsHandler. rewrite Hr, decide_False by congruence.
  respond. apply responds_in_cached_repos, quarantined_responds; [auto with answer|]. apply commits_in_responds.
Qed.
End Answers.

(** * Properties *)

(** The handlers that read. *)
Definition readers (env : Env) viper fuel (r : HttpRequest) : list (Prog unit) :=
  [ContentHandler env viper fuel r; GetRawFileHandler env viper fuel r; CommitsHandler env viper fuel r;
   CommitDiffHandler env viper fuel r; PullRequestCheckHandler env viper fuel r;
   PullRequestCommitsHandler env viper fuel r; PullDiffHandler env viper fuel r].


(** The handlers that answer a request of its method, with a [return] after every error. *)
Definition answering (env : Env) viper fuel (r : HttpRequest) : list (Prog unit) :=
  if decide (r_Method r = "POST"%string)
  then [ContentHandler env viper fuel r; PullRequestCheckHandler env viper fuel r;
        PullRequestCommitsHandler env viper fuel r]
  else if decide (r_Method r = "GET"%string) then [GetRawFileHandler env viper fuel r] else [].

(** A request is answered exactly once. The handlers for the content of a repository,
    for raw files, for the check and for the commits of a pull request write one response
    for every request of their method, whatever git and the chain answer; the only other
    way out is a panic before anything was written. *)
Theorem answered_once (env : Env) viper fuel r m h :
  m ∈ answering env viper fuel r ->
  match m h with
  | (Val _, h') => answered h' = S (answered h)
  | (Fail _, _) => False
  | (Panic _, h') => answered h' = answered h
  end.
Proof.
  unfold answering. repeat case_decide; rewrite ?elem_of_cons, elem_of_nil.
  - intros [->|[->|[->|[]]]];
      [by apply ContentHandler_responds|by apply PullRequestCheckHandler_responds|by apply PullRequestCommitsHandler_responds].
  - intros [->|[]]. by apply GetRawFileHandler_responds.
  - intros [].
Qed.

(** An environment where nothing is found, and a request. *)
Definition quiet_env : Env := fun A h c => quiet c.
Definition get_request (method path : string) : HttpRequest :=
  mkHttpRequest method path path (fun _ => ""%string) [] 0 false "storage.example".


Lemma answered_once_witness :
  match GetRawFileHandler quiet_env (fun s => s) 3 (get_request "GET" "/raw/alice/r/main/a.go") [] with
  | (Val _, h') => answered h' = S (answered [])
  | (Fail _, _) => False
  | (Panic _, h') => answered h' = answered []
  end.
Proof.
  apply (answered_once quiet_env (fun s => s) 3 (get_request "GET" "/raw/alice/r/main/a.go")).
  unfold answering. simpl. rewrite elem_of_cons. by left.
Defined.
