(* ===== verification/Attachments.v ===== *)
(** Attachments of releases (internal/app/handler/attachment.go): the upload of a file,
    signed by an account that may push, the uploads that no release refers to yet, and the
    download.

    The map of pending uploads is shared by all requests and has no lock. Its entries are
    what the trace wrote ([pending]): a request here runs by itself; for requests that run
    at the same time see UploadRaces. *)

From S2P Require Import Prelude GoInt GoStrings GoPath Base64 Pagination StorageFee Merkle World ChainClient Cache Auth RepoHandlers.

#[local] Open Scope string_scope.

Definition MAX_UPLOAD_SIZE : Z := 2 * 1024 * 1024 * 1024.
Definition PENDING_UPLOAD_EXPIRY : Z := 3600 * 10 ^ 9.

(** The bytes of a text, and [hex.EncodeToString]. *)
Definition bytes_of (s : string) : bytes :=
  map (fun c => Z.of_nat (Ascii.nat_of_ascii c)) (String.list_ascii_of_string s).
Definition hex_char (d : nat) : ascii := nth d (String.list_ascii_of_string "0123456789abcdef") "0"%char.
Definition hex_encode (bs : bytes) : string :=
  String.string_of_list_ascii (flat_map (fun b =>
    [hex_char (Z.to_nat (b / 16)); hex_char (Z.to_nat (b mod 16))]) bs).

(** [signData]: the JSON that the client has signed. *)
Record signData := mkSignData {
  sd_Action : string; sd_RepositoryId : string; sd_TagName : string; sd_Name : string;
  sd_Size : Z; sd_Sha256 : string
}.

(** The data of the first message of a transaction, if that is a [MsgSignData], and
    [json.Unmarshal] of it. *)
Class SignedData `{Offchain} := {
  sign_data : Tx -> option string;
  unmarshal_sign_data : string -> res signData
}.

(** The order in which [range] goes through the map: any. *)
Class MapRange := range_of : gmap string PendingUpload -> list (string * PendingUpload).
Class MapRangeLaws `{MapRange} := range_of_perm : forall m, range_of m ≡ₚ map_to_list m.

(** * The map of pending uploads *)
Definition pending_step (m : gmap string PendingUpload) (o : Obs) : gmap string PendingUpload :=
  match o with
  | @Did _ c _ =>
      match c with
      | PendingPut token upload => <[token := upload]> m
      | PendingDelete token => delete token m
      | _ => m
      end
  end.
Definition pending (h : Trace) : gmap string PendingUpload := fold_left pending_step h ∅.
Arguments pending : simpl never.

Lemma pending_snoc h o : pending (h ++ [o])%list = pending_step (pending h) o.
Proof. unfold pending. by rewrite fold_left_app. Qed.

(** ReleaseAttachmentExists *)
Fixpoint ReleaseAttachmentExists (attachments : list Attachment) (name : string) : option nat :=
  match attachments with
  | [] => None
  | v :: vs => if decide (at_Name v = name) then Some O else S <$> ReleaseAttachmentExists vs name
  end.

Section Attachments.
Context (env : Env) (viper : string -> string).
Context (sha256 : bytes -> bytes) `{SdkMath} `{SignedData} `{MapRange}.
#[local] Notation "x ⟵ m 'orHttp' code ; k" := (or_http env code m (fun x => k))
  (at level 20, m at level 100, code at level 100, k at level 200, right associativity).

Definition generateUploadToken (address sha : string) : string :=
  hex_encode (sha256 (bytes_of (address +:+ ":" +:+ sha))).

Definition storePendingUpload (token : string) (upload : PendingUpload) : Prog unit :=
  call env (PendingPut token upload).

(** Reading the map, in the order of one [range]. *)
Definition range_pending : Prog (list (string * PendingUpload)) := fun h => (Val (range_of (pending h)), h).

(** The sum of [int64] sizes; the clock is read for each upload of the release. *)
Definition calculatePendingUploadsSize (address : string) (repoId : Z) (tagName : string) : Prog Z :=
  uploads ← range_pending;
  foldM (fun totalSize '(_, upload) =>
           if decide (pu_Address upload = address /\ pu_RepositoryId upload = repoId /\ pu_TagName upload = tagName) then
             now ← call env Now;
             mret (if decide (now < pu_ExpiresAt upload) then i64 (totalSize + pu_Size upload) else totalSize)
           else mret totalSize) uploads 0.

Fixpoint referenced (sha excludeToken : string) (uploads : list (string * PendingUpload)) : Prog bool :=
  match uploads with
  | [] => mret false
  | (token, upload) :: uploads =>
      if decide (token <> excludeToken /\ pu_Sha256 upload = sha) then
        now ← call env Now;
        if decide (now < pu_ExpiresAt upload) then mret true else referenced sha excludeToken uploads
      else referenced sha excludeToken uploads
  end.
Definition isFileReferencedByOtherUploads (sha excludeToken : string) : Prog bool :=
  uploads ← range_pending; referenced sha excludeToken uploads.

Definition upload_path (sha : string) : string := PathJoin [viper "ATTACHMENT_DIR"; sha].

(** The loop deletes the entry it is at, which [range] allows. *)
Definition cleanup_one (entry : string * PendingUpload) : Prog unit :=
  let '(token, upload) := entry in
  now ← call env Now;
  when (bool_decide (pu_ExpiresAt upload < now))
    (used ← isFileReferencedByOtherUploads (pu_Sha256 upload) token;
     _ ← when (negb used) (_ ← call env (Remove (upload_path (pu_Sha256 upload))); mret tt);
     call env (PendingDelete token)).
Definition cleanupExpiredUploads : Prog unit :=
  uploads ← range_pending; forM_ uploads cleanup_one.

(** ** Upload *)
Definition http_text (text : string) (code : Z) : Prog unit := call env (HttpError text code).

(** The signature of the form, decoded: who signed what. *)
Definition signed_upload (k : Tx -> string -> signData -> Z -> Prog unit) : Prog unit :=
  values ← call env (FormValues "signature");
  match values with
  | [] | "" :: _ => http_text "Signature is required" 400
  | signature :: _ =>
      match base64_decode signature with
      | None => http_text "Error decoding base64 signature string: illegal base64 data" 400
      | Some txBytes =>
          on_error (lift (of_res (decode_tx txBytes)))
            (fun e => http_text ("Error decoding transaction: " +:+ Error e) 400)
            (fun decodedTx =>
               address ⟵ lift (single_signer decodedTx) ifErr http_text "Invalid signature" 400;
               data ← lift (match sign_data decodedTx with
                            | Some d => Val d
                            | None => Panic "interface conversion: sdk.Msg is not *MsgSignData"
                            end);
               data ⟵ lift (of_res (unmarshal_sign_data data)) ifErr http_text "Invalid sign data" 400;
               repoId ⟵ lift (of_res (ParseUint (sd_RepositoryId data))) ifErr http_text "Invalid repository ID" 400;
               k decodedTx address data repoId)
      end
  end.

(** [edit-release]: the size of the asset that is replaced; the uploads that the release
    has confirmed are no longer pending. *)
Definition confirmed_uploads (address : string) (repo : Repository) (repoId : Z) (data : signData)
    (k : Z -> Prog unit) : Prog unit :=
  if decide (sd_Action data = "edit-release") then
    r ← attempt (call_res env (QRepositoryReleaseAsset repoId (sd_TagName data) (sd_Name data)));
    let go oldSize :=
      release ⟵ call_res env (QRepositoryRelease (rp_OwnerId repo) (rp_Name repo) (sd_TagName data)) orHttp 500;
      _ ← forM_ (rl_Attachments release) (fun attachment =>
            call env (PendingDelete (generateUploadToken address (at_Sha attachment))));
      k oldSize in
    match r with
    | Ok asset => go (i64 (ra_Size asset))
    | Er e => if Contains (Error e) "release asset not found" then go 0
              else call env (HttpError (Error e) 500)
    end
  else k 0.

(** The owner can pay for everything that is pending, this file included. *)
Definition affordable (repo : Repository) (storageUsed : Z) (params : Params) (address : string)
    (repoId : Z) (tagName : string) (delta : Z) (k : Prog unit) : Prog unit :=
  if decide (Amount (StoragePricePerGb params) = 0) then k else
  pendingSize ← calculatePendingUploadsSize address repoId tagName;
  let projectedUsage := u64 (storageUsed + u64 pendingSize) in
  costInfo ⟵ lift (CalculateStorageCost projectedUsage (u64 (projectedUsage + u64 delta)) params) orHttp 500;
  if decide (Amount (StorageCharge costInfo) = 0) then k else
  balance ⟵ call_res env (QBankBalance (rp_OwnerId repo) (Denom (StorageCharge costInfo))) orHttp 500;
  if decide (balance < Amount (StorageCharge costInfo))
  then http_text "insufficient balance for storage charge" 401 else k.

(** The file is written under the lock of the asset. After an error of the copy the upload
    is recorded and answered nevertheless. *)
Definition store_upload (address : string) (repoId : Z) (data : signData) (size : Z)
    (shaString tmpFile : string) : Prog unit :=
  let filePath := viper "ATTACHMENT_DIR" +:+ "/" +:+ shaString in
  with_lock env (AssetKey shaString)
    (_ ⟵ call_res env (Create filePath) orHttp 500;
     copied ← attempt (call_res env (CopyFrom tmpFile filePath));
     _ ← match copied with Er e => call env (HttpError (Error e) 500) | Ok _ => mret tt end;
     now ← call env Now;
     created ← call env Now;
     _ ← storePendingUpload (generateUploadToken address shaString)
           (mkPendingUpload address repoId (sd_TagName data) (sd_Name data) size shaString created
              (now + PENDING_UPLOAD_EXPIRY));
     _ ← call env (SetHeader "Content-Type" "application/json");
     _ ← call env (EncodeJson (JObj [("sha", JStr shaString); ("size", JNum size)]));
     mret tt).

(** The checks against the chain, once the file is known to be what was signed. *)
Definition charge_and_store (address : string) (repoId : Z) (data : signData) (size : Z)
    (shaString tmpFile : string) : Prog unit :=
  _ ← cleanupExpiredUploads;
  _ ⟵ call_res env GetQueryClient orHttp 500;
  repo ⟵ call_res env (QRepository repoId) orHttp 500;
  storageUsed ⟵ call_res env (QUserQuota (rp_OwnerId repo)) orHttp 500;
  params ⟵ call_res env QStorageParams orHttp 500;
  confirmed_uploads address repo repoId data (fun oldSize =>
    affordable repo storageUsed params address repoId (sd_TagName data) (i64 (size - oldSize))
      (store_upload address repoId data size shaString tmpFile)).

Definition receive_file (address : string) (repoId : Z) (data : signData) : Prog unit :=
  size ⟵ call_res env (FormFile "file") orHttp 400;
  tmpFile ⟵ call_res env TempFile orHttp 500;
  deferring (_ ← call env (Remove tmpFile); mret tt)
    (content ⟵ call_res env (CopyUpload tmpFile) orHttp 500;
     let shaString := hex_encode (sha256 content) in
     if decide (size <> sd_Size data) then http_text "Invalid size" 400 else
     if decide (shaString <> sd_Sha256 data) then http_text "Invalid sha256" 400 else
     charge_and_store address repoId data size shaString tmpFile).

Definition UploadAttachmentHandler (r : HttpRequest) : Prog unit :=
  if decide (r_Method r <> "POST") then mret tt else
  _ ⟵ call_res env (ParseMultipartForm MAX_UPLOAD_SIZE)
    ifErr http_text "The uploaded file is too big. Please choose an file that's less than 2GB in size" 400;
  _ ⟵ call_res env (ParseMultipartForm (Z.shiftl 32 20)) orHttp 400;
  signed_upload (fun decodedTx address data repoId =>
    on_error (HavePushPermission env repoId address)
      (fun e => http_text ("Error checking push permission: " +:+ Error e) 500)
      (fun havePushPermission =>
         if negb havePushPermission then http_text "User does not have push permission" 401 else
         _ ⟵ lift (of_res (verify_tx decodedTx)) ifErr http_text "Invalid signature" 400;
         receive_file address repoId data)).

(** ** Download *)
Definition serve_attachment (release : Release) (fileName : string) : Prog unit :=
  match ReleaseAttachmentExists (rl_Attachments release) fileName with
  | None => http_status env 404
  | Some i =>
      attachment ← lift (index (rl_Attachments release) i);
      with_rlock env (AssetKey (at_Sha attachment))
        (_ ⟵ CacheReleaseAsset env viper (rl_RepositoryId release) (rl_TagName release) fileName
               (viper "ATTACHMENT_DIR") orHttp 500;
         _ ⟵ call_res env (OpenFile (viper "ATTACHMENT_DIR" +:+ "/" +:+ at_Sha attachment)) ifErr http_status env 404;
         _ ⟵ call_res env CopyToResponse orHttp 500;
         mret tt)
  end.

(** The path is [/releases/{address}/{repository}/{tag}/{file}]; the tag may have slashes. *)
Definition GetAttachmentHandler (r : HttpRequest) : Prog unit :=
  if decide (r_Method r <> "GET") then mret tt else
  let fileName := match LastIndexByte (r_Path r) "/" with
                  | Some i => sdrop (i + 1) (r_Path r)
                  | None => r_Path r
                  end in
  match SplitN (TrimSuffix (r_Path r) ("/" +:+ fileName)) "/" 5 with
  | [_; _; address; repositoryName; tagName] =>
      _ ⟵ call_res env GrpcDial orHttp 500;
      release ⟵ call_res env (QRepositoryRelease address repositoryName tagName) ifErr http_status env 404;
      serve_attachment release fileName
  | _ => http_status env 403
  end.
End Attachments.

#[local] Close Scope string_scope.

(** * Cleaning up

    The clock stays between [t0] and [t1] while the expired uploads are removed. *)
Section Cleanup.
Context (env : Env) (viper : string -> string) `{MapRangeLaws}.
Context (t0 t1 : Z) (Hclock : forall h, t0 <= env _ h Now <= t1).

(** The trace was extended by readings of the clock. *)
Definition read_clock (h h' : Trace) : Prop := exists ts, h' = (h ++ map (Did Now) ts)%list.

Lemma read_clock_refl h : read_clock h h.
Proof. exists []. by rewrite app_nil_r. Qed.
Lemma read_clock_step h n h' : read_clock (h ++ [Did Now n]) h' -> read_clock h h'.
Proof. intros [ts ->]. exists (n :: ts). by rewrite <- app_assoc. Qed.
Lemma read_clock_pending h h' : read_clock h h' -> pending h' = pending h.
Proof.
  intros [ts ->]. unfold pending. rewrite fold_left_app. induction ts as [|n ts IH]; [done|]. apply IH.
Qed.

Lemma referenced_run sha tok ups h : exists b h',
  referenced env sha tok ups h = (Val b, h') /\ read_clock h h' /\
  if b then exists t u, (t, u) ∈ ups /\ t <> tok /\ pu_Sha256 u = sha /\ t0 < pu_ExpiresAt u
  else forall t u, (t, u) ∈ ups -> t <> tok -> pu_Sha256 u = sha -> pu_ExpiresAt u <= t1.
Proof.
  revert h. induction ups as [|[t u] ups IH]; intros h.
  { exists false, h. split; [done|]. split; [apply read_clock_refl|]. set_solver. }
  cbn [referenced]. case_decide as Ht.
  - unfold call. rewrite run_bind. cbv beta iota zeta. pose proof (Hclock h) as Hn. case_decide as He.
    + exists true. eexists. split; [done|]. split; [by exists [env _ h Now]|]. exists t, u.
      split; [set_solver|]. destruct Ht. repeat split; auto. lia.
    + destruct (IH (h ++ [Did Now (env _ h Now)])) as (b & h' & Hrun & Hr & Hb). exists b, h'.
      split; [done|]. split; [by eapply read_clock_step|]. destruct b.
      * destruct Hb as (t' & u' & ? & ?). exists t', u'. set_solver.
      * intros t' u' [[= -> ->]|Hin]%elem_of_cons ? ?; [lia|by eapply Hb].
  - destruct (IH h) as (b & h' & Hrun & Hr & Hb). exists b, h'. split; [done|]. split; [done|]. destruct b.
    + destruct Hb as (t' & u' & ? & ?). exists t', u'. set_solver.
    + intros t' u' [[= -> ->]|Hin]%elem_of_cons ? ?; [tauto|by eapply Hb].
Qed.

Lemma in_range h tok u : (tok, u) ∈ range_of (pending h) <-> pending h !! tok = Some u.
Proof. rewrite (range_of_perm (pending h)). apply elem_of_map_to_list. Qed.

Context (h0 : Trace).

(** A removal is that of a file of an expired upload that no live upload refers to. *)
Definition removal_ok (o : Obs) : Prop :=
  match o with
  | @Did _ c _ =>
      match c with
      | Remove p => exists tok u, pending h0 !! tok = Some u /\ pu_ExpiresAt u < t1 /\
                      p = upload_path viper (pu_Sha256 u) /\
                      forall tok' u', pending h0 !! tok' = Some u' -> pu_Sha256 u' = pu_Sha256 u ->
                        pu_ExpiresAt u' <= t1
      | _ => True
      end
  end.

Record cleaning (h : Trace) : Prop := {
  cl_removals : exists t, h = (h0 ++ t)%list /\ Forall removal_ok t;
  cl_subset : pending h ⊆ pending h0;
  cl_live : forall tok u, pending h0 !! tok = Some u -> t1 <= pu_ExpiresAt u -> pending h !! tok = Some u
}.

Lemma cleaning_clock h h' : cleaning h -> read_clock h h' -> cleaning h'.
Proof.
  intros [(t & -> & Ht) Hs Hl] Hr. pose proof (read_clock_pending _ _ Hr) as Hp. destruct Hr as [ts ->].
  split; rewrite ?Hp; auto. exists (t ++ map (Did Now) ts)%list. rewrite app_assoc. split; [done|].
  apply Forall_app. split; [done|]. apply Forall_map, Forall_true. done.
Qed.

Lemma cleaning_remove h p r : cleaning h -> removal_ok (Did (Remove p) r) -> cleaning (h ++ [Did (Remove p) r]).
Proof.
  intros [(t & -> & Ht) Hs Hl] Hr. split; rewrite ?pending_snoc; auto.
  exists (t ++ [Did (Remove p) r])%list. rewrite app_assoc. split; [done|]. apply Forall_app. auto.
Qed.

Lemma cleaning_delete h tok u r : cleaning h -> pending h0 !! tok = Some u -> pu_ExpiresAt u < t1 ->
  cleaning (h ++ [Did (PendingDelete tok) r]).
Proof.
  intros [(t & -> & Ht) Hs Hl] Hu He. split; rewrite ?pending_snoc.
  - exists (t ++ [Did (PendingDelete tok) r])%list. rewrite app_assoc. split; [done|]. apply Forall_app.
    split; [done|]. by constructor.
  - simpl. by etrans; [apply delete_subseteq|].
  - simpl. intros tok' u' Hu' He'. rewrite lookup_delete_ne; [by apply Hl|]. intros ->.
    rewrite Hu in Hu'. injection Hu' as ->. lia.
Qed.

(** What is done with one entry. *)
Definition cleaned (tok : string) (u : PendingUpload) (h : Trace) : Prop :=
  pu_ExpiresAt u < t0 -> pending h !! tok = None /\
    ((forall tok' u', pending h0 !! tok' = Some u' -> pu_Sha256 u' = pu_Sha256 u -> pu_ExpiresAt u' <= t0) ->
     exists r, Did (Remove (upload_path viper (pu_Sha256 u))) r ∈ h).

Lemma cleanup_one_run tok u h : cleaning h -> pending h0 !! tok = Some u ->
  exists h', cleanup_one env viper (tok, u) h = (Val tt, h') /\ cleaning h' /\ cleaned tok u h' /\
    pending h' ⊆ pending h /\ h ⊆ h'.
Proof.
  intros Hc Hu. unfold cleanup_one, call. rewrite run_bind. cbv beta iota zeta.
  pose proof (Hclock h) as Hn. set (n := env _ h Now) in *.
  assert (Hr : read_clock h (h ++ [Did Now n])) by (by exists [n]).
  pose proof (cleaning_clock _ _ Hc Hr) as Hc1. pose proof (read_clock_pending _ _ Hr) as Hp1.
  set (h1 := (h ++ [Did Now n])%list) in *. case_bool_decide as He; cbn [when].
  2: { exists h1. split; [done|]. split; [done|]. split; [intros ?; lia|]. split; [by rewrite Hp1|unfold h1; set_solver]. }
  rewrite run_bind. unfold isFileReferencedByOtherUploads, range_pending. rewrite run_bind.
  cbv beta iota zeta. destruct (referenced_run (pu_Sha256 u) tok (range_of (pending h1)) h1)
    as (b & h2 & -> & Hr2 & Hb).
  pose proof (cleaning_clock _ _ Hc1 Hr2) as Hc2. pose proof (read_clock_pending _ _ Hr2) as Hp2.
  assert (Hsub : h1 ⊆ h2) by (destruct Hr2 as [ts ->]; set_solver).
  assert (Hdel : forall h3 r, cleaning h3 -> pending h3 = pending h2 -> h2 ⊆ h3 ->
            (b = false -> exists r, Did (Remove (upload_path viper (pu_Sha256 u))) r ∈ h3) ->
            let h' := (h3 ++ [Did (PendingDelete tok) r])%list in
            cleaning h' /\ cleaned tok u h' /\ pending h' ⊆ pending h /\ h ⊆ h').
  { intros h3 r Hc3 Hp3 H23 Hrem h'. split; [by eapply cleaning_delete; [done..|lia]|].
    assert (Hp' : pending h' = delete tok (pending h)) by (unfold h'; by rewrite pending_snoc, Hp3, Hp2, Hp1).
    rewrite Hp'. split; [|split; [apply delete_subseteq|unfold h', h1 in *; set_solver]].
    intros He0. rewrite Hp'. split; [apply lookup_delete_eq|]. intros Hall. destruct b.
    - destruct Hb as (t' & u' & Hin & Hne & Hsha & Hexp). apply in_range in Hin.
      rewrite Hp1 in Hin. pose proof (lookup_weaken _ _ _ _ Hin (cl_subset _ Hc)) as Hin0.
      specialize (Hall t' u' Hin0 Hsha). lia.
    - destruct (Hrem eq_refl) as [r' Hr']. exists r'. unfold h'. set_solver. }
  destruct b; cbn [negb when].
  - exists (h2 ++ [Did (PendingDelete tok) (env _ h2 (PendingDelete tok))])%list.
    split; [rewrite !run_bind; cbn; match goal with |- (Val ?x, _) = _ => by destruct x end|]. apply Hdel; try done.
  - set (p := upload_path viper (pu_Sha256 u)) in *. set (h3 := (h2 ++ [Did (Remove p) (env _ h2 (Remove p))])%list).
    exists (h3 ++ [Did (PendingDelete tok) (env _ h3 (PendingDelete tok))])%list.
    split; [unfold h3; rewrite !run_bind; cbn; match goal with |- (Val ?x, _) = _ => by destruct x end|]. apply Hdel.
    + apply cleaning_remove; [done|]. exists tok, u. split; [done|]. split; [lia|]. split; [done|].
      intros tok' u' Hu' Hsha. destruct (decide (pu_ExpiresAt u' <= t1)) as [|Hlive]; [done|].
      apply (Hb tok'); [|intros ->; rewrite Hu in Hu'; injection Hu' as ->; lia|done].
      apply in_range. rewrite Hp1. apply (cl_live _ Hc); [done|lia].
    + unfold h3. by rewrite pending_snoc.
    + unfold h3. set_solver.
    + intros _. exists (env _ h2 (Remove p)). unfold h3. set_solver.
Qed.

Lemma cleaned_lasting tok u h h' : cleaned tok u h -> pending h' ⊆ pending h -> h ⊆ h' -> cleaned tok u h'.
Proof.
  intros Hc Hp Hh He. destruct (Hc He) as [Hn Hr]. split.
  - destruct (pending h' !! tok) as [v|] eqn:E; [|done]. by rewrite (lookup_weaken _ _ _ _ E Hp) in Hn.
  - intros Hall. destruct (Hr Hall) as [r Hin]. exists r. set_solver.
Qed.

Lemma cleanup_loop ups h : cleaning h -> (forall tok u, (tok, u) ∈ ups -> pending h0 !! tok = Some u) ->
  exists h', forM_ ups (cleanup_one env viper) h = (Val tt, h') /\ cleaning h' /\
    (forall tok u, (tok, u) ∈ ups -> cleaned tok u h') /\ pending h' ⊆ pending h /\ h ⊆ h'.
Proof.
  revert h. induction ups as [|[tok u] ups IH]; intros h Hc Hin.
  { exists h. split; [done|]. split; [done|]. split; [set_solver|]. done. }
  destruct (cleanup_one_run tok u h Hc) as (h1 & Hrun & Hc1 & Hd & Hp & Hh); [apply Hin; set_solver|].
  destruct (IH h1 Hc1) as (h2 & Hrun2 & Hc2 & Hd2 & Hp2 & Hh2); [intros; apply Hin; set_solver|].
  exists h2. split; [cbn [forM_]; rewrite run_bind, Hrun; exact Hrun2|]. split; [done|].
  split; [|split; [by etrans|set_solver]].
  intros tok' u' [[= -> ->]|Hin']%elem_of_cons; [by eapply cleaned_lasting|by apply Hd2].
Qed.
End Cleanup.

(** C22: the clean-up removes what has expired and nothing that is in use. While the clock
    stays between [t0] and [t1], in whatever order the map is visited: the call returns;
    uploads that expire at [t1] or later stay, uploads that expired before [t0] are gone;
    a file is removed only if an upload of it has expired and no upload of it lives beyond
    [t1], and it is removed if its upload has expired and no other one lives beyond [t0]. *)
Theorem cleanup_removes_expired (env : Env) viper `{MapRangeLaws} t0 t1 h :
  (forall h, t0 <= env _ h Now <= t1) ->
  exists h', cleanupExpiredUploads env viper h = (Val tt, h') /\
    pending h' ⊆ pending h /\
    (forall tok u, pending h !! tok = Some u -> t1 <= pu_ExpiresAt u -> pending h' !! tok = Some u) /\
    (forall tok u, pending h !! tok = Some u -> pu_ExpiresAt u < t0 ->
       pending h' !! tok = None /\
       ((forall tok' u', pending h !! tok' = Some u' -> pu_Sha256 u' = pu_Sha256 u -> pu_ExpiresAt u' <= t0) ->
        exists r, Did (Remove (upload_path viper (pu_Sha256 u))) r ∈ h')) /\
    exists t, h' = (h ++ t)%list /\ Forall (removal_ok viper t1 h) t.
Proof.
  intros Hclock. unfold cleanupExpiredUploads, range_pending. rewrite run_bind. cbv beta iota zeta.
  assert (Hc : cleaning viper t1 h h).
  { split; [exists []; by rewrite app_nil_r|done|done]. }
  destruct (cleanup_loop env viper t0 t1 Hclock h (range_of (pending h)) h Hc)
    as (h' & Hrun & [Hr Hs Hl] & Hd & _ & _); [intros; by apply in_range|].
  exists h'. repeat (split; [done|]). split; [|done].
  intros tok u Hu He. apply Hd; [by apply in_range|done].
Qed.

(** * Who may upload what *)
Section Authorised.
Context (env : Env) (viper : string -> string).
Context (sha256 : bytes -> bytes) `{SdkMath} `{SignedData} `{MapRange}.

(** [data] was signed by [address], which may push to repository [repoId]. *)
Definition signed (address : string) (repoId : Z) (data : signData) (h : Trace) : Prop :=
  exists tx d, tx_signers tx = [[address]] /\ verify_tx tx = Ok tt /\ sign_data tx = Some d /\
    unmarshal_sign_data d = Ok data /\ ParseUint (sd_RepositoryId data) = Ok repoId /\
    may_push repoId address h.

(** The file of the request has the size and the hash that were signed. *)
Definition received (data : signData) (h : Trace) : Prop :=
  Did (FormFile "file") (Ok (sd_Size data)) ∈ h /\
  exists tmp content, Did (CopyUpload tmp) (Ok content) ∈ h /\ sd_Sha256 data = hex_encode (sha256 content).

(** What may be written, given what happened before: the file of a signed upload, and its
    entry among the pending uploads. *)
Definition upload_allowed (h : Trace) (o : Obs) : Prop :=
  match o with
  | @Did _ c _ =>
      match c with
      | Create p => exists address repoId data, signed address repoId data h /\ received data h /\
          p = (viper "ATTACHMENT_DIR" +:+ "/" +:+ sd_Sha256 data)%string
      | PendingPut token u => exists address repoId data, signed address repoId data h /\ received data h /\
          token = generateUploadToken sha256 address (sd_Sha256 data) /\ pu_Address u = address /\
          pu_RepositoryId u = repoId /\ pu_TagName u = sd_TagName data /\ pu_FileName u = sd_Name data /\
          pu_Size u = sd_Size data /\ pu_Sha256 u = sd_Sha256 data
      | _ => True
      end
  end.

(** Calls that write neither. *)
Definition calm_call : CallSet := fun A c => match c with Create _ | PendingPut _ _ => false | _ => true end.

Lemma calm_keeps (F : Trace -> Prop) {A} (c : Call A) :
  lasting F -> calm_call A c = true -> keeps (fun h => Guarded upload_allowed h /\ F h) c.
Proof. intros HF Hc. apply Guarded_keeps; [done|]. intros h a _. by destruct c. Qed.

Lemma guards_calm (F : Trace -> Prop) {A} (m : Prog A) (Q : A -> Trace -> Prop) :
  lasting F -> only calm_call m -> (forall h, ends m h Q) ->
  guards upload_allowed F m (fun a h => F h /\ Q a h).
Proof.
  intros HF Hm He h HG Hh.
  assert (Hp : Guarded upload_allowed (m h).2 /\ F (m h).2).
  { apply (Hm (fun h => Guarded upload_allowed h /\ F h)); [|done]. intros B c Hc. by apply calm_keeps. }
  destruct Hp as [Hg Hf]. split; [done|]. intros a h' E. rewrite E in Hf. split; [done|by apply (He h)].
Qed.

Lemma guards_on_error (F : Trace -> Prop) {A B} (m : Prog A) bad (k : A -> Prog B) R Q :
  guards upload_allowed F m R -> preserves F m -> (forall e, guards upload_allowed F (bad e) Q) ->
  (forall a, guards upload_allowed (R a) (k a) Q) -> guards upload_allowed F (on_error m bad k) Q.
Proof.
  intros Hm Hp Hb Hk h HG HF. destruct (Hm h HG HF) as [H1' H2']. specialize (Hp h HF). unfold on_error.
  destruct (m h) as [[a|e|p] h1]; [apply (Hk a); [done|by apply H2']|by apply Hb|by split].
Qed.

Lemma calm_preserves (F : Trace -> Prop) {A} (m : Prog A) : lasting F -> only calm_call m -> preserves F m.
Proof. intros HF Hm. apply Hm. intros B c _. by apply lasting_keeps. Qed.

(** A program without writes, then the rest. *)
Lemma guards_check (F : Trace -> Prop) {A} (m : Prog A) bad (k : A -> Prog unit) (Q : A -> Trace -> Prop) :
  lasting F -> only calm_call m -> (forall e, only calm_call (bad e)) -> (forall h, ends m h Q) ->
  (forall a, guards upload_allowed (fun h => F h /\ Q a h) (k a) (fun _ _ => True)) ->
  guards upload_allowed F (on_error m bad k) (fun _ _ => True).
Proof.
  intros HF Hm Hb He Hk. eapply guards_on_error; [by apply guards_calm|by apply calm_preserves| |exact Hk].
  intros e. eapply guards_conseq; [apply (guards_calm F (bad e) (fun _ _ => True)); [done|done|done]|done|done].
Qed.

Lemma guards_next (F : Trace -> Prop) {A} (m : Prog A) (k : A -> Prog unit) (Q : A -> Trace -> Prop) :
  lasting F -> only calm_call m -> (forall h, ends m h Q) ->
  (forall a, guards upload_allowed (fun h => F h /\ Q a h) (k a) (fun _ _ => True)) ->
  guards upload_allowed F (m ≫= k) (fun _ _ => True).
Proof. intros HF Hm He Hk. eapply guards_bind; [by apply guards_calm|exact Hk]. Qed.

Lemma guards_done (F : Trace -> Prop) (m : Prog unit) :
  lasting F -> only calm_call m -> guards upload_allowed F m (fun _ _ => True).
Proof. intros HF Hm. eapply guards_conseq; [by apply (guards_calm F m (fun _ _ => True))|done|done]. Qed.

Lemma guards_weaken (F F' : Trace -> Prop) (m : Prog unit) :
  guards upload_allowed F m (fun _ _ => True) -> (forall h, F' h -> F h) ->
  guards upload_allowed F' m (fun _ _ => True).
Proof. intros Hm HF. by eapply guards_conseq. Qed.

Lemma guards_forget (F : Trace -> Prop) (m : Prog unit) :
  guards upload_allowed F m (fun _ _ => True) ->
  guards upload_allowed (fun h => F h /\ True) m (fun _ _ => True).
Proof. intros Hm. by eapply guards_weaken; [exact Hm|intros h [? _]]. Qed.

Lemma lasting_signed address repoId data : lasting (signed address repoId data).
Proof.
  intros h t (tx & d & ? & ? & ? & ? & ? & ?). exists tx, d. repeat split; try done. by apply lasting_may_push.
Qed.
Lemma lasting_received data : lasting (received data).
Proof. intros h t [? (tmp & content & ? & ?)]. split; [set_solver|]. exists tmp, content. set_solver. Qed.

Lemma guards_lift_check F {A} (o : outcome A) bad (k : A -> Prog unit) :
  lasting F -> (forall e, only calm_call (bad e)) ->
  (forall a, o = Val a -> guards upload_allowed F (k a) (fun _ _ => True)) ->
  guards upload_allowed F (on_error (lift o) bad k) (fun _ _ => True).
Proof.
  intros HF Hb Hk h HG Hh. unfold on_error, lift. destruct o as [a|e|p]; [by apply Hk| |by split].
  by apply (guards_done F (bad e)).
Qed.

Lemma guards_deferring_calm F (d m : Prog unit) :
  only calm_call d -> lasting F -> guards upload_allowed F m (fun _ _ => True) ->
  guards upload_allowed F (deferring d m) (fun _ _ => True).
Proof.
  intros Hd HF Hm h HG Hh. destruct (Hm h HG Hh) as [H1' _]. split; [|done]. unfold deferring.
  destruct (m h) as [o h1]. simpl in H1'.
  destruct (guards_done (fun _ => True) d (lasting_pure True) Hd h1 H1' I) as [H2' _].
  by destruct (d h1).
Qed.

Lemma guards_allowed (F : Trace -> Prop) {A} (c : Call A) :
  lasting F -> (forall h a, F h -> upload_allowed h (Did c a)) ->
  guards upload_allowed F (call env c) (fun _ h => F h).
Proof.
  intros HF Hc h HG Hh. split; [by apply Guarded_snoc; auto|]. intros a h' [= <- <-]. by apply HF.
Qed.

Lemma HavePushPermission_calm id address : only calm_call (HavePushPermission env id address).
Proof. unfold HavePushPermission. only_calls. Qed.

Lemma referenced_calm sha tok ups : only calm_call (referenced env sha tok ups).
Proof. induction ups as [|[t u] ups IH]; cbn [referenced]; only_calls; by apply IH. Qed.
#[local] Hint Resolve HavePushPermission_calm referenced_calm : go.

Lemma range_pending_calm : only calm_call range_pending.
Proof. by intros I HI h Hh. Qed.
#[local] Hint Resolve range_pending_calm : go.

Lemma cleanupExpiredUploads_calm : only calm_call (cleanupExpiredUploads env viper).
Proof. unfold cleanupExpiredUploads, cleanup_one, isFileReferencedByOtherUploads. only_calls. Qed.

Lemma calculatePendingUploadsSize_calm address id tag :
  only calm_call (calculatePendingUploadsSize env address id tag).
Proof. unfold calculatePendingUploadsSize. only_calls. Qed.
#[local] Hint Resolve cleanupExpiredUploads_calm calculatePendingUploadsSize_calm : go.

(** The facts that the checks establish. *)
Definition checked (address : string) (repoId : Z) (data : signData) (h : Trace) : Prop :=
  signed address repoId data h /\ received data h.
Lemma lasting_checked address repoId data : lasting (checked address repoId data).
Proof. apply lasting_and; [apply lasting_signed|apply lasting_received]. Qed.

(** Steps whose answer does not matter. *)
Ltac pass :=
  eapply (guards_check _ _ _ _ (fun _ _ => True)); [assumption|only_calls|intros ?; only_calls|intros ?; apply ends_any|];
  intros ?; apply guards_forget.
Ltac next :=
  eapply (guards_next _ _ _ (fun _ _ => True)); [assumption|only_calls|intros ?; apply ends_any|];
  intros ?; apply guards_forget.

Lemma store_upload_guards address repoId data tmpFile :
  guards upload_allowed (checked address repoId data)
    (store_upload env viper sha256 address repoId data (sd_Size data) (sd_Sha256 data) tmpFile) (fun _ _ => True).
Proof.
  pose proof (lasting_checked address repoId data) as HF. unfold store_upload, with_lock.
  apply (guards_next _ _ _ (fun _ _ => True)); [done|only_calls|done|]. intros [].
  apply guards_deferring_calm; [only_calls|by apply lasting_and|].
  eapply guards_weaken; [|intros h [Hh _]; exact Hh].
  eapply guards_on_error.
  { apply guards_call_res; [done|]. intros h a [Hs Hr]. exists address, repoId, data. auto. }
  { by apply preserves_call_res, lasting_keeps. }
  { intros e. apply guards_done; [done|only_calls]. }
  intros []. eapply guards_weaken; [|intros h [Hh _]; exact Hh].
  do 4 next. eapply guards_bind.
  { apply guards_allowed; [done|]. intros h ? [Hs Hr]. exists address, repoId, data. auto 10. }
  intros ?. apply guards_done; [done|only_calls].
Qed.

Lemma affordable_guards F repo used params address repoId tag delta k :
  lasting F -> guards upload_allowed F k (fun _ _ => True) ->
  guards upload_allowed F (affordable env repo used params address repoId tag delta k) (fun _ _ => True).
Proof.
  intros HF Hk. unfold affordable, or_http, http_text. case_decide; [done|].
  next.
  apply guards_lift_check; [done|intros e; only_calls|]. intros costInfo _. case_decide; [done|].
  eapply (guards_check _ _ _ _ (fun _ _ => True)); [done|only_calls|intros e; only_calls|done|]. intros balance.
  eapply guards_weaken; [|intros h [Hh _]; exact Hh]. case_decide; [apply guards_done; [done|only_calls]|done].
Qed.

Lemma confirmed_guards F address repo repoId data k :
  lasting F -> (forall n, guards upload_allowed F (k n) (fun _ _ => True)) ->
  guards upload_allowed F (confirmed_uploads env sha256 address repo repoId data k) (fun _ _ => True).
Proof.
  intros HF Hk. unfold confirmed_uploads, or_http. case_decide; [|done].
  next. rename a into r. cbv zeta.
  assert (Hgo : forall n, guards upload_allowed F
    (on_error (call_res env (QRepositoryRelease (rp_OwnerId repo) (rp_Name repo) (sd_TagName data)))
       (fun e => call env (HttpError (Error e) 500))
       (fun release => _ ← forM_ (rl_Attachments release) (fun attachment =>
            call env (PendingDelete (generateUploadToken sha256 address (at_Sha attachment)))); k n))
    (fun _ _ => True)).
  { intros n. eapply (guards_check _ _ _ _ (fun _ _ => True)); [done|only_calls|intros e; only_calls|done|].
    intros release. eapply guards_weaken; [|intros h [Hh _]; exact Hh].
    next. apply Hk. }
  destruct r as [asset|e]; [apply Hgo|]. destruct (Contains _ _); [apply Hgo|]. apply guards_done; [done|only_calls].
Qed.

Lemma charge_and_store_guards address repoId data tmpFile :
  guards upload_allowed (checked address repoId data)
    (charge_and_store env viper sha256 address repoId data (sd_Size data) (sd_Sha256 data) tmpFile) (fun _ _ => True).
Proof.
  pose proof (lasting_checked address repoId data) as HF. unfold charge_and_store, or_http.
  next. do 4 pass. apply confirmed_guards; [done|]. intros n. apply affordable_guards; [done|].
  apply store_upload_guards.
Qed.

Lemma receive_file_guards address repoId data :
  guards upload_allowed (signed address repoId data)
    (receive_file env viper sha256 address repoId data) (fun _ _ => True).
Proof.
  pose proof (lasting_signed address repoId data) as HF. unfold receive_file, or_http, http_text.
  eapply (guards_check _ _ _ _ (fun size h => Did (FormFile "file") (Ok size) ∈ h));
    [done|only_calls|intros e; only_calls|intros h; apply ends_call_res; set_solver|].
  intros size. cbv beta.
  assert (HF1 : lasting (fun h => signed address repoId data h /\ Did (FormFile "file") (Ok size) ∈ h)).
  { apply lasting_and; [done|apply lasting_elem]. }
  pass. rename a into tmpFile. apply guards_deferring_calm; [only_calls|done|].
  eapply (guards_check _ _ _ _ (fun content h => Did (CopyUpload tmpFile) (Ok content) ∈ h));
    [done|only_calls|intros e; only_calls|intros h; apply ends_call_res; set_solver|].
  intros content. cbv beta zeta.
  pose proof (lasting_and _ _ HF1 (lasting_elem (Did (CopyUpload tmpFile) (Ok content)))) as HF2. cbv beta in HF2.
  case_decide as Hsize; [apply guards_done; [done|only_calls]|].
  case_decide as Hsha; [apply guards_done; [done|only_calls]|].
  subst size. rewrite Hsha.
  eapply guards_weaken; [apply charge_and_store_guards|]. intros h [[Hs Hf] Hc].
  split; [done|]. split; [done|]. by exists tmpFile, content.
Qed.

Lemma UploadAttachmentHandler_guards r :
  guards upload_allowed (fun _ => True) (UploadAttachmentHandler env viper sha256 r) (fun _ _ => True).
Proof.
  pose proof (lasting_pure True) as HT. unfold UploadAttachmentHandler, or_http, http_text.
  case_decide; [apply guards_done; [done|only_calls]|]. do 2 pass. unfold signed_upload, http_text.
  next. rename a1 into values.
  assert (Hbad : forall t c, guards upload_allowed (fun _ => True) (call env (HttpError t c)) (fun _ _ => True)).
  { intros t c. apply guards_done; [done|only_calls]. }
  destruct values as [|[|c s] values]; [apply Hbad|apply Hbad|].
  destruct (base64_decode _) as [txBytes|]; [|apply Hbad].
  apply guards_lift_check; [done|intros e; only_calls|]. intros tx Htx.
  apply guards_lift_check; [done|intros e; only_calls|]. intros address Ha%single_signer_val.
  eapply (guards_next _ _ _ (fun d _ => sign_data tx = Some d)); [done|only_calls| |].
  { intros h. apply ends_lift. intros d Hd. destruct (sign_data tx); [by injection Hd as ->|done]. }
  intros d. cbv beta.
  assert (HL1 : lasting (fun _ : Trace => True /\ sign_data tx = Some d)) by (by intros h t).
  apply guards_lift_check; [done|intros e; only_calls|]. intros data Hdata%of_res_val.
  apply guards_lift_check; [done|intros e; only_calls|]. intros repoId Hid%of_res_val.
  eapply (guards_check _ _ _ _ (fun b h => b = true -> may_push repoId address h));
    [done|only_calls|intros e; only_calls|intros h; apply HavePushPermission_ends|].
  intros [|]; cbn [negb]; cbv beta.
  2: { apply guards_done; [|only_calls]. by apply lasting_and; [|apply lasting_imp, lasting_may_push]. }
  apply guards_lift_check; [by apply lasting_and; [|apply lasting_imp, lasting_may_push]|intros e; only_calls|].
  intros [] Hv%of_res_val. eapply guards_weaken; [apply receive_file_guards|].
  intros h [[_ Hd] Hp]. exists tx, d. auto 10.
Qed.
End Authorised.

(** C4: only signed uploads are stored. Whatever the form, the chain and the disk answer, a
    file is created, and recorded as pending, only after its size and its hash were found
    to be those of data that one account has signed, whose signature verifies and which
    the chain has described as one that may push to the repository of the data; the file
    is named by that hash and the record has that account, repository, tag and size. *)
Theorem uploads_are_signed (env : Env) viper sha256 `{SdkMath} `{SignedData} `{MapRange} r :
  let h := snd (UploadAttachmentHandler env viper sha256 r []) in
  forall i o, h !! i = Some o -> upload_allowed viper sha256 (take i h) o.
Proof. by apply (UploadAttachmentHandler_guards env viper sha256 r []). Qed.

(** Bob uploads a file with the hash [01] for release [v1] of repository 7, where storage
    costs nothing. *)
#[local] Open Scope string_scope.
Definition demo_data : signData := mkSignData "create-release" "7" "v1" "a.tgz" 3 "01".
Definition demo_signed : @SignedData demo_offchain := {|
  sign_data := fun tx : @Tx demo_offchain => Some "data";
  unmarshal_sign_data := fun _ => Ok demo_data
|}.
Definition demo_range : MapRange := map_to_list.
Definition demo_range_laws : @MapRangeLaws demo_range := fun m => reflexivity _.
Definition upload_env : Env := fun A h c =>
  match c in Call A return A with
  | QRepository _ => Ok dao_repo
  | QDaoMemberAll _ => Ok ["bob"]
  | FormValues _ => ["Ym9i"]
  | FormFile _ => Ok 3
  | CopyUpload _ => Ok [1; 2; 3]
  | QStorageParams => Ok (mkParams 100 (mkCoin "ulore" 0))
  | c => quiet c
  end.
Definition upload_run (e : Env) : outcome unit * Trace :=
  @UploadAttachmentHandler e (fun _ => "/data") (fun _ => [1]) scaled_dec demo_offchain demo_signed demo_range
    (mkHttpRequest "POST" "/upload" "/upload" (fun _ => "") [] 0 false "storage.example") [].
Definition is_create (o : Obs) : bool :=
  match o with @Did _ c _ => match c with Create _ => true | _ => false end end.

Example upload_stores :
  fst (upload_run upload_env) = Val tt /\ answered (snd (upload_run upload_env)) = 1%nat /\
  map_to_list (pending (snd (upload_run upload_env))) =
    [("01", mkPendingUpload "bob" 7 "v1" "a.tgz" 3 "01" 0 PENDING_UPLOAD_EXPIRY)].
Proof. vm_compute. auto. Qed.

Lemma uploads_are_signed_witness :
  exists i, is_create (default (Did Now 0) (snd (upload_run upload_env) !! i)) = true /\
    @upload_allowed (fun _ => "/data") (fun _ => [1]) demo_offchain demo_signed
      (take i (snd (upload_run upload_env))) (default (Did Now 0) (snd (upload_run upload_env) !! i)).
Proof.
  exists 14%nat. split; [vm_compute; reflexivity|].
  apply (@uploads_are_signed upload_env (fun _ => "/data") (fun _ => [1]) scaled_dec demo_offchain demo_signed demo_range
           (mkHttpRequest "POST" "/upload" "/upload" (fun _ => "") [] 0 false "storage.example") 14).
  vm_compute. reflexivity.
Defined.

(** An hour later the upload has expired. *)
Definition late_env : Env := fun A h c =>
  match c in Call A return A with Now => PENDING_UPLOAD_EXPIRY + 5 | c => quiet c end.

Lemma cleanup_removes_expired_witness :
  let h := snd (upload_run upload_env) in
  let t := PENDING_UPLOAD_EXPIRY + 5 in
  exists h', @cleanupExpiredUploads late_env (fun _ => "/data") demo_range h = (Val tt, h') /\
    pending h' ⊆ pending h /\
    (forall tok u, pending h !! tok = Some u -> t <= pu_ExpiresAt u -> pending h' !! tok = Some u) /\
    (forall tok u, pending h !! tok = Some u -> pu_ExpiresAt u < t ->
       pending h' !! tok = None /\
       ((forall tok' u', pending h !! tok' = Some u' -> pu_Sha256 u' = pu_Sha256 u -> pu_ExpiresAt u' <= t) ->
        exists r, Did (Remove (upload_path (fun _ => "/data") (pu_Sha256 u))) r ∈ h')) /\
    exists l, h' = (h ++ l)%list /\ Forall (removal_ok (fun _ => "/data") t h) l.
Proof.
  apply (@cleanup_removes_expired late_env (fun _ => "/data") demo_range demo_range_laws
           (PENDING_UPLOAD_EXPIRY + 5) (PENDING_UPLOAD_EXPIRY + 5) (snd (upload_run upload_env))).
  intros h. cbn [late_env]. lia.
Defined.

(** After an error of the copy the upload is answered a second time, as stored. *)
Definition full_disk : Env := fun A h c =>
  match c in Call A return A with
  | CopyFrom _ _ => Er (ErrNew "no space left on device")
  | c => upload_env _ h c
  end.
Theorem failed_copy_is_recorded :
  answered (snd (upload_run full_disk)) = 2%nat /\ size (pending (snd (upload_run full_disk))) = 1%nat.
Proof. vm_compute. auto. Qed.

#[local] Close Scope string_scope.

(** A token has the account and the hash, but neither the repository nor the release: the
    same file uploaded for another release replaces the first entry, and is no longer
    counted for the first release. *)
Theorem same_file_is_counted_once (env : Env) sha256 address sha u u' h :
  let store u := storePendingUpload env (generateUploadToken sha256 address sha) u in
  pending (snd ((_ ← store u; store u') h)) = <[generateUploadToken sha256 address sha := u']> (pending h).
Proof.
  cbv zeta. unfold storePendingUpload, call. rewrite run_bind. cbv beta iota zeta. unfold snd.
  rewrite !pending_snoc. simpl. by rewrite insert_insert_eq.
Qed.

(** * Locks *)
Section Locks.
Context (env : Env) (viper : string -> string).
Context (sha256 : bytes -> bytes) `{SdkMath} `{SignedData} `{MapRange}.

Lemma cleanupExpiredUploads_balanced : balanced (cleanupExpiredUploads env viper).
Proof.
  assert (Hr : forall sha tok ups, balanced (referenced env sha tok ups)).
  { intros sha tok ups. induction ups as [|[t u] ups IH]; cbn [referenced]; balance. }
  assert (Hm : balanced range_pending) by (by intros h k).
  assert (Hc : forall e, balanced (cleanup_one env viper e)).
  { intros [t u]. unfold cleanup_one, isFileReferencedByOtherUploads. balance. }
  unfold cleanupExpiredUploads. balance.
Qed.
Lemma calculatePendingUploadsSize_balanced address id tag :
  balanced (calculatePendingUploadsSize env address id tag).
Proof.
  assert (Hm : balanced range_pending) by (by intros h k). unfold calculatePendingUploadsSize. balance.
Qed.
#[local] Hint Resolve cleanupExpiredUploads_balanced calculatePendingUploadsSize_balanced : go.

Lemma store_upload_balanced address id data size sha tmp :
  balanced (store_upload env viper sha256 address id data size sha tmp).
Proof. apply with_lock_balanced. unfold or_http, storePendingUpload. balance. Qed.
#[local] Hint Resolve store_upload_balanced : go.

Lemma charge_and_store_balanced address id data size sha tmp :
  balanced (charge_and_store env viper sha256 address id data size sha tmp).
Proof. unfold charge_and_store, confirmed_uploads, affordable, or_http, http_text. balance. Qed.
#[local] Hint Resolve charge_and_store_balanced : go.

Lemma UploadAttachmentHandler_balanced r : balanced (UploadAttachmentHandler env viper sha256 r).
Proof.
  assert (Hp : forall id a, balanced (HavePushPermission env id a)) by (intros; unfold HavePushPermission; balance).
  assert (Hf : forall a id data, balanced (receive_file env viper sha256 a id data)).
  { intros. unfold receive_file, or_http, http_text. balance. }
  unfold UploadAttachmentHandler, signed_upload, or_http, http_text. balance.
Qed.

Lemma GetAttachmentHandler_balanced r : balanced (GetAttachmentHandler env viper r).
Proof.
  assert (Hs : forall rel f, balanced (serve_attachment env viper rel f)).
  { intros rel f h k. unfold serve_attachment, or_http, http_status.
    destruct (ReleaseAttachmentExists _ _) as [i|]; [|by apply balanced_call].
    rewrite run_bind. unfold lift. destruct (index _ _); [|done..].
    apply with_rlock_balanced. balance. }
  unfold GetAttachmentHandler, or_http, http_status. balance.
Qed.
End Locks.
