(* ===== verification/UploadRaces.v ===== *)
(** Uploads that are handled at the same time (internal/app/handler/attachment.go): the
    map of pending uploads and the attachment directory, with the requests as a step
    relation.

    A request looks at the pending uploads, writes the file, and records its upload; the
    clean-up of any other request may come in between, since only the writing takes the
    lock of the asset. An access to the map is one step here, although the map of Go gives
    no such promise. The uploads are those for one release. *)

From S2P Require Import Prelude GoInt StorageFee Merkle World Auth Attachments.

Record Upload := mkUpload { up_Address : string; up_Sha : string; up_Size : Z }.

(** How far a request is. *)
Inductive stage := Arrived | Checked | Written | Stored.

Record Uploads := mkUploads {
  now : Z;
  entries : gmap string PendingUpload;
  files : list string;                 (* the attachment directory *)
  uploads : list (Upload * stage)      (* the requests *)
}.

Section Uploads.
Context (sha256 : bytes -> bytes) (repoId : Z) (tagName fileName : string).
(** Whether the owner can pay for a file of this size, on top of the pending ones. *)
Context (pays : Z -> Z -> bool).

Definition upload_token (u : Upload) : string := generateUploadToken sha256 (up_Address u) (up_Sha u).

(** calculatePendingUploadsSize, at one time. *)
Definition pending_size (address : string) (s : Uploads) : Z :=
  fold_left (fun total e =>
      if decide (pu_Address e.2 = address /\ now s < pu_ExpiresAt e.2) then i64 (total + pu_Size e.2) else total)
    (map_to_list (entries s)) 0.

Definition set_stage (i : nat) (u : Upload) (st : stage) (s : Uploads) : Uploads :=
  mkUploads (now s) (entries s) (files s) (<[i := (u, st)]> (uploads s)).
Definition write_file (sha : string) (s : Uploads) : Uploads :=
  mkUploads (now s) (entries s) (sha :: files s) (uploads s).
Definition record_upload (u : Upload) (s : Uploads) : Uploads :=
  mkUploads (now s)
    (<[upload_token u := mkPendingUpload (up_Address u) repoId tagName fileName (up_Size u) (up_Sha u) (now s)
                           (now s + PENDING_UPLOAD_EXPIRY)]> (entries s))
    (files s) (uploads s).

(** isFileReferencedByOtherUploads *)
Definition still_referenced (sha token : string) (s : Uploads) : bool :=
  existsb (fun e => bool_decide (e.1 <> token /\ pu_Sha256 e.2 = sha /\ now s < pu_ExpiresAt e.2))
    (map_to_list (entries s)).
Definition clean_entry (token : string) (e : PendingUpload) (s : Uploads) : Uploads :=
  mkUploads (now s) (delete token (entries s))
    (if still_referenced (pu_Sha256 e) token s then files s else filter (fun f => f <> pu_Sha256 e) (files s))
    (uploads s).
Definition tick (d : Z) (s : Uploads) : Uploads := mkUploads (now s + d) (entries s) (files s) (uploads s).

(** [whole]: as if a request wrote its file and recorded its upload in one step, as it
    would if the clean-up took the lock too. The code has [whole = false]. *)
Inductive upload_step (whole : bool) : Uploads -> Uploads -> Prop :=
| step_check i u s :
    uploads s !! i = Some (u, Arrived) -> pays (pending_size (up_Address u) s) (up_Size u) = true ->
    upload_step whole s (set_stage i u Checked s)
| step_write i u s :
    whole = false -> uploads s !! i = Some (u, Checked) ->
    upload_step whole s (set_stage i u Written (write_file (up_Sha u) s))
| step_record i u s :
    whole = false -> uploads s !! i = Some (u, Written) ->
    upload_step whole s (set_stage i u Stored (record_upload u s))
| step_store i u s :
    whole = true -> uploads s !! i = Some (u, Checked) ->
    upload_step whole s (set_stage i u Stored (record_upload u (write_file (up_Sha u) s)))
| step_clean token e s :
    entries s !! token = Some e -> pu_ExpiresAt e < now s -> upload_step whole s (clean_entry token e s)
| step_tick d s : 0 < d -> upload_step whole s (tick d s).

Definition arriving (us : list Upload) : Uploads := mkUploads 0 ∅ [] ((fun u => (u, Arrived)) <$> us).

(** The file of every upload that has not expired is there. *)
Definition files_kept (s : Uploads) : Prop :=
  forall token e, entries s !! token = Some e -> now s < pu_ExpiresAt e -> pu_Sha256 e ∈ files s.
End Uploads.

(** * Properties *)
Section Properties.
Context (sha256 : bytes -> bytes) (repoId : Z) (tagName fileName : string) (pays : Z -> Z -> bool).
#[local] Abbreviation step := (upload_step sha256 repoId tagName fileName pays).
#[local] Abbreviation token := (upload_token sha256).

Lemma still_referenced_spec sha t s e t' :
  entries s !! t' = Some e -> t' <> t -> pu_Sha256 e = sha -> now s < pu_ExpiresAt e ->
  still_referenced sha t s = true.
Proof.
  intros He Ht Hs Hn. apply existsb_exists. exists (t', e). split.
  - by apply list_elem_of_In, elem_of_map_to_list.
  - by apply bool_decide_eq_true.
Qed.

(** Cleaning up, and time, keep the files of the uploads that have not expired. *)
Lemma clean_keeps_files t e s :
  entries s !! t = Some e -> pu_ExpiresAt e < now s -> files_kept s -> files_kept (clean_entry t e s).
Proof.
  intros He Hx Hk t' e' He' Hn. simpl in *. apply lookup_delete_Some in He' as [Hne He']. specialize (Hk t' e' He' Hn).
  destruct (still_referenced _ _ _) eqn:Hr; [done|]. apply list_elem_of_filter. split; [|done].
  intros Hs. by rewrite (still_referenced_spec _ _ _ e' t') in Hr.
Qed.

Lemma record_keeps_files u s :
  up_Sha u ∈ files s -> files_kept s -> files_kept (record_upload sha256 repoId tagName fileName u s).
Proof.
  intros Hu Hk t e. simpl. rewrite lookup_insert_Some. intros [[_ <-]|[_ He]] Hn; [done|by apply (Hk t)].
Qed.

(** Were they one step, the file of an upload that has not expired would always be there. *)
Theorem whole_store_keeps_files us s : rtc (step true) (arriving us) s -> files_kept s.
Proof.
  revert s. apply (rtc_ind_r (R := step true)); [by intros t e|]. intros s1 s2 _ Hs Hk.
  destruct Hs as [i u s|i u s|i u s|i u s _ Hi|t e s He Hx|d s Hd]; try done.
  - apply (record_keeps_files u (write_file (up_Sha u) s)); [left|]. intros t e He Hn. right. by apply (Hk t).
  - by apply clean_keeps_files.
  - intros t e He Hn. simpl in *. apply (Hk t e He). lia.
Qed.

#[local] Ltac expose :=
  cbv beta iota delta [clean_entry tick set_stage record_upload write_file arriving entries now files uploads].

(** An upload that has expired does not count. *)
Lemma pending_size_expired address t e n fs us :
  pu_ExpiresAt e <= n -> pending_size address (mkUploads n {[t := e]} fs us) = 0.
Proof.
  intros Hx. unfold pending_size. simpl. rewrite map_to_list_singleton. simpl. rewrite decide_False; [done|lia].
Qed.

(** The clean-up can remove the file of an upload that is answered as stored. A file is
    uploaded again when its first upload has expired; a clean-up comes after the second
    request has written the file, and the upload is recorded without a file. *)
Theorem cleanup_removes_new_file a b sha size :
  pays 0 size = true ->
  exists s, rtc (step false) (arriving [mkUpload a sha size; mkUpload b sha size]) s /\
    uploads s !! 1%nat = Some (mkUpload b sha size, Stored) /\
    (exists e, entries s !! token (mkUpload b sha size) = Some e /\ pu_Sha256 e = sha /\ now s < pu_ExpiresAt e) /\
    sha ∉ files s.
Proof.
  intros Hp. set (ua := mkUpload a sha size) in *. set (ub := mkUpload b sha size) in *.
  eexists. split; [|split; [|split]].
  - eapply rtc_l; [by eapply (step_check _ _ _ _ _ _ 0 ua)|].
    eapply rtc_l; [by eapply (step_write _ _ _ _ _ _ 0 ua)|].
    eapply rtc_l; [by eapply (step_record _ _ _ _ _ _ 0 ua)|].
    eapply rtc_l; [by eapply (step_tick _ _ _ _ _ _ (PENDING_UPLOAD_EXPIRY + 1))|].
    eapply rtc_l; [eapply (step_check _ _ _ _ _ _ 1 ub); [done|]|].
    { expose. rewrite insert_empty, pending_size_expired; [done|cbn [pu_ExpiresAt]; lia]. }
    eapply rtc_l; [by eapply (step_write _ _ _ _ _ _ 1 ub)|].
    eapply rtc_l; [eapply (step_clean _ _ _ _ _ _ (token ua)); [apply lookup_insert_eq|done]|].
    apply rtc_once. by eapply (step_record _ _ _ _ _ _ 1 ub).
  - reflexivity.
  - expose. eexists. split; [apply lookup_insert_eq|]. split; [reflexivity|]. cbn [pu_ExpiresAt].
    unfold PENDING_UPLOAD_EXPIRY. lia.
  - expose. unfold still_referenced. expose. rewrite insert_empty, map_to_list_singleton. cbn [existsb fst snd].
    rewrite bool_decide_eq_false_2 by (by intros [? _]). cbn [orb].
    rewrite !list.filter_cons_False by (by intros H; apply H). set_solver.
Qed.

(** Uploads that are checked at the same time are not added up: each is compared with what
    the owner can pay as if the others were not there. *)
Theorem checks_do_not_add_up us :
  Forall (fun u => pays 0 (up_Size u) = true) us ->
  rtc (step false) (arriving us) (mkUploads 0 ∅ [] ((fun u => (u, Checked)) <$> us)).
Proof.
  intros Hp. unfold arriving. change ((fun u => (u, Arrived)) <$> us) with
    (((fun u => (u, Checked)) <$> []) ++ ((fun u => (u, Arrived)) <$> us)).
  change us with ([] ++ us) at 2. generalize (@nil Upload). induction Hp as [|u us Hu _ IH]; intros done_; simpl.
  { by rewrite !app_nil_r. }
  eapply rtc_l; [apply (step_check _ _ _ _ _ _ (length done_) u); cbn [uploads]|].
  - apply list_lookup_middle. by rewrite length_fmap.
  - exact Hu.
  - expose. specialize (IH (done_ ++ [u])). rewrite fmap_app, <- !app_assoc in IH. cbn [app fmap list_fmap] in IH.
    rewrite insert_app_r_alt, length_fmap, Nat.sub_diag by (by rewrite length_fmap). exact IH.
Qed.
End Properties.
