(* ===== verification/WebServer.v ===== *)
(** The process (cmd/gitopia-storaged/start.go): which handler of the HTTP server or of the
    events a path or a query reaches, and the balance that starting asks for. It composes
    the servers and handlers of the other files.

    The multiplexer is that of net/http; the CORS wrapper of rs/cors, which passes requests
    on, is left out. *)

From S2P Require Import Prelude GoInt GoStrings GoPath Pagination StorageFee Merkle Events World ChainClient Cache PinHandlers Auth Lfs GitHttp Server Merge RepoHandlers PullHandlers Attachments.

#[local] Open Scope string_scope.

(** * http.ServeMux *)
Section Mux.
Context {H : Type}.

(** [cleanPath]: the lexical cleaning of package path, but a slash at the end stays. *)
Definition cleanPath (p : string) : string :=
  let p := if HasPrefix p "/" then p else "/" +:+ p in
  let np := Clean p in
  if HasSuffix p "/" && negb (String.eqb np "/") then np +:+ "/" else np.

(** A pattern that ends in a slash names the paths below it, another one names itself. *)
Definition pattern_matches (path : string) (p : string * H) : bool :=
  String.eqb p.1 path || HasSuffix p.1 "/" && HasPrefix path p.1.

Definition longer (p q : string * H) : string * H :=
  if (slen q.1 <? slen p.1)%nat then p else q.
Fixpoint longest (ps : list (string * H)) : option (string * H) :=
  match ps with
  | [] => None
  | p :: ps => Some (match longest ps with Some q => longer q p | None => p end)
  end.

Inductive routed := To (h : H) | MovedPermanently (path : string) | NoRoute.

Definition exact (patterns : list (string * H)) (path : string) : bool :=
  existsb (fun p => String.eqb p.1 path) patterns.

(** Where the request for a path (without escapes) goes. *)
Definition mux (patterns : list (string * H)) (path : string) : routed :=
  let clean := cleanPath path in
  if negb (exact patterns clean) && negb (HasSuffix clean "/") && exact patterns (clean +:+ "/")
  then MovedPermanently (clean +:+ "/")
  else if negb (String.eqb clean path) then MovedPermanently clean
  else match longest (filter (fun p => pattern_matches path p = true) patterns) with
       | Some p => To p.2
       | None => NoRoute
       end.
End Mux.
Arguments routed : clear implicits.

(** * setupWebServer *)
Inductive Route := Root | Healthz | Objects | Commits | Content_ | CommitDiff | PullDiff | Upload | Releases
  | PullCommits | PullCheck | Raw.

Definition patterns : list (string * Route) :=
  [("/", Root); ("/healthz", Healthz); ("/objects/", Objects); ("/commits", Commits); ("/commits/", Commits);
   ("/content", Content_); ("/diff", CommitDiff); ("/pull/diff", PullDiff); ("/upload", Upload);
   ("/releases/", Releases); ("/pull/commits", PullCommits); ("/pull/check", PullCheck); ("/raw/", Raw)].

Section WebServer.
Context (env : Env) (viper : string -> string) (fuel : nat) (gc : GitopiaProxy).
Context (sha256 : bytes -> bytes) `{MerkleTree} `{SdkMath} `{SignedData} `{MapRange}.
Context (range : list (string * string) -> list (string * string)).

(** The configuration of the server; the names of the hooks are their scripts. *)
Definition web_config : ServerConfig :=
  New_config (mkServerConfig (viper "GIT_REPOS_DIR") "" true true
    (Some (mkHookScripts "gitopia-pre-receive" "" "gitopia-post-receive")) true).

(** The directory of the repositories is there before the first request. *)
Definition setup_repos_dir : Prog unit :=
  _ ← call_res env (MkdirAll (viper "GIT_REPOS_DIR"));
  wrapM "failed to setup server" (Config_Setup env web_config).

Definition ok_response : Prog unit := _ ← call env (WriteHeader 200); _ ← call env (ResponseWrite "OK"); mret tt.

Definition serve_route (route : Route) (r : HttpRequest) : Prog unit :=
  match route with
  | Root => if decide (r_Path r = "/") then ok_response
            else ServeHTTP env viper fuel gc web_config sha256 range (Some (AuthFunc env)) r
  | Healthz => ok_response
  | Objects => ObjectsHandler env viper fuel web_config r
  | Commits => CommitsHandler env viper fuel r
  | Content_ => ContentHandler env viper fuel r
  | CommitDiff => CommitDiffHandler env viper fuel r
  | PullDiff => PullDiffHandler env viper fuel r
  | Upload => UploadAttachmentHandler env viper sha256 r
  | Releases => GetAttachmentHandler env viper r
  | PullCommits => PullRequestCommitsHandler env viper fuel r
  | PullCheck => PullRequestCheckHandler env viper fuel r
  | Raw => GetRawFileHandler env viper fuel r
  end.

(** A redirect names the new path, with the query of the request. *)
Definition web_handler (r : HttpRequest) : Prog unit :=
  match mux patterns (r_Path r) with
  | To route => serve_route route r
  | MovedPermanently path =>
      _ ← call env (SetHeader "Location" path); call env (WriteHeader 301)
  | NoRoute => call env (HttpError "404 page not found" 404)
  end.

(** * checkClientBalance *)
Definition minRequiredAmount : Z := 100000000.
Definition checkClientBalance : Prog unit :=
  if decide (ClientAddress gc = "") then fail (ErrNew "client address is empty") else
  balance ← wrapM "failed to get client balance" (CosmosBankBalance env (ClientAddress gc) "ulore");
  if decide (Amount balance < minRequiredAmount)
  then fail (ErrNew ("insufficient balance: have " +:+ FormatInt (Amount balance) +:+ Denom balance +:+
                     ", need at least " +:+ FormatInt minRequiredAmount +:+ " for storage operations"))
  else mret tt.
End WebServer.

(** * startEventProcessor

    The queries that the three clients subscribe to, and the handlers of their events. *)
Definition InvokeMergePullRequestQuery := "tm.event='Tx' AND message.action='InvokeMergePullRequest'".
Definition InvokeDaoMergePullRequestQuery := "tm.event='Tx' AND message.action='InvokeDaoMergePullRequest'".
Definition ChallengeCreatedQuery :=
  "tm.event='NewBlock' AND gitopia.gitopia.storage.EventChallengeCreated.challenge_id EXISTS".
Definition PackfileUpdatedQuery :=
  "tm.event='Tx' AND gitopia.gitopia.storage.EventPackfileUpdated.repository_id EXISTS".
Definition ReleaseAssetsUpdatedQuery :=
  "tm.event='Tx' AND gitopia.gitopia.storage.EventReleaseAssetsUpdated.repository_id EXISTS".
Definition LfsObjectUpdatedQuery :=
  "tm.event='Tx' AND gitopia.gitopia.storage.EventLFSObjectUpdated.repository_id EXISTS".
Definition DeleteStorageObjectQuery :=
  "tm.event='Tx' AND gitopia.gitopia.storage.EventDeleteStorageObject.repository_id EXISTS".
Definition RepositoryDeletedQuery :=
  "tm.event='Tx' AND gitopia.gitopia.storage.EventRepositoryDeleted.repository_id EXISTS".
Definition ProposalTimeoutQuery :=
  "tm.event='Tx' AND gitopia.gitopia.storage.EventProposalTimeout.provider EXISTS".
Definition CreateReleaseQuery := "tm.event='Tx' AND message.action='CreateRelease'".
Definition UpdateReleaseQuery := "tm.event='Tx' AND message.action='UpdateRelease'".
Definition DeleteReleaseQuery := "tm.event='Tx' AND message.action='DeleteRelease'".
Definition DaoCreateReleaseQuery := "tm.event='Tx' AND message.action='DaoCreateRelease'".
Definition DeleteRepositoryQuery := "tm.event='Tx' AND message.action='DeleteRepository'".

(** The [Handle] functions, with the event type they are called with. *)
Inductive EventHandler :=
| MergeHandle (eventType : string) | ChallengeHandle | DeleteStorageObjectHandle | ProposalTimeoutHandle
| ReleaseHandle (eventType : string) | DeleteRepositoryHandle
| PackfileUpdatedHandle | ReleaseAssetsUpdatedHandle | LfsObjectUpdatedHandle | RepositoryDeletedHandle.

Record WSClient := mkWSClient { ws_Queries : list string; ws_Handlers : list (string * EventHandler) }.

Definition client1 : WSClient := mkWSClient
  [InvokeMergePullRequestQuery; InvokeDaoMergePullRequestQuery; ChallengeCreatedQuery; DeleteStorageObjectQuery;
   ProposalTimeoutQuery]
  [(InvokeMergePullRequestQuery, MergeHandle EventTypeInvokeMergePullRequest);
   (InvokeDaoMergePullRequestQuery, MergeHandle EventTypeInvokeDaoMergePullRequest);
   (ChallengeCreatedQuery, ChallengeHandle); (DeleteStorageObjectQuery, DeleteStorageObjectHandle);
   (ProposalTimeoutQuery, ProposalTimeoutHandle)].
Definition client2 : WSClient := mkWSClient
  [CreateReleaseQuery; UpdateReleaseQuery; DeleteReleaseQuery; DaoCreateReleaseQuery; DeleteRepositoryQuery]
  [(CreateReleaseQuery, ReleaseHandle EventCreateReleaseType);
   (UpdateReleaseQuery, ReleaseHandle EventUpdateReleaseType);
   (DeleteReleaseQuery, ReleaseHandle EventDeleteReleaseType);
   (DaoCreateReleaseQuery, ReleaseHandle EventDaoCreateReleaseType);
   (DeleteRepositoryQuery, DeleteRepositoryHandle)].
Definition client3 : WSClient := mkWSClient
  [PackfileUpdatedQuery; ReleaseAssetsUpdatedQuery; LfsObjectUpdatedQuery; RepositoryDeletedQuery]
  [(PackfileUpdatedQuery, PackfileUpdatedHandle); (ReleaseAssetsUpdatedQuery, ReleaseAssetsUpdatedHandle);
   (LfsObjectUpdatedQuery, LfsObjectUpdatedHandle); (RepositoryDeletedQuery, RepositoryDeletedHandle)].

(** The clients that are started: the third one only with external pinning. *)
Definition clients (external_pinning : bool) : list WSClient :=
  [client1; client2] ++ (if external_pinning then [client3] else []).

(** [query] is the result of [jsonparser.GetString(eventBuf, "query")]; an event without a
    query, or with an unknown one, is ignored. *)
Section RouteEvent.
Context (handle : EventHandler -> Prog unit).
Definition routeEventToHandler (query : res string) (handlers : list (string * EventHandler)) : Prog unit :=
  match query with
  | Er _ => mret tt
  | Ok query =>
      match (list_to_map handlers : gmap string EventHandler) !! query with
      | Some handler => handle handler
      | None => mret tt
      end
  end.
End RouteEvent.

#[local] Close Scope string_scope.

(** * Requests release their locks *)
Section Balanced_server.
Context (env : Env) (viper : string -> string) (fuel : nat) (gc : GitopiaProxy) (cfg : ServerConfig).
Context (sha256 : bytes -> bytes) `{MerkleTree} `{SdkMath} `{Offchain}.
Context (range : list (string * string) -> list (string * string)).

Lemma poll_balanced {A} (c : Call (res A)) missing f :
  is_lock c = false -> balanced (PollForUpdate env fuel (or_missing missing f (query env c))).
Proof.
  intros Hc. apply balanced_preserves. intros k n.
  apply PollForUpdate_preserves; [by apply keeps_held|]. by apply or_missing_preserves, keeps_held.
Qed.
Lemma polls_balanced id user oid :
  balanced (PollForUpdate env fuel (CheckProposePackfileUpdate env id user)) /\
  balanced (PollForUpdate env fuel (CheckProposeLFSObjectUpdate env id oid user)).
Proof. split; by apply poll_balanced. Qed.

Lemma HavePushPermission_balanced id address : balanced (HavePushPermission env id address).
Proof. unfold HavePushPermission. balance. Qed.
#[local] Hint Resolve HavePushPermission_balanced : go.
Lemma AuthFunc_balanced token r : balanced (AuthFunc env token r).
Proof. unfold AuthFunc. balance. Qed.
Lemma ValidateBasicAuth_balanced r user password : balanced (ValidateBasicAuth env r user password).
Proof. unfold ValidateBasicAuth. balance. Qed.
#[local] Hint Resolve AuthFunc_balanced ValidateBasicAuth_balanced : go.

#[local] Hint Extern 1 (balanced (with_lock _ _ _)) => apply with_lock_balanced; balance : go.
#[local] Hint Extern 1 (balanced (with_rlock _ _ _)) => apply with_rlock_balanced; balance : go.

(** ** Git *)
Lemma handleGitReceivePack_balanced req id :
  balanced (handleGitReceivePack env fuel gc cfg sha256 req id).
Proof.
  pose proof (fun user => proj1 (polls_balanced id user "")).
  assert (Hc : forall A p e, balanced (@cleanup_fail env A p e)) by (intros; unfold cleanup_fail; balance).
  assert (Ho : forall A p msg (m : Prog A), balanced m -> balanced (or_cleanup env p msg m))
    by (intros; unfold or_cleanup; balance).
  unfold handleGitReceivePack, no_pending_proposal, check_charge, pin_and_hash, confirm_proposal,
    or_cleanup, GetPackfileName, file_size, ipfs_PinFile, ProposePackfileUpdate.
  balance.
Qed.
#[local] Hint Resolve handleGitReceivePack_balanced : go.

Lemma run_rpc_balanced service req id : balanced (run_rpc env fuel gc cfg sha256 service req id).
Proof. unfold run_rpc, fail500. balance. Qed.
#[local] Hint Resolve run_rpc_balanced : go.

Lemma git_handler_balanced g req : balanced (git_handler env viper fuel gc cfg sha256 g req).
Proof.
  destruct g as [|rpc]; simpl; [unfold GetInfoRefs, packLine, packFlush | unfold PostRPC, fail500]; balance.
Qed.
#[local] Hint Resolve git_handler_balanced : go.

Lemma ObjectsHandler_balanced r : balanced (ObjectsHandler env viper fuel cfg r).
Proof. unfold ObjectsHandler. balance. Qed.

(** ** LFS *)
Lemma responseJSON_balanced status v : balanced (responseJSON env status v).
Proof. unfold responseJSON. balance. Qed.
Lemma LocalStorage_balanced root oid :
  balanced (LocalStorage_Upload env root oid) /\ balanced (LocalStorage_Download env root oid) /\
  balanced (LocalStorage_Size env root oid).
Proof. unfold LocalStorage_Upload, LocalStorage_Download, LocalStorage_Size. repeat split; balance. Qed.
#[local] Hint Resolve responseJSON_balanced : go.
#[local] Hint Extern 1 (balanced (LocalStorage_Upload _ _ _)) => apply LocalStorage_balanced : go.
#[local] Hint Extern 1 (balanced (LocalStorage_Download _ _ _)) => apply LocalStorage_balanced : go.
#[local] Hint Extern 1 (balanced (LocalStorage_Size _ _ _)) => apply LocalStorage_balanced : go.

Lemma ServeUploadHandler_balanced address r :
  balanced (ServeUploadHandler env viper fuel gc sha256 address r).
Proof.
  pose proof (fun id user oid => proj2 (polls_balanced id user oid)).
  assert (Hs : forall id oid, balanced (store_and_propose env viper fuel gc sha256 address id oid)).
  { intros id oid. unfold store_and_propose, calculateMerkleRoot, internalServerError, ipfs_PinFile,
      LFSObjectByRepositoryIdAndOid, query, ProposeLFSObjectUpdate. balance. }
  unfold ServeUploadHandler, internalServerError, Repository_, UserQuota, StorageParams, CosmosBankBalance, query.
  balance.
Qed.
#[local] Hint Resolve ServeUploadHandler_balanced : go.

Lemma Authenticate_balanced h r : (forall a r, balanced (h a r)) -> balanced (Authenticate env h r).
Proof. intros Hh. unfold Authenticate. balance. Qed.

Lemma lfs_handler_balanced l r : balanced (lfs_handler env viper fuel gc sha256 l r).
Proof.
  assert (Hb : forall r id op objects, balanced (serve_batch env viper r id op objects)).
  { intros. unfold serve_batch, stored_sizes. balance. }
  destruct l; simpl; try (apply Authenticate_balanced; intros; auto with go);
    unfold ServeBatchHandler, ServeDownloadHandler, ServeVerifyHandler, ServeCreateLockHandler,
      ServeListLocksHandler, ServeUnlockHandler, ServeVerifyLocksHandler, lock_request, bad_request,
      internalServerError; balance.
Qed.
#[local] Hint Resolve lfs_handler_balanced : go.

(** ** The server *)
Lemma initRepo_balanced name : balanced (initRepo env cfg range name).
Proof. unfold initRepo, SetupInDir. balance. Qed.
#[local] Hint Resolve initRepo_balanced : go.

Lemma ServeHTTP_balanced r :
  balanced (ServeHTTP env viper fuel gc cfg sha256 range (Some (AuthFunc env)) r).
Proof.
  assert (Hd : forall g req, balanced (dispatch env viper fuel gc cfg sha256 range g req)).
  { intros g req. unfold dispatch, repoExists. balance. }
  unfold ServeHTTP, authenticated. balance.
Qed.
End Balanced_server.

Section Balanced_web.
Context (env : Env) (viper : string -> string) (fuel : nat) (gc : GitopiaProxy).
Context (sha256 : bytes -> bytes) `{MerkleTree} `{SdkMath} `{SignedData} `{MapRange}.
Context (range : list (string * string) -> list (string * string)).

Lemma web_handler_balanced r : balanced (web_handler env viper fuel gc sha256 range r).
Proof.
  destruct (pull_handlers_balanced env viper fuel r) as (B1 & B2 & B3).
  pose proof (ServeHTTP_balanced env viper fuel gc (web_config viper) sha256 range r).
  pose proof (ObjectsHandler_balanced env viper fuel (web_config viper) r).
  unfold web_handler. destruct (mux _ _) as [route|path|]; [|balance..].
  destruct route; simpl; unfold ok_response; balance.
  - apply balanced_preserves, UploadAttachmentHandler_balanced.
  - apply balanced_preserves, GetAttachmentHandler_balanced.
Qed.
End Balanced_web.

(** * What a request publishes

    The calls that reach the chain or pin in the cluster. *)
Definition publishes {A} (c : Call A) : bool :=
  match c with AddToBatch _ | ClusterAdd _ | ClusterPin _ _ => true | _ => false end.
Definition unpublished : CallSet := fun A c => negb (publishes c).

(** A publication is for a client that may push, and on its behalf. *)
Definition published_ok (r : HttpRequest) `{Offchain} (h : Trace) (o : Obs) : Prop :=
  match o with
  | @Did _ c _ => publishes c = true ->
      exists address, authorised (token_of r) (r_Path r) address h /\ on_behalf r address c
  end.

Section Publications.
Context (env : Env) (viper : string -> string) (fuel : nat) (gc : GitopiaProxy).
Context (sha256 : bytes -> bytes) `{MerkleTree} `{SdkMath} `{SignedData} `{MapRange}.
Context (range : list (string * string) -> list (string * string)) (r : HttpRequest).

Lemma write_ok_published h : Guarded (write_ok r) h -> Guarded (published_ok r) h.
Proof.
  intros HG i o Ho. specialize (HG i o Ho). destruct o as [A c a]. unfold write_ok, published_ok in *.
  intros Hp. apply HG. by destruct c.
Qed.

(** Programs that publish nothing, in any trace. *)
Lemma keeps_published {A} (c : Call A) : unpublished A c = true -> keeps (Guarded (published_ok r)) c.
Proof.
  intros Hc%negb_true_iff h a HG. apply Guarded_snoc. split; [done|]. unfold published_ok. by rewrite Hc.
Qed.
Lemma unpublished_ok {A} (m : Prog A) : only unpublished m -> preserves (Guarded (published_ok r)) m.
Proof. intros Hm. apply Hm. intros B c. apply keeps_published. Qed.

Lemma reads_unpublished {A} (m : Prog A) : only reader_call m -> only unpublished m.
Proof. intros Hm. eapply only_weaken; [exact Hm|]. by intros B []. Qed.
Lemma pulls_unpublished {A} (m : Prog A) : only pull_call m -> only unpublished m.
Proof. intros Hm. eapply only_weaken; [exact Hm|]. by intros B []. Qed.

Lemma Server_CacheRepository_unpublished dir id : only unpublished (Server_CacheRepository env viper fuel dir id).
Proof. eapply only_weaken; [apply Server_CacheRepository_calls|]. by intros B []. Qed.
#[local] Hint Resolve Server_CacheRepository_unpublished : go.
Lemma ObjectsHandler_unpublished cfg : only unpublished (ObjectsHandler env viper fuel cfg r).
Proof. unfold ObjectsHandler, with_rlock. only_calls. Qed.

Lemma UploadAttachmentHandler_unpublished : only unpublished (UploadAttachmentHandler env viper sha256 r).
Proof.
  assert (Hr : forall sha tok ups, only unpublished (referenced env sha tok ups)).
  { intros sha tok ups. induction ups as [|[t u] ups IH]; cbn [referenced]; only_calls; by apply IH. }
  assert (Hm : only unpublished range_pending) by by intros I HI h Hh.
  assert (Hp : forall id a, only unpublished (HavePushPermission env id a)).
  { intros. unfold HavePushPermission. only_calls. }
  assert (Hc : forall id a data tmp size sha, only unpublished (charge_and_store env viper sha256 a id data size sha tmp)).
  { intros. unfold charge_and_store, confirmed_uploads, affordable, cleanupExpiredUploads, cleanup_one,
      isFileReferencedByOtherUploads, calculatePendingUploadsSize, store_upload, storePendingUpload, with_lock,
      or_http, http_text. only_calls. }
  unfold UploadAttachmentHandler, signed_upload, receive_file, or_http, http_text. only_calls.
Qed.
Lemma GetAttachmentHandler_unpublished : only unpublished (GetAttachmentHandler env viper r).
Proof.
  unfold GetAttachmentHandler, serve_attachment, or_http, http_status, with_rlock. only_calls.
Qed.

Lemma web_handler_publishes :
  (HasSuffix (r_Path r) "/git-receive-pack" = true -> HasSuffix (r_RequestURI r) "git-receive-pack" = true) ->
  Guarded (published_ok r) (snd (web_handler env viper fuel gc sha256 range r [])).
Proof.
  intros Huri. assert (Hq : forall m : Prog unit, only unpublished m -> Guarded (published_ok r) (snd (m []))).
  { intros m Hm. apply (unpublished_ok m Hm), Guarded_nil. }
  unfold web_handler. destruct (mux _ _) as [route|path|]; [|apply Hq; only_calls..].
  destruct route; cbn [serve_route];
    try (apply Hq; unfold ok_response; first
      [ solve [only_calls] | apply ObjectsHandler_unpublished | apply UploadAttachmentHandler_unpublished
      | apply GetAttachmentHandler_unpublished
      | apply reads_unpublished; solve [auto using ContentHandler_reads, GetRawFileHandler_reads, CommitsHandler_reads, CommitDiffHandler_reads]
      | apply pulls_unpublished; solve [auto using PullRequestCheckHandler_pulls, PullRequestCommitsHandler_pulls, PullDiffHandler_pulls] ]).
  destruct (decide _); [apply Hq; unfold ok_response; only_calls|].
  apply write_ok_published. apply ServeHTTP_ok; [done|done|apply Guarded_nil].
Qed.
End Publications.

(** * The multiplexer *)
Lemma cleanPath_rooted p :
  HasPrefix p slash = true ->
  cleanPath p = (if HasSuffix p slash && negb (String.eqb (Clean p) slash) then Clean p +:+ slash else Clean p)%string.
Proof. unfold cleanPath, slash. by intros ->. Qed.

(** A clean path is rooted, and cleaning it again or with a slash at its end changes
    nothing. *)
Lemma cleanPath_clean p :
  let c := cleanPath p in
  HasPrefix c slash = true /\ cleanPath c = c /\
  (HasSuffix c slash = false -> cleanPath (c +:+ slash) = (c +:+ slash)%string).
Proof.
  assert (Hr : exists p', HasPrefix p' slash = true /\ cleanPath p = cleanPath p').
  { destruct (HasPrefix p slash) eqn:Hp; [by exists p|]. exists (slash +:+ p)%string.
    split; [apply HasPrefix_app|]. rewrite (cleanPath_rooted (slash +:+ p)) by apply HasPrefix_app.
    unfold cleanPath, slash in *. by rewrite Hp. }
  destruct Hr as (q & Hq & ->). clear p.
  assert (Hne : q <> EmptyString) by by intros ->.
  destruct (Clean_rooted q Hq) as [Hc Hs]. pose proof (Clean_not_empty q) as Hcn.
  assert (Hcs : HasPrefix (Clean q +:+ slash) slash = true) by (unfold slash in *; by rewrite HasPrefix_slash_app).
  assert (Hslash : Clean q <> slash -> cleanPath (Clean q +:+ slash) = (Clean q +:+ slash)%string).
  { intros Hn. rewrite cleanPath_rooted, HasSuffix_app, Clean_slash, Clean_idem by done.
    by destruct (String.eqb_spec (Clean q) slash). }
  rewrite (cleanPath_rooted q Hq).
  destruct (HasSuffix q slash && negb (String.eqb (Clean q) slash)) eqn:E; cbv zeta.
  - apply andb_true_iff in E as [_ E%negb_true_iff%String.eqb_neq].
    split; [done|]. split; [auto|]. by rewrite HasSuffix_app.
  - split; [done|]. split.
    + rewrite cleanPath_rooted, Clean_idem by done.
      destruct (HasSuffix (Clean q) slash) eqn:Es; [|done]. by rewrite (Hs eq_refl).
    + intros Hf. apply Hslash. intros Heq. by rewrite Heq in Hf.
Qed.

Section Mux_lemmas.
Context {H : Type}.
Implicit Types ps : list (string * H).

Lemma longest_elem ps p : longest ps = Some p -> p ∈ ps /\ forall q, q ∈ ps -> (slen q.1 <= slen p.1)%nat.
Proof.
  revert p. induction ps as [|x ps IH]; intros p; [done|]. simpl. intros [= <-].
  destruct (longest ps) as [q|] eqn:E.
  - destruct (IH q eq_refl) as [Hq Hmax]. unfold longer.
    destruct (Nat.ltb_spec (slen x.1) (slen q.1)) as [Hl|Hl].
    + split; [by right|]. intros y [->|Hy]%elem_of_cons; [lia|]. auto.
    + split; [left|]. intros y [->|Hy]%elem_of_cons; [lia|]. specialize (Hmax y Hy). lia.
  - split; [left|]. intros y [->|Hy]%elem_of_cons; [lia|]. destruct ps; [by apply elem_of_nil in Hy|done].
Qed.

Lemma longest_none ps : longest ps = None -> ps = [].
Proof. by destruct ps. Qed.

(** With a handler for the root, every path leads somewhere, after one redirect at most;
    and the handler is that of the longest pattern. *)
Lemma mux_spec ps path :
  exact ps slash = true ->
  match mux ps path with
  | To h => exists p, (p, h) ∈ ps /\ pattern_matches path (p, h) = true /\
              forall q, q ∈ ps -> pattern_matches path q = true -> (slen q.1 <= slen p)%nat
  | MovedPermanently path' => exists h, mux ps path' = To h
  | NoRoute => False
  end.
Proof.
  intros Hroot. destruct (cleanPath_clean path) as (Hp & Hc & Hs). cbv zeta in *.
  assert (Hfound : forall path', HasPrefix path' slash = true ->
    exists p, longest (filter (fun p => pattern_matches path' p = true) ps) = Some p).
  { intros path' Hp'. destruct (longest _) as [p|] eqn:E; [by exists p|].
    apply longest_none in E. unfold exact in Hroot. apply existsb_exists in Hroot as (p & Hin & Heq%String.eqb_eq).
    assert (Hf : p ∈ filter (fun p => pattern_matches path' p = true) ps).
    { apply list_elem_of_filter. split; [|by apply list_elem_of_In].
      unfold pattern_matches. rewrite Heq, Hp'. apply orb_true_r. }
    by rewrite E in Hf; apply elem_of_nil in Hf. }
  assert (Hfix : forall path', HasPrefix path' slash = true -> cleanPath path' = path' ->
    (exact ps path' = false -> HasSuffix path' slash = false -> exact ps (path' +:+ slash) = false) ->
    exists h, mux ps path' = To h).
  { intros path' Hp' Hc' Hx. destruct (Hfound path' Hp') as [p Hl]. exists p.2.
    unfold mux. cbv zeta. rewrite Hc', String.eqb_refl. cbn [negb]. unfold slash in Hx.
    destruct (exact ps path') eqn:E1, (HasSuffix path' "/") eqn:E2; cbn [negb andb]; try by rewrite Hl.
    rewrite Hx by done. by rewrite Hl. }
  unfold mux at 1. cbv zeta.
  destruct (negb (exact ps (cleanPath path)) && _ && _) eqn:E1.
  { apply andb_true_iff in E1 as [[E1%negb_true_iff E2%negb_true_iff]%andb_true_iff E3].
    apply Hfix; unfold slash in *; [by rewrite HasPrefix_slash_app; [|by intros Hn; rewrite Hn in Hp]|by apply Hs|].
    by rewrite E3. }
  destruct (String.eqb_spec (cleanPath path) path) as [Heq|Hne]; cbn [negb].
  - rewrite Heq in Hp. destruct (Hfound path Hp) as [[p h] Hl]. rewrite Hl.
    apply longest_elem in Hl as [[Hm Hin]%list_elem_of_filter Hmax]. exists p. split; [done|]. split; [done|].
    intros q Hq Hqm. by apply Hmax, list_elem_of_filter.
  - apply Hfix; [done..|]. intros E2 E3. unfold slash in *. rewrite E2, E3 in E1. by cbn in E1.
Qed.
End Mux_lemmas.

(** * Theorems *)

(** C32: a request leaves the locks as it found them. Whatever the environment answers, a
    request that goes through the multiplexer to any of the handlers of the server (git,
    LFS, contents, commits, diffs, pull requests, attachments) has released, when it ends,
    every lock of a repository, an asset or an LFS object that it took: also when the
    handler fails or panics half-way. *)
Theorem requests_release_locks (env : Env) viper fuel gc sha256 `{MerkleTree} `{SdkMath} `{SignedData}
    `{MapRange} range r h k :
  held k (snd (web_handler env viper fuel gc sha256 range r h)) = held k h.
Proof. apply web_handler_balanced. Qed.

(** C2: only clients that may push publish anything. Let the request URI of a push end like
    its path. Whichever handler the multiplexer picks for a request, and whatever the
    environment answers: every message to the chain and every pin in the IPFS cluster
    comes after the token of the request was decoded and verified with a single signer, and
    after the chain had said that this signer may push to the repository of the path; and
    a message is sent on behalf of that signer, about that repository. *)
Theorem requests_publish_for_pushers (env : Env) viper fuel gc sha256 `{MerkleTree} `{SdkMath} `{SignedData}
    `{MapRange} range r :
  (HasSuffix (r_Path r) "/git-receive-pack" = true -> HasSuffix (r_RequestURI r) "git-receive-pack" = true) ->
  Guarded (published_ok r) (snd (web_handler env viper fuel gc sha256 range r [])).
Proof. apply web_handler_publishes. Qed.

(** Every path reaches a handler, after one redirect at most, and it is the handler of
    the longest of the patterns that match the path. *)
Theorem every_path_is_routed path :
  match mux patterns path with
  | To route => exists p, (p, route) ∈ patterns /\ pattern_matches path (p, route) = true /\
                  forall q, q ∈ patterns -> pattern_matches path q = true -> (slen q.1 <= slen p)%nat
  | MovedPermanently path' => exists route, mux patterns path' = To route
  | NoRoute => False
  end.
Proof. by apply mux_spec. Qed.

(** Some paths: that of a repository goes to the git server, [/objects] to the objects
    below it, and a path that is not clean is cleaned first. *)
Example mux_git : mux patterns "/alice/5.git/info/refs" = To Root.
Proof. reflexivity. Qed.
Example mux_objects : mux patterns "/objects" = MovedPermanently "/objects/".
Proof. reflexivity. Qed.
Example mux_dots : mux patterns "/raw//../pull/diff" = MovedPermanently "/pull/diff".
Proof. reflexivity. Qed.
Example mux_content : mux patterns "/content/x" = To Root.
Proof. reflexivity. Qed.

(** No event is lost between the subscriptions and the handlers. An event of a query
    that a client subscribes to reaches the one handler that the client has for the query;
    no query is subscribed to twice, and no client has more than five subscriptions. *)
Theorem subscribed_queries_are_handled external_pinning :
  NoDup (clients external_pinning ≫= ws_Queries) /\
  forall c, c ∈ clients external_pinning ->
    (length (ws_Queries c) <= 5)%nat /\
    forall q, q ∈ ws_Queries c ->
      exists! handler, (q, handler) ∈ ws_Handlers c /\
        forall handle, routeEventToHandler handle (Ok q) (ws_Handlers c) = handle handler.
Proof.
  split; [apply (bool_decide_unpack _); by destruct external_pinning|].
  assert (Hc : Forall (fun c => (length (ws_Queries c) <= 5)%nat /\ NoDup (ws_Handlers c).*1 /\
                 (ws_Handlers c).*1 = ws_Queries c) [client1; client2; client3])
    by (apply (bool_decide_unpack _); by vm_compute).
  intros c Hin. rewrite Forall_forall in Hc.
  destruct (Hc c) as (Hl & Hn & Hq).
  { apply list_elem_of_In in Hin. destruct external_pinning; [done|]. simpl in *. tauto. }
  split; [done|]. rewrite <- Hq. intros q ([q' handler] & -> & Hh)%list_elem_of_fmap. exists handler. split.
  - split; [done|]. intros handle. simpl. by rewrite (elem_of_list_to_map_1 _ _ _ Hn Hh).
  - intros handler' [Hh' _]. apply elem_of_list_to_map_1 in Hh, Hh'; [|done..]. simpl in *. congruence.
Qed.

(** Starting asks for 100 lore: [checkClientBalance] succeeds exactly if the node has an
    address and the chain says that it has at least as much. *)
Theorem checkClientBalance_spec (env : Env) gc h :
  fst (checkClientBalance env gc h) = Val tt <->
  ClientAddress gc <> ""%string /\
  exists amount, env _ h (QBankBalance (ClientAddress gc) "ulore") = Ok amount /\ 100000000 <= amount.
Proof.
  unfold checkClientBalance, CosmosBankBalance.
  destruct (decide (ClientAddress gc = "")) as [He|He]; [by split; [|intros [? _]]|].
  rewrite run_bind. unfold wrapM, call_res. rewrite !run_bind. unfold call.
  destruct (env _ h _) as [amount|e]; simpl.
  - destruct (decide (amount < minRequiredAmount)) as [Hlt|Hge]; unfold minRequiredAmount in *; simpl.
    + split; [done|]. intros (_ & a & [= <-] & Ha). lia.
    + split; [|done]. intros _. split; [done|]. exists amount. split; [done|lia].
  - split; [done|]. by intros (_ & a & [=] & _).
Qed.
Example subscribed_queries_are_handled_witness :
  client3 ∈ clients true /\ (length (ws_Queries client3) <= 5)%nat /\
  exists! handler, (LfsObjectUpdatedQuery, handler) ∈ ws_Handlers client3 /\
    forall handle, routeEventToHandler handle (Ok LfsObjectUpdatedQuery) (ws_Handlers client3) = handle handler.
Proof.
  assert (Hc : client3 ∈ clients true) by (right; right; left).
  split; [done|]. destruct (subscribed_queries_are_handled true) as [_ H].
  destruct (H client3 Hc) as [Hl Hq]. split; [done|]. apply Hq.
  right; right; left.
Defined.

(** Bob's push, through the multiplexer. *)
Definition web_serve (r : HttpRequest) : Trace :=
  snd (@web_handler server_env (fun _ => "/repos"%string) 5 (mkGitopiaProxy "provider") (fun b => b) list_tree scaled_dec
         demo_offchain demo_signed demo_range (fun l => l) r []).
Lemma requests_publish_for_pushers_witness :
  Guarded (@published_ok bobs_push demo_offchain) (web_serve bobs_push) /\
  existsb is_proposal (web_serve bobs_push) = true.
Proof.
  split; [|vm_compute; reflexivity].
  apply (@requests_publish_for_pushers server_env (fun _ => "/repos"%string) 5 (mkGitopiaProxy "provider") (fun b => b)
           list_tree scaled_dec demo_offchain demo_signed demo_range (fun l => l) bobs_push). done.
Defined.
