(* ===== verification/EndToEnd.v ===== *)
(** From the requests and the events to the chain: the handlers that send messages - the
    web server's and those of the events - composed with the goroutines of the batch
    manager that all of them share. *)

From S2P Require Import Prelude BatchTx BatchLoop GoInt GoStrings StorageFee Merkle Events World ChainClient PinHandlers Auth Server Challenge Release Merge RepoHandlers Attachments WebServer.

(** * What the other event handlers send *)

(** Every message that is sent satisfies [ok]. *)
Definition sends_only (ok : Msg -> bool) : CallSet := fun A c =>
  match c with AddToBatch msg => ok msg | _ => true end.

Definition message_is (ok : Msg -> bool) (h : Trace) (o : Obs) : Prop :=
  match o with @Did _ c _ => match c with AddToBatch msg => ok msg = true | _ => True end end.

Lemma only_messages ok {A} (m : Prog A) :
  only (sends_only ok) m -> preserves (Guarded (message_is ok)) m.
Proof.
  intros Hm. apply Hm. intros B c Hc h a HG. apply Guarded_snoc. split; [done|]. by destruct c.
Qed.

(** The proposal of a release, or of the deletion of a repository, of this provider. *)
Definition is_release_proposal (gc : GitopiaProxy) (event : ReleaseEvent) (msg : Msg) : bool :=
  match msg with
  | MsgProposeReleaseAssetsUpdate creator user id tag assets =>
      bool_decide (creator = ClientAddress gc /\ user = rl_Creator event /\
                   id = Events.rl_RepositoryId event /\ tag = rl_Tag event /\ assets <> [] /\
                   CheckProvider gc (rl_Provider event) = true)
  | _ => false
  end.
Definition is_delete_proposal (gc : GitopiaProxy) (event : DeleteRepositoryEvent) (msg : Msg) : bool :=
  match msg with
  | MsgProposeRepositoryDelete creator user id =>
      bool_decide (creator = ClientAddress gc /\ user = dr_Creator event /\
                   id = dr_RepositoryId event /\ CheckProvider gc (dr_Provider event) = true)
  | _ => false
  end.

Section Senders.
Context (env : Env) (viper : string -> string) (fuel : nat) (gc : GitopiaProxy).
Context (sha256 : bytes -> bytes) {M : MerkleTree}.

Lemma PollForUpdate_only ok (check : Prog bool) :
  only ok check -> ok _ Select = true -> only ok (PollForUpdate env fuel check).
Proof.
  intros Hc Hs. unfold PollForUpdate.
  assert (Hl : only ok (poll_loop env fuel check)).
  { induction fuel as [|n IH]; [by intros I HI h Hh|]. cbn [poll_loop]. intros I HI.
    apply preserves_bind; [by apply preserves_call, HI|]. intros []; [apply preserves_fail|].
    apply preserves_bind; [by apply Hc|]. intros []; [apply preserves_ret|]. by apply IH. }
  intros I HI. apply preserves_bind; [by apply Hc|]. intros []; [apply preserves_ret|]. by apply Hl.
Qed.

(** A message that was decided to be right. *)
Lemma only_send ok msg : ok msg = true -> only (sends_only ok) (call_res env (AddToBatch msg)).
Proof. intros H. by apply only_call_res. Qed.

Lemma DeleteRepository_sends event :
  only (sends_only (is_delete_proposal gc event)) (DeleteRepository_Process env fuel gc event).
Proof.
  unfold DeleteRepository_Process. destruct (CheckProvider gc (dr_Provider event)) eqn:Ec; [|only_calls].
  intros I HI. apply preserves_when, preserves_bind.
  - apply preserves_wrapM. refine (only_send (is_delete_proposal gc event) _ _ I HI).
    by apply bool_decide_eq_true.
  - intros _. apply preserves_wrapM. refine (PollForUpdate_only _ _ _ eq_refl I HI).
    unfold CheckProposeRepositoryDelete, or_missing, RepositoryDeleteProposal, query. only_calls.
Qed.

Lemma pin_attachment_sends ok attachment :
  only (sends_only ok) (pin_attachment env viper sha256 attachment).
Proof. unfold pin_attachment, Release_calculateMerkleRoot, ipfs_PinFile. only_calls. Qed.

Lemma propose_sends event updates :
  CheckProvider gc (rl_Provider event) = true ->
  only (sends_only (is_release_proposal gc event)) (propose env fuel gc event updates).
Proof.
  intros Hc. unfold propose. case_bool_decide as Hu; [|only_calls]. intros I HI. apply preserves_when.
  apply preserves_on_error.
  - refine (only_send (is_release_proposal gc event) _ _ I HI). apply bool_decide_eq_true.
    split_and!; try done. intros ->. simpl in Hu. lia.
  - intros _. apply preserves_ret.
  - intros _. apply preserves_bind; [|intros _; apply preserves_ret]. apply preserves_attempt.
    refine (PollForUpdate_only _ _ _ eq_refl I HI).
    unfold CheckProposeReleaseAssetsUpdate, or_missing, ReleaseAssetsUpdateProposal, query. only_calls.
Qed.

Lemma Release_sends range event eventType :
  only (sends_only (is_release_proposal gc event))
    (Release_Process env viper fuel gc sha256 range event eventType).
Proof.
  unfold Release_Process. destruct (CheckProvider gc (rl_Provider event)) eqn:Ec; [cbn [negb]|only_calls].
  pose proof (propose_sends event) as Hp. pose proof (pin_attachment_sends (is_release_proposal gc event)) as Hpin.
  intros I HI.
  assert (Hfold : forall (f : list AssetUpdate -> Events.Attachment -> Prog (list AssetUpdate)) xs acc,
    (forall us a, preserves I (f us a)) -> preserves I (us ← foldM f xs acc; propose env fuel gc event us)).
  { intros f xs acc Hf. apply preserves_bind; [by apply preserves_foldM|]. intros us. exact (Hp us Ec I HI). }
  apply preserves_bind.
  { unfold existing_assets, RepositoryReleaseAssets, query. only_step HI. }
  intros m. repeat case_decide; [..|apply preserves_ret].
  - apply Hfold. intros us a. unfold created. apply preserves_bind; [exact (Hpin a I HI)|]. only_step HI.
  - apply Hfold. intros us a. unfold changed. destruct (match _ with Some _ => _ | None => _ end); [only_step HI|].
    apply preserves_bind; [exact (Hpin a I HI)|]. only_step HI.
  - exact (Hp _ Ec I HI).
Qed.
End Senders.

(** * The jobs of the process

    What the server works on, side by side: requests and events. Each meets its own
    environment, so that whatever the others do meanwhile is among its answers. *)
Section Jobs.
Context (gc : GitopiaProxy) (sha256 : bytes -> bytes).
Context `{MerkleTree} `{SdkMath} `{SignedData} `{MapRange}.

Inductive Job :=
| Request (env : Env) (viper : string -> string) (fuel : nat)
    (range : list (string * string) -> list (string * string)) (r : HttpRequest)
| ChallengeJob (env : Env) (event : ChallengeEvent)
| MergeJob (env : Env) (viper : string -> string) (fuel : nat) (event : InvokeMergePullRequestEvent)
| ReleaseJob (env : Env) (viper : string -> string) (fuel : nat)
    (range : list (string * ChainReleaseAsset) -> list (string * ChainReleaseAsset))
    (event : ReleaseEvent) (eventType : string)
| DeleteJob (env : Env) (fuel : nat) (event : DeleteRepositoryEvent).

Definition trace_of (job : Job) : Trace :=
  match job with
  | Request env viper fuel range r => snd (web_handler env viper fuel gc sha256 range r [])
  | ChallengeJob env event => snd (Challenge_Process env gc sha256 event [])
  | MergeJob env viper fuel event => snd (Merge_Process env viper fuel gc sha256 event [])
  | ReleaseJob env viper fuel range event eventType =>
      snd (Release_Process env viper fuel gc sha256 range event eventType [])
  | DeleteJob env fuel event => snd (DeleteRepository_Process env fuel gc event [])
  end.

(** The job handed the message to AddToBatch. *)
Definition hands_over (job : Job) (msg : Msg) : Prop := msg ∈ messages_of (trace_of job).

(** A push ends its request URI as it ends its path. *)
Definition well_routed (job : Job) : Prop :=
  match job with
  | Request _ _ _ _ r =>
      HasSuffix (r_Path r) "/git-receive-pack" = true -> HasSuffix (r_RequestURI r) "git-receive-pack" = true
  | _ => True
  end.

(** Why the job may send the message, given what happened before: a client that may push
    asked for it; it answers a challenge with a proof that verifies; the merge was done and
    paid for; it proposes what the event of this provider says. *)
Definition justified (job : Job) (h : Trace) (msg : Msg) : Prop :=
  match job with
  | Request _ _ _ _ r =>
      exists address, authorised (token_of r) (r_Path r) address h /\ on_behalf r address (AddToBatch msg)
  | ChallengeJob _ event => exists challenge chunkHash proof,
      Did (QChallenge (ce_ChallengeId event)) (Ok challenge) ∈ h /\
      msg = MsgSubmitChallengeResponse (ClientAddress gc) (ce_ChallengeId event) chunkHash
              (ProofHashes proof) (ProofIndex proof) /\
      VerifyProof chunkHash (Some proof) (ch_RootHash challenge) = Ok true
  | MergeJob _ _ _ event => proposal_ok gc sha256 event h msg
  | ReleaseJob _ _ _ _ event _ => is_release_proposal gc event msg = true
  | DeleteJob _ _ event => is_delete_proposal gc event msg = true
  end.

Lemma guarded_at (P : Trace -> Obs -> Prop) h o :
  Guarded P h -> o ∈ h -> exists h1, h1 `prefix_of` h /\ P h1 o.
Proof.
  intros HG [i Hi]%list_elem_of_lookup. exists (take i h). split; [apply prefix_take|by apply HG].
Qed.

Lemma messages_of_did h msg : msg ∈ messages_of h -> exists a, Did (AddToBatch msg) a ∈ h.
Proof.
  unfold messages_of. intros ([A c a] & Ho & Hc)%list_elem_of_omap. destruct c; try discriminate Hc.
  injection Hc as ->. by exists a.
Qed.

Lemma job_justified `{!MerkleTreeLaws _} job msg :
  well_routed job -> hands_over job msg ->
  exists h, h `prefix_of` trace_of job /\ justified job h msg.
Proof.
  intros Hw [a Ha]%messages_of_did. destruct job as [env viper fuel range r|env event|env viper fuel event
    |env viper fuel range event eventType|env fuel event]; simpl in *.
  - pose proof (web_handler_publishes env viper fuel gc sha256 range r Hw) as HG.
    destruct (guarded_at _ _ _ HG Ha) as (h & Hh & Hp). exists h. split; [done|]. by apply Hp.
  - destruct (Challenge_Process_guards env gc sha256 event [] (Guarded_nil _) I) as [HG _].
    by destruct (guarded_at _ _ _ HG Ha) as (h & Hh & Hp); exists h.
  - destruct (Merge_Process_guards env viper fuel gc sha256 event [] (Guarded_nil _)) as [HG _]; [done|].
    by destruct (guarded_at _ _ _ HG Ha) as (h & Hh & Hp); exists h.
  - pose proof (only_messages _ _ (Release_sends env viper fuel gc sha256 range event eventType) [] (Guarded_nil _)) as HG.
    by destruct (guarded_at _ _ _ HG Ha) as (h & Hh & Hp); exists h.
  - pose proof (only_messages _ _ (DeleteRepository_sends env fuel gc event) [] (Guarded_nil _)) as HG.
    by destruct (guarded_at _ _ _ HG Ha) as (h & Hh & Hp); exists h.
Qed.
End Jobs.
Arguments Job : clear implicits.

(** * Properties *)


(** Bob's push and the answer to a challenge, in one batch. *)
Definition demo_jobs : list Job :=
  [Request server_env (fun _ => "/repos"%string) 5 (fun l => l) bobs_push;
   ChallengeJob challenge_env (mkChallengeEvent 1 "provider")].
Definition demo_trace (job : Job) : Trace :=
  @trace_of (mkGitopiaProxy "provider") (fun b => b) list_tree scaled_dec demo_offchain demo_signed demo_range job.
Definition demo_msgs : list Msg := demo_jobs ≫= (fun job => messages_of (demo_trace job)).

(** A batch that is added, taken and accepted. *)
Definition accepted_run (msgs : list Msg) : list (option Event) :=
  [None; Some (Added msgs); None; None; Some (Accepted msgs)].

Lemma accepted_run_runs n msgs :
  msgs <> [] -> exists m, BatchLoop.run mstep (BatchLoop.initial n) (accepted_run msgs) m.
Proof.
  intros Hne. set (q := BatchTx.AddToBatch msgs NewBatchTxManager).
  assert (Hq : loop_after q = LSend msgs /\ inflight (take_batch q) = [msgs]).
  { unfold loop_after, take_batch, txQueue, q. simpl. rewrite drop_nil, app_nil_r.
    rewrite !decide_False by (intros Hl; by apply nil_length_inv in Hl). simpl. by rewrite take_ge. }
  destruct Hq as [Hl Hi]. eexists. unfold accepted_run.
  eapply run_cons; [apply m_start|]. eapply run_cons; [apply m_add|]. eapply run_cons; [apply m_tick|].
  eapply run_cons; [apply m_loop_take|]. fold q. rewrite Hl.
  eapply run_cons; [|apply run_nil]. by apply (m_loop_sent _ _ msgs _ [] [] true).
Qed.

Lemma accepted_run_added msgs : added_msgs (accepted_run msgs) = msgs.
Proof. unfold added_msgs. simpl. apply app_nil_r. Qed.
Lemma accepted_run_accepted msgs : msgs ∈ accepted_batches (accepted_run msgs).
Proof. by left. Qed.

