(* ===== verification/Startup.v ===== *)
(** Starting and ending the process (cmd/gitopia-storaged/start.go, debug.go, prod.go,
    main.go, get_ipfs_cluster_peer_addresses.go; New and Shutdown of
    internal/app/server.go).

    Each goroutine of the error group is a program. The process is a step relation: the
    programs end in any order, the first error cancels the context, and a server or the
    memory monitor only ends without an error once the context is cancelled. The error
    group is that of golang.org/x/sync, the servers are those of net/http: [Shutdown] makes
    [ListenAndServe] return at once. A program runs in one step, when it ends; nothing
    that another goroutine does in between matters to it but the cancellation. *)

From S2P Require Import Prelude GoInt GoStrings StorageFee World StorageManager ChainClient Offsets CacheManager Server WebServer.
From stdpp Require Import functions.

#[local] Open Scope string_scope.

(** * Closing the stop channel of the batch manager *)
Definition is_close_stop (o : Obs) : bool :=
  match o with @Did _ c _ => match c with CloseStopCh => true | _ => false end end.
Definition stop_closed (h : Trace) : bool := existsb is_close_stop h.

(** [defer d()] for a [d] that may panic. *)
Definition deferred {A} (d : Prog unit) (m : Prog A) : Prog A := fun h =>
  let '(o, h') := m h in
  match d h' with
  | (Panic p, h'') => (Panic p, h'')
  | (_, h'') => (o, h'')
  end.

Section Startup.
Context (env : Env) (viper : string -> string) (GetBool : string -> bool) (GetStringSlice : string -> list string).
Context (NewFilebaseProvider : string -> string -> string -> string -> string -> res string).
(** The build tag [prod]. *)
Context (prod : bool) (fuel : nat) (gc : GitopiaProxy).

(** BatchTxManager.Stop; the batch it sends last is a step of BatchLoop.v. *)
Definition BatchTxManager_Stop : Prog unit :=
  h ← get;
  match stop_closed h with
  | true => gopanic "close of closed channel"
  | false => call env CloseStopCh
  end.

(** GitopiaProxy.Stop and Server.Shutdown; the arguments say whether there is a batch
    manager and a proxy. *)
Definition GitopiaProxy_Stop (batchTxMgr : bool) : Prog unit := when batchTxMgr BatchTxManager_Stop.
Definition Shutdown (proxy : bool) : Prog unit := when proxy (GitopiaProxy_Stop true).

(** * The web server *)
Definition NewServer : Prog unit :=
  _ ← wrapM "failed to get query client" (call_res env GetQueryClient);
  _ ← wrapM "error initializing tx factory" (call_res env (Construct "tx factory"));
  _ ← wrapM "failed to create gitopia client" (call_res env (Construct "gitopia client"));
  on_error (call_res env (Construct "IPFS cluster client"))
    (fun e => _ ← Shutdown true; wrapM "failed to create IPFS cluster client" (fail e))
    (fun _ =>
       _ ← wrapM "failed to start cache manager" (lift (fst (Start_routine new_routine)));
       call env (Go "clearCacheRoutine")).

Definition setupWebServer : Prog unit := _ ← NewServer; setup_repos_dir env viper.

(** A server that is shut down when the context is done. *)
Definition serve_until_done (addr what : string) : Prog unit :=
  _ ← call env (Go "shutdown");
  r ← call env (ListenAndServe addr);
  match r with
  | None => mret tt
  | Some e => wrapM what (fail e)
  end.

Definition startWebServer : Prog unit :=
  _ ← wrapM "failed to setup web server" setupWebServer;
  serve_until_done (":" +:+ viper "WEB_SERVER_PORT") "web server error".

(** * Profiling (debug.go, prod.go) *)
Definition startPprofServer (port : Z) : Prog unit :=
  if prod then mret tt else serve_until_done ("0.0.0.0:" +:+ FormatInt port) "pprof server error".

Fixpoint monitor_loop (fuel : nat) : Prog unit :=
  match fuel with
  | O => gopanic "out of fuel"
  | S fuel =>
      s ← call env Select;
      match s with
      | World.Tick => monitor_loop fuel
      | World.CtxDone _ => mret tt
      end
  end.
Definition startMemoryMonitor : Prog unit := if prod then mret tt else monitor_loop fuel.

(** * The event processor *)

(** [consumer.NewClient]: the file of the offset is opened. *)
Definition consumer_NewClient (topic : string) : Prog unit :=
  opened ← call env (Construct (offset_path topic));
  let disk := mkDisk (fun o => match o, opened with OpenOp, Er e => Some e | _, _ => None end) 0 in
  wrapM "error creating consumer client" (_ ← lift (NewClient disk None); mret tt).

(** The configuration of the external providers. *)
Definition storage_config : Config :=
  mkConfig (viper "PINATA_JWT") (viper "FILEBASE_ACCESS_KEY") (viper "FILEBASE_SECRET_KEY")
    (viper "FILEBASE_BUCKET") (viper "FILEBASE_REGION") (viper "FILEBASE_ENDPOINT")
    (GetStringSlice "STORAGE_PROVIDERS").

(** The manager of the external storage providers: empty without external pinning. *)
Definition newStorageManager : Prog Manager :=
  if GetBool "ENABLE_EXTERNAL_PINNING" then
    providers ← wrapM "failed to create storage providers" (lift (CreateProviders NewFilebaseProvider storage_config));
    mret (NewManager providers)
  else mret (NewManager []).

(** A client that subscribes to its queries and is closed when [k] ends. *)
Definition with_client (n : string) (c : WSClient) (k : Prog unit) : Prog unit :=
  _ ← wrapM ("failed to create WebSocket client " +:+ n) (call_res env (Construct ("WebSocket client " +:+ n)));
  deferring (call env (CloseClient ("WebSocket client " +:+ n)))
    (_ ← wrapM ("failed to subscribe to client " +:+ n ++ " events")
           (call_res env (SubscribeQueries n (ws_Queries c)));
     k).

(** [g.Wait]: the first error of an event stream. *)
Fixpoint first_error (ended : list (string * res unit)) : outcome unit :=
  match ended with
  | [] => Val tt
  | (n, Er e) :: _ => wrap ("client " +:+ n ++ " event processing error") (Fail e)
  | (_, Ok _) :: ended => first_error ended
  end.
Definition wait_streams (ns : list string) : Prog unit :=
  ended ← call env (ProcessEvents ns); lift (first_error ended).

Definition startEventProcessor : Prog unit :=
  _ ← wrapM "failed to create IPFS cluster client" (call_res env (Construct "IPFS cluster client"));
  _ ← consumer_NewClient "invokeMergePullRequestEvent";
  _ ← consumer_NewClient "invokeDaoMergePullRequestEvent";
  _ ← newStorageManager;
  with_client "1" client1 (
  with_client "2" client2 (
    _ ← call env (Go "client 1 event processor");
    _ ← call env (Go "client 2 event processor");
    if GetBool "ENABLE_EXTERNAL_PINNING" then
      with_client "3" client3 (_ ← call env (Go "client 3 event processor"); wait_streams ["1"; "2"; "3"])
    else wait_streams ["1"; "2"])).

(** * start *)

(** [wait] is [g.Wait]. *)
Definition start (wait : Prog unit) : Prog unit :=
  _ ← wrapM "error initializing tx factory" (call_res env (Construct "tx factory"));
  _ ← wrapM "gitopia client error" (call_res env (Construct "gitopia client"));
  deferring (call env (CloseClient "gitopia client"))
    (_ ← wrapM "client balance check failed" (checkClientBalance env gc);
     _ ← call env (Go "processBatches");
     deferred BatchTxManager_Stop
       (_ ← call env (Go "pprof"); _ ← call env (Go "memory monitor");
        _ ← call env (Go "web server"); _ ← call env (Go "event processor");
        wait)).

(** What [start] does before it waits, and after it. *)
Definition start_prefix : Prog unit :=
  _ ← wrapM "error initializing tx factory" (call_res env (Construct "tx factory"));
  _ ← wrapM "gitopia client error" (call_res env (Construct "gitopia client"));
  on_error (wrapM "client balance check failed" (checkClientBalance env gc))
    (fun e => _ ← call env (CloseClient "gitopia client"); fail e)
    (fun _ =>
       _ ← call env (Go "processBatches");
       _ ← call env (Go "pprof"); _ ← call env (Go "memory monitor");
       _ ← call env (Go "web server"); call env (Go "event processor")).
Definition finish (wait : Prog unit) : Prog unit :=
  deferring (call env (CloseClient "gitopia client")) (deferred BatchTxManager_Stop wait).
End Startup.

(** * The process *)
Inductive Task := Pprof | Monitor | Web | Events.

#[export] Instance Task_eq_dec : EqDecision Task.
Proof. solve_decision. Defined.

(** [shared] is what the goroutines of the process did, as far as they have ended; [exit]
    what [start] returned, with the trace at the end. *)
Record Process := mkProcess {
  ended : Task -> option (res unit);
  ctx_done : bool;
  group_err : option error;
  shared : Trace;
  listening : bool;
  requests : nat;      (* requests the web server has not answered yet *)
  exit : option (outcome unit * Trace)
}.

(** An observation that is only made once the context is cancelled: a server was shut
    down, the monitor has stopped. *)
Definition needs_cancel (o : Obs) : bool :=
  match o with
  | @Did _ c a =>
      match c in Call A return A -> bool with
      | ListenAndServe _ => fun r => match r with None => true | Some _ => false end
      | Select => fun r => match r with World.CtxDone _ => true | World.Tick => false end
      | _ => fun _ => false
      end a
  end.
Definition is_listen (o : Obs) : bool :=
  match o with @Did _ c _ => match c with ListenAndServe _ => true | _ => false end end.

Section Process.
Context (viper : string -> string) (GetBool : string -> bool) (GetStringSlice : string -> list string).
Context (NewFilebaseProvider : string -> string -> string -> string -> string -> res string).
Context (prod : bool) (gc : GitopiaProxy).

Definition run_task (env : Env) (fuel : nat) (t : Task) : Prog unit :=
  match t with
  | Pprof => startPprofServer env prod 6060
  | Monitor => startMemoryMonitor env prod fuel
  | Web => startWebServer env viper
  | Events => startEventProcessor env viper GetBool GetStringSlice NewFilebaseProvider
  end.

Definition result_of (o : outcome unit) : res unit := match o with Fail e => Er e | _ => Ok tt end.

(** errgroup: the first error is kept and cancels the context. *)
Definition end_task (t : Task) (r : res unit) (h : Trace) (p : Process) : Process :=
  mkProcess (<[t := Some r]> (ended p)) (ctx_done p || negb (is_ok r))
    (match group_err p, r with None, Er e => Some e | x, _ => x end)
    h (listening p) (requests p) (exit p).

(** How the program of [t] may go: what only happens after the cancellation has not
    happened before it, and the web server fails to start or runs until it ends. *)
Definition possible (t : Task) (p : Process) (h : Trace) : Prop :=
  let new := drop (length (shared p)) h in
  (existsb needs_cancel new = true -> ctx_done p = true) /\
  (t = Web -> existsb is_listen new = listening p).

Inductive step : Process -> Process -> Prop :=
| step_listen p :
    exit p = None -> ended p Web = None ->
    step p (mkProcess (ended p) (ctx_done p) (group_err p) (shared p) true (requests p) (exit p))
| step_request p :
    exit p = None -> listening p = true -> ended p Web = None ->
    step p (mkProcess (ended p) (ctx_done p) (group_err p) (shared p) (listening p) (S (requests p)) (exit p))
| step_answer n p :
    exit p = None -> requests p = S n ->
    step p (mkProcess (ended p) (ctx_done p) (group_err p) (shared p) (listening p) n (exit p))
| step_task env fuel t p o h :
    exit p = None -> ended p t = None ->
    run_task env fuel t (shared p) = (o, h) -> panics o = false -> possible t p h ->
    step p (end_task t (result_of o) h p)
| step_panic env fuel t p w h :
    exit p = None -> ended p t = None ->
    run_task env fuel t (shared p) = (Panic w, h) -> w <> "out of fuel" -> possible t p h ->
    step p (mkProcess (ended p) (ctx_done p) (group_err p) (shared p) (listening p) (requests p) (Some (Panic w, h)))
| step_exit env p :
    exit p = None -> (forall t, is_Some (ended p t)) ->
    step p (mkProcess (ended p) true (group_err p) (shared p) (listening p) (requests p)
      (Some (finish env (lift (match group_err p with Some e => Fail e | None => Val tt end)) (shared p)))).

Definition started (h : Trace) : Process := mkProcess (fun _ => None) false None h false 0 None.

(** The processes that [start] reaches. *)
Definition reachable (p : Process) : Prop :=
  exists env h, start_prefix env gc [] = (Val tt, h) /\ rtc step (started h) p.
End Process.

#[local] Close Scope string_scope.

(** * The programs of the goroutines *)
Definition no_stop : CallSet := fun A c => match c with CloseStopCh => false | _ => true end.

Lemma stop_closed_snoc h o : stop_closed (h ++ [o]) = stop_closed h || is_close_stop o.
Proof. unfold stop_closed. rewrite existsb_app. simpl. by rewrite orb_false_r. Qed.

Lemma keeps_stop b {A} (c : Call A) : no_stop A c = true -> keeps (fun h => stop_closed h = b) c.
Proof. intros Hc h a <-. rewrite stop_closed_snoc. by destruct c; rewrite ?orb_false_r. Qed.

Lemma only_no_stop {A} (m : Prog A) h : only no_stop m -> stop_closed (snd (m h)) = stop_closed h.
Proof. intros Hm. by apply (only_preserves no_stop _ m Hm (@keeps_stop (stop_closed h))). Qed.

Lemma checkClientBalance_safe env gc : safe (checkClientBalance env gc).
Proof. unfold checkClientBalance, CosmosBankBalance. safe_step. Qed.
#[local] Hint Resolve checkClientBalance_safe : go.

(** [start] is what it does before it waits and what it does then. *)
Lemma start_splits env gc wait h :
  start env gc wait h =
  match start_prefix env gc h with
  | (Val tt, h') => finish env wait h'
  | (o, h') => (o, h')
  end.
Proof.
  unfold start, start_prefix, finish. rewrite !run_bind. destruct (wrapM _ _ h) as [[[]|e|p] h1]; [|done|done].
  rewrite !run_bind. destruct (wrapM _ _ h1) as [[[]|e|p] h2]; [|done|done].
  unfold deferring, deferred, on_error. rewrite run_bind.
  pose proof (safe_wrapM "client balance check failed" _ (checkClientBalance_safe env gc) h2) as Hs.
  destruct (wrapM _ _ h2) as [[[]|e|p] h3]; [|by rewrite run_bind|done].
  unfold call. rewrite !run_bind. cbv beta iota zeta. do 4 (rewrite ?run_bind; cbv beta iota zeta).
  by destruct (env unit _ (Go "event processor")).
Qed.

Section Tasks.
Context (env : Env) (viper : string -> string) (GetBool : string -> bool) (GetStringSlice : string -> list string).
Context (NewFilebaseProvider : string -> string -> string -> string -> string -> res string).
Context (prod : bool) (fuel : nat).

#[local] Abbreviation events := (startEventProcessor env viper GetBool GetStringSlice NewFilebaseProvider).

Lemma CreateProviders_safe config : panics (CreateProviders NewFilebaseProvider config) = false.
Proof.
  unfold CreateProviders. generalize (@nil string). induction (EnabledProviders config) as [|n ns IH]; intros ps; [done|].
  simpl. apply panics_bind; [|done]. unfold add_provider. repeat case_decide; try done;
    (apply panics_bind; [rewrite panics_wrap; apply panics_of_res|done]).
Qed.

Lemma events_no_stop : only no_stop events.
Proof.
  unfold startEventProcessor, consumer_NewClient, newStorageManager, with_client, wait_streams. only_calls.
Qed.

Lemma first_error_safe ends : panics (first_error ends) = false.
Proof. by induction ends as [|[n [[]|e]] ends IH]. Qed.

Lemma consumer_NewClient_safe topic : safe (consumer_NewClient env topic).
Proof.
  unfold consumer_NewClient. apply safe_bind; [auto with go|]. intros r. apply safe_wrapM, safe_bind; [|safe_step].
  apply safe_lift. unfold NewClient. simpl. by destruct r.
Qed.
#[local] Hint Resolve consumer_NewClient_safe : go.

Lemma events_safe : safe events.
Proof.
  unfold startEventProcessor, newStorageManager, with_client, wait_streams. safe_step;
    apply safe_lift; auto using CreateProviders_safe, first_error_safe.
Qed.

(** ** The web server *)
#[local] Ltac no_ipfs := split; [done|split; [done|by intros [? [=]]]].
Lemma NewServer_stop h o h' :
  stop_closed h = false -> NewServer env h = (o, h') ->
  panics o = false /\
  (stop_closed h' = true <-> exists e, o = Fail (ErrWrap "failed to create IPFS cluster client" e)).
Proof.
  intros Hs. unfold NewServer. rewrite run_bind, run_wrap_call.
  destruct (env _ h _) as [[]|e]; cbn [of_res wrap]; [|intros [= <- <-]; rewrite stop_closed_snoc, Hs; no_ipfs].
  rewrite run_bind, run_wrap_call.
  destruct (env _ (h ++ _) _) as [[]|e]; cbn [of_res wrap]; [|intros [= <- <-]; rewrite !stop_closed_snoc, Hs; no_ipfs].
  rewrite run_bind, run_wrap_call.
  destruct (env _ ((h ++ _) ++ _) _) as [[]|e]; cbn [of_res wrap]; [|intros [= <- <-]; rewrite !stop_closed_snoc, Hs; no_ipfs].
  unfold on_error, call_res. rewrite run_bind. cbn [call].
  match goal with |- context [lift _ ?h] => set (h4 := h) end.
  assert (Hc : stop_closed h4 = false) by (unfold h4; by rewrite !stop_closed_snoc, Hs).
  clearbody h4. destruct (env _ _ (Construct _)) as [[]|e]; cbn [lift of_res].
  - intros [= <- <-]. rewrite stop_closed_snoc, Hc. no_ipfs.
  - unfold Shutdown, GitopiaProxy_Stop, when, BatchTxManager_Stop. rewrite !run_bind. cbn [get]. rewrite Hc.
    intros [= <- <-]. split; [done|]. rewrite stop_closed_snoc, orb_true_r. split; eauto.
Qed.

Lemma setup_repos_dir_no_stop : only no_stop (setup_repos_dir env viper).
Proof. unfold setup_repos_dir, Config_Setup. only_calls. Qed.
Lemma setup_repos_dir_safe : safe (setup_repos_dir env viper).
Proof. unfold setup_repos_dir, Config_Setup. safe_step. Qed.
Lemma serve_until_done_no_stop addr what : only no_stop (serve_until_done env addr what).
Proof. unfold serve_until_done. only_calls. Qed.
Lemma serve_until_done_safe addr what : safe (serve_until_done env addr what).
Proof. unfold serve_until_done. safe_step. Qed.

(** A server only ends without an error when it is shut down. *)
Lemma serve_until_done_shut addr what h h' :
  serve_until_done env addr what h = (Val tt, h') ->
  exists o, h' = h ++ [o; Did (ListenAndServe addr) None].
Proof.
  unfold serve_until_done. rewrite run_bind. cbn [call]. rewrite run_bind. cbn [call].
  destruct (env _ (h ++ _) _) as [e|]; [done|]. intros [= <-]. eexists. by rewrite <- app_assoc.
Qed.

Lemma startWebServer_stop h o h' :
  stop_closed h = false -> startWebServer env viper h = (o, h') ->
  panics o = false /\
  (stop_closed h' = true -> exists e,
     o = Fail (ErrWrap "failed to setup web server" (ErrWrap "failed to create IPFS cluster client" e))).
Proof.
  intros Hs. unfold startWebServer, setupWebServer. rewrite run_bind. unfold wrapM at 1. rewrite run_bind.
  destruct (NewServer env h) as [o1 h1] eqn:E1. destruct (NewServer_stop _ _ _ Hs E1) as [Hp [Hi _]].
  destruct o1 as [[]|e|p]; [|intros [= <- <-]; split; [done|]; intros H; destruct (Hi H) as [e' [= ->]]; eauto|done].
  assert (H1 : stop_closed h1 = false).
  { apply not_true_is_false. intros H. by destruct (Hi H). }
  pose proof (only_no_stop _ h1 setup_repos_dir_no_stop) as H2. pose proof (setup_repos_dir_safe h1) as H3.
  destruct (setup_repos_dir env viper h1) as [[[]|e|p] h2]; simpl in H2, H3; [|intros [= <- <-]; split; [done|congruence]|done].
  pose proof (only_no_stop _ h2 (serve_until_done_no_stop (":" +:+ viper "WEB_SERVER_PORT") "web server error")) as H4.
  pose proof (serve_until_done_safe (":" +:+ viper "WEB_SERVER_PORT") "web server error" h2) as H5.
  intros E. rewrite E in H4, H5. split; [done|]. simpl in H4. congruence.
Qed.

Lemma length_le_app {A} (h t : list A) : (length h <= length (h ++ t))%nat.
Proof. rewrite length_app. lia. Qed.

Lemma startWebServer_shut h h' :
  startWebServer env viper h = (Val tt, h') ->
  existsb needs_cancel (drop (length h) h') = true /\ existsb is_listen (drop (length h) h') = true.
Proof.
  unfold startWebServer. rewrite run_bind.
  assert (Hl : only (fun _ _ => true) (wrapM "failed to setup web server" (setupWebServer env viper))).
  { unfold setupWebServer, NewServer, Shutdown, GitopiaProxy_Stop, BatchTxManager_Stop, setup_repos_dir, Config_Setup.
    only_calls. }
  pose proof (Hl (fun h' => (length h <= length h')%nat)
    (fun _ c _ k a Hk => Nat.le_trans _ _ _ Hk (length_le_app k [Did c a])) h (Nat.le_refl _)) as Hk.
  destruct (wrapM _ _ h) as [[[]|e|p] h1] eqn:E1; [|done|done].
  simpl in Hk.
  intros [o ->]%serve_until_done_shut. rewrite drop_app_le by done. rewrite !existsb_app. simpl. by rewrite !orb_true_r.
Qed.

Lemma monitor_loop_no_stop n : only no_stop (monitor_loop env n).
Proof. induction n as [|n IH]; [by intros I HI h|]. intros I HI. simpl.
  only_step HI. by apply (only_preserves _ _ _ IH HI). Qed.

Lemma monitor_panics n h w : fst (monitor_loop env n h) = Panic w -> w = "out of fuel"%string.
Proof.
  revert h. induction n as [|n IH]; intros h; simpl; [by intros [=]|].
  rewrite run_bind. cbn [call]. by destruct (env _ h Select); [|apply IH].
Qed.
End Tasks.

(** ** Every goroutine *)
Section Process_proofs.
Context (viper : string -> string) (GetBool : string -> bool) (GetStringSlice : string -> list string).
Context (NewFilebaseProvider : string -> string -> string -> string -> string -> res string).
Context (prod : bool) (gc : GitopiaProxy).

#[local] Abbreviation run_task := (run_task viper GetBool GetStringSlice NewFilebaseProvider prod).
#[local] Abbreviation step := (step viper GetBool GetStringSlice NewFilebaseProvider prod).
#[local] Abbreviation reachable := (reachable viper GetBool GetStringSlice NewFilebaseProvider prod gc).

Lemma run_task_no_stop env fuel t h : t <> Web -> stop_closed (snd (run_task env fuel t h)) = stop_closed h.
Proof.
  intros Ht. destruct t; simpl; [| |done|apply only_no_stop, events_no_stop].
  - unfold startPprofServer. destruct prod; [done|]. apply only_no_stop, serve_until_done_no_stop.
  - unfold startMemoryMonitor. destruct prod; [done|]. apply only_no_stop, monitor_loop_no_stop.
Qed.

(** No goroutine panics. *)
Lemma run_task_panics env fuel t h w :
  (t = Web -> stop_closed h = false) -> fst (run_task env fuel t h) = Panic w -> w = "out of fuel"%string.
Proof.
  intros Hs. destruct t; simpl.
  - unfold startPprofServer. destruct prod; [done|]. intros H.
    pose proof (serve_until_done_safe env ("0.0.0.0:" +:+ FormatInt 6060) "pprof server error" h) as Hp. by rewrite H in Hp.
  - unfold startMemoryMonitor. destruct prod; [done|]. apply monitor_panics.
  - destruct (startWebServer env viper h) as [o h'] eqn:E. apply startWebServer_stop in E as [Hp _]; [|auto].
    simpl. by intros ->.
  - intros H. pose proof (events_safe env viper GetBool GetStringSlice NewFilebaseProvider h) as Hp. by rewrite H in Hp.
Qed.

(** ** Invariant *)
Record proc_inv (p : Process) : Prop := {
  inv_cancel : exit p = None -> ctx_done p = true <-> is_Some (group_err p);
  inv_first e : group_err p = Some e -> exists t, ended p t = Some (Er e);
  inv_failed t e : ended p t = Some (Er e) -> is_Some (group_err p);
  inv_web r : ended p Web = Some (Ok r) -> is_Some (group_err p);
  inv_open : ended p Web = None -> stop_closed (shared p) = false;
  inv_closed : stop_closed (shared p) = true -> exists e, ended p Web =
    Some (Er (ErrWrap "failed to setup web server" (ErrWrap "failed to create IPFS cluster client" e)));
  inv_exit x : exit p = Some x -> (forall t, is_Some (ended p t)) /\
    exists env, x = finish env (lift (match group_err p with Some e => Fail e | None => Val tt end)) (shared p)
}.

Lemma started_inv h : stop_closed h = false -> proc_inv (started h).
Proof. intros Hs. split; simpl; try done; intros; congruence. Qed.

Lemma end_task_inv env fuel t p o h :
  proc_inv p -> exit p = None -> ended p t = None -> run_task env fuel t (shared p) = (o, h) ->
  panics o = false -> possible t p h -> proc_inv (end_task t (result_of o) h p).
Proof.
  intros [Hc Hf Hd Hw Ho Hi He] Hx Ht Hr Hp [Hn _]. specialize (Hc Hx).
  assert (Hg : is_Some (group_err p) -> is_Some (group_err (end_task t (result_of o) h p))).
  { intros [e Hge]. simpl. rewrite Hge. eauto. }
  assert (Hstop : t <> Web -> stop_closed h = stop_closed (shared p)).
  { intros Hne. pose proof (run_task_no_stop env fuel t (shared p) Hne) as Hs. by rewrite Hr in Hs. }
  split.
  - intros _. simpl. rewrite orb_true_iff, Hc. destruct (group_err p) as [e|], (result_of o) as [r|e']; simpl;
      split; eauto; try (by intros [?|?]); try (by intros [? ?]).
  - intros e. simpl. destruct (group_err p) as [e1|] eqn:E.
    + intros [= <-]. destruct (Hf e1) as [t' Ht']; [done|]. exists t'. rewrite fn_lookup_insert_ne; [done|congruence].
    + destruct (result_of o) as [r|e'] eqn:E'; [done|]. intros [= <-]. exists t. by rewrite fn_lookup_insert.
  - intros t' e H. destruct (decide (t' = t)) as [->|Hne].
    + simpl in *. rewrite fn_lookup_insert in H. injection H as ->. destruct (group_err p); eauto.
    + apply Hg, (Hd t' e). simpl in H. by rewrite fn_lookup_insert_ne in H by congruence.
  - intros r H. destruct (decide (t = Web)) as [->|Hne].
    + apply Hg, Hc, Hn. simpl in H. rewrite fn_lookup_insert in H. destruct o as [[]|e|w]; [|done|done].
      by apply (startWebServer_shut env viper) in Hr as [? _].
    + apply Hg, (Hw r). simpl in H. by rewrite fn_lookup_insert_ne in H.
  - simpl. intros H. destruct (decide (t = Web)) as [->|Hne]; [by rewrite fn_lookup_insert in H|].
    rewrite fn_lookup_insert_ne in H by done. rewrite Hstop by done. auto.
  - simpl. intros H. destruct (decide (t = Web)) as [->|Hne].
    + rewrite fn_lookup_insert. destruct (startWebServer_stop env viper _ _ _ (Ho Ht) Hr) as [_ Hs].
      destruct (Hs H) as [e ->]. by exists e.
    + rewrite fn_lookup_insert_ne by done. rewrite Hstop in H by done. auto.
  - simpl. intros x. congruence.
Qed.

Lemma proc_step_inv p p' : step p p' -> proc_inv p -> proc_inv p'.
Proof.
  intros Hs Hi. pose proof Hi as [Hc Hf Hd Hw Ho Hcl He].
  destruct Hs as [p Hx Ht|p Hx Hl Ht|n p Hx Hr|env fuel t p o h Hx Ht Hr Hp Hpos|env fuel t p w h Hx Ht Hr Hw' Hpos|env p Hx Ht].
  1-3: split; simpl; done.
  - by apply (end_task_inv env fuel t p o h).
  - exfalso. apply Hw'. apply (run_task_panics env fuel t (shared p)); [intros ->; auto|by rewrite Hr].
  - split; simpl; try done. intros x [= <-]. eauto.
Qed.

Lemma steps_inv p p' : rtc step p p' -> proc_inv p -> proc_inv p'.
Proof. induction 1; eauto using proc_step_inv. Qed.

Lemma process_inv p : reachable p -> proc_inv p.
Proof.
  intros (env & h & Hh & Hr). assert (Hs : stop_closed h = false).
  { assert (Ho : only no_stop (start_prefix env gc)).
    { unfold start_prefix, checkClientBalance, CosmosBankBalance. only_calls. }
    pose proof (only_no_stop _ [] Ho) as H. by rewrite Hh in H. }
  by apply (steps_inv (started h)), started_inv.
Qed.

(** ** Ending *)
Lemma finish_outcome env o h :
  fst (finish env (lift o) h) = if stop_closed h then Panic "close of closed channel" else o.
Proof.
  unfold finish, deferring, deferred, lift, BatchTxManager_Stop. rewrite run_bind. cbn [get].
  by destruct (stop_closed h).
Qed.

(** What was the first error stays it, and the stop channel stays closed. *)
Lemma steps_keep p p' :
  rtc step p p' -> proc_inv p ->
  (forall e, group_err p = Some e -> group_err p' = Some e) /\
  (stop_closed (shared p) = true -> stop_closed (shared p') = true).
Proof.
  induction 1 as [|p1 p2 p3 Hs _ IH]; intros Hi; [done|].
  destruct (IH (proc_step_inv _ _ Hs Hi)) as [IHe IHs]. clear IH. split.
  - intros e He. apply IHe. destruct Hs; try done. simpl. by rewrite He.
  - intros Hc. apply IHs. destruct Hs as [| | |env fuel t p o h Hx Ht Hr Hp Hpos| |]; try done. simpl.
    destruct (decide (t = Web)) as [->|Hne]; [rewrite (inv_open _ Hi Ht) in Hc; done|].
    pose proof (run_task_no_stop env fuel t (shared p) Hne) as Hs. rewrite Hr in Hs. simpl in Hs. congruence.
Qed.

(** An environment in which servers are shut down and everything else works. *)
Definition ending : Env := fun A h c => quiet c.

Lemma ending_runs t h :
  (t = Web -> stop_closed h = false) -> panics (fst (run_task ending 1 t h)) = false.
Proof.
  intros Hs. destruct t; simpl.
  - unfold startPprofServer. destruct prod; [done|apply serve_until_done_safe].
  - unfold startMemoryMonitor. by destruct prod.
  - destruct (startWebServer ending viper h) as [o h'] eqn:E. by apply startWebServer_stop in E as [? _]; [|auto].
  - apply events_safe.
Qed.

Lemma ending_web h : fst (startWebServer ending viper h) = Val tt.
Proof. reflexivity. Qed.

Lemma end_one t p :
  proc_inv p -> exit p = None -> ctx_done p = true ->
  exists p', rtc step p p' /\ (forall t', is_Some (ended p t') \/ t' = t -> is_Some (ended p' t')) /\
    exit p' = None /\ ctx_done p' = true /\ requests p' = requests p.
Proof.
  intros Hi Hx Hc. destruct (ended p t) as [r|] eqn:Et.
  { exists p. split; [done|]. split; [intros t' [?| ->]; eauto|done]. }
  set (q := mkProcess (ended p) (ctx_done p) (group_err p) (shared p)
    (if decide (t = Web) then true else listening p) (requests p) (exit p)).
  assert (Hq : rtc step p q).
  { unfold q. destruct (decide (t = Web)) as [->|]; [by apply rtc_once; constructor|by destruct p]. }
  destruct (run_task ending 1 t (shared p)) as [o h] eqn:Hr. exists (end_task t (result_of o) h q).
  split; [|split; [|by rewrite <- Hc; simpl; rewrite Hx, Hc]].
  - eapply rtc_r; [exact Hq|]. apply (step_task _ _ _ _ _ ending 1 t q o h); try done.
    + pose proof (ending_runs t (shared p)) as Hp. rewrite Hr in Hp. apply Hp. intros ->. by apply (inv_open _ Hi).
    + split; [done|]. intros ->. simpl in *. pose proof (ending_web (shared p)) as Hv. rewrite Hr in Hv. simpl in Hv.
      subst o. by apply startWebServer_shut in Hr as [_ ?].
  - intros t' H. simpl. destruct (decide (t = t')) as [->|Hne]; [rewrite fn_lookup_insert; eauto|].
    rewrite fn_lookup_insert_ne by done. destruct H as [?|?]; [done|congruence].
Qed.

Lemma cancelled_ends p :
  proc_inv p -> exit p = None -> ctx_done p = true ->
  exists p', rtc step p p' /\ is_Some (exit p') /\ requests p' = requests p.
Proof.
  intros Hi Hx Hc. pose proof steps_inv as Hinv.
  destruct (end_one Pprof p) as (p1 & H1 & E1 & X1 & C1 & R1); [done..|].
  destruct (end_one Monitor p1) as (p2 & H2 & E2 & X2 & C2 & R2); [eauto..|].
  destruct (end_one Web p2) as (p3 & H3 & E3 & X3 & C3 & R3); [eauto..|].
  destruct (end_one Events p3) as (p4 & H4 & E4 & X4 & C4 & R4); [eauto 10..|].
  eexists. split; [|split].
  - eapply rtc_r; [by rewrite H1, H2, H3|]. apply (step_exit _ _ _ _ _ ending); [done|].
    intros []; apply E4; [left; apply E3; left; apply E2; left; apply E1|left; apply E3; left; apply E2
      |left; apply E3|]; auto.
  - simpl. eauto.
  - simpl. congruence.
Qed.
End Process_proofs.

(** * Properties *)
Section Properties.
Context (viper : string -> string) (GetBool : string -> bool) (GetStringSlice : string -> list string).
Context (NewFilebaseProvider : string -> string -> string -> string -> string -> res string).
Context (prod : bool) (gc : GitopiaProxy).

#[local] Abbreviation step := (step viper GetBool GetStringSlice NewFilebaseProvider prod).
#[local] Abbreviation reachable := (reachable viper GetBool GetStringSlice NewFilebaseProvider prod gc).

Lemma reachable_steps p p' : reachable p -> rtc step p p' -> reachable p'.
Proof. intros (env & h & Hh & Hr) Hs. exists env, h. split; [done|by rewrite Hr]. Qed.


(** An error ends the process, and the requests that are being served are cut off. Once
    a goroutine has failed, the others can end and [start] return whatever else happens,
    and nothing waits for the requests in flight. *)
Theorem failed_process_can_end p :
  reachable p -> exit p = None -> (exists t e, ended p t = Some (Er e)) ->
  exists p', rtc step p p' /\ is_Some (exit p') /\ requests p' = requests p.
Proof.
  intros Hr Hx (t & e & Ht). pose proof (process_inv _ _ _ _ _ _ _ Hr) as Hi.
  apply cancelled_ends; [done|done|]. apply (inv_cancel _ Hi Hx). by apply (inv_failed _ Hi t e).
Qed.

(** The error of the IPFS client is never reported. [New] stops the batch manager that it was
    given, and [start] stops it again: whatever the other goroutines do, a process whose web
    server could not create its IPFS client ends with a panic. *)
Theorem ipfs_failure_panics env p e h p' x :
  reachable p -> exit p = None -> ended p Web = None ->
  NewServer env (shared p) = (Fail (ErrWrap "failed to create IPFS cluster client" e), h) ->
  possible Web p h ->
  rtc step (end_task Web (result_of (fst (startWebServer env viper (shared p)))) h p) p' -> exit p' = Some x ->
  fst x = Panic "close of closed channel".
Proof.
  intros Hr Hx Hw Hn Hpos Hs Hx'. pose proof (process_inv _ _ _ _ _ _ _ Hr) as Hi.
  destruct (NewServer_stop _ _ _ _ (inv_open _ Hi Hw) Hn) as [_ [_ Hc]].
  assert (Hrun : startWebServer env viper (shared p) =
    (Fail (ErrWrap "failed to setup web server" (ErrWrap "failed to create IPFS cluster client" e)), h)).
  { unfold startWebServer, setupWebServer. rewrite run_bind. unfold wrapM at 1. by rewrite run_bind, Hn. }
  rewrite Hrun in Hs. pose proof (end_task_inv viper GetBool GetStringSlice NewFilebaseProvider prod env 0 Web p _ h Hi Hx Hw Hrun eq_refl Hpos) as Hi1.
  destruct (steps_keep _ _ _ _ _ _ _ Hs Hi1) as [_ Hk].
  destruct (inv_exit _ (steps_inv _ _ _ _ _ _ _ Hs Hi1) _ Hx') as [_ [env' ->]]. rewrite finish_outcome, Hk; [done|]. simpl. eauto.
Qed.
End Properties.

(** ** Starting *)

(** Goroutines are started for a provider that the chain said has 100 lore. *)
Definition go_ok (gc : GitopiaProxy) (h : Trace) (o : Obs) : Prop :=
  match o with
  | @Did _ c _ =>
      match c with
      | Go _ => exists amount, (minRequiredAmount <= amount)%Z /\ Did (QBankBalance (ClientAddress gc) "ulore") (Ok amount) ∈ h
      | _ => True
      end
  end.

Lemma Guarded_go_ok gc amount h o :
  (minRequiredAmount <= amount)%Z -> Did (QBankBalance (ClientAddress gc) "ulore") (Ok amount) ∈ h ->
  Guarded (go_ok gc) h -> Guarded (go_ok gc) (h ++ [o]).
Proof. intros Ha Hin HG. apply Guarded_snoc. split; [done|]. destruct o as [A [] a]; simpl; eauto. Qed.

(** Nothing is started without the money: every go statement of [start] comes after the chain
    had said that the provider has 100 lore; and [start] waits for the goroutines only then. *)
Theorem start_needs_balance env gc wait h :
  let '(o, h') := start_prefix env gc h in
  (Guarded (go_ok gc) h -> Guarded (go_ok gc) h') /\
  (o <> Val tt -> start env gc wait h = (o, h')).
Proof.
  pose proof (start_splits env gc wait h) as Hsp.
  destruct (start_prefix env gc h) as [o h'] eqn:E. split; [|intros Ho; by destruct o as [[]|e|p]]. clear Hsp. intros HG.
  revert E. unfold start_prefix. rewrite run_bind, run_wrap_call.
  assert (HG1 : forall a, Guarded (go_ok gc) (h ++ [Did (Construct "tx factory") a])) by (intros; by apply Guarded_snoc).
  destruct (env _ h _) as [[]|e]; cbn [of_res wrap]; [|by intros [= <- <-]].
  rewrite run_bind, run_wrap_call. specialize (HG1 (Ok tt)). set (h1 := (h ++ _)%list) in *. clearbody h1.
  assert (HG2 : forall a, Guarded (go_ok gc) (h1 ++ [Did (Construct "gitopia client") a])) by (intros; by apply Guarded_snoc).
  destruct (env _ h1 _) as [[]|e]; cbn [of_res wrap]; [|by intros [= <- <-]].
  specialize (HG2 (Ok tt)). set (h2 := (h1 ++ _)%list) in *. clearbody h2.
  unfold on_error, wrapM at 1, checkClientBalance. destruct (decide _) as [?|Hne].
  { unfold fail. cbv beta iota zeta. rewrite run_bind. intros [= <- <-]. by apply Guarded_snoc. }
  unfold CosmosBankBalance, call_res. rewrite !run_bind. unfold wrapM. rewrite !run_bind. cbn [call].
  destruct (env _ h2 _) as [amount|e] eqn:Eb; cbn [lift of_res mret GoM_ret].
  2: { rewrite run_bind. intros [= <- <-]. rewrite !Guarded_snoc. done. }
  set (h3 := (h2 ++ _)%list). assert (HG3 : Guarded (go_ok gc) h3) by by apply Guarded_snoc.
  assert (Hin : Did (QBankBalance (ClientAddress gc) "ulore") (Ok amount) ∈ h3) by (unfold h3; set_solver).
  clearbody h3. cbn [Amount]. destruct (decide _) as [?|Hge].
  { unfold fail. cbv beta iota zeta. rewrite run_bind. intros [= <- <-]. by apply Guarded_snoc. }
  unfold mret, GoM_ret. cbv beta iota zeta. do 4 (rewrite run_bind; cbn [call]). intros [= _ <-].
  do 5 (apply (Guarded_go_ok gc amount); [lia|set_solver|]). done.
Qed.

(** ** The event clients *)

(** The clients of a trace that were created and not closed. *)
Definition client_step (l : list string) (o : Obs) : list string :=
  match o with
  | @Did _ c a =>
      match c in Call A return A -> list string with
      | Construct what => fun r => if HasPrefix what "WebSocket client" && is_ok r then what :: l else l
      | CloseClient what => fun _ => if decide (head l = Some what) then tail l else l
      | _ => fun _ => l
      end a
  end.
Definition open_clients (h : Trace) : list string := fold_left client_step h [].

Lemma open_clients_snoc h o : open_clients (h ++ [o]) = client_step (open_clients h) o.
Proof. unfold open_clients. by rewrite fold_left_app. Qed.

Lemma client_step_new n l r :
  client_step l (Did (Construct ("WebSocket client " +:+ n)) r) =
  if is_ok r then ("WebSocket client " +:+ n)%string :: l else l.
Proof. by destruct r. Qed.
Lemma client_step_close what l a : client_step (what :: l) (Did (CloseClient what) a) = l.
Proof. simpl. by rewrite decide_True by done. Qed.

Lemma client_step_subscribe l n qs a : client_step l (Did (SubscribeQueries n qs) a) = l.
Proof. done. Qed.

Lemma with_client_open env n c k :
  (forall l, preserves (fun h => open_clients h = l) k) ->
  forall l, preserves (fun h => open_clients h = l) (with_client env n c k).
Proof.
  intros Hk l h Hl. unfold with_client. rewrite run_bind, run_wrap_call.
  destruct (env _ h _) as [[]|e]; cbn [of_res wrap snd]; [|by rewrite open_clients_snoc, client_step_new].
  unfold deferring. set (h1 := (h ++ _)%list).
  assert (H1 : open_clients h1 = ("WebSocket client " +:+ n)%string :: l)
    by (unfold h1; rewrite open_clients_snoc, client_step_new; simpl; by rewrite Hl).
  rewrite run_bind, run_wrap_call. destruct (env _ h1 _) as [[]|e]; cbn [of_res wrap].
  - specialize (Hk _ (h1 ++ [Did (SubscribeQueries n (ws_Queries c)) (Ok tt)]) eq_refl).
    destruct (k _) as [o h2]. cbn [call snd] in *.
    by rewrite open_clients_snoc, Hk, open_clients_snoc, H1, client_step_subscribe, client_step_close.
  - cbn [call snd]. by rewrite !open_clients_snoc, H1, client_step_subscribe, client_step_close.
Qed.

Definition no_client : CallSet := fun A c =>
  match c with
  | Construct what => negb (HasPrefix what "WebSocket client")
  | CloseClient _ => false
  | _ => true
  end.
Lemma keeps_open l {A} (c : Call A) : no_client A c = true -> keeps (fun h => open_clients h = l) c.
Proof. intros Hc h a <-. rewrite open_clients_snoc. destruct c; try done. simpl in *. by destruct (HasPrefix _ _). Qed.

(** No subscription outlives the event processor: however it ends, at whatever call it
    fails, the event clients it has created are closed, the last one first. *)
Theorem event_clients_closed env viper GetBool GetStringSlice NewFilebaseProvider h :
  open_clients (snd (startEventProcessor env viper GetBool GetStringSlice NewFilebaseProvider h)) = open_clients h.
Proof.
  assert (H : forall l, preserves (fun h => open_clients h = l)
                (startEventProcessor env viper GetBool GetStringSlice NewFilebaseProvider)); [|by apply H].
  intros l. pose proof (@keeps_open l) as HI. unfold startEventProcessor, consumer_NewClient, newStorageManager.
  do 4 (apply preserves_bind; [only_step HI|intros _]). clear HI.
  revert l. apply with_client_open. apply with_client_open. intros l. pose proof (@keeps_open l) as HI.
  do 2 (apply preserves_bind; [only_step HI|intros _]). destruct (GetBool _); [|unfold wait_streams; only_step HI].
  clear HI. revert l. apply with_client_open. intros l. pose proof (@keeps_open l) as HI. unfold wait_streams. only_step HI.
Qed.

Lemma with_client_subscribes env n c k h (Q : Trace -> Prop) :
  lasting Q -> (forall h, ends k h (fun _ h' => Q h' /\ h ⊆ h')) ->
  ends (with_client env n c k) h
    (fun _ h' => ((exists n, Did (SubscribeQueries n (ws_Queries c)) (Ok tt) ∈ h') /\ Q h') /\ h ⊆ h').
Proof.
  intros HQ Hk a h'. unfold with_client. rewrite run_bind, run_wrap_call.
  destruct (env _ h _) as [[]|e]; cbn [of_res wrap]; [|done].
  unfold deferring. rewrite run_bind, run_wrap_call. destruct (env _ (h ++ _) _) as [[]|e]; cbn [of_res wrap]; [|done].
  destruct (k _) as [o h3] eqn:Ek. cbn [call]. intros [= -> <-]. apply Hk in Ek as [H1 H2].
  split; [split|]; [exists n; set_solver|by apply HQ|set_solver].
Qed.

Lemma lasting_subscribed c : lasting (fun h => exists n, Did (SubscribeQueries n (ws_Queries c)) (Ok tt) ∈ h).
Proof. intros h t [n Hn]. exists n. set_solver. Qed.

Lemma ends_grow {A} (m : Prog A) h :
  only (fun _ _ => true) m -> ends m h (fun _ h' => True /\ h ⊆ h').
Proof.
  intros Hm a h' E. split; [done|]. specialize (Hm (fun h' => h ⊆ h') (fun _ c _ k b Hk => ltac:(set_solver)) h).
  rewrite E in Hm. by apply Hm.
Qed.

Definition subscribed (c : WSClient) (h : Trace) : Prop :=
  exists n, Did (SubscribeQueries n (ws_Queries c)) (Ok tt) ∈ h.

(** When the processor ends without an error, all the queries of all its clients had been
    subscribed to: those of the third client only with external pinning. *)
Theorem event_processor_subscribes env viper GetBool GetStringSlice NewFilebaseProvider h :
  ends (startEventProcessor env viper GetBool GetStringSlice NewFilebaseProvider) h
    (fun _ h' => Forall (fun c => subscribed c h') (clients (GetBool "ENABLE_EXTERNAL_PINNING"%string))).
Proof.
  unfold startEventProcessor. do 4 (apply ends_skip; intros _ ?). clear h.
  set (Q := fun h => if GetBool "ENABLE_EXTERNAL_PINNING"%string then subscribed client3 h /\ True else True).
  assert (HQ : lasting Q).
  { unfold Q. destruct (GetBool _); [apply lasting_and; [apply lasting_subscribed|]|]; by intros h t. }
  eapply ends_mono; [apply (with_client_subscribes _ _ _ _ _ (fun h => subscribed client2 h /\ Q h))|].
  - apply lasting_and; [apply lasting_subscribed|done].
  - intros h. apply with_client_subscribes; [done|]. intros h1.
    intros a h2. rewrite run_bind. cbn [call]. rewrite run_bind. cbn [call]. unfold Q. destruct (GetBool _).
    + intros H. apply (with_client_subscribes _ _ _ _ _ (fun _ => True)) in H; [|by intros ? ?|intros; apply ends_grow; unfold wait_streams; only_calls].
      destruct H as [? ?]. split; [done|set_solver].
    + intros H. apply ends_grow in H; [|unfold wait_streams; only_calls]. split; [done|set_solver].
  - intros [] h' [[H1 [H2 H3]] _]. unfold Q in H3. unfold clients. destruct (GetBool _); repeat constructor; try done.
    by destruct H3.
Qed.

#[local] Open Scope string_scope.

(** ** Witnesses *)

(** The account has 100 lore; with [broken], one constructor fails. *)
Definition starting (broken : string) : Env := fun A h c =>
  match c in Call A return A with
  | QBankBalance _ _ => Ok 100000000%Z
  | Construct what => if String.eqb what broken then Er (ErrNew "broken") else Ok tt
  | c => quiet c
  end.
Definition no_filebase (a b c d e : string) : res string := Er (ErrNew "no session").
#[local] Abbreviation demo_step := (step (fun _ => "x") (fun _ => true) (fun _ => []) no_filebase false).
#[local] Abbreviation demo_reachable :=
  (reachable (fun _ => "x") (fun _ => true) (fun _ => []) no_filebase false (mkGitopiaProxy "provider")).

(** The process at its start, and when a client of the events could not be created while
    a request was served. *)
Definition at_start : Process := started (snd (start_prefix (starting "") (mkGitopiaProxy "provider") [])).
Definition busy : Process := mkProcess (fun _ => None) false None (shared at_start) true 1 None.
Definition run_events (broken : string) : outcome unit * Trace :=
  startEventProcessor (starting broken) (fun _ => "x") (fun _ => true) (fun _ => []) no_filebase (shared at_start).
Definition cancelled : Process :=
  let '(o, h) := run_events "WebSocket client 3" in end_task Events (result_of o) h busy.

Lemma at_start_reachable : demo_reachable at_start.
Proof. eexists (starting ""), _. split; [vm_compute; reflexivity|]. reflexivity. Qed.

Lemma cancelled_reachable : demo_reachable cancelled.
Proof.
  destruct at_start_reachable as (env & h & Hh & Hr). exists env, h. split; [done|]. rewrite Hr.
  eapply rtc_l; [by apply (step_listen _ _ _ _ _ at_start)|].
  eapply rtc_l; [by apply step_request|]. apply rtc_once.
  apply (step_task _ _ _ _ _ (starting "WebSocket client 3") 0 Events busy (fst (run_events "WebSocket client 3"))); try done.
Qed.

Lemma failed_process_can_end_witness :
  requests cancelled = 1%nat /\
  exists p', rtc demo_step cancelled p' /\ is_Some (exit p') /\ requests p' = requests cancelled.
Proof.
  split; [reflexivity|].
  apply (failed_process_can_end _ _ _ _ _ (mkGitopiaProxy "provider")); [apply cancelled_reachable|reflexivity|].
  exists Events. eexists. reflexivity.
Defined.


Definition run_new (broken : string) : outcome unit * Trace := NewServer (starting broken) (shared at_start).

Lemma ipfs_failure_panics_witness :
  exists e h p' x,
    run_new "IPFS cluster client" = (Fail (ErrWrap "failed to create IPFS cluster client" e), h) /\
    rtc demo_step at_start p' /\ exit p' = Some x /\ fst x = Panic "close of closed channel".
Proof.
  set (h := snd (run_new "IPFS cluster client")).
  assert (Hn : run_new "IPFS cluster client" = (Fail (ErrWrap "failed to create IPFS cluster client" (ErrNew "broken")), h))
    by (vm_compute; reflexivity).
  set (o := fst (startWebServer (starting "IPFS cluster client") (fun _ => "x") (shared at_start))).
  assert (Hp : possible Web at_start h) by (vm_compute; done).
  assert (Hs : demo_step at_start (end_task Web (result_of o) h at_start)).
  { apply (step_task _ _ _ _ _ (starting "IPFS cluster client") 0 Web at_start o h);
      first [exact Hp|vm_compute; reflexivity]. }
  pose proof (proc_step_inv _ _ _ _ _ _ _ Hs (process_inv _ _ _ _ _ _ _ at_start_reachable)) as Hi.
  destruct (cancelled_ends (fun _ => "x") (fun _ => true) (fun _ => []) no_filebase false _ Hi) as (p' & Hr & [x Hx] & _); [reflexivity..|].
  exists (ErrNew "broken"), h, p', x. split; [exact Hn|]. split; [eapply rtc_l; [exact Hs|exact Hr]|]. split; [exact Hx|].
  apply (ipfs_failure_panics _ _ _ _ _ (mkGitopiaProxy "provider") (starting "IPFS cluster client") at_start
           (ErrNew "broken") h p' x at_start_reachable); done.
Defined.
