(* ===== verification/Commands.v ===== *)
(** The command line (cmd/gitopia-storaged/main.go,
    get_ipfs_cluster_peer_addresses.go): the configuration, and the commands that the
    server's own code runs. The commands of the chain's client library are left out. *)

From S2P Require Import Prelude GoInt GoStrings World ChainClient Startup.

#[local] Open Scope string_scope.

(** [strings.ToUpper] on ASCII letters. *)
Definition upper_ascii (c : ascii) : ascii :=
  let n := Ascii.nat_of_ascii c in
  if Nat.leb 97 n && Nat.leb n 122 then Ascii.ascii_of_nat (n - 32) else c.
Fixpoint ToUpper (s : string) : string :=
  match s with
  | "" => ""
  | String c s => String (upper_ascii c) (ToUpper s)
  end.

Section Commands.
Context (env : Env) (viper : string -> string) (AllKeys : list string) (gc : GitopiaProxy).

(** [log.Fatalf] ends the process. *)
Definition Fatalf {A} (text : string) : Prog A := _ ← call env (LogFatal text); fail (ErrNew "exit status 1").

(** initConfig: the value is the global [env], which nothing reads. An error of the local
    configuration is not looked at. *)
Definition initConfig : Prog (list string) :=
  on_error (call_res env (ReadConfig "config"))
    (fun e => Fatalf ("Error reading base config file: " +:+ Error e))
    (fun _ =>
       localConfigErr ← attempt (call_res env (ReadConfig "config.local"));
       _ ← when (is_ok localConfigErr)
             (call env (Println "Loaded local configuration overrides from config.local.toml"));
       mret ((fun key => ToUpper key +:+ "=" +:+ viper key) <$> AllKeys)).

(** [execute] is the command that cobra finds on the command line. *)
Definition main (execute : Prog unit) : Prog unit :=
  _ ← initConfig;
  on_error execute (fun e => Fatalf ("Error executing root command: " +:+ Error e)) mret.

Definition get_ipfs_cluster_peer_addresses : Prog unit :=
  _ ← wrapM "error initializing tx factory" (call_res env (Construct "tx factory"));
  _ ← wrapM "gitopia client error" (call_res env (Construct "gitopia client"));
  deferring (call env (CloseClient "gitopia client"))
    (providers ← wrapM "failed to get active providers" (ActiveProviders env);
     if decide (providers = []) then call env (Println "no active providers")
     else call env (Println (Join providers ","))).
End Commands.

#[local] Close Scope string_scope.

(** * Properties *)

(** What the program prints to standard output. *)
Definition line_of (o : Obs) : option string :=
  match o with @Did _ c _ => match c with Println text => Some text | _ => None end end.
Definition printed (h : Trace) : list string := omap line_of h.

Lemma printed_snoc h o :
  printed (h ++ [o]) = printed h ++ match line_of o with Some text => [text] | None => [] end.
Proof. unfold printed. rewrite omap_app. simpl. by destruct (line_of o). Qed.

(** The command of the peers prints one line, or fails and prints none: the addresses of the
    active providers with commas between them, all of them in the order of the chain. *)
Theorem peer_addresses_printed env h :
  let '(o, h') := get_ipfs_cluster_peer_addresses env h in
  match o with
  | Val _ => exists providers, Did QActiveProviders (Ok providers) ∈ h' /\
      printed h' = printed h ++ [if decide (providers = []) then "no active providers"%string else Join providers ","]
  | Fail _ => printed h' = printed h
  | Panic _ => False
  end.
Proof.
  unfold get_ipfs_cluster_peer_addresses. rewrite run_bind, run_wrap_call.
  destruct (env _ h _) as [[]|e]; cbn [of_res wrap]; [|by rewrite printed_snoc, app_nil_r].
  rewrite run_bind, run_wrap_call.
  destruct (env _ (h ++ _) _) as [[]|e]; cbn [of_res wrap]; [|by rewrite !printed_snoc, !app_nil_r].
  unfold deferring, ActiveProviders, query. rewrite run_bind. unfold wrapM at 1. rewrite run_wrap_call.
  destruct (env _ ((h ++ _) ++ _) _) as [ps|e]; cbn [of_res wrap]; [|cbn [call]; by rewrite !printed_snoc, !app_nil_r].
  destruct (decide (ps = [])) eqn:Ed; cbn [call]; exists ps; rewrite Ed, !printed_snoc; simpl; rewrite !app_nil_r;
    (split; [set_solver|done]).
Qed.

(** An error of the program is reported: the last thing it does is to log it. *)
Theorem main_reports env viper AllKeys execute h e h' :
  main env viper AllKeys execute h = (Fail e, h') ->
  exists h1 text, h' = h1 ++ [Did (LogFatal text) (env _ h1 (LogFatal text))].
Proof.
  unfold main. rewrite run_bind. unfold initConfig, Fatalf, on_error, call_res at 1. rewrite run_bind. cbn [call].
  destruct (env _ h _) as [[]|e1]; cbn [lift of_res]; [|rewrite run_bind; cbn [call]; intros [= _ <-]; eauto].
  rewrite run_bind. unfold attempt, call_res. rewrite run_bind. cbn [call].
  destruct (env _ (h ++ _) _) as [[]|e1]; cbn [lift of_res is_ok when];
    rewrite run_bind; unfold mret, GoM_ret, call; cbv beta iota zeta;
    destruct (execute _) as [[[]|e2|p] h2]; try done; rewrite run_bind; intros [= _ <-]; eauto.
Qed.
